(** * Adaptive Radix Tree (ART.h) and its benchmark driver (main.cpp)

    A shallow embedding of the C++ sources.  Machine integers are [Z] with
    their wrap-around written out; fixed-size arrays of the node structs are
    lists; a pointer to a node is the node itself (every node is owned by
    exactly one slot), the null pointer is [Null] and a tagged pseudo-leaf is
    [Leaf].  A function that writes through [ArtNode** nodeRef] returns the
    new content of [*nodeRef].  Reading a run-time sized key buffer outside
    its initialised part has no defined result: such reads are [None]. *)

From Stdlib Require Import ZArith List Lia Bool.
From Stdlib Require String Ascii.
Import ListNotations.
Local Open Scope Z_scope.

Set Implicit Arguments.

(** The lifting of a predicate to [list], for the induction principle of
    the nested type [ArtNode]. *)
Scheme All for list.

(** ** Machine arithmetic *)

Definition wrap8 (x : Z) : Z := x mod 256.
Definition wrap16 (x : Z) : Z := x mod 65536.
Definition wrap32 (x : Z) : Z := x mod 4294967296.
Definition wrap64 (x : Z) : Z := x mod 18446744073709551616.

(** [unsigned min(unsigned a, unsigned b)] *)
Definition min (a b : Z) : Z := if a <? b then a else b.

(** ** Option monad for partial reads *)

Definition bind {A B} (m : option A) (f : A -> option B) : option B :=
  match m with Some a => f a | None => None end.

Notation "x <- m ;; k" := (bind m (fun x => k))
  (at level 61, m at next level, right associativity).

(** ** Arrays *)

Section Arrays.
Variable A : Type.

(** [a[i]] for a buffer whose initialised bytes are [a]. *)
Definition rd (a : list A) (i : Z) : option A :=
  if i <? 0 then None else nth_error a (Z.to_nat i).

(** [a[i] = x] inside a fixed-size array. *)
Fixpoint upd (i : nat) (x : A) (a : list A) : list A :=
  match a with
  | [] => []
  | y :: r => match i with O => x :: r | S j => y :: upd j x r end
  end.

(** Store the elements [xs] at offsets [off], [off+1], ... *)
Fixpoint overwrite (a : list A) (off : nat) (xs : list A) : list A :=
  match xs with
  | [] => a
  | x :: r => overwrite (upd off x a) (S off) r
  end.

(** [memcpy(dst + doff, src + soff, n)], also [memmove]: the source
    range is read before anything is written. *)
Definition memmove (dst : list A) (doff : nat) (src : list A) (soff n : nat)
  : list A :=
  overwrite dst doff (firstn n (skipn soff src)).

(** Visit the [i]-th element with [f]; [d] when there is none. *)
Definition on_nth (B : Type) (f : A -> B) (d : B) : list A -> nat -> B :=
  fix go (l : list A) (i : nat) : B :=
    match l with
    | [] => d
    | x :: r => match i with O => f x | S j => go r j end
    end.
End Arrays.

(** ** Constants and node types *)

(** The maximum prefix length for compressed paths stored in the header. *)
Definition maxPrefixLength : Z := 9.

Definition emptyMarker : Z := 48.

(** Shared header of all inner nodes.  The [type] tag is the constructor
    of [ArtNode]. *)
Record ArtHeader : Type := mkHeader {
  prefixLength : Z;      (* uint32_t *)
  count : Z;             (* uint16_t *)
  prefix : list Z        (* uint8_t prefix[maxPrefixLength] *)
}.

Inductive ArtNode : Type :=
| Null
| Leaf (tid : Z)
| Node4 (h : ArtHeader) (key : list Z) (child : list ArtNode)
| Node16 (h : ArtHeader) (key : list Z) (child : list ArtNode)
| Node48 (h : ArtHeader) (childIndex : list Z) (child : list ArtNode)
| Node256 (h : ArtHeader) (child : list ArtNode).

(** [ArtNode(type)]: [prefixLength(0), count(0)]; the prefix bytes are left
    indeterminate by the constructor and stand as 0 here. *)
Definition newHeader : ArtHeader := mkHeader 0 0 (repeat 0 9).

Definition newNode4 : ArtNode := Node4 newHeader (repeat 0 4) (repeat Null 4).
Definition newNode16 : ArtNode := Node16 newHeader (repeat 0 16) (repeat Null 16).
Definition newNode48 : ArtNode :=
  Node48 newHeader (repeat emptyMarker 256) (repeat Null 48).
Definition newNode256 : ArtNode := Node256 newHeader (repeat Null 256).

(** The pseudo-leaf [(tid << 1) | 1] in a 64-bit word: [Leaf v] stands for
    the word [2v+1], so that bit 63 of [tid] is shifted out. *)
Definition makeLeaf (tid : Z) : ArtNode :=
  Leaf (Z.shiftr (Z.lor (wrap64 (Z.shiftl tid 1)) 1) 1).

Definition getLeafValue (node : ArtNode) : Z :=
  match node with Leaf v => v | _ => 0 end.

Definition isLeaf (node : ArtNode) : bool :=
  match node with Leaf _ => true | _ => false end.

Definition isNull (node : ArtNode) : bool :=
  match node with Null => true | _ => false end.

(** Flip the sign bit. *)
Definition flipSign (keyByte : Z) : Z := Z.lxor keyByte 128.

(** [__builtin_bswap64(tid)] stored at [key[0..8)] on a little-endian
    machine: the eight bytes of [tid], most significant first. *)
Definition loadKey (tid : Z) : list Z :=
  map (fun i => Z.land (Z.shiftr tid (8 * (7 - Z.of_nat i))) 255) (seq 0 8).

(** Count trailing zeros, the branch for compilers other than GCC. *)
Definition ctz (x : Z) : Z :=
  let n := 1 in
  let '(n, x) := if Z.land x 255 =? 0 then (n + 8, Z.shiftr x 8) else (n, x) in
  let '(n, x) := if Z.land x 15 =? 0 then (n + 4, Z.shiftr x 4) else (n, x) in
  let '(n, x) := if Z.land x 3 =? 0 then (n + 2, Z.shiftr x 2) else (n, x) in
  n - Z.land x 1.

(** ** Accessors shared by the four layouts *)

Definition header (n : ArtNode) : ArtHeader :=
  match n with
  | Node4 h _ _ | Node16 h _ _ | Node48 h _ _ | Node256 h _ => h
  | _ => newHeader
  end.

Definition children (n : ArtNode) : list ArtNode :=
  match n with
  | Node4 _ _ c | Node16 _ _ c | Node48 _ _ c | Node256 _ c => c
  | _ => []
  end.

Definition setHeader (n : ArtNode) (h : ArtHeader) : ArtNode :=
  match n with
  | Node4 _ k c => Node4 h k c
  | Node16 _ k c => Node16 h k c
  | Node48 _ k c => Node48 h k c
  | Node256 _ c => Node256 h c
  | _ => n
  end.

(** [*slot = c] for the [i]-th child slot of [n]. *)
Definition setChild (n : ArtNode) (i : nat) (c : ArtNode) : ArtNode :=
  match n with
  | Node4 h k cs => Node4 h k (upd i c cs)
  | Node16 h k cs => Node16 h k (upd i c cs)
  | Node48 h k cs => Node48 h k (upd i c cs)
  | Node256 h cs => Node256 h (upd i c cs)
  | _ => n
  end.

Definition setCount (h : ArtHeader) (c : Z) : ArtHeader :=
  mkHeader (prefixLength h) c (prefix h).

(** Copies the prefix from the source to the destination header. *)
Definition copyPrefix (src dst : ArtHeader) : ArtHeader :=
  mkHeader (prefixLength src) (count dst)
    (memmove (prefix dst) 0 (prefix src) 0
       (Z.to_nat (min (prefixLength src) maxPrefixLength))).

(** ** SSE comparisons of Node16 *)

(** The byte as [int8_t]. *)
Definition signed8 (b : Z) : Z := if b <? 128 then b else b - 256.

(** [_mm_movemask_epi8]: bit [i] is the outcome of lane [i]. *)
Fixpoint movemask (lanes : list bool) : Z :=
  match lanes with
  | [] => 0
  | b :: r => (if b then 1 else 0) + 2 * movemask r
  end.

(** [_mm_cmpeq_epi8(_mm_set1_epi8(x), keys)] *)
Definition cmpeq (x : Z) (keys : list Z) : list bool :=
  map (fun k => k =? x) keys.

(** [_mm_cmplt_epi8(_mm_set1_epi8(x), keys)]: signed [x < keys[i]]. *)
Definition cmplt (x : Z) (keys : list Z) : list bool :=
  map (fun k => signed8 x <? signed8 k) keys.

(** ** findChild *)

(** The result of [findChild]: the address of a child slot of the node, or
    the address of the global [nullNode]. *)
Inductive slot : Type :=
| NullSlot
| Slot (i : nat).

Fixpoint scan4 (keys : list Z) (keyByte : Z) (n : nat) (i : nat) : slot :=
  match n with
  | O => NullSlot
  | S n' =>
      if nth i keys 0 =? keyByte then Slot i else scan4 keys keyByte n' (S i)
  end.

Definition findChild (n : ArtNode) (keyByte : Z) : slot :=
  match n with
  | Node4 h k _ => scan4 k keyByte (Z.to_nat (count h)) 0
  | Node16 h k _ =>
      let bitfield :=
        Z.land (movemask (cmpeq (flipSign keyByte) k))
               (Z.shiftl 1 (count h) - 1) in
      if bitfield =? 0 then NullSlot else Slot (Z.to_nat (ctz bitfield))
  | Node48 h ci _ =>
      if nth (Z.to_nat keyByte) ci emptyMarker =? emptyMarker then NullSlot
      else Slot (Z.to_nat (nth (Z.to_nat keyByte) ci emptyMarker))
  | Node256 h _ => Slot (Z.to_nat keyByte)
  | _ => NullSlot
  end.

(** [*slot] *)
Definition deref (n : ArtNode) (s : slot) : ArtNode :=
  match s with
  | NullSlot => Null
  | Slot i => nth i (children n) Null
  end.

(** ** minimum *)

(** [while (a[pos] == marker) pos++] over the 256 index bytes. *)
Fixpoint firstPresent (ci : list Z) (pos : nat) : option nat :=
  match ci with
  | [] => None
  | x :: r => if x =? emptyMarker then firstPresent r (S pos) else Some pos
  end.

(** [while (!child[pos]) pos++] *)
Fixpoint firstNonNull (c : list ArtNode) (pos : nat) : option nat :=
  match c with
  | [] => None
  | x :: r => if isNull x then firstNonNull r (S pos) else Some pos
  end.

(** Find the leaf with smallest key; [None] when a scan runs off its
    array. *)
Fixpoint minimum (node : ArtNode) : option ArtNode :=
  match node with
  | Null => Some Null
  | Leaf _ => Some node
  | Node4 _ _ c => on_nth minimum None c 0
  | Node16 _ _ c => on_nth minimum None c 0
  | Node48 _ ci c =>
      pos <- firstPresent ci 0 ;;
      on_nth minimum None c (Z.to_nat (nth pos ci emptyMarker))
  | Node256 _ c =>
      pos <- firstNonNull c 0 ;;
      on_nth minimum None c pos
  end.

(** ** Inserting a child into an inner node *)

Definition insertNode256 (node : ArtNode) (keyByte : Z) (child : ArtNode)
  : option ArtNode :=
  match node with
  | Node256 h c =>
      Some (Node256 (setCount h (wrap16 (count h + 1)))
                    (upd (Z.to_nat keyByte) child c))
  | _ => None
  end.

(** [for (pos = 0; node->child[pos] != NULL; pos++);] *)
Fixpoint firstNull (c : list ArtNode) (pos : nat) : option nat :=
  match c with
  | [] => None
  | x :: r => if isNull x then Some pos else firstNull r (S pos)
  end.

(** The children of the Node256 that replaces a full Node48. *)
Definition grow48Children (ci : list Z) (c : list ArtNode) : list ArtNode :=
  map (fun i =>
         if nth i ci emptyMarker =? 48 then Null
         else nth (Z.to_nat (nth i ci emptyMarker)) c Null)
      (seq 0 256).

Definition insertNode48 (node : ArtNode) (keyByte : Z) (child : ArtNode)
  : option ArtNode :=
  match node with
  | Node48 h ci c =>
      if count h <? 48 then
        pos <- (if isNull (nth (Z.to_nat (count h)) c Null)
                then Some (Z.to_nat (count h)) else firstNull c 0) ;;
        Some (Node48 (setCount h (wrap16 (count h + 1)))
                     (upd (Z.to_nat keyByte) (wrap8 (Z.of_nat pos)) ci)
                     (upd pos child c))
      else
        insertNode256
          (Node256 (copyPrefix h (setCount newHeader (count h)))
                   (grow48Children ci c))
          keyByte child
  | _ => None
  end.

(** [for (i = 0; i < count; i++) childIndex[flipSign(key[i])] = i;] *)
Definition grow16Index (k : list Z) (cnt : nat) : list Z :=
  fold_left
    (fun ci i => upd (Z.to_nat (flipSign (nth i k 0))) (Z.of_nat i) ci)
    (seq 0 cnt) (repeat emptyMarker 256).

(** [bitfield = _mm_movemask_epi8(cmplt) & (0xFFFF >> (16 - count));
    pos = bitfield ? ctz(bitfield) : count] *)
Definition insertPos16 (k : list Z) (keyByteFlipped cnt : Z) : nat :=
  let bitfield :=
    Z.land (movemask (cmplt keyByteFlipped k)) (Z.shiftr 65535 (16 - cnt)) in
  Z.to_nat (if bitfield =? 0 then cnt else ctz bitfield).

Definition insertNode16 (node : ArtNode) (keyByte : Z) (child : ArtNode)
  : option ArtNode :=
  match node with
  | Node16 h k c =>
      if count h <? 16 then
        let keyByteFlipped := flipSign keyByte in
        let pos := insertPos16 k keyByteFlipped (count h) in
        let n := (Z.to_nat (count h) - pos)%nat in
        Some (Node16 (setCount h (wrap16 (count h + 1)))
                     (upd pos keyByteFlipped (memmove k (S pos) k pos n))
                     (upd pos child (memmove c (S pos) c pos n)))
      else
        insertNode48
          (Node48 (setCount (copyPrefix h newHeader) (count h))
                  (grow16Index k (Z.to_nat (count h)))
                  (memmove (repeat Null 48) 0 c 0 (Z.to_nat (count h))))
          keyByte child
  | _ => None
  end.

(** [for (pos = 0; (pos < count) && (key[pos] < keyByte); pos++);] with
    [n = count - pos] keys left. *)
Fixpoint insertPos4 (k : list Z) (keyByte : Z) (n : nat) (pos : nat) : nat :=
  match n with
  | O => pos
  | S n' =>
      if nth pos k 0 <? keyByte then insertPos4 k keyByte n' (S pos) else pos
  end.

Definition insertNode4 (node : ArtNode) (keyByte : Z) (child : ArtNode)
  : option ArtNode :=
  match node with
  | Node4 h k c =>
      if count h <? 4 then
        let pos := insertPos4 k keyByte (Z.to_nat (count h)) 0 in
        let n := (Z.to_nat (count h) - pos)%nat in
        Some (Node4 (setCount h (wrap16 (count h + 1)))
                    (upd pos keyByte (memmove k (S pos) k pos n))
                    (upd pos child (memmove c (S pos) c pos n)))
      else
        insertNode16
          (Node16 (copyPrefix h (setCount newHeader 4))
                  (overwrite (repeat 0 16) 0 (map flipSign (firstn 4 k)))
                  (memmove (repeat Null 16) 0 c 0 (Z.to_nat (count h))))
          keyByte child
  | _ => None
  end.

(** ** Erasing a child from an inner node *)

(** The prefix stored into the sole remaining child when a one-way Node4 is
    removed: parent prefix, edge byte, child prefix. *)
Definition concatPrefix (h : ArtHeader) (edge : Z) (ch : ArtHeader)
  : ArtHeader :=
  let l1 := prefixLength h in
  let '(p1, l1) :=
    if l1 <? maxPrefixLength
    then (upd (Z.to_nat l1) edge (prefix h), l1 + 1)
    else (prefix h, l1) in
  let '(p2, l1) :=
    if l1 <? maxPrefixLength then
      let l2 := min (prefixLength ch) (maxPrefixLength - l1) in
      (memmove p1 (Z.to_nat l1) (prefix ch) 0 (Z.to_nat l2), l1 + l2)
    else (p1, l1) in
  mkHeader (wrap32 (prefixLength ch + (prefixLength h + 1))) (count ch)
    (memmove (prefix ch) 0 p2 0 (Z.to_nat (min l1 maxPrefixLength))).

(** [pos] is [leafPlace - node->child]. *)
Definition eraseNode4 (node : ArtNode) (pos : nat) : option ArtNode :=
  match node with
  | Node4 h k c =>
      let n := (Z.to_nat (count h) - pos - 1)%nat in
      let k1 := memmove k pos k (S pos) n in
      let c1 := memmove c pos c (S pos) n in
      let cnt := wrap16 (count h - 1) in
      if cnt =? 1 then
        match nth 0 c1 Null with
        | Null => None
        | Leaf v => Some (Leaf v)
        | child =>
            Some (setHeader child
                    (concatPrefix h (nth 0 k1 0) (header child)))
        end
      else Some (Node4 (setCount h cnt) k1 c1)
  | _ => None
  end.

Definition eraseNode16 (node : ArtNode) (pos : nat) : option ArtNode :=
  match node with
  | Node16 h k c =>
      let n := (Z.to_nat (count h) - pos - 1)%nat in
      let k1 := memmove k pos k (S pos) n in
      let c1 := memmove c pos c (S pos) n in
      let cnt := wrap16 (count h - 1) in
      if cnt =? 3 then
        Some (Node4 (copyPrefix h (setCount newHeader cnt))
                    (overwrite (repeat 0 4) 0 (map flipSign (firstn 4 k1)))
                    (memmove (repeat Null 4) 0 c1 0 4))
      else Some (Node16 (setCount h cnt) k1 c1)
  | _ => None
  end.

(** One turn of the loop over [b] that fills the Node16 replacing a
    Node48; the state is the new node's [count], [key] and [child]. *)
Definition shrink48Step (ci : list Z) (c : list ArtNode)
    (st : Z * list Z * list ArtNode) (b : nat) : Z * list Z * list ArtNode :=
  let '(cnt, k, nc) := st in
  if negb (nth b ci emptyMarker =? emptyMarker) then
    (wrap16 (cnt + 1),
     upd (Z.to_nat cnt) (flipSign (Z.of_nat b)) k,
     upd (Z.to_nat cnt) (nth (Z.to_nat (nth b ci emptyMarker)) c Null) nc)
  else st.

Definition eraseNode48 (node : ArtNode) (keyByte : Z) : option ArtNode :=
  match node with
  | Node48 h ci c =>
      let c1 := upd (Z.to_nat (nth (Z.to_nat keyByte) ci emptyMarker)) Null c in
      let ci1 := upd (Z.to_nat keyByte) emptyMarker ci in
      let cnt := wrap16 (count h - 1) in
      if cnt =? 12 then
        let '(ncnt, nk, nc) :=
          fold_left (shrink48Step ci1 c1) (seq 0 256)
                    (0, repeat 0 16, repeat Null 16) in
        Some (Node16 (setCount (copyPrefix h newHeader) ncnt) nk nc)
      else Some (Node48 (setCount h cnt) ci1 c1)
  | _ => None
  end.

(** One turn of the loop over [b] that fills the Node48 replacing a
    Node256; the state is the new node's [count], [childIndex], [child]. *)
Definition shrink256Step (c : list ArtNode)
    (st : Z * list Z * list ArtNode) (b : nat) : Z * list Z * list ArtNode :=
  let '(cnt, ci, nc) := st in
  if negb (isNull (nth b c Null)) then
    (wrap16 (cnt + 1),
     upd b (wrap8 cnt) ci,
     upd (Z.to_nat cnt) (nth b c Null) nc)
  else st.

Definition eraseNode256 (node : ArtNode) (keyByte : Z) : option ArtNode :=
  match node with
  | Node256 h c =>
      let c1 := upd (Z.to_nat keyByte) Null c in
      let cnt := wrap16 (count h - 1) in
      if cnt =? 37 then
        let '(ncnt, nci, nc) :=
          fold_left (shrink256Step c1) (seq 0 256)
                    (0, repeat emptyMarker 256, repeat Null 48) in
        Some (Node48 (setCount (copyPrefix h newHeader) ncnt) nci nc)
      else Some (Node256 (setCount h cnt) c1)
  | _ => None
  end.

(** ** Key comparison loops *)

(** [for (; i < limit; i++) if (a[i] != b[i]) return false;] with
    [n = limit - i] iterations left; [true] when the loop runs out. *)
Fixpoint equalFrom (n : nat) (a b : list Z) (i : Z) : option bool :=
  match n with
  | O => Some true
  | S n' =>
      x <- rd a i ;;
      y <- rd b i ;;
      if x =? y then equalFrom n' a b (i + 1) else Some false
  end.

(** [for (; pos < limit; pos++) if (key[depth + pos] != other[off + pos])
    return pos;] with [n = limit - pos] iterations left.  The result is
    [(true, pos)] when the loop returned [pos], [(false, limit)] when it
    ran out. *)
Fixpoint mismatchLoop (n : nat) (key : list Z) (depth : Z) (other : list Z)
    (off pos : Z) : option (bool * Z) :=
  match n with
  | O => Some (false, pos)
  | S n' =>
      x <- rd key (wrap32 (depth + pos)) ;;
      y <- rd other (wrap32 (off + pos)) ;;
      if x =? y then mismatchLoop n' key depth other off (pos + 1)
      else Some (true, pos)
  end.

Section ART.

(** [loadKey] "stores the key of the tuple into the key vector;
    implementation is database specific".  The tree operations take it as
    the hook [load]; the implementation shipped in ART.h is [loadKey]. *)
Variable load : Z -> list Z.

(** [uint8_t buf[maxKeyLength]; loadKey(tid, buf);] gives the bytes that
    [load] wrote; it has no defined result if they do not fit. *)
Definition loadBuf (maxKeyLength tid : Z) : option (list Z) :=
  if Z.of_nat (length (load tid)) <=? maxKeyLength then Some (load tid)
  else None.

(** Check if the key of the leaf is equal to the searched key. *)
Definition leafMatches (leaf : ArtNode) (key : list Z)
    (keyLength depth maxKeyLength : Z) : option bool :=
  if negb (depth =? keyLength) then
    leafKey <- loadBuf maxKeyLength (getLeafValue leaf) ;;
    equalFrom (Z.to_nat (keyLength - depth)) leafKey key depth
  else Some true.

(** Compare the key with the prefix of the node, return the number of
    matching bytes. *)
Definition prefixMismatch (node : ArtNode) (key : list Z)
    (depth maxKeyLength : Z) : option Z :=
  let h := header node in
  if maxPrefixLength <? prefixLength h then
    r <- mismatchLoop (Z.to_nat maxPrefixLength) key depth (prefix h) 0 0 ;;
    if fst r then Some (snd r)
    else
      m <- minimum node ;;
      minKey <- loadBuf maxKeyLength (getLeafValue m) ;;
      r2 <- mismatchLoop (Z.to_nat (prefixLength h - maxPrefixLength))
              key depth minKey depth maxPrefixLength ;;
      Some (snd r2)
  else
    r <- mismatchLoop (Z.to_nat (prefixLength h)) key depth (prefix h) 0 0 ;;
    Some (snd r).

(** *** lookup, optimistic version *)

(** One turn of the [while] loop at an inner node; [rec] is the rest of
    the loop, run on the child that was found. *)
Definition lookupInner (rec : ArtNode -> Z -> bool -> option ArtNode)
    (node : ArtNode) (c : list ArtNode) (key : list Z) (depth : Z)
    (skippedPrefix : bool) : option ArtNode :=
  let h := header node in
  st <-
    (if prefixLength h =? 0 then Some (true, depth, skippedPrefix)
     else if prefixLength h <? maxPrefixLength then
       r <- mismatchLoop (Z.to_nat (prefixLength h)) key depth (prefix h) 0 0 ;;
       Some (negb (fst r), wrap32 (depth + prefixLength h), skippedPrefix)
     else Some (true, wrap32 (depth + prefixLength h), true)) ;;
  let '(go, depth1, skipped1) := st in
  if go then
    keyByte <- rd key depth1 ;;
    match findChild node keyByte with
    | NullSlot => Some Null
    | Slot i =>
        on_nth (fun x => rec x (wrap32 (depth1 + 1)) skipped1) None c i
    end
  else Some Null.

Fixpoint lookupLoop (node : ArtNode) (key : list Z) (keyLength depth
    maxKeyLength : Z) (skippedPrefix : bool) {struct node}
  : option ArtNode :=
  match node with
  | Null => Some Null
  | Leaf _ =>
      if negb skippedPrefix && (depth =? keyLength) then Some node
      else if negb (depth =? keyLength) then
        leafKey <- loadBuf maxKeyLength (getLeafValue node) ;;
        let i := if skippedPrefix then 0 else depth in
        ok <- equalFrom (Z.to_nat (keyLength - i)) leafKey key i ;;
        if ok then Some node else Some Null
      else Some node
  | Node4 _ _ c | Node16 _ _ c | Node48 _ _ c | Node256 _ c =>
      lookupInner
        (fun x d s => lookupLoop x key keyLength d maxKeyLength s)
        node c key depth skippedPrefix
  end.

(** Find the node with a matching key, optimistic version. *)
Definition lookup (node : ArtNode) (key : list Z)
    (keyLength depth maxKeyLength : Z) : option ArtNode :=
  lookupLoop node key keyLength depth maxKeyLength false.

(** *** lookup, pessimistic version *)

Definition lookupPessimisticInner (rec : ArtNode -> Z -> option ArtNode)
    (node : ArtNode) (c : list ArtNode) (key : list Z)
    (depth maxKeyLength : Z) : option ArtNode :=
  m <- prefixMismatch node key depth maxKeyLength ;;
  if negb (m =? prefixLength (header node)) then Some Null
  else
    let depth1 := wrap32 (depth + prefixLength (header node)) in
    keyByte <- rd key depth1 ;;
    match findChild node keyByte with
    | NullSlot => Some Null
    | Slot i => on_nth (fun x => rec x (wrap32 (depth1 + 1))) None c i
    end.

Fixpoint lookupPessimistic (node : ArtNode) (key : list Z)
    (keyLength depth maxKeyLength : Z) {struct node} : option ArtNode :=
  match node with
  | Null => Some Null
  | Leaf _ =>
      ok <- leafMatches node key keyLength depth maxKeyLength ;;
      if ok then Some node else Some Null
  | Node4 _ _ c | Node16 _ _ c | Node48 _ _ c | Node256 _ c =>
      lookupPessimisticInner
        (fun x d => lookupPessimistic x key keyLength d maxKeyLength)
        node c key depth maxKeyLength
  end.

(** *** insert *)

(** [buf + off] read for [n] bytes by [memcpy]. *)
Definition slice (buf : list Z) (off n : Z) : option (list Z) :=
  if Z.of_nat (length buf) <? off + n then None
  else Some (firstn (Z.to_nat n) (skipn (Z.to_nat off) buf)).

(** [while (existingKey[depth + n] == key[depth + n]) n++;]  A read
    beyond a buffer ends the loop without a result, at the latest in
    turn [fuel]. *)
Fixpoint commonLength (fuel : nat) (existingKey key : list Z)
    (depth n : Z) : option Z :=
  match fuel with
  | O => None
  | S fuel' =>
      x <- rd existingKey (wrap32 (depth + n)) ;;
      y <- rd key (wrap32 (depth + n)) ;;
      if x =? y then commonLength fuel' existingKey key depth (wrap32 (n + 1))
      else Some n
  end.

(** Replace leaf with Node4 and store both leaves in it. *)
Definition insertLeafSplit (node : ArtNode) (key : list Z)
    (depth value maxKeyLength : Z) : option ArtNode :=
  existingKey <- loadBuf maxKeyLength (getLeafValue node) ;;
  newPrefixLength <-
    commonLength (S (length key)) existingKey key depth 0 ;;
  bytes <- slice key depth (min newPrefixLength maxPrefixLength) ;;
  let newNode :=
    Node4 (mkHeader newPrefixLength 0 (overwrite (repeat 0 9) 0 bytes))
          (repeat 0 4) (repeat Null 4) in
  b1 <- rd existingKey (wrap32 (depth + newPrefixLength)) ;;
  n1 <- insertNode4 newNode b1 node ;;
  b2 <- rd key (wrap32 (depth + newPrefixLength)) ;;
  insertNode4 n1 b2 (makeLeaf value).

(** Prefix differs, create new node.  The old node is stored under the
    new one by address and its header is changed through that address
    afterwards: the child is the old node with its final header. *)
Definition insertSplitPrefix (node : ArtNode) (key : list Z)
    (depth value maxKeyLength mismatchPos : Z) : option ArtNode :=
  let h := header node in
  let newNode :=
    Node4 (mkHeader mismatchPos 0
             (memmove (repeat 0 9) 0 (prefix h) 0
                (Z.to_nat (min mismatchPos maxPrefixLength))))
          (repeat 0 4) (repeat Null 4) in
  let pl := wrap32 (prefixLength h - (mismatchPos + 1)) in
  n1 <-
    (if prefixLength h <? maxPrefixLength then
       let b := nth (Z.to_nat mismatchPos) (prefix h) 0 in
       let h' :=
         mkHeader pl (count h)
           (memmove (prefix h) 0 (prefix h) (Z.to_nat (mismatchPos + 1))
              (Z.to_nat (min pl maxPrefixLength))) in
       insertNode4 newNode b (setHeader node h')
     else
       m <- minimum node ;;
       minKey <- loadBuf maxKeyLength (getLeafValue m) ;;
       b <- rd minKey (wrap32 (depth + mismatchPos)) ;;
       bytes <- slice minKey (wrap32 (depth + mismatchPos + 1))
                  (min pl maxPrefixLength) ;;
       let h' := mkHeader pl (count h) (overwrite (prefix h) 0 bytes) in
       insertNode4 newNode b (setHeader node h')) ;;
  b2 <- rd key (wrap32 (depth + mismatchPos)) ;;
  insertNode4 n1 b2 (makeLeaf value).

(** Insert leaf into inner node: the [switch (node->type)]. *)
Definition insertNode (node : ArtNode) (keyByte : Z) (child : ArtNode)
  : option ArtNode :=
  match node with
  | Node4 _ _ _ => insertNode4 node keyByte child
  | Node16 _ _ _ => insertNode16 node keyByte child
  | Node48 _ _ _ => insertNode48 node keyByte child
  | Node256 _ _ => insertNode256 node keyByte child
  | _ => None
  end.

(** [insert] at an inner node; [rec] is the recursive call. *)
Definition insertInner (rec : ArtNode -> Z -> option ArtNode)
    (node : ArtNode) (c : list ArtNode) (key : list Z)
    (depth value maxKeyLength : Z) : option ArtNode :=
  let h := header node in
  st <-
    (if prefixLength h =? 0 then Some (inr depth)
     else
       mismatchPos <- prefixMismatch node key depth maxKeyLength ;;
       if negb (mismatchPos =? prefixLength h) then
         r <- insertSplitPrefix node key depth value maxKeyLength
                mismatchPos ;;
         Some (inl r)
       else Some (inr (wrap32 (depth + prefixLength h)))) ;;
  match st with
  | inl r => Some r
  | inr depth1 =>
      keyByte <- rd key depth1 ;;
      match findChild node keyByte with
      | NullSlot => insertNode node keyByte (makeLeaf value)
      | Slot i =>
          on_nth
            (fun x =>
               if isNull x then insertNode node keyByte (makeLeaf value)
               else
                 x' <- rec x (wrap32 (depth1 + 1)) ;;
                 Some (setChild node i x'))
            None c i
      end
  end.

(** Insert the leaf value into the tree. *)
Fixpoint insert (node : ArtNode) (key : list Z)
    (depth value maxKeyLength : Z) {struct node} : option ArtNode :=
  match node with
  | Null => Some (makeLeaf value)
  | Leaf _ => insertLeafSplit node key depth value maxKeyLength
  | Node4 _ _ c | Node16 _ _ c | Node48 _ _ c | Node256 _ c =>
      insertInner (fun x d => insert x key d value maxKeyLength)
        node c key depth value maxKeyLength
  end.

(** *** erase *)

(** Leaf found, delete it in inner node: the [switch (node->type)]. *)
Definition eraseNode (node : ArtNode) (i : nat) (keyByte : Z)
  : option ArtNode :=
  match node with
  | Node4 _ _ _ => eraseNode4 node i
  | Node16 _ _ _ => eraseNode16 node i
  | Node48 _ _ _ => eraseNode48 node keyByte
  | Node256 _ _ => eraseNode256 node keyByte
  | _ => None
  end.

(** [erase] at an inner node; [rec] is the recursive call. *)
Definition eraseInner (rec : ArtNode -> Z -> option ArtNode)
    (node : ArtNode) (c : list ArtNode) (key : list Z)
    (keyLength depth maxKeyLength : Z) : option ArtNode :=
  let h := header node in
  st <-
    (if prefixLength h =? 0 then Some (true, depth)
     else
       mismatchPos <- prefixMismatch node key depth maxKeyLength ;;
       if negb (mismatchPos =? prefixLength h) then Some (false, depth)
       else Some (true, wrap32 (depth + prefixLength h))) ;;
  let '(go, depth1) := st in
  if go then
    keyByte <- rd key depth1 ;;
    match findChild node keyByte with
    | NullSlot => Some node
    | Slot i =>
        on_nth
          (fun x =>
             found <-
               (if isLeaf x
                then leafMatches x key keyLength depth1 maxKeyLength
                else Some false) ;;
             if found then eraseNode node i keyByte
             else
               x' <- rec x (wrap32 (depth1 + 1)) ;;
               Some (setChild node i x'))
          None c i
    end
  else Some node.

(** Delete a leaf from a tree. *)
Fixpoint erase (node : ArtNode) (key : list Z)
    (keyLength depth maxKeyLength : Z) {struct node} : option ArtNode :=
  match node with
  | Null => Some Null
  | Leaf _ =>
      ok <- leafMatches node key keyLength depth maxKeyLength ;;
      if ok then Some Null else Some node
  | Node4 _ _ c | Node16 _ _ c | Node48 _ _ c | Node256 _ c =>
      eraseInner (fun x d => erase x key keyLength d maxKeyLength)
        node c key keyLength depth maxKeyLength
  end.

End ART.

(** ** The benchmark driver: argument parsing of [main] *)

Module Driver.
Import String Ascii.
Local Open Scope string_scope.

(** The three locals that the argument loop sets. *)
Record Args : Type := mkArgs {
  verbose : bool;
  N : Z;
  input_file : string
}.

Definition digit (c : ascii) : option Z :=
  let n := Z.of_nat (nat_of_ascii c) in
  if ((48 <=? n) && (n <=? 57))%Z then Some (n - 48)%Z else None.

Fixpoint digits (s : string) (acc : Z) : Z :=
  match s with
  | String c r =>
      match digit c with
      | Some d => digits r (10 * acc + d)%Z
      | None => acc
      end
  | EmptyString => acc
  end.

(** [atoi]: an optional sign and the leading decimal digits. *)
Definition atoi (s : string) : Z :=
  match s with
  | String "-" r => (- digits r 0)%Z
  | String "+" r => digits r 0
  | _ => digits s 0
  end.

(** [for (int i = 1; i < argc;) ...] with [fuel] turns left.  A turn
    that matches no flag leaves [i] as it is, so that the loop never
    ends; [atoi(argv[argc])] reads a null pointer.  Both are [None]. *)
Fixpoint parseArgs (fuel : nat) (argv : list string) (i : nat) (a : Args)
  : option Args :=
  match fuel with
  | O => None
  | S fuel' =>
      match nth_error argv i with
      | None => Some a
      | Some arg =>
          if arg =? "-v" then
            parseArgs fuel' argv (S i) (mkArgs true (N a) (input_file a))
          else if arg =? "-N" then
            match nth_error argv (S i) with
            | Some n =>
                parseArgs fuel' argv (S (S i))
                  (mkArgs (verbose a) (atoi n) (input_file a))
            | None => None
            end
          else if arg =? "-f" then
            parseArgs fuel' argv (S (S i))
              (mkArgs (verbose a) (N a) arg)
          else parseArgs fuel' argv i a
      end
  end.

(** The file name that [main] passes to [read_bin]. *)
Definition mainInputFile (argv : list string) : option string :=
  match parseArgs (S (List.length argv)) argv 1
          (mkArgs false 1000000 "") with
  | Some a => Some (input_file a)
  | None => None
  end.
End Driver.

(** ** Well-formed nodes and trees *)

(** The child that [findChild] gives for a key byte. *)
Definition childAt (n : ArtNode) (b : Z) : ArtNode := deref n (findChild n b).

Definition isInner (n : ArtNode) : bool :=
  match n with
  | Null | Leaf _ => false
  | _ => true
  end.

(** Number of non-null entries of a child array. *)
Fixpoint nonNull (c : list ArtNode) : nat :=
  match c with
  | [] => O
  | x :: r => ((if isNull x then 0 else 1) + nonNull r)%nat
  end.

(** Number of index bytes other than the empty marker. *)
Fixpoint present (ci : list Z) : nat :=
  match ci with
  | [] => O
  | x :: r => ((if (x =? emptyMarker)%Z then 0 else 1) + present r)%nat
  end.

(** [k[0..n)] strictly ascending in the order of [f]. *)
Definition ascendingBy (f : Z -> Z) (k : list Z) (n : nat) : Prop :=
  forall i j, (i < j < n)%nat -> f (nth i k 0) < f (nth j k 0).

(** [k[0..n)] strictly ascending as raw unsigned bytes. *)
Definition ascending : list Z -> nat -> Prop := ascendingBy (fun x => x).

(** [k[0..n)] strictly ascending as signed bytes. *)
Definition ascendingSigned : list Z -> nat -> Prop := ascendingBy signed8.

Definition bytesIn (k : list Z) (n : nat) : Prop :=
  forall i, (i < n)%nat -> 0 <= nth i k 0 < 256.

Definition presentIn (c : list ArtNode) (n : nat) : Prop :=
  forall i, (i < n)%nat -> nth i c Null <> Null.

(** Invariants 1 to 5 of the data model for the child map of one inner
    node. *)
Definition layout (n : ArtNode) : Prop :=
  match n with
  | Node4 h k c =>
      length k = 4%nat /\ length c = 4%nat /\ 0 <= count h <= 4 /\
      bytesIn k (Z.to_nat (count h)) /\
      ascending k (Z.to_nat (count h)) /\
      presentIn c (Z.to_nat (count h))
  | Node16 h k c =>
      length k = 16%nat /\ length c = 16%nat /\ 0 <= count h <= 16 /\
      bytesIn k (Z.to_nat (count h)) /\
      ascendingSigned k (Z.to_nat (count h)) /\
      presentIn c (Z.to_nat (count h))
  | Node48 h ci c =>
      length ci = 256%nat /\ length c = 48%nat /\
      count h = Z.of_nat (nonNull c) /\
      count h = Z.of_nat (present ci) /\
      (forall b, (b < 256)%nat -> 0 <= nth b ci emptyMarker <= 48) /\
      (forall b, (b < 256)%nat -> nth b ci emptyMarker <> 48 ->
                 nth (Z.to_nat (nth b ci emptyMarker)) c Null <> Null) /\
      (forall b b', (b < 256)%nat -> (b' < 256)%nat ->
                    nth b ci emptyMarker <> 48 ->
                    nth b ci emptyMarker = nth b' ci emptyMarker -> b = b')
  | Node256 h c =>
      length c = 256%nat /\ count h = Z.of_nat (nonNull c)
  | _ => False
  end.

(** A well-shaped inner node. *)
Definition shape (n : ArtNode) : Prop :=
  length (prefix (header n)) = 9%nat /\ layout n.

(** The bytes of the compressed path that the header holds. *)
Definition storedPrefix (h : ArtHeader) : list Z :=
  firstn (Z.to_nat (min (prefixLength h) maxPrefixLength)) (prefix h).

(** [wf p n]: [n] is a well-formed subtree for the keys that start with
    the bytes [p], built with the 8-byte keys of [loadKey]. *)
Inductive wf : list Z -> ArtNode -> Prop :=
| wf_leaf p v :
    0 <= v < 2 ^ 63 ->
    firstn (length p) (loadKey v) = p ->
    wf p (Leaf v)
| wf_inner p n :
    isInner n = true ->
    shape n ->
    0 <= prefixLength (header n) ->
    Z.of_nat (length p) + prefixLength (header n) < 8 ->
    Forall (fun b => 0 <= b < 256) (storedPrefix (header n)) ->
    (forall b, 0 <= b < 256 -> childAt n b <> Null ->
               wf (p ++ storedPrefix (header n) ++ [b]) (childAt n b)) ->
    wf p n.

(** The root slot: empty, or a well-formed tree. *)
Definition wfRoot (t : ArtNode) : Prop := t = Null \/ wf [] t.

(** [hasLeaf t v]: the leaf of value [v] is below [t]. *)
Inductive hasLeaf : ArtNode -> Z -> Prop :=
| hasLeaf_leaf v : hasLeaf (Leaf v) v
| hasLeaf_inner n b v :
    isInner n = true -> 0 <= b < 256 -> hasLeaf (childAt n b) v ->
    hasLeaf n v.

(** [reachable t n]: the node [n] is [t] or below it. *)
Inductive reachable : ArtNode -> ArtNode -> Prop :=
| reachable_here t : reachable t t
| reachable_below n b m :
    isInner n = true -> 0 <= b < 256 -> reachable (childAt n b) m ->
    reachable n m.

(** A key as the driver passes it: eight bytes. *)
Definition isKey (k : list Z) : Prop :=
  length k = 8%nat /\ Forall (fun b => 0 <= b < 256) k.

(** Number of trailing zero bits, as the word of the specification: the
    index of the lowest set bit. *)
Fixpoint trailingZerosPos (p : positive) : Z :=
  match p with
  | xO q => 1 + trailingZerosPos q
  | _ => 0
  end.

Definition trailingZeros (x : Z) : Z :=
  match x with
  | Zpos p => trailingZerosPos p
  | _ => 0
  end.

(** [ok x && ok (x+1) && ...] for [n] consecutive values. *)
Fixpoint checkRange (ok : Z -> bool) (n : nat) (x : Z) : bool :=
  match n with
  | O => true
  | S n' => ok x && checkRange ok n' (x + 1)
  end.

(** The first lane that is set. *)
Fixpoint firstTrue (l : list bool) (pos : nat) : option nat :=
  match l with
  | [] => None
  | b :: r => if b then Some pos else firstTrue r (S pos)
  end.

(** The child stored for the key byte [x] in the parallel arrays [k], [c]
    of a Node4 or Node16 with [n] children. *)
Definition keyChild (k : list Z) (c : list ArtNode) (n : nat) (x : Z)
  : ArtNode :=
  match scan4 k x n 0 with
  | Slot i => nth i c Null
  | NullSlot => Null
  end.

Definition distinctKeys (k : list Z) (n : nat) : Prop :=
  forall i j, (i < n)%nat -> (j < n)%nat -> nth i k 0 = nth j k 0 -> i = j.

(** [n'] is [n] with the child for byte [b] replaced by [y]; the
    compressed path is untouched. *)
Definition updated (n n' : ArtNode) (b : Z) (y : ArtNode) : Prop :=
  isInner n' = true /\ shape n' /\
  prefixLength (header n') = prefixLength (header n) /\
  storedPrefix (header n') = storedPrefix (header n) /\
  forall b', 0 <= b' < 256 ->
             childAt n' b' = (if b' =? b then y else childAt n b').

(** [g] holds the same compressed path and the same children as [n]. *)
Definition sameNode (n g : ArtNode) : Prop :=
  isInner g = true /\ shape g /\
  prefixLength (header g) = prefixLength (header n) /\
  storedPrefix (header g) = storedPrefix (header n) /\
  forall b, 0 <= b < 256 -> childAt g b = childAt n b.

(** Loop invariant of the scan that refills a Node48 from a Node256:
    the state after the bytes below [m]. *)
Definition shrink256Inv (c : list ArtNode) (m : nat)
    (st : Z * list Z * list ArtNode) : Prop :=
  let '(cnt, nci, nc) := st in
  let r := nonNull (firstn m c) in
  cnt = Z.of_nat r /\ length nci = 256%nat /\ length nc = 48%nat /\
  nonNull nc = r /\ present nci = r /\
  (forall j, (r <= j)%nat -> nth j nc Null = Null) /\
  (forall b, (b < 256)%nat -> 0 <= nth b nci emptyMarker <= 48) /\
  (forall b, (b < 256)%nat -> nth b nci emptyMarker <> 48 ->
     (b < m)%nat /\ (Z.to_nat (nth b nci emptyMarker) < r)%nat /\
     nth (Z.to_nat (nth b nci emptyMarker)) nc Null = nth b c Null /\
     nth b c Null <> Null) /\
  (forall b, (b < m)%nat -> nth b c Null <> Null ->
     nth b nci emptyMarker <> 48) /\
  (forall b b', (b < 256)%nat -> (b' < 256)%nat ->
     nth b nci emptyMarker <> 48 ->
     nth b nci emptyMarker = nth b' nci emptyMarker -> b = b').

(** Loop invariant of the scan that refills a Node16 from a Node48. *)
Definition shrink48Inv (ci : list Z) (c : list ArtNode) (m : nat)
    (st : Z * list Z * list ArtNode) : Prop :=
  let '(cnt, nk, nc) := st in
  let r := present (firstn m ci) in
  cnt = Z.of_nat r /\ length nk = 16%nat /\ length nc = 16%nat /\
  (forall j, (j < r)%nat ->
     exists b, (b < m)%nat /\ nth b ci emptyMarker <> 48 /\
               nth j nk 0 = flipSign (Z.of_nat b) /\
               nth j nc Null = nth (Z.to_nat (nth b ci emptyMarker)) c Null) /\
  (forall b, (b < m)%nat -> nth b ci emptyMarker <> 48 ->
     exists j, (j < r)%nat /\ nth j nk 0 = flipSign (Z.of_nat b) /\
               nth j nc Null = nth (Z.to_nat (nth b ci emptyMarker)) c Null) /\
  ascendingSigned nk r.

(** ** Trees built by the operations *)

(** The build loop of the driver: [loadKey(keys[i], key);
    insert(tree, &tree, key, 0, keys[i], 8)] for each value in turn. *)
Fixpoint insertAll (vs : list Z) (t : ArtNode) : option ArtNode :=
  match vs with
  | [] => Some t
  | v :: r =>
      t' <- insert loadKey t (loadKey v) 0 v 8 ;;
      insertAll r t'
  end.

Definition keyEqb (a b : list Z) : bool :=
  if list_eq_dec Z.eq_dec a b then true else false.

(** [builds S t]: the tree [t] comes from the empty tree by inserts of
    values whose keys are not in the tree and by erases of keys; [S] are the
    values it then holds. *)
Inductive builds : list Z -> ArtNode -> Prop :=
| builds_empty : builds [] Null
| builds_insert S t v t' :
    builds S t -> 0 <= v < 2 ^ 63 -> ~ In v S ->
    insert loadKey t (loadKey v) 0 v 8 = Some t' ->
    builds (v :: S) t'
| builds_erase S t k t' :
    builds S t -> isKey k ->
    erase loadKey t k 8 0 8 = Some t' ->
    builds (filter (fun v => negb (keyEqb (loadKey v) k)) S) t'.



(** ** Databases with wider keys *)

(** A [loadKey] for keys of [n] bytes, most significant byte first;
    [loadKey] is the one for 8 bytes. *)
Definition loadKeyBE (n : nat) (tid : Z) : list Z :=
  map (fun i => Z.land (Z.shiftr tid (8 * (Z.of_nat n - 1 - Z.of_nat i))) 255)
      (seq 0 n).

(** The tree of the two 10-byte keys [0 0 0 0 0 0 0 0 0 1] and
    [0 0 0 0 0 0 0 0 0 2], values 1 and 2: one Node4 whose compressed path
    has the nine shared bytes. *)
Definition tenByteTree : ArtNode :=
  Node4 (mkHeader 9 2 (repeat 0 9)) [1; 2; 0; 0] [Leaf 1; Leaf 2; Null; Null].

(** A 10-byte key that differs from both in its first byte only. *)
Definition tenByteKey : list Z := [7; 0; 0; 0; 0; 0; 0; 0; 0; 1].

(** A Node4 below four path bytes whose compressed path has eleven bytes,
    in a database of 16-byte keys; its smallest leaf has the value
    [0x0102030405060708090A0B0C0D0E0F10]. *)
Definition widePathNode : ArtNode :=
  Node4 (mkHeader 11 2 [5; 6; 7; 8; 9; 10; 11; 12; 13])
        [16; 17; 0; 0]
        [Leaf 1339673755198158349044581307228491536;
         Leaf 1339673755198158349044581307228491792; Null; Null].

(** A 16-byte key that leaves the compressed path of [widePathNode] at its
    tenth byte, and that path. *)
Definition wideKey : list Z :=
  [1; 2; 3; 4; 5; 6; 7; 8; 9; 10; 11; 12; 13; 99; 15; 16].

Definition widePath : list Z := [5; 6; 7; 8; 9; 10; 11; 12; 13; 14; 15].

(** The tree of the keys 0x0102030400000000, 0x0102030506070000 and
    0x0102030506070100: a Node4 below a compressed path of three bytes whose
    second child is an inner node with a compressed
    path of two bytes. *)
Definition oneWayNode : ArtNode :=
  Node4 (mkHeader 3 2 [1; 2; 3; 0; 0; 0; 0; 0; 0]) [4; 5; 0; 0]
    [Leaf 72623859706101760;
     Node4 (mkHeader 2 2 [6; 7; 0; 0; 0; 0; 0; 0; 0]) [0; 1; 0; 0]
       [Leaf 72623864102191104; Leaf 72623864102191360; Null; Null];
     Null; Null].

(** ** maximum *)

(** [unsigned pos = 255; while (a[pos] == marker) pos--;] with [n = pos + 1]
    positions left; below position 0 the unsigned [pos] wraps around and the
    read is outside of the array. *)
Fixpoint lastPresent (ci : list Z) (n : nat) : option nat :=
  match n with
  | O => None
  | S pos =>
      match nth_error ci pos with
      | None => None
      | Some x => if x =? emptyMarker then lastPresent ci pos else Some pos
      end
  end.

(** [unsigned pos = 255; while (!child[pos]) pos--;] *)
Fixpoint lastNonNull (c : list ArtNode) (n : nat) : option nat :=
  match n with
  | O => None
  | S pos =>
      match nth_error c pos with
      | None => None
      | Some x => if isNull x then lastNonNull c pos else Some pos
      end
  end.

(** Find the leaf with largest key; [None] when a read is outside of an
    array ([child[count - 1]] with [count = 0], or a scan that runs off). *)
Fixpoint maximum (node : ArtNode) : option ArtNode :=
  match node with
  | Null => Some Null
  | Leaf _ => Some node
  | Node4 h _ c =>
      if count h <? 1 then None
      else on_nth maximum None c (Z.to_nat (count h - 1))
  | Node16 h _ c =>
      if count h <? 1 then None
      else on_nth maximum None c (Z.to_nat (count h - 1))
  | Node48 _ ci c =>
      pos <- lastPresent ci 256 ;;
      on_nth maximum None c (Z.to_nat (nth pos ci emptyMarker))
  | Node256 _ c =>
      pos <- lastNonNull c 256 ;;
      on_nth maximum None c pos
  end.

(** ** Orders and sizes *)

(** The number that eight bytes hold, most significant byte first. *)
Definition keyValue (k : list Z) : Z :=
  fold_left (fun acc b => acc * 256 + b) k 0.

(** [a] is before [b] in the lexicographic order of the bytes. *)
Fixpoint lexLtb (a b : list Z) : bool :=
  match a, b with
  | x :: a', y :: b' => (x <? y) || ((x =? y) && lexLtb a' b')
  | _, _ => false
  end.

(** The number of child slots of a node type. *)
Definition capacity (n : ArtNode) : Z :=
  match n with
  | Node4 _ _ _ => 4
  | Node16 _ _ _ => 16
  | Node48 _ _ _ => 48
  | Node256 _ _ => 256
  | _ => 0
  end.

(** The next larger node type. *)
Definition grown (cap : Z) : Z :=
  if cap =? 4 then 16 else if cap =? 16 then 48 else 256.

(** The next smaller node type. *)
Definition shrunk (cap : Z) : Z :=
  if cap =? 256 then 48 else if cap =? 48 then 16 else 4.

(** [count] below which a node of a type is replaced by the next smaller
    type: [count == 3], [count == 12], [count == 37] after the decrement. *)
Definition shrinkAt (cap : Z) : Z :=
  if cap =? 256 then 37 else if cap =? 48 then 12 else 3.

(** ** Sample trees *)

(** The tree of the values 1 to 5 after the erase of the key of 5: a Node16
    with four children below a compressed path of seven bytes. *)
Definition sample16 : ArtNode :=
  Eval vm_compute in
    match (t <- insertAll [1; 2; 3; 4; 5] Null ;;
           erase loadKey t (loadKey 5) 8 0 8) with
    | Some t => t
    | None => Null
    end.

(** ** Node sizes in a tree *)

(** The least [count] of a node type in a tree: a Node4 with one child is
    removed, and the larger types shrink at 3, 12 and 37. *)
Definition minCount (n : ArtNode) : Z :=
  match n with
  | Node4 _ _ _ => 2
  | Node16 _ _ _ => 4
  | Node48 _ _ _ => 13
  | Node256 _ _ => 38
  | _ => 0
  end.

(** [dense t]: every inner node of [t] has at least the least number of
    children of its type. *)
Inductive dense : ArtNode -> Prop :=
| dense_leaf v : dense (Leaf v)
| dense_inner n :
    isInner n = true ->
    minCount n <= count (header n) ->
    (forall b, 0 <= b < 256 -> childAt n b <> Null -> dense (childAt n b)) ->
    dense n.

(** * Arrays *)

Section ArrayFacts.
Variable A : Type.
Implicit Types (a l : list A) (x d : A) (i j n : nat).

Lemma rd_Some a (i : Z) d :
  0 <= i < Z.of_nat (length a) -> rd a i = Some (nth (Z.to_nat i) a d).
Proof.
  intros H. unfold rd. destruct (Z.ltb_spec i 0); [lia|].
  apply nth_error_nth'. lia.
Qed.

Lemma rd_None a (i : Z) :
  Z.of_nat (length a) <= i -> rd a i = None.
Proof.
  intros H. unfold rd. destruct (Z.ltb_spec i 0); [reflexivity|].
  apply nth_error_None. lia.
Qed.

Lemma rd_inv a (i : Z) x d :
  rd a i = Some x -> 0 <= i < Z.of_nat (length a) /\ x = nth (Z.to_nat i) a d.
Proof.
  unfold rd. destruct (Z.ltb_spec i 0); [discriminate|]. intros E.
  assert (Hlt : (Z.to_nat i < length a)%nat)
    by (apply nth_error_Some; congruence).
  split; [lia|].
  rewrite (nth_error_nth' a d Hlt) in E. congruence.
Qed.

Lemma length_upd i x a : length (upd i x a) = length a.
Proof.
  revert i; induction a as [|y r IH]; intros [|i]; simpl; auto.
Qed.

Lemma nth_upd_same i x a d : (i < length a)%nat -> nth i (upd i x a) d = x.
Proof.
  revert i; induction a as [|y r IH]; intros [|i] H; simpl in *;
    try lia; auto. apply IH. lia.
Qed.

Lemma nth_upd_other i j x a d : i <> j -> nth j (upd i x a) d = nth j a d.
Proof.
  revert i j; induction a as [|y r IH]; intros [|i] [|j] H; simpl;
    try congruence; auto.
Qed.

Lemma upd_out i x a : (length a <= i)%nat -> upd i x a = a.
Proof.
  revert i; induction a as [|y r IH]; intros [|i] H; simpl in *;
    try lia; auto. f_equal. apply IH. lia.
Qed.

Lemma nth_upd i j x a d :
  nth j (upd i x a) d =
  if (Nat.eqb j i && Nat.ltb i (length a))%bool then x else nth j a d.
Proof.
  destruct (Nat.eqb_spec j i) as [->|Hne]; simpl.
  - destruct (Nat.ltb_spec i (length a)).
    + apply nth_upd_same. assumption.
    + rewrite upd_out by assumption. reflexivity.
  - apply nth_upd_other. congruence.
Qed.

Lemma length_overwrite (xs : list A) : forall a off,
  length (overwrite a off xs) = length a.
Proof.
  induction xs as [|x r IH]; intros a off; simpl; auto.
  rewrite IH. apply length_upd.
Qed.

Lemma nth_overwrite (xs : list A) : forall a off j d,
  (off + length xs <= length a)%nat ->
  nth j (overwrite a off xs) d =
  if (Nat.leb off j && Nat.ltb j (off + length xs))%bool
  then nth (j - off) xs d else nth j a d.
Proof.
  induction xs as [|x r IH]; intros a off j d H; simpl in *.
  - destruct (Nat.leb_spec off j), (Nat.ltb_spec j (off + 0)); simpl;
      auto; lia.
  - rewrite IH by (rewrite length_upd; lia).
    destruct (Nat.eq_dec j off) as [->|Hne].
    + destruct (Nat.leb_spec (S off) off); [lia|]. simpl.
      rewrite nth_upd_same by lia.
      destruct (Nat.leb_spec off off), (Nat.ltb_spec off (off + S (length r)));
        simpl; try lia.
      rewrite Nat.sub_diag. reflexivity.
    + rewrite nth_upd_other by congruence.
      destruct (Nat.leb_spec (S off) j), (Nat.ltb_spec j (S off + length r)),
        (Nat.leb_spec off j), (Nat.ltb_spec j (off + S (length r)));
        simpl; try lia; try reflexivity.
      replace (j - off)%nat with (S (j - S off)) by lia. reflexivity.
Qed.

Lemma length_memmove (dst : list A) (doff : nat) (src : list A) (soff n : nat) :
  length (memmove dst doff src soff n) = length dst.
Proof. apply length_overwrite. Qed.

Lemma nth_memmove (dst : list A) (doff : nat) (src : list A) (soff n j : nat) d :
  (doff + n <= length dst)%nat -> (soff + n <= length src)%nat ->
  nth j (memmove dst doff src soff n) d =
  if (Nat.leb doff j && Nat.ltb j (doff + n))%bool
  then nth (j - doff + soff) src d else nth j dst d.
Proof.
  intros H1 H2. unfold memmove.
  assert (L : length (firstn n (skipn soff src)) = n)
    by (rewrite length_firstn, length_skipn; lia).
  rewrite nth_overwrite by lia. rewrite L.
  destruct (Nat.leb_spec doff j), (Nat.ltb_spec j (doff + n)); simpl; auto.
  rewrite nth_firstn.
  destruct (Nat.ltb_spec (j - doff) n); [|lia].
  rewrite nth_skipn. f_equal. lia.
Qed.

Lemma on_nth_nth (B : Type) (f : A -> B) (e : B) l i d :
  (i < length l)%nat -> on_nth f e l i = f (nth i l d).
Proof.
  revert i; induction l as [|y r IH]; intros [|i] H; simpl in *;
    try lia; auto. apply IH. lia.
Qed.

Lemma on_nth_out (B : Type) (f : A -> B) (e : B) l i :
  (length l <= i)%nat -> on_nth f e l i = e.
Proof.
  revert i; induction l as [|y r IH]; intros [|i] H; simpl in *;
    try lia; auto. apply IH. lia.
Qed.

Lemma nth_ext_eq a l d :
  length a = length l ->
  (forall i, (i < length a)%nat -> nth i a d = nth i l d) -> a = l.
Proof.
  intros H1 H2. exact (nth_ext a l d d H1 H2).
Qed.

Lemma firstn_nth_eq (a l : list A) n d :
  (n <= length a)%nat -> (n <= length l)%nat ->
  (forall i, (i < n)%nat -> nth i a d = nth i l d) ->
  firstn n a = firstn n l.
Proof.
  intros H1 H2 H3. apply (nth_ext _ _ d d).
  - rewrite !length_firstn. lia.
  - intros i Hi. rewrite length_firstn in Hi.
    rewrite !nth_firstn. destruct (Nat.ltb_spec i n); auto.
Qed.
End ArrayFacts.

Lemma nth_repeat_any (A : Type) (x : A) n i : nth i (repeat x n) x = x.
Proof.
  revert i; induction n as [|n IH]; intros [|i]; simpl; auto.
Qed.

(** * Non-null counting *)

Lemma nonNull_le c : (nonNull c <= length c)%nat.
Proof. induction c as [|x r IH]; simpl; [lia|]. destruct (isNull x); lia. Qed.

Lemma nonNull_repeat n : nonNull (repeat Null n) = 0%nat.
Proof. induction n; simpl; auto. Qed.

Lemma nonNull_upd i x c :
  (i < length c)%nat ->
  (nonNull (upd i x c) + (if isNull (nth i c Null) then 0 else 1) =
   nonNull c + (if isNull x then 0 else 1))%nat.
Proof.
  revert i; induction c as [|y r IH]; intros [|i] H; simpl in *; try lia.
  specialize (IH i ltac:(lia)). lia.
Qed.

Lemma isNull_true x : isNull x = true <-> x = Null.
Proof. destruct x; simpl; split; congruence. Qed.

Lemma isNull_false x : isNull x = false <-> x <> Null.
Proof. destruct x; simpl; split; congruence. Qed.

Lemma firstNull_spec c : forall pos,
  (nonNull c < length c)%nat ->
  exists i, firstNull c pos = Some (pos + i)%nat /\ (i < length c)%nat /\
            nth i c Null = Null.
Proof.
  induction c as [|x r IH]; intros pos H; simpl in *; [lia|].
  destruct (isNull x) eqn:E.
  - exists 0%nat. rewrite Nat.add_0_r. repeat split; [lia|].
    apply isNull_true. assumption.
  - destruct (IH (S pos)) as (i & E1 & E2 & E3); [lia|].
    exists (S i). rewrite E1. repeat split; [f_equal; lia|lia|assumption].
Qed.

(** * Bit fields *)

Lemma checkRange_sound ok n : forall x0 x,
  checkRange ok n x0 = true -> x0 <= x < x0 + Z.of_nat n -> ok x = true.
Proof.
  induction n as [|n IH]; intros x0 x H Hx; simpl in *; [lia|].
  apply andb_true_iff in H. destruct H as [H1 H2].
  destruct (Z.eq_dec x x0) as [->|Hne]; [assumption|].
  apply (IH (x0 + 1)); [assumption|lia].
Qed.

Lemma ctz_check :
  checkRange (fun x => ctz x =? trailingZeros x) (Z.to_nat 65535) 1 = true.
Proof. vm_compute. reflexivity. Qed.

Lemma trailingZerosPos_nonneg p : 0 <= trailingZerosPos p.
Proof. induction p; cbn [trailingZerosPos]; lia. Qed.

Lemma trailingZerosPos_spec p :
  Z.testbit (Zpos p) (trailingZerosPos p) = true /\
  forall i, 0 <= i < trailingZerosPos p -> Z.testbit (Zpos p) i = false.
Proof.
  induction p as [p IH|p IH|]; cbn [trailingZerosPos].
  - split; [reflexivity|intros; lia].
  - destruct IH as [IH1 IH2]. pose proof (trailingZerosPos_nonneg p) as Hn.
    rewrite Pos2Z.inj_xO. split.
    + replace (1 + trailingZerosPos p) with (Z.succ (trailingZerosPos p)) by lia.
      rewrite Z.testbit_even_succ by assumption. exact IH1.
    + intros i Hi. destruct (Z.eq_dec i 0) as [->|Hne].
      * apply Z.testbit_even_0.
      * replace i with (Z.succ (i - 1)) by lia.
        rewrite Z.testbit_even_succ by lia. apply IH2. lia.
  - split; [reflexivity|intros; lia].
Qed.

Lemma ctz_eq_trailingZeros x : 0 < x < 65536 -> ctz x = trailingZeros x.
Proof.
  intros Hx. apply Z.eqb_eq.
  apply (@checkRange_sound (fun x => ctz x =? trailingZeros x)
           (Z.to_nat 65535) 1 x ctz_check).
  lia.
Qed.

Lemma ctz_lowest_bit x :
  0 < x < 65536 ->
  0 <= ctz x < 16 /\
  Z.testbit x (ctz x) = true /\
  (forall i, 0 <= i < ctz x -> Z.testbit x i = false).
Proof.
  intros Hx. rewrite (ctz_eq_trailingZeros Hx).
  destruct x as [|p|p]; try lia.
  pose proof (trailingZerosPos_spec p) as [H1 H2].
  pose proof (trailingZerosPos_nonneg p) as Hn.
  simpl trailingZeros.
  repeat split; try assumption.
  destruct (Z_lt_dec (trailingZerosPos p) 16) as [Hlt|Hge]; [assumption|].
  exfalso.
  assert (Hb : Z.testbit (Zpos p) (trailingZerosPos p) = false).
  { apply Z.bits_above_log2; [lia|].
    assert (Z.log2 (Zpos p) < 16) by (apply Z.log2_lt_pow2; lia). lia. }
  congruence.
Qed.

Lemma movemask_nonneg l : 0 <= movemask l.
Proof. induction l as [|b r IH]; cbn [movemask]; [lia|]. destruct b; lia. Qed.

Lemma testbit_movemask l : forall i,
  Z.testbit (movemask l) (Z.of_nat i) = nth i l false.
Proof.
  induction l as [|b r IH]; intros i.
  - simpl. rewrite Z.testbit_0_l. destruct i; reflexivity.
  - cbn [movemask]. destruct i as [|i].
    + simpl Z.of_nat. simpl nth. destruct b.
      * rewrite Z.add_comm. apply Z.testbit_odd_0.
      * rewrite Z.add_0_l. apply Z.testbit_even_0.
    + rewrite Nat2Z.inj_succ. simpl nth. destruct b.
      * rewrite Z.add_comm. rewrite Z.testbit_odd_succ by lia. apply IH.
      * rewrite Z.add_0_l. rewrite Z.testbit_even_succ by lia. apply IH.
Qed.

Lemma firstTrue_Some l : forall pos j,
  firstTrue l pos = Some j ->
  (pos <= j)%nat /\ nth (j - pos) l false = true /\
  forall i, (i < j - pos)%nat -> nth i l false = false.
Proof.
  induction l as [|b r IH]; intros pos j H; simpl in H; [discriminate|].
  destruct b.
  - inversion H; subst. rewrite Nat.sub_diag. repeat split; auto. intros; lia.
  - apply IH in H. destruct H as (H1 & H2 & H3).
    replace (j - pos)%nat with (S (j - S pos)) by lia.
    repeat split; [lia|assumption|].
    intros [|i] Hi; simpl; auto. apply H3. lia.
Qed.

Lemma firstTrue_None l : forall pos,
  firstTrue l pos = None -> forall i, nth i l false = false.
Proof.
  induction l as [|b r IH]; intros pos H i; simpl in H.
  - destruct i; reflexivity.
  - destruct b; [discriminate|]. destruct i; simpl; auto. eapply IH; eauto.
Qed.

(** The masks [(1 << count) - 1] and [0xFFFF >> (16 - count)]. *)
Lemma mask_shiftl cnt : 0 <= cnt <= 16 -> Z.shiftl 1 cnt - 1 = Z.ones cnt.
Proof.
  intros H. rewrite Z.shiftl_1_l, Z.ones_equiv. lia.
Qed.

Lemma mask_shiftr cnt :
  0 <= cnt <= 16 -> Z.shiftr 65535 (16 - cnt) = Z.ones cnt.
Proof.
  intros H.
  assert (C : cnt = 0 \/ cnt = 1 \/ cnt = 2 \/ cnt = 3 \/ cnt = 4 \/ cnt = 5 \/
              cnt = 6 \/ cnt = 7 \/ cnt = 8 \/ cnt = 9 \/ cnt = 10 \/
              cnt = 11 \/ cnt = 12 \/ cnt = 13 \/ cnt = 14 \/ cnt = 15 \/
              cnt = 16) by lia.
  repeat (destruct C as [->|C]; [reflexivity|]). subst. reflexivity.
Qed.

Lemma testbit_masked l cnt i :
  0 <= cnt ->
  Z.testbit (Z.land (movemask l) (Z.ones cnt)) (Z.of_nat i) =
  (nth i l false && (Z.of_nat i <? cnt))%bool.
Proof.
  intros H. rewrite Z.land_spec, testbit_movemask.
  rewrite Z.testbit_ones by lia.
  destruct (Z.leb_spec 0 (Z.of_nat i)); [|lia]. reflexivity.
Qed.

Lemma masked_range l cnt :
  0 <= cnt <= 16 -> 0 <= Z.land (movemask l) (Z.ones cnt) < 65536.
Proof.
  intros H.
  assert (H0 : 0 <= Z.land (movemask l) (Z.ones cnt)).
  { apply Z.land_nonneg. left. apply movemask_nonneg. }
  split; [assumption|].
  destruct (Z.eq_dec (Z.land (movemask l) (Z.ones cnt)) 0) as [E|E]; [lia|].
  apply Z.log2_lt_cancel. change (Z.log2 65536) with 16.
  destruct (Z_lt_dec (Z.log2 (Z.land (movemask l) (Z.ones cnt))) 16)
    as [L|L]; [assumption|exfalso].
  assert (B : Z.testbit (Z.land (movemask l) (Z.ones cnt))
                (Z.log2 (Z.land (movemask l) (Z.ones cnt))) = true)
    by (apply Z.bit_log2; lia).
  rewrite Z.land_spec, Z.testbit_ones in B by lia.
  apply andb_true_iff in B. destruct B as [_ B].
  apply andb_true_iff in B. destruct B as [_ B].
  apply Z.ltb_lt in B. lia.
Qed.

(** The lowest set bit of a masked lane field is the first set lane among
    the first [cnt] lanes. *)
Lemma masked_zero l cnt :
  0 <= cnt <= 16 ->
  Z.land (movemask l) (Z.ones cnt) = 0 ->
  forall i, (i < Z.to_nat cnt)%nat -> nth i l false = false.
Proof.
  intros H E i Hi.
  pose proof (@testbit_masked l cnt i (proj1 H)) as T.
  rewrite E, Z.testbit_0_l in T.
  destruct (Z.ltb_spec (Z.of_nat i) cnt); [|lia].
  rewrite andb_true_r in T. congruence.
Qed.

Lemma masked_ctz l cnt :
  0 <= cnt <= 16 ->
  Z.land (movemask l) (Z.ones cnt) <> 0 ->
  let j := Z.to_nat (ctz (Z.land (movemask l) (Z.ones cnt))) in
  (j < Z.to_nat cnt)%nat /\ nth j l false = true /\
  forall i, (i < j)%nat -> nth i l false = false.
Proof.
  intros H E j.
  pose proof (@masked_range l cnt H) as R.
  destruct (@ctz_lowest_bit (Z.land (movemask l) (Z.ones cnt)))
    as (C1 & C2 & C3); [lia|].
  assert (Ej : ctz (Z.land (movemask l) (Z.ones cnt)) = Z.of_nat j)
    by (unfold j; lia).
  rewrite Ej in C2, C3.
  rewrite testbit_masked in C2 by lia.
  apply andb_true_iff in C2. destruct C2 as [C2 C4].
  apply Z.ltb_lt in C4.
  repeat split; [lia|assumption|].
  intros i Hi. specialize (C3 (Z.of_nat i) ltac:(lia)).
  rewrite testbit_masked in C3 by lia.
  destruct (Z.ltb_spec (Z.of_nat i) cnt); [|lia].
  rewrite andb_true_r in C3. assumption.
Qed.

(** * Signed bytes *)

Lemma flipSign_byte a : 0 <= a < 256 -> flipSign a = signed8 a + 128 /\ 0 <= flipSign a < 256.
Proof.
  intros H. unfold flipSign, signed8.
  assert (E : Z.lxor a 128 = if a <? 128 then a + 128 else a - 128).
  { apply Z.eqb_eq.
    apply (@checkRange_sound
             (fun a => Z.lxor a 128 =? if a <? 128 then a + 128 else a - 128)
             256 0 a); [vm_compute; reflexivity|lia]. }
  rewrite E. destruct (Z.ltb_spec a 128); lia.
Qed.

Lemma flipSign_involutive a : flipSign (flipSign a) = a.
Proof.
  unfold flipSign. rewrite Z.lxor_assoc, Z.lxor_nilpotent, Z.lxor_0_r.
  reflexivity.
Qed.

Lemma flipSign_inj a b : flipSign a = flipSign b -> a = b.
Proof.
  intros H. rewrite <- (flipSign_involutive a), H. apply flipSign_involutive.
Qed.

Lemma signed8_flipSign a : 0 <= a < 256 -> signed8 (flipSign a) = a - 128.
Proof.
  intros H. destruct (flipSign_byte H) as [E R].
  pose proof (flipSign_involutive a) as I.
  destruct (flipSign_byte R) as [E2 _]. rewrite I in E2. lia.
Qed.

(** * The parallel arrays of Node4 and Node16 *)

Lemma scan4_Slot k x n : forall i0 i,
  scan4 k x n i0 = Slot i ->
  (i0 <= i < i0 + n)%nat /\ nth i k 0 = x /\
  forall j, (i0 <= j < i)%nat -> nth j k 0 <> x.
Proof.
  induction n as [|n IH]; intros i0 i H; simpl in H; [discriminate|].
  destruct (Z.eqb_spec (nth i0 k 0) x) as [E|E].
  - inversion H; subst. repeat split; try lia; try reflexivity.
  - apply IH in H. destruct H as (H1 & H2 & H3).
    repeat split; [lia|lia|assumption|].
    intros j Hj. destruct (Nat.eq_dec j i0) as [->|Hne]; [assumption|].
    apply H3. lia.
Qed.

Lemma scan4_Null k x n : forall i0,
  scan4 k x n i0 = NullSlot ->
  forall j, (i0 <= j < i0 + n)%nat -> nth j k 0 <> x.
Proof.
  induction n as [|n IH]; intros i0 H j Hj; simpl in H; [lia|].
  destruct (Z.eqb_spec (nth i0 k 0) x) as [E|E]; [discriminate|].
  destruct (Nat.eq_dec j i0) as [->|Hne]; [assumption|].
  apply (IH (S i0)); [assumption|lia].
Qed.

Lemma scan4_hit k x n : forall i0 i,
  (i0 <= i < i0 + n)%nat -> nth i k 0 = x ->
  (forall j, (i0 <= j < i)%nat -> nth j k 0 <> x) ->
  scan4 k x n i0 = Slot i.
Proof.
  induction n as [|n IH]; intros i0 i H1 H2 H3; simpl; [lia|].
  destruct (Z.eqb_spec (nth i0 k 0) x) as [E|E].
  - destruct (Nat.eq_dec i i0) as [->|Hne]; [reflexivity|].
    exfalso. apply (H3 i0); [lia|assumption].
  - destruct (Nat.eq_dec i i0) as [->|Hne]; [congruence|].
    apply IH; [lia|assumption|]. intros j Hj. apply H3. lia.
Qed.

Lemma scan4_miss k x n : forall i0,
  (forall j, (i0 <= j < i0 + n)%nat -> nth j k 0 <> x) ->
  scan4 k x n i0 = NullSlot.
Proof.
  induction n as [|n IH]; intros i0 H; simpl; [reflexivity|].
  destruct (Z.eqb_spec (nth i0 k 0) x) as [E|E].
  - exfalso. apply (H i0); [lia|assumption].
  - apply IH. intros j Hj. apply H. lia.
Qed.

Lemma key_dec k n x :
  {i | (i < n)%nat /\ nth i k 0 = x} + {forall i, (i < n)%nat -> nth i k 0 <> x}.
Proof.
  induction n as [|n IH].
  - right. intros; lia.
  - destruct IH as [[i [H1 H2]]|H].
    + left. exists i. split; [lia|assumption].
    + destruct (Z.eq_dec (nth n k 0) x) as [E|E].
      * left. exists n. split; [lia|assumption].
      * right. intros i Hi. destruct (Nat.eq_dec i n) as [->|Hne];
          [assumption|apply H; lia].
Qed.

Lemma keyChild_hit k c n i x :
  distinctKeys k n -> (i < n)%nat -> nth i k 0 = x ->
  keyChild k c n x = nth i c Null.
Proof.
  intros D Hi E. unfold keyChild.
  rewrite (@scan4_hit k x n 0%nat i); [reflexivity|lia|assumption|].
  intros j Hj Ej. assert (j = i) by (apply D; [lia|lia|congruence]). lia.
Qed.

Lemma keyChild_miss k c n x :
  (forall i, (i < n)%nat -> nth i k 0 <> x) -> keyChild k c n x = Null.
Proof.
  intros H. unfold keyChild. rewrite scan4_miss; [reflexivity|].
  intros j Hj. apply H. lia.
Qed.

Lemma ascendingBy_distinct f k n : ascendingBy f k n -> distinctKeys k n.
Proof.
  intros A i j Hi Hj E.
  destruct (Nat.lt_trichotomy i j) as [L|[L|L]]; [|assumption|].
  - specialize (A i j ltac:(lia)). rewrite E in A. lia.
  - specialize (A j i ltac:(lia)). rewrite E in A. lia.
Qed.

(** Shifting the tail right by one and storing [x] at [pos]. *)
Lemma nth_shiftInsert (A : Type) (l : list A) pos n x j d :
  (pos <= n)%nat -> (n < length l)%nat ->
  nth j (upd pos x (memmove l (S pos) l pos (n - pos))) d =
  if (j <? pos)%nat then nth j l d
  else if (j =? pos)%nat then x
  else if (j <=? n)%nat then nth (j - 1) l d
  else nth j l d.
Proof.
  intros H1 H2.
  rewrite nth_upd, length_memmove.
  rewrite nth_memmove by lia.
  destruct (Nat.ltb_spec j pos), (Nat.eqb_spec j pos), (Nat.leb_spec j n),
    (Nat.ltb_spec pos (length l)), (Nat.leb_spec (S pos) j),
    (Nat.ltb_spec j (S pos + (n - pos))); simpl; try lia; try reflexivity.
  f_equal. lia.
Qed.

(** Shifting the tail left by one over position [pos]. *)
Lemma nth_shiftErase (A : Type) (l : list A) pos n j d :
  (pos < n)%nat -> (n <= length l)%nat ->
  nth j (memmove l pos l (S pos) (n - pos - 1)) d =
  if ((pos <=? j) && (j <? n - 1))%nat then nth (j + 1) l d else nth j l d.
Proof.
  intros H1 H2.
  rewrite nth_memmove by lia.
  destruct (Nat.leb_spec pos j), (Nat.ltb_spec j (n - 1)),
    (Nat.ltb_spec j (pos + (n - pos - 1))); simpl; try lia; try reflexivity.
  f_equal. lia.
Qed.

Section ShiftInsert.
Variables (k : list Z) (c : list ArtNode) (n pos : nat) (x : Z)
          (y : ArtNode).
Hypothesis Hpos : (pos <= n)%nat.
Hypothesis Hk : (n < length k)%nat.
Hypothesis Hc : (n < length c)%nat.
Hypothesis Hdist : distinctKeys k n.
Hypothesis Hfresh : forall i, (i < n)%nat -> nth i k 0 <> x.

Local Abbreviation k' := (upd pos x (memmove k (S pos) k pos (n - pos))).
Local Abbreviation c' := (upd pos y (memmove c (S pos) c pos (n - pos))).

Lemma shiftInsert_distinct : distinctKeys k' (S n).
Proof.
  intros i j Hi Hj. rewrite !nth_shiftInsert by lia.
  destruct (Nat.ltb_spec i pos), (Nat.eqb_spec i pos), (Nat.leb_spec i n),
    (Nat.ltb_spec j pos), (Nat.eqb_spec j pos), (Nat.leb_spec j n);
    try lia; intros E;
    try (exfalso; eapply Hfresh; [|eassumption || (symmetry; eassumption)]; lia);
    try (apply Hdist in E; lia).
Qed.

Lemma shiftInsert_keyChild x' :
  keyChild k' c' (S n) x' = if x' =? x then y else keyChild k c n x'.
Proof.
  pose proof shiftInsert_distinct as D'.
  destruct (Z.eqb_spec x' x) as [->|Hne].
  - rewrite (@keyChild_hit k' c' (S n) pos x D'); [|lia|].
    + rewrite nth_shiftInsert by lia.
      destruct (Nat.ltb_spec pos pos); [lia|]. rewrite Nat.eqb_refl.
      reflexivity.
    + rewrite nth_shiftInsert by lia.
      destruct (Nat.ltb_spec pos pos); [lia|]. rewrite Nat.eqb_refl.
      reflexivity.
  - destruct (key_dec k n x') as [[i [Hi Ei]]|Hmiss].
    + rewrite (@keyChild_hit k c n i x' Hdist Hi Ei).
      destruct (Nat.ltb_spec i pos) as [L|L].
      * rewrite (@keyChild_hit k' c' (S n) i x' D'); [|lia|].
        -- rewrite nth_shiftInsert by lia.
           destruct (Nat.ltb_spec i pos); [reflexivity|lia].
        -- rewrite nth_shiftInsert by lia.
           destruct (Nat.ltb_spec i pos); [assumption|lia].
      * rewrite (@keyChild_hit k' c' (S n) (S i) x' D'); [|lia|].
        -- rewrite nth_shiftInsert by lia.
           destruct (Nat.ltb_spec (S i) pos), (Nat.eqb_spec (S i) pos),
             (Nat.leb_spec (S i) n); try lia.
           f_equal. lia.
        -- rewrite nth_shiftInsert by lia.
           destruct (Nat.ltb_spec (S i) pos), (Nat.eqb_spec (S i) pos),
             (Nat.leb_spec (S i) n); try lia.
           rewrite <- Ei. f_equal. lia.
    + rewrite (@keyChild_miss k c n x' Hmiss). apply keyChild_miss.
      intros i Hi. rewrite nth_shiftInsert by lia.
      destruct (Nat.ltb_spec i pos), (Nat.eqb_spec i pos),
        (Nat.leb_spec i n); try lia; try congruence; apply Hmiss; lia.
Qed.

Lemma shiftInsert_present :
  y <> Null -> presentIn c n -> presentIn c' (S n).
Proof.
  intros Hy P i Hi. rewrite nth_shiftInsert by lia.
  destruct (Nat.ltb_spec i pos), (Nat.eqb_spec i pos), (Nat.leb_spec i n);
    try lia; try assumption; apply P; lia.
Qed.

Lemma shiftInsert_bytes :
  0 <= x < 256 -> bytesIn k n -> bytesIn k' (S n).
Proof.
  intros Hx P i Hi. rewrite nth_shiftInsert by lia.
  destruct (Nat.ltb_spec i pos), (Nat.eqb_spec i pos), (Nat.leb_spec i n);
    try lia; apply P; lia.
Qed.

Lemma shiftInsert_ascending f :
  ascendingBy f k n ->
  (forall i, (i < pos)%nat -> f (nth i k 0) < f x) ->
  (forall i, (pos <= i < n)%nat -> f x < f (nth i k 0)) ->
  ascendingBy f k' (S n).
Proof.
  intros A L R i j Hij. rewrite !nth_shiftInsert by lia.
  destruct (Nat.ltb_spec i pos), (Nat.eqb_spec i pos), (Nat.leb_spec i n),
    (Nat.ltb_spec j pos), (Nat.eqb_spec j pos), (Nat.leb_spec j n);
    try lia;
    try (apply A; lia); try (apply L; lia); try (apply R; lia).
Qed.
End ShiftInsert.

Section ShiftErase.
Variables (k : list Z) (c : list ArtNode) (n pos : nat).
Hypothesis Hpos : (pos < n)%nat.
Hypothesis Hk : (n <= length k)%nat.
Hypothesis Hc : (n <= length c)%nat.
Hypothesis Hdist : distinctKeys k n.

Local Abbreviation k' := (memmove k pos k (S pos) (n - pos - 1)).
Local Abbreviation c' := (memmove c pos c (S pos) (n - pos - 1)).

Lemma shiftErase_distinct : distinctKeys k' (n - 1).
Proof.
  intros i j Hi Hj. rewrite !nth_shiftErase by lia.
  destruct (Nat.leb_spec pos i), (Nat.ltb_spec i (n - 1)),
    (Nat.leb_spec pos j), (Nat.ltb_spec j (n - 1)); simpl; try lia;
    intros E; apply Hdist in E; lia.
Qed.

Lemma shiftErase_keyChild x' :
  keyChild k' c' (n - 1) x' =
  if x' =? nth pos k 0 then Null else keyChild k c n x'.
Proof.
  pose proof shiftErase_distinct as D'.
  destruct (Z.eqb_spec x' (nth pos k 0)) as [->|Hne].
  - apply keyChild_miss. intros i Hi.
    rewrite nth_shiftErase by lia.
    destruct (Nat.leb_spec pos i), (Nat.ltb_spec i (n - 1)); simpl;
      try lia; intros E; apply Hdist in E; lia.
  - destruct (key_dec k n x') as [[i [Hi Ei]]|Hmiss].
    + rewrite (@keyChild_hit k c n i x' Hdist Hi Ei).
      assert (i <> pos) by congruence.
      destruct (Nat.ltb_spec i pos) as [L|L].
      * rewrite (@keyChild_hit k' c' (n - 1) i x' D'); [|lia|].
        -- rewrite nth_shiftErase by lia.
           destruct (Nat.leb_spec pos i); [lia|]. reflexivity.
        -- rewrite nth_shiftErase by lia.
           destruct (Nat.leb_spec pos i); [lia|]. assumption.
      * rewrite (@keyChild_hit k' c' (n - 1) (i - 1) x' D'); [|lia|].
        -- rewrite nth_shiftErase by lia.
           destruct (Nat.leb_spec pos (i - 1)),
             (Nat.ltb_spec (i - 1) (n - 1)); simpl; try lia.
           f_equal. lia.
        -- rewrite nth_shiftErase by lia.
           destruct (Nat.leb_spec pos (i - 1)),
             (Nat.ltb_spec (i - 1) (n - 1)); simpl; try lia.
           rewrite <- Ei. f_equal. lia.
    + rewrite (@keyChild_miss k c n x' Hmiss). apply keyChild_miss.
      intros i Hi. rewrite nth_shiftErase by lia.
      destruct (Nat.leb_spec pos i), (Nat.ltb_spec i (n - 1)); simpl;
        try lia; apply Hmiss; lia.
Qed.

Lemma shiftErase_present : presentIn c n -> presentIn c' (n - 1).
Proof.
  intros P i Hi. rewrite nth_shiftErase by lia.
  destruct (Nat.leb_spec pos i), (Nat.ltb_spec i (n - 1)); simpl;
    try lia; apply P; lia.
Qed.

Lemma shiftErase_bytes : bytesIn k n -> bytesIn k' (n - 1).
Proof.
  intros P i Hi. rewrite nth_shiftErase by lia.
  destruct (Nat.leb_spec pos i), (Nat.ltb_spec i (n - 1)); simpl;
    try lia; apply P; lia.
Qed.

Lemma shiftErase_ascending f : ascendingBy f k n -> ascendingBy f k' (n - 1).
Proof.
  intros A i j Hij. rewrite !nth_shiftErase by lia.
  destruct (Nat.leb_spec pos i), (Nat.ltb_spec i (n - 1)),
    (Nat.leb_spec pos j), (Nat.ltb_spec j (n - 1)); simpl; try lia;
    apply A; lia.
Qed.
End ShiftErase.

(** * Node4 *)

Lemma childAt_Node4 h k c b :
  childAt (Node4 h k c) b = keyChild k c (Z.to_nat (count h)) b.
Proof. reflexivity. Qed.

Lemma wrap16_small x : 0 <= x < 65536 -> wrap16 x = x.
Proof. intros H. unfold wrap16. apply Z.mod_small. assumption. Qed.

Lemma wrap32_small x : 0 <= x < 4294967296 -> wrap32 x = x.
Proof. intros H. unfold wrap32. apply Z.mod_small. assumption. Qed.

Lemma wrap8_small x : 0 <= x < 256 -> wrap8 x = x.
Proof. intros H. unfold wrap8. apply Z.mod_small. assumption. Qed.

Lemma keyChild_Null_fresh k c n x :
  distinctKeys k n -> presentIn c n -> keyChild k c n x = Null ->
  forall i, (i < n)%nat -> nth i k 0 <> x.
Proof.
  intros D P E i Hi Ei.
  rewrite (@keyChild_hit k c n i x D Hi Ei) in E.
  exact (P i Hi E).
Qed.

Lemma insertPos4_spec k b n : forall p0,
  (p0 <= insertPos4 k b n p0 <= p0 + n)%nat /\
  (forall i, (p0 <= i < insertPos4 k b n p0)%nat -> nth i k 0 < b) /\
  ((insertPos4 k b n p0 < p0 + n)%nat ->
   ~ nth (insertPos4 k b n p0) k 0 < b).
Proof.
  induction n as [|n IH]; intros p0; simpl.
  - repeat split; try lia; intros; lia.
  - destruct (Z.ltb_spec (nth p0 k 0) b) as [L|L].
    + destruct (IH (S p0)) as (H1 & H2 & H3).
      split; [lia|]. split.
      * intros i Hi. destruct (Nat.eq_dec i p0) as [->|Hne]; [assumption|].
        apply H2. lia.
      * intros Hlt. apply H3. lia.
    + repeat split; try lia; intros; lia.
Qed.

Lemma insertNode4_room h k c b y :
  shape (Node4 h k c) -> count h < 4 -> 0 <= b < 256 ->
  childAt (Node4 h k c) b = Null -> y <> Null ->
  exists n', insertNode4 (Node4 h k c) b y = Some n' /\
             updated (Node4 h k c) n' b y.
Proof.
  intros (Hp & Lk & Lc & Hc & Bk & Ak & Pc) Hroom Hb Hnull Hy.
  cbn [insertNode4].
  destruct (Z.ltb_spec (count h) 4) as [_|]; [|lia].
  eexists. split; [reflexivity|].
  set (n := Z.to_nat (count h)) in *.
  set (pos := insertPos4 k b n 0).
  destruct (insertPos4_spec k b n 0) as (P1 & P2 & P3). fold pos in P1, P2, P3.
  pose proof (ascendingBy_distinct Ak) as Dk.
  rewrite childAt_Node4 in Hnull. fold n in Hnull.
  pose proof (keyChild_Null_fresh Dk Pc Hnull) as Fresh.
  assert (Hcnt : wrap16 (count h + 1) = count h + 1)
    by (apply wrap16_small; lia).
  assert (Hn : Z.to_nat (count h + 1) = S n) by (unfold n; lia).
  unfold updated. cbn [header isInner setCount prefixLength prefix].
  split; [reflexivity|]. split; [|split; [reflexivity|split; [reflexivity|]]].
  - split; [assumption|].
    cbn [layout header setCount count]. rewrite Hcnt, Hn.
    split; [rewrite length_upd, length_memmove; assumption|].
    split; [rewrite length_upd, length_memmove; assumption|].
    split; [lia|].
    split; [apply shiftInsert_bytes with (c := c); try lia; assumption|].
    split; [|apply shiftInsert_present with (k := k); try lia; assumption].
    apply shiftInsert_ascending with (c := c); try lia; try assumption;
      [intros i Hi; apply P2; lia|].
    intros i Hi.
    assert (B1 : nth pos k 0 <> b) by (apply Fresh; lia).
    assert (B2 : ~ nth pos k 0 < b) by (apply P3; lia).
    destruct (Nat.eq_dec i pos) as [->|Hne]; [lia|].
    specialize (Ak pos i ltac:(lia)). simpl in Ak. lia.
  - intros b' Hb'. rewrite !childAt_Node4. cbn [count setCount].
    rewrite Hcnt, Hn. fold n.
    apply shiftInsert_keyChild; try lia; assumption.
Qed.

Lemma findChild_Node4_bound h k c b i :
  shape (Node4 h k c) -> findChild (Node4 h k c) b = Slot i ->
  (i < Z.to_nat (count h))%nat /\ nth i k 0 = b.
Proof.
  intros (Hp & Lk & Lc & Hc & Bk & Ak & Pc) H. cbn [findChild] in H.
  apply scan4_Slot in H. destruct H as (H1 & H2 & _). split; [lia|assumption].
Qed.

(** * Node16 *)

Lemma nth_cmpeq x k i :
  (i < length k)%nat -> nth i (cmpeq x k) false = (nth i k 0 =? x).
Proof.
  intros H. unfold cmpeq.
  rewrite (nth_indep _ false ((fun kk => kk =? x) 0))
    by (rewrite length_map; assumption).
  apply (map_nth (fun kk => kk =? x)).
Qed.

Lemma nth_cmplt x k i :
  (i < length k)%nat ->
  nth i (cmplt x k) false = (signed8 x <? signed8 (nth i k 0)).
Proof.
  intros H. unfold cmplt.
  rewrite (nth_indep _ false ((fun kk => signed8 x <? signed8 kk) 0))
    by (rewrite length_map; assumption).
  apply (map_nth (fun kk => signed8 x <? signed8 kk)).
Qed.

Lemma findChild_Node16 h k c b :
  length k = 16%nat -> 0 <= count h <= 16 ->
  findChild (Node16 h k c) b = scan4 k (flipSign b) (Z.to_nat (count h)) 0.
Proof.
  intros Lk Hc. cbn [findChild]. rewrite mask_shiftl by assumption.
  destruct (Z.eqb_spec
              (Z.land (movemask (cmpeq (flipSign b) k)) (Z.ones (count h))) 0)
    as [E|E].
  - symmetry. apply scan4_miss. intros j Hj.
    pose proof (masked_zero _ Hc E (i := j) ltac:(lia)) as Z0.
    rewrite nth_cmpeq in Z0 by lia. apply Z.eqb_neq. assumption.
  - destruct (masked_ctz _ Hc E) as (J1 & J2 & J3).
    symmetry. apply scan4_hit; [lia| |].
    + rewrite nth_cmpeq in J2 by lia. apply Z.eqb_eq. assumption.
    + intros j Hj. specialize (J3 j ltac:(lia)).
      rewrite nth_cmpeq in J3 by lia. apply Z.eqb_neq. assumption.
Qed.

Lemma childAt_Node16 h k c b :
  length k = 16%nat -> 0 <= count h <= 16 ->
  childAt (Node16 h k c) b = keyChild k c (Z.to_nat (count h)) (flipSign b).
Proof.
  intros Lk Hc. unfold childAt. rewrite findChild_Node16 by assumption.
  reflexivity.
Qed.

Lemma findChild_Node16_bound h k c b i :
  shape (Node16 h k c) -> findChild (Node16 h k c) b = Slot i ->
  (i < Z.to_nat (count h))%nat /\ nth i k 0 = flipSign b.
Proof.
  intros (Hp & Lk & Lc & Hc & Bk & Ak & Pc) H.
  rewrite findChild_Node16 in H by assumption.
  apply scan4_Slot in H. destruct H as (H1 & H2 & _). split; [lia|assumption].
Qed.

Lemma signed8_inj a b :
  0 <= a < 256 -> 0 <= b < 256 -> signed8 a = signed8 b -> a = b.
Proof.
  unfold signed8. intros Ha Hb.
  destruct (Z.ltb_spec a 128), (Z.ltb_spec b 128); lia.
Qed.

(** The position that [insertNode16] computes from the lane field. *)
Lemma insertPos16_spec k x cnt :
  length k = 16%nat -> 0 <= cnt <= 16 ->
  (insertPos16 k x cnt <= Z.to_nat cnt)%nat /\
  (forall i, (i < insertPos16 k x cnt)%nat ->
             ~ signed8 x < signed8 (nth i k 0)) /\
  ((insertPos16 k x cnt < Z.to_nat cnt)%nat ->
   signed8 x < signed8 (nth (insertPos16 k x cnt) k 0)).
Proof.
  intros Lk Hc. unfold insertPos16. rewrite mask_shiftr by assumption.
  cbv zeta.
  destruct (Z.eqb_spec (Z.land (movemask (cmplt x k)) (Z.ones cnt)) 0)
    as [E|E].
  - split; [lia|]. split; [|lia].
    intros i Hi. pose proof (masked_zero _ Hc E (i := i) ltac:(lia)) as Z0.
    rewrite nth_cmplt in Z0 by lia. apply Z.ltb_ge in Z0. lia.
  - destruct (masked_ctz _ Hc E) as (J1 & J2 & J3).
    split; [lia|]. split.
    + intros i Hi. specialize (J3 i Hi).
      rewrite nth_cmplt in J3 by lia. apply Z.ltb_ge in J3. lia.
    + intros _. rewrite nth_cmplt in J2 by lia. apply Z.ltb_lt in J2.
      assumption.
Qed.

Lemma insertNode16_room h k c b y :
  shape (Node16 h k c) -> count h < 16 -> 0 <= b < 256 ->
  childAt (Node16 h k c) b = Null -> y <> Null ->
  exists n', insertNode16 (Node16 h k c) b y = Some n' /\
             updated (Node16 h k c) n' b y.
Proof.
  intros (Hp & Lk & Lc & Hc & Bk & Ak & Pc) Hroom Hb Hnull Hy.
  cbn [insertNode16].
  destruct (Z.ltb_spec (count h) 16) as [_|]; [|lia].
  eexists. split; [reflexivity|].
  destruct (insertPos16_spec k (flipSign b) Lk Hc) as (P1 & P2 & P3).
  set (n := Z.to_nat (count h)) in *.
  set (pos := insertPos16 k (flipSign b) (count h)) in *.
  pose proof (ascendingBy_distinct Ak) as Dk.
  rewrite childAt_Node16 in Hnull by assumption. fold n in Hnull.
  pose proof (keyChild_Null_fresh Dk Pc Hnull) as Fresh.
  destruct (flipSign_byte Hb) as [_ Hx].
  assert (Hcnt : wrap16 (count h + 1) = count h + 1)
    by (apply wrap16_small; lia).
  assert (Hn : Z.to_nat (count h + 1) = S n) by (unfold n; lia).
  unfold updated. cbn [header isInner setCount prefixLength prefix].
  split; [reflexivity|]. split; [|split; [reflexivity|split; [reflexivity|]]].
  - split; [assumption|].
    cbn [layout header setCount count]. rewrite Hcnt, Hn.
    split; [rewrite length_upd, length_memmove; assumption|].
    split; [rewrite length_upd, length_memmove; assumption|].
    split; [lia|].
    split; [apply shiftInsert_bytes with (c := c); try lia; assumption|].
    split; [|apply shiftInsert_present with (k := k); try lia; assumption].
    apply shiftInsert_ascending with (c := c); try lia; try assumption.
    + intros i Hi. specialize (P2 i Hi).
      assert (signed8 (nth i k 0) <> signed8 (flipSign b)).
      { intros E. apply signed8_inj in E; [|apply Bk; lia|assumption].
        apply (Fresh i); [lia|assumption]. }
      lia.
    + intros i Hi. specialize (P3 ltac:(lia)).
      destruct (Nat.eq_dec i pos) as [->|Hne]; [assumption|].
      specialize (Ak pos i ltac:(lia)). lia.
  - intros b' Hb'. rewrite !childAt_Node16;
      cbn [count setCount];
      try (rewrite length_upd, length_memmove; assumption);
      try rewrite Hcnt; try lia.
    rewrite Hn. fold n.
    rewrite shiftInsert_keyChild; try lia; try assumption.
    destruct (Z.eqb_spec (flipSign b') (flipSign b)) as [E|E],
      (Z.eqb_spec b' b) as [E'|E']; try reflexivity.
    + apply flipSign_inj in E. contradiction.
    + subst. contradiction.
Qed.

(** * Copies between layouts *)

Lemma updated_sameNode n g n' b y :
  sameNode n g -> updated g n' b y -> updated n n' b y.
Proof.
  intros (G1 & G2 & G3 & G4 & G5) (U1 & U2 & U3 & U4 & U5).
  repeat (split; try assumption); try congruence.
  intros b' Hb'. rewrite U5 by assumption. rewrite G5 by assumption.
  reflexivity.
Qed.

Lemma scan4_ext k k' x x' n : forall i0,
  (forall i, (i0 <= i < i0 + n)%nat ->
             (nth i k' 0 =? x') = (nth i k 0 =? x)) ->
  scan4 k' x' n i0 = scan4 k x n i0.
Proof.
  induction n as [|n IH]; intros i0 H; simpl; [reflexivity|].
  rewrite H by lia. rewrite IH; [reflexivity|]. intros i Hi. apply H. lia.
Qed.

Lemma keyChild_ext k k' c c' x x' n :
  (forall i, (i < n)%nat -> (nth i k' 0 =? x') = (nth i k 0 =? x)) ->
  (forall i, (i < n)%nat -> nth i c' Null = nth i c Null) ->
  keyChild k' c' n x' = keyChild k c n x.
Proof.
  intros Hk Hc. unfold keyChild.
  rewrite (@scan4_ext k k' x x' n 0%nat) by (intros; apply Hk; lia).
  destruct (scan4 k x n 0) as [|i] eqn:E; [reflexivity|].
  apply scan4_Slot in E. apply Hc. lia.
Qed.

Lemma eqb_flipSign a b : (flipSign a =? b) = (a =? flipSign b).
Proof.
  destruct (Z.eqb_spec (flipSign a) b) as [E|E],
    (Z.eqb_spec a (flipSign b)) as [E'|E']; try reflexivity.
  - subst b. rewrite flipSign_involutive in E'. contradiction.
  - subst a. rewrite flipSign_involutive in E. contradiction.
Qed.

Lemma min_spec a b : min a b = Z.min a b.
Proof. unfold min. destruct (Z.ltb_spec a b); lia. Qed.

Lemma copyPrefix_facts src dst :
  length (prefix src) = 9%nat -> length (prefix dst) = 9%nat ->
  prefixLength (copyPrefix src dst) = prefixLength src /\
  count (copyPrefix src dst) = count dst /\
  length (prefix (copyPrefix src dst)) = 9%nat /\
  storedPrefix (copyPrefix src dst) = storedPrefix src.
Proof.
  intros H1 H2. unfold copyPrefix, storedPrefix.
  cbn [prefixLength count prefix].
  split; [reflexivity|]. split; [reflexivity|].
  split; [rewrite length_memmove; assumption|].
  assert (Hm : (Z.to_nat (min (prefixLength src) maxPrefixLength) <= 9)%nat)
    by (rewrite min_spec; unfold maxPrefixLength; lia).
  apply firstn_nth_eq with (d := 0);
    [rewrite length_memmove; lia|lia|].
  intros i Hi. rewrite nth_memmove by lia.
  destruct (Nat.leb_spec 0 i), (Nat.ltb_spec i (0 + Z.to_nat (min (prefixLength src) maxPrefixLength)));
    simpl; try lia.
  f_equal. lia.
Qed.

Lemma nth_overwrite_map (f : Z -> Z) k m n j :
  (m <= n)%nat -> (m <= length k)%nat -> (j < m)%nat ->
  nth j (overwrite (repeat 0 n) 0 (map f (firstn m k))) 0 = f (nth j k 0).
Proof.
  intros H1 H2 H3.
  assert (L : length (map f (firstn m k)) = m)
    by (rewrite length_map, length_firstn; lia).
  rewrite nth_overwrite by (rewrite repeat_length, L; lia). rewrite L.
  destruct (Nat.leb_spec 0 j), (Nat.ltb_spec j (0 + m)); simpl; try lia.
  rewrite Nat.sub_0_r.
  rewrite (nth_indep _ 0 (f 0)) by (rewrite L; lia).
  rewrite (map_nth f). rewrite nth_firstn.
  destruct (Nat.ltb_spec j m); [reflexivity|lia].
Qed.

Lemma nth_memmove_fresh (A : Type) (x : A) (c : list A) m n j :
  (m <= n)%nat -> (m <= length c)%nat ->
  nth j (memmove (repeat x n) 0 c 0 m) x =
  if (j <? m)%nat then nth j c x else x.
Proof.
  intros H1 H2. rewrite nth_memmove by (try rewrite repeat_length; lia).
  destruct (Nat.leb_spec 0 j), (Nat.ltb_spec j (0 + m)), (Nat.ltb_spec j m);
    simpl; try lia.
  - f_equal. lia.
  - apply nth_repeat_any.
Qed.

(** Growing a full Node4 into a Node16. *)
Lemma grow4_sameNode h k c :
  shape (Node4 h k c) -> count h = 4 ->
  sameNode (Node4 h k c)
    (Node16 (copyPrefix h (setCount newHeader 4))
       (overwrite (repeat 0 16) 0 (map flipSign (firstn 4 k)))
       (memmove (repeat Null 16) 0 c 0 (Z.to_nat (count h)))).
Proof.
  intros (Hp & Lk & Lc & Hc & Bk & Ak & Pc) E. cbn [header] in Hp.
  destruct (@copyPrefix_facts h (setCount newHeader 4) Hp eq_refl)
    as (C1 & C2 & C3 & C4).
  rewrite E in *. change (Z.to_nat 4) with 4%nat in *.
  assert (Lk' : length (overwrite (repeat 0 16) 0 (map flipSign (firstn 4 k)))
                = 16%nat) by (rewrite length_overwrite; reflexivity).
  assert (Lc' : length (memmove (repeat Null 16) 0 c 0 4) = 16%nat)
    by (rewrite length_memmove; reflexivity).
  assert (Cnt : count (copyPrefix h (setCount newHeader 4)) = 4)
    by (rewrite C2; reflexivity).
  unfold sameNode. cbn [isInner header].
  split; [reflexivity|]. split; [|split; [assumption|split; [assumption|]]].
  - split; [assumption|]. cbn [layout]. rewrite Cnt.
    change (Z.to_nat 4) with 4%nat.
    split; [assumption|]. split; [assumption|]. split; [lia|].
    split; [|split].
    + intros i Hi. rewrite nth_overwrite_map by lia.
      apply flipSign_byte. apply Bk. assumption.
    + intros i j Hij. rewrite !nth_overwrite_map by lia.
      rewrite !signed8_flipSign by (apply Bk; lia).
      specialize (Ak i j Hij). simpl in Ak. lia.
    + intros i Hi. rewrite nth_memmove_fresh by lia.
      destruct (Nat.ltb_spec i 4); [|lia]. apply Pc. assumption.
  - intros b Hb. rewrite childAt_Node16 by (try assumption; lia).
    rewrite childAt_Node4, Cnt, E. change (Z.to_nat 4) with 4%nat.
    apply keyChild_ext.
    + intros i Hi. rewrite nth_overwrite_map by lia.
      rewrite eqb_flipSign, flipSign_involutive. reflexivity.
    + intros i Hi. rewrite nth_memmove_fresh by lia.
      destruct (Nat.ltb_spec i 4); [reflexivity|lia].
Qed.

(** * Node256 *)

Lemma childAt_Node256 h c b :
  childAt (Node256 h c) b = nth (Z.to_nat b) c Null.
Proof. reflexivity. Qed.

Lemma nonNull_upd_fill i x c :
  (i < length c)%nat -> nth i c Null = Null -> x <> Null ->
  nonNull (upd i x c) = S (nonNull c).
Proof.
  intros H1 H2 H3. pose proof (nonNull_upd x c H1) as E.
  rewrite H2 in E. simpl in E.
  apply isNull_false in H3. rewrite H3 in E. lia.
Qed.

Lemma nonNull_upd_clear i c :
  (i < length c)%nat -> nth i c Null <> Null ->
  S (nonNull (upd i Null c)) = nonNull c.
Proof.
  intros H1 H2. pose proof (nonNull_upd Null c H1) as E.
  apply isNull_false in H2. rewrite H2 in E. simpl in E. lia.
Qed.

Lemma nonNull_upd_keep i x c :
  (i < length c)%nat -> nth i c Null <> Null -> x <> Null ->
  nonNull (upd i x c) = nonNull c.
Proof.
  intros H1 H2 H3. pose proof (nonNull_upd x c H1) as E.
  apply isNull_false in H2. apply isNull_false in H3.
  rewrite H2, H3 in E. lia.
Qed.

Lemma insertNode256_spec h c b y :
  shape (Node256 h c) -> 0 <= b < 256 ->
  childAt (Node256 h c) b = Null -> y <> Null ->
  exists n', insertNode256 (Node256 h c) b y = Some n' /\
             updated (Node256 h c) n' b y.
Proof.
  intros (Hp & Lc & Hc) Hb Hnull Hy. cbn [insertNode256].
  eexists. split; [reflexivity|].
  rewrite childAt_Node256 in Hnull.
  pose proof (nonNull_le c) as Le.
  unfold updated. cbn [isInner header setCount prefixLength prefix].
  split; [reflexivity|]. split; [|split; [reflexivity|split; [reflexivity|]]].
  - split; [assumption|]. cbn [layout count setCount].
    split; [rewrite length_upd; assumption|].
    rewrite nonNull_upd_fill by (try assumption; lia).
    rewrite wrap16_small by lia. lia.
  - intros b' Hb'. rewrite !childAt_Node256.
    rewrite nth_upd.
    destruct (Z.eqb_spec b' b) as [->|Hne].
    + rewrite Nat.eqb_refl.
      destruct (Nat.ltb_spec (Z.to_nat b) (length c)); [reflexivity|lia].
    + destruct (Nat.eqb_spec (Z.to_nat b') (Z.to_nat b)); [lia|reflexivity].
Qed.

(** * Node48 *)

Lemma childAt_Node48 h ci c b :
  childAt (Node48 h ci c) b =
  if nth (Z.to_nat b) ci emptyMarker =? emptyMarker then Null
  else nth (Z.to_nat (nth (Z.to_nat b) ci emptyMarker)) c Null.
Proof.
  unfold childAt. cbn [findChild].
  destruct (nth (Z.to_nat b) ci emptyMarker =? emptyMarker); reflexivity.
Qed.

Lemma present_le ci : (present ci <= length ci)%nat.
Proof.
  induction ci as [|x r IH]; simpl; [lia|].
  destruct (x =? emptyMarker); lia.
Qed.

Lemma present_repeat n : present (repeat emptyMarker n) = 0%nat.
Proof. induction n; simpl; auto. Qed.

Lemma present_upd i x ci :
  (i < length ci)%nat ->
  (present (upd i x ci) +
   (if (nth i ci emptyMarker =? emptyMarker)%Z then 0 else 1) =
   present ci + (if (x =? emptyMarker)%Z then 0 else 1))%nat.
Proof.
  revert i; induction ci as [|y r IH]; intros [|i] H; simpl in *; try lia.
  specialize (IH i ltac:(lia)). lia.
Qed.

Lemma nonNull_present l : forall ci,
  length l = length ci ->
  (forall i, (i < length ci)%nat ->
             isNull (nth i l Null) = (nth i ci emptyMarker =? emptyMarker)) ->
  nonNull l = present ci.
Proof.
  induction l as [|x r IH]; intros [|y ci] H1 H2; simpl in *;
    try discriminate; [reflexivity|].
  pose proof (H2 0%nat ltac:(lia)) as E. simpl in E. rewrite E.
  f_equal. apply IH; [lia|]. intros i Hi. apply (H2 (S i)). lia.
Qed.

Lemma childAt48_Null_index h ci c b :
  shape (Node48 h ci c) -> 0 <= b < 256 ->
  childAt (Node48 h ci c) b = Null -> nth (Z.to_nat b) ci emptyMarker = 48.
Proof.
  intros (Hp & Lci & Lc & Hn & Hpr & Rg & Ref & Inj) Hb E.
  rewrite childAt_Node48 in E.
  destruct (Z.eqb_spec (nth (Z.to_nat b) ci emptyMarker) emptyMarker)
    as [E1|E1]; [assumption|].
  exfalso. apply (Ref (Z.to_nat b)); [lia|assumption|assumption].
Qed.

Lemma insertNode48_room h ci c b y :
  shape (Node48 h ci c) -> count h < 48 -> 0 <= b < 256 ->
  childAt (Node48 h ci c) b = Null -> y <> Null ->
  exists n', insertNode48 (Node48 h ci c) b y = Some n' /\
             updated (Node48 h ci c) n' b y.
Proof.
  intros Sh Hroom Hb Hnull Hy.
  pose proof (childAt48_Null_index Sh Hb Hnull) as Eb.
  destruct Sh as (Hp & Lci & Lc & Hn & Hpr & Rg & Ref & Inj).
  cbn [insertNode48].
  destruct (Z.ltb_spec (count h) 48) as [_|]; [|lia].
  assert (Hpos : exists pos,
             (if isNull (nth (Z.to_nat (count h)) c Null)
              then Some (Z.to_nat (count h)) else firstNull c 0) = Some pos /\
             (pos < 48)%nat /\ nth pos c Null = Null).
  { destruct (isNull (nth (Z.to_nat (count h)) c Null)) eqn:E.
    - exists (Z.to_nat (count h)). split; [reflexivity|]. split; [lia|].
      apply isNull_true. assumption.
    - destruct (@firstNull_spec c 0%nat) as (i & E1 & E2 & E3); [lia|].
      exists i. split; [assumption|]. split; [lia|assumption]. }
  destruct Hpos as (pos & -> & Hlt & Hfree). cbn [bind].
  eexists. split; [reflexivity|].
  assert (Hw : wrap8 (Z.of_nat pos) = Z.of_nat pos)
    by (apply wrap8_small; lia).
  assert (Hunref : forall b', (b' < 256)%nat ->
            nth b' ci emptyMarker <> 48 ->
            Z.to_nat (nth b' ci emptyMarker) <> pos).
  { intros b' Hb' Hne E. apply (Ref b' Hb' Hne). rewrite E. assumption. }
  unfold updated. cbn [isInner header setCount prefixLength prefix].
  split; [reflexivity|]. split; [|split; [reflexivity|split; [reflexivity|]]].
  - split; [assumption|]. cbn [layout count setCount]. rewrite Hw.
    split; [rewrite length_upd; assumption|].
    split; [rewrite length_upd; assumption|].
    split; [rewrite nonNull_upd_fill by (try assumption; lia);
            rewrite wrap16_small by lia; lia|].
    split.
    { pose proof (@present_upd (Z.to_nat b) (Z.of_nat pos) ci ltac:(lia)) as E.
      rewrite Eb in E. change (48 =? emptyMarker) with true in E.
      destruct (Z.eqb_spec (Z.of_nat pos) emptyMarker);
        [unfold emptyMarker in *; lia|].
      rewrite wrap16_small by lia. lia. }
    split; [|split].
    + intros b' Hb'. rewrite nth_upd.
      destruct (Nat.eqb (b') (Z.to_nat b) && Nat.ltb (Z.to_nat b) (length ci))%bool;
        [lia|apply Rg; assumption].
    + intros b' Hb'. rewrite nth_upd.
      destruct (Nat.eqb_spec b' (Z.to_nat b)) as [->|Hne]; simpl.
      * destruct (Nat.ltb_spec (Z.to_nat b) (length ci)); [|lia].
        intros _. rewrite Nat2Z.id. rewrite nth_upd_same by lia. assumption.
      * intros Hne'. rewrite nth_upd_other
          by (intros E; apply (Hunref b' Hb' Hne'); congruence).
        apply Ref; assumption.
    + intros b1 b2 H1 H2. rewrite !nth_upd.
      destruct (Nat.eqb_spec b1 (Z.to_nat b)) as [->|N1],
        (Nat.eqb_spec b2 (Z.to_nat b)) as [->|N2];
        destruct (Nat.ltb_spec (Z.to_nat b) (length ci)); simpl; try lia;
        intros Hne E.
      * exfalso. apply (Hunref b2 H2); [rewrite <- E; unfold emptyMarker in *; lia|].
        rewrite <- E. lia.
      * exfalso. apply (Hunref b1 H1 Hne). rewrite E. lia.
      * apply Inj; assumption.
  - intros b' Hb'. rewrite !childAt_Node48. rewrite Hw. rewrite nth_upd.
    destruct (Z.eqb_spec b' b) as [->|Hne].
    + rewrite Nat.eqb_refl.
      destruct (Nat.ltb_spec (Z.to_nat b) (length ci)); [|lia]. simpl.
      destruct (Z.eqb_spec (Z.of_nat pos) emptyMarker);
        [unfold emptyMarker in *; lia|].
      rewrite Nat2Z.id. apply nth_upd_same. lia.
    + destruct (Nat.eqb_spec (Z.to_nat b') (Z.to_nat b)); [lia|]. simpl.
      destruct (Z.eqb_spec (nth (Z.to_nat b') ci emptyMarker) emptyMarker)
        as [E|E]; [reflexivity|].
      apply nth_upd_other. intros E'.
      apply (Hunref (Z.to_nat b')); [lia|assumption|congruence].
Qed.

(** * Growing Node16 and Node48 *)

Lemma nonNull_prefix c : forall m,
  (m <= length c)%nat ->
  (forall i, (i < m)%nat -> nth i c Null <> Null) ->
  (forall i, (m <= i)%nat -> nth i c Null = Null) ->
  nonNull c = m.
Proof.
  induction c as [|x r IH]; intros m H1 H2 H3; simpl in *; [lia|].
  destruct m as [|m].
  - pose proof (H3 0%nat ltac:(lia)) as E. simpl in E. subst x. simpl.
    apply (IH 0%nat); [lia|intros; lia|].
    intros i Hi. apply (H3 (S i)). lia.
  - pose proof (H2 0%nat ltac:(lia)) as E. simpl in E.
    apply isNull_false in E. rewrite E. simpl. f_equal.
    apply IH; [lia| |].
    + intros i Hi. apply (H2 (S i)). lia.
    + intros i Hi. apply (H3 (S i)). lia.
Qed.

Lemma grow16Index_S k m :
  grow16Index k (S m) =
  upd (Z.to_nat (flipSign (nth m k 0))) (Z.of_nat m) (grow16Index k m).
Proof.
  unfold grow16Index. rewrite seq_S, fold_left_app. reflexivity.
Qed.

Lemma grow16Index_spec k m :
  (m <= 16)%nat -> bytesIn k m -> distinctKeys k m ->
  length (grow16Index k m) = 256%nat /\
  present (grow16Index k m) = m /\
  (forall i, (i < m)%nat ->
     nth (Z.to_nat (flipSign (nth i k 0))) (grow16Index k m) emptyMarker
     = Z.of_nat i) /\
  (forall b, (forall i, (i < m)%nat -> Z.to_nat (flipSign (nth i k 0)) <> b) ->
     nth b (grow16Index k m) emptyMarker = 48).
Proof.
  induction m as [|m IH]; intros Hm Bk Dk.
  - change (grow16Index k 0) with (repeat emptyMarker 256).
    split; [apply repeat_length|]. split; [apply present_repeat|].
    split; [intros; lia|]. intros b _.
    apply (nth_repeat_any emptyMarker 256 b).
  - destruct IH as (I1 & I2 & I3 & I4);
      [lia|intros i Hi; apply Bk; lia|intros i j Hi Hj; apply Dk; lia|].
    rewrite grow16Index_S.
    assert (Hb : forall i, (i < S m)%nat ->
                   (Z.to_nat (flipSign (nth i k 0%Z)) < 256)%nat).
    { intros i Hi. destruct (flipSign_byte (Bk i Hi)). lia. }
    assert (Hd : forall i, (i < m)%nat ->
                   Z.to_nat (flipSign (nth i k 0)) <>
                   Z.to_nat (flipSign (nth m k 0))).
    { intros i Hi E.
      destruct (flipSign_byte (Bk i ltac:(lia))).
      destruct (flipSign_byte (Bk m ltac:(lia))).
      assert (E' : flipSign (nth i k 0) = flipSign (nth m k 0)) by lia.
      apply flipSign_inj in E'. apply Dk in E'; lia. }
    split; [rewrite length_upd; assumption|]. split; [|split].
    + pose proof (@present_upd (Z.to_nat (flipSign (nth m k 0)))
                    (Z.of_nat m) (grow16Index k m)
                    ltac:(rewrite I1; apply Hb; lia)) as E.
      rewrite (I4 _ (fun i Hi => Hd i Hi)) in E.
      change (48 =? emptyMarker) with true in E.
      destruct (Z.eqb_spec (Z.of_nat m) emptyMarker);
        [unfold emptyMarker in *; lia|]. lia.
    + intros i Hi. destruct (Nat.eq_dec i m) as [->|Hne].
      * apply nth_upd_same. rewrite I1. apply Hb. lia.
      * rewrite nth_upd_other by (intros E; apply (Hd i); [lia|congruence]).
        apply I3. lia.
    + intros b Hmiss. rewrite nth_upd_other.
      * apply I4. intros i Hi. apply Hmiss. lia.
      * apply Hmiss. lia.
Qed.

Lemma grow16_sameNode h k c :
  shape (Node16 h k c) -> count h = 16 ->
  sameNode (Node16 h k c)
    (Node48 (setCount (copyPrefix h newHeader) (count h))
       (grow16Index k (Z.to_nat (count h)))
       (memmove (repeat Null 48) 0 c 0 (Z.to_nat (count h)))).
Proof.
  intros (Hp & Lk & Lc & Hc & Bk & Ak & Pc) E. cbn [header] in Hp.
  destruct (@copyPrefix_facts h newHeader Hp eq_refl) as (C1 & C2 & C3 & C4).
  rewrite E in *. change (Z.to_nat 16) with 16%nat in *.
  pose proof (ascendingBy_distinct Ak) as Dk.
  destruct (@grow16Index_spec k 16 ltac:(lia) Bk Dk) as (G1 & G2 & G3 & G4).
  set (ci := grow16Index k 16) in *.
  set (c' := memmove (repeat Null 48) 0 c 0 16).
  assert (Hc' : forall j, nth j c' Null =
                          if (j <? 16)%nat then nth j c Null else Null).
  { intros j. unfold c'. apply nth_memmove_fresh; lia. }
  assert (Hci : forall b, (b < 256)%nat ->
            (exists i, (i < 16)%nat /\ nth i k 0 = flipSign (Z.of_nat b) /\
                       nth b ci emptyMarker = Z.of_nat i) \/
            ((forall i, (i < 16)%nat -> nth i k 0 <> flipSign (Z.of_nat b)) /\
             nth b ci emptyMarker = 48)).
  { intros b Hb.
    destruct (key_dec k 16 (flipSign (Z.of_nat b))) as [[i [Hi Ei]]|Hmiss].
    - left. exists i. split; [assumption|]. split; [assumption|].
      rewrite <- (G3 i Hi). f_equal. rewrite Ei, flipSign_involutive. lia.
    - right. split; [assumption|]. apply G4. intros i Hi Eq.
      apply (Hmiss i Hi). rewrite <- Eq.
      destruct (flipSign_byte (Bk i Hi)).
      rewrite Z2Nat.id by lia. rewrite flipSign_involutive. reflexivity. }
  unfold sameNode. cbn [isInner header setCount prefixLength prefix].
  split; [reflexivity|]. split; [|split; [assumption|split; [assumption|]]].
  - split; [assumption|]. cbn [layout count setCount].
    split; [assumption|].
    split; [unfold c'; rewrite length_memmove; reflexivity|].
    split.
    { rewrite (@nonNull_prefix c' 16); [reflexivity| | |].
      - unfold c'. rewrite length_memmove. simpl. lia.
      - intros i Hi. rewrite Hc'. destruct (Nat.ltb_spec i 16); [|lia].
        apply Pc. assumption.
      - intros i Hi. rewrite Hc'. destruct (Nat.ltb_spec i 16); [lia|].
        reflexivity. }
    split; [rewrite G2; reflexivity|].
    split; [|split].
    + intros b Hb. destruct (Hci b Hb) as [(i & Hi & _ & ->)|[_ ->]]; lia.
    + intros b Hb Hne.
      destruct (Hci b Hb) as [(i & Hi & _ & Ei)|[_ Ei]]; [|congruence].
      rewrite Ei, Nat2Z.id, Hc'. destruct (Nat.ltb_spec i 16); [|lia].
      apply Pc. assumption.
    + intros b1 b2 H1 H2 Hne Eq.
      destruct (Hci b1 H1) as [(i1 & Hi1 & K1 & E1)|[_ E1]]; [|congruence].
      destruct (Hci b2 H2) as [(i2 & Hi2 & K2 & E2)|[_ E2]]; [|congruence].
      assert (i1 = i2) by lia. subst i2.
      assert (F : flipSign (Z.of_nat b1) = flipSign (Z.of_nat b2)) by congruence.
      apply flipSign_inj in F. lia.
  - intros b Hb. rewrite childAt_Node48.
    rewrite childAt_Node16 by (try assumption; lia).
    rewrite E. change (Z.to_nat 16) with 16%nat.
    destruct (Hci (Z.to_nat b) ltac:(lia)) as [(i & Hi & K & Ei)|[K Ei]];
      rewrite Z2Nat.id in K by lia; fold ci; rewrite Ei.
    + destruct (Z.eqb_spec (Z.of_nat i) emptyMarker);
        [unfold emptyMarker in *; lia|].
      rewrite Nat2Z.id, Hc'. destruct (Nat.ltb_spec i 16); [|lia].
      symmetry. apply keyChild_hit; assumption.
    + change (48 =? emptyMarker) with true. cbv iota.
      symmetry. apply keyChild_miss. assumption.
Qed.

Lemma nth_grow48Children ci c b :
  (b < 256)%nat ->
  nth b (grow48Children ci c) Null =
  if nth b ci emptyMarker =? 48 then Null
  else nth (Z.to_nat (nth b ci emptyMarker)) c Null.
Proof.
  intros H. unfold grow48Children.
  set (f := fun i : nat => if nth i ci emptyMarker =? 48 then Null
                           else nth (Z.to_nat (nth i ci emptyMarker)) c Null).
  rewrite (nth_indep _ Null (f 0%nat))
    by (rewrite length_map, length_seq; assumption).
  rewrite (map_nth f). rewrite seq_nth by assumption. reflexivity.
Qed.

Lemma grow48_sameNode h ci c :
  shape (Node48 h ci c) ->
  sameNode (Node48 h ci c)
    (Node256 (copyPrefix h (setCount newHeader (count h)))
       (grow48Children ci c)).
Proof.
  intros (Hp & Lci & Lc & Hn & Hpr & Rg & Ref & Inj). cbn [header] in Hp.
  destruct (@copyPrefix_facts h (setCount newHeader (count h)) Hp eq_refl)
    as (C1 & C2 & C3 & C4).
  assert (Lg : length (grow48Children ci c) = 256%nat)
    by (unfold grow48Children; rewrite length_map, length_seq; reflexivity).
  unfold sameNode. cbn [isInner header].
  split; [reflexivity|]. split; [|split; [assumption|split; [assumption|]]].
  - split; [assumption|]. cbn [layout]. split; [assumption|].
    rewrite C2. cbn [count setCount]. rewrite Hpr. f_equal. symmetry.
    apply nonNull_present; [congruence|].
    intros i Hi. rewrite nth_grow48Children by lia.
    change emptyMarker with 48 in *.
    destruct (Z.eqb_spec (nth i ci 48) 48) as [E|E]; [reflexivity|].
    apply isNull_false. apply Ref; [lia|assumption].
  - intros b Hb. rewrite childAt_Node256, childAt_Node48.
    rewrite nth_grow48Children by lia. reflexivity.
Qed.

(** * Inserting into any inner node *)

Lemma sameNode_childAt n g b :
  sameNode n g -> 0 <= b < 256 -> childAt n b = Null -> childAt g b = Null.
Proof.
  intros (_ & _ & _ & _ & G) Hb E. rewrite G by assumption. assumption.
Qed.

Theorem insertNode_spec n b y :
  isInner n = true -> shape n -> 0 <= b < 256 ->
  childAt n b = Null -> y <> Null ->
  exists n', insertNode n b y = Some n' /\ updated n n' b y.
Proof.
  intros Hin Sh Hb Hnull Hy.
  destruct n as [| |h k c|h k c|h ci c|h c]; try discriminate;
    cbn [insertNode].
  - (* Node4 *)
    destruct (Z_lt_dec (count h) 4) as [L|L].
    + apply insertNode4_room; assumption.
    + assert (E : count h = 4) by (destruct Sh as (_ & _ & _ & ? & _); lia).
      pose proof (grow4_sameNode Sh E) as G.
      cbn [insertNode4]. destruct (Z.ltb_spec (count h) 4); [lia|].
      destruct (@insertNode16_room _ _ _ b y (proj1 (proj2 G)))
        as (n' & E1 & U); try assumption.
      * assert (C2 : count (copyPrefix h (setCount newHeader 4)) = 4).
        { destruct Sh as [Hp _].
          destruct (@copyPrefix_facts h (setCount newHeader 4) Hp eq_refl)
            as (_ & C2 & _).
          rewrite C2. reflexivity. }
        rewrite C2. lia.
      * apply (sameNode_childAt G); assumption.
      * exists n'. split; [assumption|].
        apply (updated_sameNode G U).
  - (* Node16 *)
    destruct (Z_lt_dec (count h) 16) as [L|L].
    + apply insertNode16_room; assumption.
    + assert (E : count h = 16) by (destruct Sh as (_ & _ & _ & ? & _); lia).
      pose proof (grow16_sameNode Sh E) as G.
      cbn [insertNode16]. destruct (Z.ltb_spec (count h) 16); [lia|].
      destruct (@insertNode48_room _ _ _ b y (proj1 (proj2 G)))
        as (n' & E1 & U); try assumption.
      * cbn [count setCount]. lia.
      * apply (sameNode_childAt G); assumption.
      * exists n'. split; [assumption|].
        apply (updated_sameNode G U).
  - (* Node48 *)
    destruct (Z_lt_dec (count h) 48) as [L|L].
    + apply insertNode48_room; assumption.
    + pose proof (grow48_sameNode Sh) as G.
      cbn [insertNode48]. destruct (Z.ltb_spec (count h) 48); [lia|].
      destruct (@insertNode256_spec _ _ b y (proj1 (proj2 G)))
        as (n' & E1 & U); try assumption.
      * apply (sameNode_childAt G); assumption.
      * exists n'. split; [assumption|].
        apply (updated_sameNode G U).
  - (* Node256 *)
    apply insertNode256_spec; assumption.
Qed.

(** * Child slots *)

Lemma findChild_bound n b i :
  isInner n = true -> shape n -> 0 <= b < 256 ->
  findChild n b = Slot i ->
  (i < length (children n))%nat /\ nth i (children n) Null = childAt n b.
Proof.
  intros Hin Sh Hb E. unfold childAt. rewrite E. cbn [deref].
  split; [|reflexivity].
  destruct n as [| |h k c|h k c|h ci c|h c]; try discriminate;
    cbn [children].
  - destruct (@findChild_Node4_bound _ _ _ b i Sh E) as [H _].
    destruct Sh as (_ & _ & Lc & Hc & _). lia.
  - destruct (@findChild_Node16_bound _ _ _ b i Sh E) as [H _].
    destruct Sh as (_ & _ & Lc & Hc & _). lia.
  - destruct Sh as (Hp & Lci & Lc & Hn & Hpr & Rg & Ref & Inj).
    cbn [findChild] in E.
    destruct (Z.eqb_spec (nth (Z.to_nat b) ci emptyMarker) emptyMarker)
      as [E1|E1]; [discriminate|].
    inversion E; subst i.
    specialize (Rg (Z.to_nat b) ltac:(lia)). unfold emptyMarker in *. lia.
  - destruct Sh as (Hp & Lc & Hc). cbn [findChild] in E.
    inversion E; subst i. lia.
Qed.

Lemma keyChild_upd k c n i x' y :
  distinctKeys k n -> (i < n)%nat -> (n <= length c)%nat ->
  keyChild k (upd i y c) n x' =
  if x' =? nth i k 0 then y else keyChild k c n x'.
Proof.
  intros D Hi Hn.
  destruct (Z.eqb_spec x' (nth i k 0)) as [->|Hne].
  - rewrite (@keyChild_hit k (upd i y c) n i (nth i k 0) D Hi eq_refl).
    apply nth_upd_same. lia.
  - destruct (key_dec k n x') as [[j [Hj Ej]]|Hmiss].
    + rewrite (@keyChild_hit k (upd i y c) n j x' D Hj Ej).
      rewrite (@keyChild_hit k c n j x' D Hj Ej).
      apply nth_upd_other. congruence.
    + rewrite !keyChild_miss by assumption. reflexivity.
Qed.

Lemma presentIn_upd c n i y :
  presentIn c n -> y <> Null -> presentIn (upd i y c) n.
Proof.
  intros P Hy j Hj. rewrite nth_upd.
  destruct (Nat.eqb j i && Nat.ltb i (length c))%bool;
    [assumption|apply P; assumption].
Qed.

Theorem setChild_spec n b i y :
  isInner n = true -> shape n -> 0 <= b < 256 ->
  findChild n b = Slot i -> childAt n b <> Null -> y <> Null ->
  updated n (setChild n i y) b y.
Proof.
  intros Hin Sh Hb E Hc Hy.
  destruct n as [| |h k c|h k c|h ci c|h c]; try discriminate;
    cbn [setChild]; unfold updated; cbn [isInner header];
    (split; [reflexivity|]);
    (split; [|split; [reflexivity|split; [reflexivity|]]]).
  - destruct (@findChild_Node4_bound _ _ _ b i Sh E) as [Hi Ei].
    destruct Sh as (Hp & Lk & Lc & Hcn & Bk & Ak & Pc).
    split; [assumption|]. cbn [layout].
    repeat (split; [first [assumption|rewrite length_upd; assumption]|]).
    apply presentIn_upd; assumption.
  - destruct (@findChild_Node4_bound _ _ _ b i Sh E) as [Hi Ei].
    destruct Sh as (Hp & Lk & Lc & Hcn & Bk & Ak & Pc).
    intros b' Hb'. rewrite !childAt_Node4.
    rewrite keyChild_upd; [rewrite Ei; reflexivity| |assumption|lia].
    exact (ascendingBy_distinct Ak).
  - destruct (@findChild_Node16_bound _ _ _ b i Sh E) as [Hi Ei].
    destruct Sh as (Hp & Lk & Lc & Hcn & Bk & Ak & Pc).
    split; [assumption|]. cbn [layout].
    repeat (split; [first [assumption|rewrite length_upd; assumption]|]).
    apply presentIn_upd; assumption.
  - destruct (@findChild_Node16_bound _ _ _ b i Sh E) as [Hi Ei].
    destruct Sh as (Hp & Lk & Lc & Hcn & Bk & Ak & Pc).
    intros b' Hb'. rewrite !childAt_Node16 by assumption.
    rewrite keyChild_upd; [|exact (ascendingBy_distinct Ak)|assumption|lia].
    rewrite Ei.
    destruct (Z.eqb_spec (flipSign b') (flipSign b)) as [F|F],
      (Z.eqb_spec b' b) as [F'|F']; try reflexivity.
    + apply flipSign_inj in F. contradiction.
    + subst. contradiction.
  - destruct (@findChild_bound _ b i Hin Sh Hb E) as [Hi Ec].
    cbn [children] in Hi, Ec.
    destruct Sh as (Hp & Lci & Lc & Hn & Hpr & Rg & Ref & Inj).
    split; [assumption|]. cbn [layout].
    split; [assumption|]. split; [rewrite length_upd; assumption|].
    split; [rewrite nonNull_upd_keep by (try assumption; congruence);
            assumption|].
    split; [assumption|]. split; [assumption|]. split; [|assumption].
    intros b' Hb' Hne. rewrite nth_upd.
    destruct (Nat.eqb (Z.to_nat (nth b' ci emptyMarker)) i &&
              Nat.ltb i (length c))%bool; [assumption|].
    apply Ref; assumption.
  - destruct (@findChild_bound _ b i Hin Sh Hb E) as [Hi Ec].
    cbn [children] in Hi, Ec.
    destruct Sh as (Hp & Lci & Lc & Hn & Hpr & Rg & Ref & Inj).
    cbn [findChild] in E.
    destruct (Z.eqb_spec (nth (Z.to_nat b) ci emptyMarker) emptyMarker)
      as [E1|E1]; [discriminate|].
    inversion E; subst i.
    intros b' Hb'. rewrite !childAt_Node48.
    destruct (Z.eqb_spec (nth (Z.to_nat b') ci emptyMarker) emptyMarker)
      as [E2|E2].
    + destruct (Z.eqb_spec b' b) as [->|Hne]; [contradiction|reflexivity].
    + rewrite nth_upd.
      destruct (Z.eqb_spec b' b) as [->|Hne].
      * rewrite Nat.eqb_refl.
        destruct (Nat.ltb_spec (Z.to_nat (nth (Z.to_nat b) ci emptyMarker))
                    (length c)); [reflexivity|lia].
      * destruct (Nat.eqb_spec (Z.to_nat (nth (Z.to_nat b') ci emptyMarker))
                    (Z.to_nat (nth (Z.to_nat b) ci emptyMarker))) as [F|F];
          [|reflexivity].
        exfalso. apply Hne.
        pose proof (Rg (Z.to_nat b') ltac:(lia)).
        pose proof (Rg (Z.to_nat b) ltac:(lia)).
        assert (Z.to_nat b' = Z.to_nat b)
          by (apply Inj; [lia|lia|assumption|lia]).
        lia.
  - destruct Sh as (Hp & Lc & Hcn). cbn [findChild] in E.
    inversion E; subst i. rewrite childAt_Node256 in Hc.
    split; [assumption|]. cbn [layout].
    split; [rewrite length_upd; assumption|].
    rewrite nonNull_upd_keep by (try assumption; lia). assumption.
  - destruct Sh as (Hp & Lc & Hcn). cbn [findChild] in E.
    inversion E; subst i.
    intros b' Hb'. rewrite !childAt_Node256. rewrite nth_upd.
    destruct (Z.eqb_spec b' b) as [->|Hne].
    + rewrite Nat.eqb_refl.
      destruct (Nat.ltb_spec (Z.to_nat b) (length c)); [reflexivity|lia].
    + destruct (Nat.eqb_spec (Z.to_nat b') (Z.to_nat b)); [lia|reflexivity].
Qed.

(** * Erasing from Node4 and Node16 *)

Lemma updated_then_same n m g b y :
  updated n m b y -> sameNode m g -> updated n g b y.
Proof.
  intros (U1 & U2 & U3 & U4 & U5) (G1 & G2 & G3 & G4 & G5).
  repeat (split; try assumption); try congruence.
  intros b' Hb'. rewrite G5 by assumption. apply U5. assumption.
Qed.

Lemma eraseNode4_keep h k c b i :
  shape (Node4 h k c) -> findChild (Node4 h k c) b = Slot i ->
  count h <> 2 ->
  exists n', eraseNode4 (Node4 h k c) i = Some n' /\
             updated (Node4 h k c) n' b Null.
Proof.
  intros Sh E Hne.
  destruct (@findChild_Node4_bound _ _ _ b i Sh E) as [Hi Ei].
  destruct Sh as (Hp & Lk & Lc & Hc & Bk & Ak & Pc).
  cbn [eraseNode4].
  assert (Hw : wrap16 (count h - 1) = count h - 1)
    by (apply wrap16_small; lia).
  rewrite Hw. destruct (Z.eqb_spec (count h - 1) 1) as [|_]; [lia|].
  eexists. split; [reflexivity|].
  set (n := Z.to_nat (count h)) in *.
  assert (Hn : Z.to_nat (count h - 1) = (n - 1)%nat) by (unfold n; lia).
  pose proof (ascendingBy_distinct Ak) as Dk.
  unfold updated. cbn [isInner header setCount prefixLength prefix].
  split; [reflexivity|]. split; [|split; [reflexivity|split; [reflexivity|]]].
  - split; [assumption|]. cbn [layout count setCount]. rewrite Hn.
    split; [rewrite length_memmove; assumption|].
    split; [rewrite length_memmove; assumption|].
    split; [lia|].
    split; [apply shiftErase_bytes with (c := c); try lia; assumption|].
    split; [apply shiftErase_ascending with (c := c); try lia; assumption|].
    apply shiftErase_present with (k := k); try lia; assumption.
  - intros b' Hb'. rewrite !childAt_Node4. cbn [count setCount].
    rewrite Hn. fold n.
    rewrite shiftErase_keyChild by (try lia; assumption).
    rewrite Ei. reflexivity.
Qed.

Lemma eraseNode4_collapse h k c b i :
  shape (Node4 h k c) -> findChild (Node4 h k c) b = Slot i ->
  count h = 2 ->
  exists b0 x,
    0 <= b0 < 256 /\ b0 <> b /\ childAt (Node4 h k c) b0 = x /\ x <> Null /\
    (forall b', b' <> b -> b' <> b0 -> childAt (Node4 h k c) b' = Null) /\
    eraseNode4 (Node4 h k c) i =
    Some (if isLeaf x then x
          else setHeader x (concatPrefix h b0 (header x))).
Proof.
  intros Sh E Hcnt.
  destruct (@findChild_Node4_bound _ _ _ b i Sh E) as [Hi Ei].
  destruct Sh as (Hp & Lk & Lc & Hc & Bk & Ak & Pc).
  rewrite Hcnt in *. change (Z.to_nat 2) with 2%nat in *.
  pose proof (ascendingBy_distinct Ak) as Dk.
  set (o := (1 - i)%nat).
  assert (Ho : (o < 2)%nat /\ o <> i) by (unfold o; lia).
  exists (nth o k 0), (nth o c Null).
  split; [apply Bk; lia|].
  split; [intros F; rewrite <- Ei in F; apply Dk in F; lia|].
  split; [rewrite childAt_Node4, Hcnt; change (Z.to_nat 2) with 2%nat;
          apply keyChild_hit; [assumption|lia|reflexivity]|].
  split; [apply Pc; lia|].
  split.
  - intros b' N1 N2. rewrite childAt_Node4, Hcnt.
    change (Z.to_nat 2) with 2%nat. apply keyChild_miss.
    intros j Hj F. destruct (Nat.eq_dec j i) as [->|Hji]; [congruence|].
    assert (j = o) by (unfold o; lia). subst j. congruence.
  - cbn [eraseNode4]. rewrite Hcnt. change (wrap16 (2 - 1) =? 1) with true.
    cbv iota. change (Z.to_nat 2) with 2%nat.
    rewrite !nth_shiftErase by lia.
    assert (Eo : (if (i <=? 0)%nat && (0 <? 2 - 1)%nat then 1 else 0)%nat = o).
    { unfold o. destruct i as [|[|i]]; simpl; try reflexivity; lia. }
    assert (Ec : (if (i <=? 0)%nat && (0 <? 2 - 1)%nat
                  then nth (0 + 1) c Null else nth 0 c Null) = nth o c Null).
    { unfold o. destruct i as [|[|i]]; simpl; try reflexivity; lia. }
    assert (Ek : (if (i <=? 0)%nat && (0 <? 2 - 1)%nat
                  then nth (0 + 1) k 0 else nth 0 k 0) = nth o k 0).
    { unfold o. destruct i as [|[|i]]; simpl; try reflexivity; lia. }
    rewrite Ec, Ek.
    pose proof (Pc o ltac:(lia)) as Hx.
    destruct (nth o c Null); try reflexivity. contradiction.
Qed.

Lemma shrink16_sameNode hm k c :
  shape (Node16 hm k c) -> count hm = 3 ->
  sameNode (Node16 hm k c)
    (Node4 (copyPrefix hm (setCount newHeader 3))
       (overwrite (repeat 0 4) 0 (map flipSign (firstn 4 k)))
       (memmove (repeat Null 4) 0 c 0 4)).
Proof.
  intros (Hp & Lk & Lc & Hc & Bk & Ak & Pc) E. cbn [header] in Hp.
  destruct (@copyPrefix_facts hm (setCount newHeader 3) Hp eq_refl)
    as (C1 & C2 & C3 & C4).
  rewrite E in *. change (Z.to_nat 3) with 3%nat in *.
  assert (Cnt : count (copyPrefix hm (setCount newHeader 3)) = 3)
    by (rewrite C2; reflexivity).
  unfold sameNode. cbn [isInner header].
  split; [reflexivity|]. split; [|split; [assumption|split; [assumption|]]].
  - split; [assumption|]. cbn [layout]. rewrite Cnt.
    change (Z.to_nat 3) with 3%nat.
    split; [rewrite length_overwrite; reflexivity|].
    split; [rewrite length_memmove; reflexivity|].
    split; [lia|]. split; [|split].
    + intros i Hi. rewrite nth_overwrite_map by lia.
      apply flipSign_byte. apply Bk. assumption.
    + intros i j Hij. rewrite !nth_overwrite_map by lia.
      pose proof (Ak i j Hij) as A1.
      destruct (flipSign_byte (Bk i ltac:(lia))) as [F1 _].
      destruct (flipSign_byte (Bk j ltac:(lia))) as [F2 _].
      lia.
    + intros i Hi. rewrite nth_memmove_fresh by lia.
      destruct (Nat.ltb_spec i 4); [|lia]. apply Pc. assumption.
  - intros b Hb. rewrite childAt_Node16 by (try assumption; lia).
    rewrite childAt_Node4, Cnt, E. change (Z.to_nat 3) with 3%nat.
    apply keyChild_ext.
    + intros i Hi. rewrite nth_overwrite_map by lia.
      apply eqb_flipSign.
    + intros i Hi. rewrite nth_memmove_fresh by lia.
      destruct (Nat.ltb_spec i 4); [reflexivity|lia].
Qed.

Lemma eraseNode16_spec h k c b i :
  shape (Node16 h k c) -> 0 <= b < 256 ->
  findChild (Node16 h k c) b = Slot i ->
  exists n', eraseNode16 (Node16 h k c) i = Some n' /\
             updated (Node16 h k c) n' b Null.
Proof.
  intros Sh Hb E.
  destruct (@findChild_Node16_bound _ _ _ b i Sh E) as [Hi Ei].
  destruct Sh as (Hp & Lk & Lc & Hc & Bk & Ak & Pc).
  assert (Hw : wrap16 (count h - 1) = count h - 1)
    by (apply wrap16_small; lia).
  set (n := Z.to_nat (count h)) in *.
  assert (Hn : Z.to_nat (count h - 1) = (n - 1)%nat) by (unfold n; lia).
  pose proof (ascendingBy_distinct Ak) as Dk.
  set (mid := Node16 (setCount h (count h - 1))
                     (memmove k i k (S i) (n - i - 1))
                     (memmove c i c (S i) (n - i - 1))).
  assert (Lk1 : length (memmove k i k (S i) (n - i - 1)) = 16%nat)
    by (rewrite length_memmove; assumption).
  assert (Um : updated (Node16 h k c) mid b Null).
  { unfold updated, mid. cbn [isInner header setCount prefixLength prefix].
    split; [reflexivity|].
    split; [|split; [reflexivity|split; [reflexivity|]]].
    - split; [assumption|]. cbn [layout count setCount]. rewrite Hn.
      split; [assumption|].
      split; [rewrite length_memmove; assumption|].
      split; [lia|].
      split; [apply shiftErase_bytes with (c := c); try lia; assumption|].
      split; [apply shiftErase_ascending with (c := c); try lia; assumption|].
      apply shiftErase_present with (k := k); try lia; assumption.
    - intros b' Hb'. rewrite !childAt_Node16;
        cbn [count setCount]; try assumption; try lia.
      rewrite Hn. fold n.
      rewrite shiftErase_keyChild by (try lia; assumption).
      rewrite Ei.
      destruct (Z.eqb_spec (flipSign b') (flipSign b)) as [F|F],
        (Z.eqb_spec b' b) as [F'|F']; try reflexivity.
      + apply flipSign_inj in F. contradiction.
      + subst. contradiction. }
  cbn [eraseNode16]. rewrite Hw. fold n.
  destruct (Z.eqb_spec (count h - 1) 3) as [E3|E3].
  - eexists. split; [reflexivity|].
    apply (updated_then_same Um).
    rewrite E3.
    apply (@shrink16_sameNode (setCount h (count h - 1)));
      [exact (proj1 (proj2 Um))|cbn [count setCount]; assumption].
  - eexists. split; [reflexivity|]. exact Um.
Qed.

(** * Shrinking Node256 into Node48 *)

Lemma nonNull_firstn_S c : forall m,
  (m < length c)%nat ->
  nonNull (firstn (S m) c) =
  (nonNull (firstn m c) + (if isNull (nth m c Null) then 0 else 1))%nat.
Proof.
  induction c as [|x r IH]; intros m H; simpl in H; [lia|].
  destruct m as [|m].
  - simpl. destruct (isNull x); lia.
  - change (firstn (S (S m)) (x :: r)) with (x :: firstn (S m) r).
    change (firstn (S m) (x :: r)) with (x :: firstn m r).
    cbn [nonNull nth]. rewrite IH by lia. lia.
Qed.

Lemma nonNull_firstn_le c : forall m, (nonNull (firstn m c) <= nonNull c)%nat.
Proof.
  induction c as [|x r IH]; intros [|m]; simpl; try lia.
  specialize (IH m). lia.
Qed.

Lemma present_firstn_S ci : forall m,
  (m < length ci)%nat ->
  present (firstn (S m) ci) =
  (present (firstn m ci) +
   (if (nth m ci emptyMarker =? emptyMarker)%Z then 0 else 1))%nat.
Proof.
  induction ci as [|x r IH]; intros m H; simpl in H; [lia|].
  destruct m as [|m].
  - simpl. destruct (x =? emptyMarker); lia.
  - change (firstn (S (S m)) (x :: r)) with (x :: firstn (S m) r).
    change (firstn (S m) (x :: r)) with (x :: firstn m r).
    cbn [present nth]. rewrite IH by lia. lia.
Qed.

Lemma present_firstn_le ci : forall m,
  (present (firstn m ci) <= present ci)%nat.
Proof.
  induction ci as [|x r IH]; intros [|m]; simpl; try lia.
  specialize (IH m). lia.
Qed.

Lemma shrink256_loop c m :
  length c = 256%nat -> (nonNull c <= 48)%nat -> (m <= 256)%nat ->
  shrink256Inv c m
    (fold_left (shrink256Step c) (seq 0 m)
       (0, repeat emptyMarker 256, repeat Null 48)).
Proof.
  intros Lc Hn. induction m as [|m IH]; intros Hm.
  - cbn [seq fold_left]. unfold shrink256Inv. cbn [firstn nonNull].
    split; [reflexivity|]. split; [apply repeat_length|].
    split; [apply repeat_length|]. split; [apply nonNull_repeat|].
    split; [apply present_repeat|].
    split; [intros j _; apply nth_repeat_any|].
    assert (R : forall b, nth b (repeat emptyMarker 256) emptyMarker = 48)
      by (intros b; apply (nth_repeat_any emptyMarker 256 b)).
    split; [intros b _; rewrite R; lia|].
    split; [intros b _ F; rewrite R in F; congruence|].
    split; [intros; lia|].
    intros b b' _ _ F. rewrite R in F. congruence.
  - specialize (IH ltac:(lia)).
    rewrite seq_S, fold_left_app. cbn [fold_left]. rewrite Nat.add_0_l.
    destruct (fold_left (shrink256Step c) (seq 0 m)
                (0, repeat emptyMarker 256, repeat Null 48))
      as [[cnt nci] nc].
    unfold shrink256Inv in IH.
    destruct IH as (Ia & Lci & Lnc & Ic & Id & Ie & If & Ig & Ih & Ii).
    pose proof (nonNull_firstn_S c (m := m) ltac:(lia)) as ES.
    pose proof (nonNull_firstn_le c (S m)) as LE.
    unfold shrink256Step, shrink256Inv.
    set (r := nonNull (firstn m c)) in *.
    destruct (isNull (nth m c Null)) eqn:En; cbn [negb].
    + (* nothing stored for this byte *)
      rewrite ES, Nat.add_0_r. fold r.
      repeat (split; [assumption|]).
      split.
      { intros b Hb Hne. destruct (Ig b Hb Hne) as (G1 & G2 & G3 & G4).
        repeat split; try assumption. lia. }
      split; [|assumption].
      intros b Hb Hc. destruct (Nat.eq_dec b m) as [->|Hbm].
      * apply isNull_true in En. contradiction.
      * apply Ih; [lia|assumption].
    + apply isNull_false in En.
      assert (Hr : (r < 48)%nat) by lia.
      assert (Em : nth m nci emptyMarker = 48).
      { destruct (Z.eq_dec (nth m nci emptyMarker) 48) as [E|E];
          [assumption|].
        destruct (Ig m ltac:(lia) E) as (G1 & _). lia. }
      rewrite ES. replace (r + 1)%nat with (S r) by lia.
      rewrite Ia, Nat2Z.id.
      rewrite wrap16_small by lia. rewrite wrap8_small by lia.
      split; [lia|]. split; [rewrite length_upd; assumption|].
      split; [rewrite length_upd; assumption|].
      split; [rewrite nonNull_upd_fill by (try assumption; try lia; apply Ie; lia);
              rewrite Ic; reflexivity|].
      split.
      { pose proof (@present_upd m (Z.of_nat r) nci ltac:(lia)) as E.
        rewrite Em in E. change (48 =? emptyMarker) with true in E.
        destruct (Z.eqb_spec (Z.of_nat r) emptyMarker);
          [unfold emptyMarker in *; lia|]. lia. }
      split; [intros j Hj; rewrite nth_upd_other by lia; apply Ie; lia|].
      split.
      { intros b Hb. rewrite nth_upd.
        destruct (Nat.eqb b m && Nat.ltb m (length nci))%bool;
          [lia|apply If; assumption]. }
      split.
      { intros b Hb. rewrite nth_upd.
        destruct (Nat.eqb_spec b m) as [->|Hbm]; simpl.
        - destruct (Nat.ltb_spec m (length nci)); [|lia].
          intros _. rewrite Nat2Z.id.
          split; [lia|]. split; [lia|].
          split; [apply nth_upd_same; lia|assumption].
        - intros Hne. destruct (Ig b Hb Hne) as (G1 & G2 & G3 & G4).
          split; [lia|]. split; [lia|].
          split; [rewrite nth_upd_other by lia; assumption|assumption]. }
      split.
      { intros b Hb Hc. rewrite nth_upd.
        destruct (Nat.eqb_spec b m) as [->|Hbm]; simpl.
        - destruct (Nat.ltb_spec m (length nci)); [|lia].
          unfold emptyMarker in *. lia.
        - apply Ih; [lia|assumption]. }
      intros b1 b2 H1 H2. rewrite !nth_upd.
      destruct (Nat.eqb_spec b1 m) as [->|N1],
        (Nat.eqb_spec b2 m) as [->|N2];
        destruct (Nat.ltb_spec m (length nci)); simpl; try lia;
        intros Hne E.
      * exfalso. assert (F : nth b2 nci emptyMarker <> 48)
          by (rewrite <- E; unfold emptyMarker in *; lia).
        destruct (Ig b2 H2 F) as (_ & G2 & _). lia.
      * exfalso. destruct (Ig b1 H1 Hne) as (_ & G2 & _). lia.
      * apply Ii; assumption.
Qed.

Unset Implicit Arguments.

Lemma shrink256_sameNode hm c :
  shape (Node256 hm c) -> count hm <= 48 ->
  forall ncnt nci nc,
  fold_left (shrink256Step c) (seq 0 256)
    (0, repeat emptyMarker 256, repeat Null 48) = (ncnt, nci, nc) ->
  sameNode (Node256 hm c)
    (Node48 (setCount (copyPrefix hm newHeader) ncnt) nci nc).
Proof.
  intros (Hp & Lc & Hc) Hle. cbn [header] in Hp.
  destruct (@copyPrefix_facts hm newHeader Hp eq_refl) as (C1 & C2 & C3 & C4).
  assert (Hn : (nonNull c <= 48)%nat) by lia.
  pose proof (@shrink256_loop c 256 Lc Hn (le_n _)) as I.
  intros ncnt nci nc E.
  rewrite E in I. clear E. unfold shrink256Inv in I.
  rewrite firstn_all2 in I by lia.
  destruct I as (Ia & Lci & Lnc & Ic & Id & Ie & If & Ig & Ih & Ii).
  unfold sameNode. cbn [isInner header setCount prefixLength prefix].
  split; [reflexivity|]. split; [|split; [assumption|split; [assumption|]]].
  - split; [assumption|]. cbn [layout count setCount].
    split; [assumption|]. split; [assumption|].
    split; [lia|]. split; [lia|]. split; [assumption|].
    split; [|assumption].
    intros b Hb Hne. destruct (Ig b Hb Hne) as (_ & _ & G3 & G4).
    rewrite G3. assumption.
  - intros b Hb. rewrite childAt_Node48, childAt_Node256.
    destruct (Z.eqb_spec (nth (Z.to_nat b) nci emptyMarker) emptyMarker)
      as [E1|E1].
    + destruct (nth (Z.to_nat b) c Null) eqn:Ec; try reflexivity;
        exfalso;
        (apply (Ih (Z.to_nat b));
         [lia|rewrite Ec; discriminate|exact E1]).
    + destruct (Ig (Z.to_nat b) ltac:(lia) E1) as (_ & _ & G3 & _).
      assumption.
Qed.

Set Implicit Arguments.

Lemma eraseNode256_spec h c b :
  shape (Node256 h c) -> 0 <= b < 256 ->
  childAt (Node256 h c) b <> Null ->
  exists n', eraseNode256 (Node256 h c) b = Some n' /\
             updated (Node256 h c) n' b Null.
Proof.
  intros Sh Hb Hc. pose proof Sh as (Hp & Lc & Hcnt).
  rewrite childAt_Node256 in Hc.
  pose proof (nonNull_le c) as Le.
  pose proof (@nonNull_upd_clear (Z.to_nat b) c ltac:(lia) Hc) as En.
  assert (Hw : wrap16 (count h - 1) = count h - 1)
    by (apply wrap16_small; lia).
  set (mid := Node256 (setCount h (count h - 1)) (upd (Z.to_nat b) Null c)).
  assert (Um : updated (Node256 h c) mid b Null).
  { unfold updated, mid. cbn [isInner header setCount prefixLength prefix].
    split; [reflexivity|].
    split; [|split; [reflexivity|split; [reflexivity|]]].
    - split; [assumption|]. cbn [layout count setCount].
      split; [rewrite length_upd; assumption|]. lia.
    - intros b' Hb'. rewrite !childAt_Node256. rewrite nth_upd.
      destruct (Z.eqb_spec b' b) as [->|Hne].
      + rewrite Nat.eqb_refl.
        destruct (Nat.ltb_spec (Z.to_nat b) (length c)); [reflexivity|lia].
      + destruct (Nat.eqb_spec (Z.to_nat b') (Z.to_nat b));
          [lia|reflexivity]. }
  cbn [eraseNode256]. rewrite Hw.
  destruct (Z.eqb_spec (count h - 1) 37) as [E37|E37].
  - destruct (fold_left (shrink256Step (upd (Z.to_nat b) Null c)) (seq 0 256)
                (0, repeat emptyMarker 256, repeat Null 48))
      as [[ncnt nci] nc] eqn:EF.
    eexists. split; [reflexivity|].
    apply (updated_then_same Um).
    apply (@shrink256_sameNode (setCount h (count h - 1)) _
             (proj1 (proj2 Um)) ltac:(cbn [count setCount]; lia)
             ncnt nci nc EF).
  - eexists. split; [reflexivity|]. exact Um.
Qed.

(** * Shrinking Node48 into Node16 *)

Lemma shrink48_loop ci c m :
  length ci = 256%nat -> (present ci <= 16)%nat -> (m <= 256)%nat ->
  shrink48Inv ci c m
    (fold_left (shrink48Step ci c) (seq 0 m) (0, repeat 0 16, repeat Null 16)).
Proof.
  intros Lci Hn. induction m as [|m IH]; intros Hm.
  - cbn [seq fold_left]. unfold shrink48Inv. cbn [firstn present].
    split; [reflexivity|]. split; [apply repeat_length|].
    split; [apply repeat_length|].
    split; [intros; lia|]. split; [intros; lia|]. intros i j Hij. lia.
  - specialize (IH ltac:(lia)).
    rewrite seq_S, fold_left_app. cbn [fold_left]. rewrite Nat.add_0_l.
    destruct (fold_left (shrink48Step ci c) (seq 0 m)
                (0, repeat 0 16, repeat Null 16)) as [[cnt nk] nc].
    unfold shrink48Inv in IH.
    destruct IH as (Ia & Lk & Lc & Ic & Id & Ie).
    pose proof (present_firstn_S ci (m := m) ltac:(lia)) as ES.
    pose proof (present_firstn_le ci (S m)) as LE.
    unfold shrink48Step, shrink48Inv.
    set (r := present (firstn m ci)) in *.
    destruct (Z.eqb_spec (nth m ci emptyMarker) emptyMarker) as [En|En];
      cbn [negb].
    + rewrite ES, Nat.add_0_r. fold r.
      repeat (split; [assumption|]).
      split.
      { intros j Hj. destruct (Ic j Hj) as (b & B1 & B2 & B3 & B4).
        exists b. repeat split; try assumption. lia. }
      split; [|assumption].
      intros b Hb Hne. destruct (Nat.eq_dec b m) as [->|Hbm].
      * unfold emptyMarker in *. congruence.
      * apply Id; [lia|assumption].
    + assert (Hr : (r < 16)%nat) by lia.
      rewrite ES. replace (r + 1)%nat with (S r) by lia.
      rewrite Ia, Nat2Z.id. rewrite wrap16_small by lia.
      split; [lia|]. split; [rewrite length_upd; assumption|].
      split; [rewrite length_upd; assumption|].
      split.
      { intros j Hj. destruct (Nat.eq_dec j r) as [->|Hjr].
        - exists m. rewrite !nth_upd_same by lia.
          repeat split; try reflexivity; [lia|assumption].
        - destruct (Ic j ltac:(lia)) as (b & B1 & B2 & B3 & B4).
          exists b. rewrite !nth_upd_other by lia.
          repeat split; try assumption. lia. }
      split.
      { intros b Hb Hne. destruct (Nat.eq_dec b m) as [->|Hbm].
        - exists r. rewrite !nth_upd_same by lia.
          repeat split; try reflexivity. lia.
        - destruct (Id b ltac:(lia) Hne) as (j & J1 & J2 & J3).
          exists j. rewrite !nth_upd_other by lia.
          repeat split; try assumption. lia. }
      intros i j Hij. unfold ascendingSigned, ascendingBy in Ie.
      destruct (Nat.eq_dec j r) as [->|Hjr].
      * rewrite nth_upd_same by lia. rewrite nth_upd_other by lia.
        destruct (Ic i ltac:(lia)) as (b & B1 & B2 & B3 & B4).
        rewrite B3. rewrite !signed8_flipSign by lia. lia.
      * rewrite !nth_upd_other by lia. apply Ie. lia.
Qed.

Unset Implicit Arguments.

Lemma shrink48_sameNode hm ci c :
  shape (Node48 hm ci c) -> count hm <= 16 ->
  forall ncnt nk nc,
  fold_left (shrink48Step ci c) (seq 0 256)
    (0, repeat 0 16, repeat Null 16) = (ncnt, nk, nc) ->
  sameNode (Node48 hm ci c)
    (Node16 (setCount (copyPrefix hm newHeader) ncnt) nk nc).
Proof.
  intros (Hp & Lci & Lc & Hn & Hpr & Rg & Ref & Inj) Hle. cbn [header] in Hp.
  destruct (@copyPrefix_facts hm newHeader Hp eq_refl) as (C1 & C2 & C3 & C4).
  assert (Hn16 : (present ci <= 16)%nat) by lia.
  pose proof (@shrink48_loop ci c 256 Lci Hn16 (le_n _)) as I.
  intros ncnt nk nc E.
  rewrite E in I. clear E. unfold shrink48Inv in I.
  rewrite firstn_all2 in I by lia.
  destruct I as (Ia & Lk & Lnc & Ic & Id & Ie).
  assert (Hcnt : Z.to_nat ncnt = present ci) by lia.
  assert (Dk : distinctKeys nk (present ci))
    by exact (ascendingBy_distinct Ie).
  unfold sameNode. cbn [isInner header setCount prefixLength prefix].
  split; [reflexivity|]. split; [|split; [assumption|split; [assumption|]]].
  - split; [assumption|]. cbn [layout count setCount]. rewrite Hcnt.
    split; [assumption|]. split; [assumption|]. split; [lia|].
    split; [|split; [assumption|]].
    + intros j Hj. destruct (Ic j Hj) as (b & B1 & B2 & B3 & B4).
      rewrite B3. apply flipSign_byte. lia.
    + intros j Hj. destruct (Ic j Hj) as (b & B1 & B2 & B3 & B4).
      rewrite B4. apply Ref; assumption.
  - intros b Hb. rewrite childAt_Node48.
    rewrite childAt_Node16 by (cbn [count setCount]; try assumption; lia).
    cbn [count setCount]. rewrite Hcnt.
    destruct (Z.eqb_spec (nth (Z.to_nat b) ci emptyMarker) emptyMarker)
      as [E1|E1].
    + apply keyChild_miss. intros j Hj F.
      destruct (Ic j Hj) as (b' & B1 & B2 & B3 & B4).
      rewrite B3 in F. apply flipSign_inj in F.
      assert (b' = Z.to_nat b) by lia. subst b'.
      unfold emptyMarker in *. congruence.
    + destruct (Id (Z.to_nat b) ltac:(lia) E1) as (j & J1 & J2 & J3).
      rewrite Z2Nat.id in J2 by lia.
      rewrite (@keyChild_hit nk nc (present ci) j (flipSign b) Dk J1 J2).
      assumption.
Qed.

Set Implicit Arguments.

Lemma present_upd_clear i ci :
  (i < length ci)%nat -> nth i ci emptyMarker <> 48 ->
  S (present (upd i emptyMarker ci)) = present ci.
Proof.
  intros H1 H2. pose proof (@present_upd i emptyMarker ci H1) as E.
  destruct (Z.eqb_spec (nth i ci emptyMarker) emptyMarker);
    [unfold emptyMarker in *; congruence|].
  rewrite Z.eqb_refl in E. lia.
Qed.

Lemma eraseNode48_spec h ci c b :
  shape (Node48 h ci c) -> 0 <= b < 256 ->
  childAt (Node48 h ci c) b <> Null ->
  exists n', eraseNode48 (Node48 h ci c) b = Some n' /\
             updated (Node48 h ci c) n' b Null.
Proof.
  intros Sh Hb Hc.
  pose proof Sh as (Hp & Lci & Lc & Hn & Hpr & Rg & Ref & Inj).
  rewrite childAt_Node48 in Hc.
  destruct (Z.eqb_spec (nth (Z.to_nat b) ci emptyMarker) emptyMarker)
    as [E1|E1]; [congruence|].
  set (s := Z.to_nat (nth (Z.to_nat b) ci emptyMarker)) in *.
  pose proof (Rg (Z.to_nat b) ltac:(lia)) as Rb.
  assert (Hs : (s < 48)%nat) by (unfold s, emptyMarker in *; lia).
  pose proof (nonNull_le c) as Le.
  pose proof (@nonNull_upd_clear s c ltac:(lia) Hc) as En.
  pose proof (@present_upd_clear (Z.to_nat b) ci ltac:(lia) E1) as Ep.
  assert (Hw : wrap16 (count h - 1) = count h - 1)
    by (apply wrap16_small; lia).
  set (mid := Node48 (setCount h (count h - 1))
                (upd (Z.to_nat b) emptyMarker ci) (upd s Null c)).
  assert (Hother : forall b', (b' < 256)%nat -> b' <> Z.to_nat b ->
            nth b' ci emptyMarker <> 48 ->
            Z.to_nat (nth b' ci emptyMarker) <> s).
  { intros b' Hb' Hne Hp' F. apply Hne.
    pose proof (Rg b' Hb').
    apply Inj; [assumption|lia|assumption|unfold s in F; lia]. }
  assert (Um : updated (Node48 h ci c) mid b Null).
  { unfold updated, mid. cbn [isInner header setCount prefixLength prefix].
    split; [reflexivity|].
    split; [|split; [reflexivity|split; [reflexivity|]]].
    - split; [assumption|]. cbn [layout count setCount].
      split; [rewrite length_upd; assumption|].
      split; [rewrite length_upd; assumption|].
      split; [lia|]. split; [lia|].
      split; [|split].
      + intros b' Hb'. rewrite nth_upd.
        destruct (Nat.eqb b' (Z.to_nat b) &&
                  Nat.ltb (Z.to_nat b) (length ci))%bool;
          [unfold emptyMarker; lia|apply Rg; assumption].
      + intros b' Hb'. rewrite nth_upd.
        destruct (Nat.eqb_spec b' (Z.to_nat b)) as [->|Hne]; simpl.
        * destruct (Nat.ltb_spec (Z.to_nat b) (length ci)); [|lia].
          unfold emptyMarker. congruence.
        * intros Hp'. rewrite nth_upd_other
            by (intros F; apply (Hother b' Hb' Hne Hp'); congruence).
          apply Ref; assumption.
      + intros b1 b2 H1 H2. rewrite !nth_upd.
        destruct (Nat.eqb_spec b1 (Z.to_nat b)) as [->|N1],
          (Nat.eqb_spec b2 (Z.to_nat b)) as [->|N2];
          destruct (Nat.ltb_spec (Z.to_nat b) (length ci)); simpl; try lia;
          intros Hne E; try (unfold emptyMarker in *; congruence).
        apply Inj; assumption.
    - intros b' Hb'. rewrite !childAt_Node48. rewrite nth_upd.
      destruct (Z.eqb_spec b' b) as [->|Hne].
      + rewrite Nat.eqb_refl.
        destruct (Nat.ltb_spec (Z.to_nat b) (length ci)); [|lia]. simpl.
        try rewrite Z.eqb_refl; reflexivity.
      + destruct (Nat.eqb_spec (Z.to_nat b') (Z.to_nat b)); [lia|]. simpl.
        destruct (Z.eqb_spec (nth (Z.to_nat b') ci emptyMarker) emptyMarker)
          as [E|E]; [reflexivity|].
        apply nth_upd_other. intros F.
        apply (Hother (Z.to_nat b')); [lia|lia|assumption|congruence]. }
  cbn [eraseNode48]. rewrite Hw. fold s.
  destruct (Z.eqb_spec (count h - 1) 12) as [E12|E12].
  - destruct (fold_left
                (shrink48Step (upd (Z.to_nat b) emptyMarker ci) (upd s Null c))
                (seq 0 256) (0, repeat 0 16, repeat Null 16))
      as [[ncnt nk] nc] eqn:EF.
    eexists. split; [reflexivity|].
    apply (updated_then_same Um).
    apply (@shrink48_sameNode (setCount h (count h - 1)) _ _
             (proj1 (proj2 Um)) ltac:(cbn [count setCount]; lia)
             ncnt nk nc EF).
  - eexists. split; [reflexivity|]. exact Um.
Qed.

(** * Erasing from any inner node *)

Theorem eraseNode_spec n b i :
  isInner n = true -> shape n -> 0 <= b < 256 ->
  findChild n b = Slot i -> childAt n b <> Null ->
  (exists n', eraseNode n i b = Some n' /\ updated n n' b Null) \/
  (exists b0 x,
     0 <= b0 < 256 /\ b0 <> b /\ childAt n b0 = x /\ x <> Null /\
     (forall b', b' <> b -> b' <> b0 -> childAt n b' = Null) /\
     eraseNode n i b =
     Some (if isLeaf x then x
           else setHeader x (concatPrefix (header n) b0 (header x)))).
Proof.
  intros Hin Sh Hb E Hc.
  destruct n as [| |h k c|h k c|h ci c|h c]; try discriminate;
    cbn [eraseNode].
  - destruct (Z.eq_dec (count h) 2) as [E2|E2].
    + right. apply eraseNode4_collapse; assumption.
    + left. apply (@eraseNode4_keep h k c b i); assumption.
  - left. apply (@eraseNode16_spec h k c b i); assumption.
  - left. apply eraseNode48_spec; assumption.
  - left. apply eraseNode256_spec; assumption.
Qed.

(** * Keys *)

Lemma length_loadKey v : length (loadKey v) = 8%nat.
Proof. unfold loadKey. rewrite length_map, length_seq. reflexivity. Qed.

Lemma nth_loadKey v i :
  (i < 8)%nat ->
  nth i (loadKey v) 0 = Z.land (Z.shiftr v (8 * (7 - Z.of_nat i))) 255.
Proof.
  intros H. unfold loadKey.
  set (f := fun i : nat => Z.land (Z.shiftr v (8 * (7 - Z.of_nat i))) 255).
  rewrite (nth_indep _ 0 (f 0%nat))
    by (rewrite length_map, length_seq; assumption).
  rewrite (map_nth f). rewrite seq_nth by assumption. reflexivity.
Qed.

Lemma loadKey_byte v i : (i < 8)%nat -> 0 <= nth i (loadKey v) 0 < 256.
Proof.
  intros H. rewrite nth_loadKey by assumption.
  change 255 with (Z.ones 8). rewrite Z.land_ones by lia.
  change (2 ^ 8) with 256. apply Z.mod_pos_bound. lia.
Qed.

Lemma loadKey_isKey v : isKey (loadKey v).
Proof.
  split; [apply length_loadKey|].
  apply Forall_forall. intros x Hx.
  destruct (In_nth _ _ 0 Hx) as (i & Hi & <-).
  rewrite length_loadKey in Hi. apply loadKey_byte. assumption.
Qed.

Lemma loadKey_inj v w :
  0 <= v < 2 ^ 64 -> 0 <= w < 2 ^ 64 -> loadKey v = loadKey w -> v = w.
Proof.
  intros Hv Hw E. apply Z.bits_inj'. intros n Hn.
  destruct (Z_lt_dec n 64) as [L|L].
  - set (j := (7 - Z.to_nat (n / 8))%nat).
    assert (D : n = 8 * (n / 8) + n mod 8) by (apply Z.div_mod; lia).
    assert (M : 0 <= n mod 8 < 8) by (apply Z.mod_pos_bound; lia).
    assert (Q : 0 <= n / 8 < 8).
    { split; [apply Z.div_pos; lia|apply Z.div_lt_upper_bound; lia]. }
    assert (Hj : (j < 8)%nat) by (unfold j; lia).
    assert (B : nth j (loadKey v) 0 = nth j (loadKey w) 0) by (rewrite E; reflexivity).
    rewrite !nth_loadKey in B by assumption.
    assert (S : 8 * (7 - Z.of_nat j) = 8 * (n / 8)) by (unfold j; lia).
    rewrite S in B.
    assert (T : forall x, Z.testbit (Z.land (Z.shiftr x (8 * (n / 8))) 255)
                            (n mod 8) = Z.testbit x n).
    { intros x. rewrite Z.land_spec, Z.shiftr_spec by lia.
      replace (n mod 8 + 8 * (n / 8)) with n by lia.
      change 255 with (Z.ones 8). rewrite Z.testbit_ones by lia.
      destruct (Z.leb_spec 0 (n mod 8)), (Z.ltb_spec (n mod 8) 8);
        try lia. simpl. apply andb_true_r. }
    rewrite <- (T v), <- (T w), B. reflexivity.
  - rewrite !Z.bits_above_log2; try reflexivity; try lia.
    + destruct (Z.eq_dec w 0) as [->|N]; [simpl; lia|].
      assert (Z.log2 w < 64) by (apply Z.log2_lt_pow2; lia). lia.
    + destruct (Z.eq_dec v 0) as [->|N]; [simpl; lia|].
      assert (Z.log2 v < 64) by (apply Z.log2_lt_pow2; lia). lia.
Qed.

Lemma makeLeaf_small v : 0 <= v < 2 ^ 63 -> makeLeaf v = Leaf v.
Proof.
  intros H. unfold makeLeaf. f_equal.
  rewrite Z.shiftl_mul_pow2 by lia. change (2 ^ 1) with 2.
  unfold wrap64. rewrite Z.mod_small
    by (change 18446744073709551616 with (2 * 2 ^ 63); lia).
  apply Z.bits_inj'. intros n Hn.
  rewrite Z.shiftr_spec, Z.lor_spec by lia.
  replace (n + 1) with (Z.succ n) by lia.
  rewrite Z.mul_comm. rewrite Z.testbit_even_succ by lia.
  change 1 with (2 * 0 + 1). rewrite Z.testbit_odd_succ by lia.
  rewrite Z.testbit_0_l. apply orb_false_r.
Qed.

Lemma loadBuf_loadKey v : loadBuf loadKey 8 v = Some (loadKey v).
Proof. unfold loadBuf. rewrite length_loadKey. reflexivity. Qed.

(** * Paths *)

Lemma agree_length (p k : list Z) :
  firstn (length p) k = p -> (length p <= length k)%nat.
Proof.
  intros E. pose proof (length_firstn (length p) k) as L.
  rewrite E in L. lia.
Qed.

Lemma agree_nth (p k : list Z) i :
  firstn (length p) k = p -> (i < length p)%nat -> nth i k 0 = nth i p 0.
Proof.
  intros E Hi. transitivity (nth i (firstn (length p) k) 0).
  - rewrite nth_firstn.
    destruct (Nat.ltb_spec i (length p)); [reflexivity|lia].
  - rewrite E. reflexivity.
Qed.

Lemma agree_intro (p k : list Z) :
  (length p <= length k)%nat ->
  (forall i, (i < length p)%nat -> nth i k 0 = nth i p 0) ->
  firstn (length p) k = p.
Proof.
  intros H1 H2. apply nth_ext_eq with (d := 0).
  - rewrite length_firstn. lia.
  - intros i Hi. rewrite length_firstn in Hi. rewrite nth_firstn.
    destruct (Nat.ltb_spec i (length p)); [|lia]. apply H2. lia.
Qed.

Lemma agree_prefix (p q k : list Z) :
  firstn (length (p ++ q)) k = p ++ q -> firstn (length p) k = p.
Proof.
  intros E. pose proof (@agree_length _ _ E) as L. rewrite length_app in L.
  apply agree_intro; [lia|]. intros i Hi.
  rewrite (@agree_nth _ _ _ E) by (rewrite length_app; lia).
  apply app_nth1. assumption.
Qed.

Lemma agree_two (p k k' : list Z) :
  firstn (length p) k = p -> firstn (length p) k' = p ->
  forall i, (i < length p)%nat -> nth i k 0 = nth i k' 0.
Proof.
  intros E1 E2 i Hi.
  rewrite (@agree_nth _ _ _ E1 Hi), (@agree_nth _ _ _ E2 Hi). reflexivity.
Qed.

Lemma key_eq_nth (k k' : list Z) :
  length k = 8%nat -> length k' = 8%nat ->
  (forall i, (i < 8)%nat -> nth i k 0 = nth i k' 0) -> k = k'.
Proof.
  intros L1 L2 H. apply nth_ext_eq with (d := 0); [congruence|].
  intros i Hi. apply H. lia.
Qed.

(** The path below a node: its own path, the compressed path, the edge. *)
Lemma agree_extend (p q k : list Z) b :
  firstn (length p) k = p ->
  (length p + length q < length k)%nat ->
  (forall i, (i < length q)%nat -> nth (length p + i) k 0 = nth i q 0) ->
  nth (length p + length q) k 0 = b ->
  firstn (length (p ++ q ++ [b])) k = p ++ q ++ [b].
Proof.
  intros E L Hq Hb. apply agree_intro.
  - rewrite !length_app. simpl. lia.
  - intros i Hi. rewrite !length_app in Hi. simpl in Hi.
    destruct (Nat.lt_ge_cases i (length p)) as [L1|L1].
    + rewrite app_nth1 by assumption. apply agree_nth; assumption.
    + rewrite app_nth2 by assumption.
      destruct (Nat.lt_ge_cases (i - length p) (length q)) as [L2|L2].
      * rewrite app_nth1 by assumption. rewrite <- Hq by assumption.
        f_equal. lia.
      * rewrite app_nth2 by assumption.
        replace (i - length p - length q)%nat with 0%nat by lia.
        simpl. rewrite <- Hb. f_equal. lia.
Qed.

Lemma agree_extend_inv (p q k : list Z) b :
  firstn (length (p ++ q ++ [b])) k = p ++ q ++ [b] ->
  (length p + length q < length k)%nat /\
  firstn (length p) k = p /\
  (forall i, (i < length q)%nat -> nth (length p + i) k 0 = nth i q 0) /\
  nth (length p + length q) k 0 = b.
Proof.
  intros E. pose proof (@agree_length _ _ E) as L.
  rewrite !length_app in L. simpl in L.
  split; [lia|]. split; [apply (@agree_prefix _ _ _ E)|]. split.
  - intros i Hi.
    rewrite (@agree_nth _ _ _ E) by (rewrite !length_app; simpl; lia).
    rewrite app_nth2 by lia. rewrite app_nth1 by lia. f_equal. lia.
  - rewrite (@agree_nth _ _ _ E) by (rewrite !length_app; simpl; lia).
    rewrite app_nth2 by lia. rewrite app_nth2 by lia.
    replace (length p + length q - length p - length q)%nat with 0%nat by lia.
    reflexivity.
Qed.

(** * Stored prefixes *)

Lemma storedPrefix_short h :
  length (prefix h) = 9%nat -> 0 <= prefixLength h < 9 ->
  length (storedPrefix h) = Z.to_nat (prefixLength h) /\
  forall i, (i < Z.to_nat (prefixLength h))%nat ->
            nth i (storedPrefix h) 0 = nth i (prefix h) 0.
Proof.
  intros L H. unfold storedPrefix. rewrite min_spec.
  unfold maxPrefixLength. rewrite Z.min_l by lia.
  split; [rewrite length_firstn; lia|].
  intros i Hi. rewrite nth_firstn.
  destruct (Nat.ltb_spec i (Z.to_nat (prefixLength h))); [reflexivity|lia].
Qed.

(** * Comparison loops *)

Lemma equalFrom_spec a b : forall n i,
  0 <= i -> i + Z.of_nat n <= Z.of_nat (length a) ->
  i + Z.of_nat n <= Z.of_nat (length b) ->
  exists r, equalFrom n a b i = Some r /\
    (r = true <->
     forall j, (Z.to_nat i <= j < Z.to_nat i + n)%nat ->
               nth j a 0 = nth j b 0).
Proof.
  induction n as [|n IH]; intros i Hi Ha Hb; cbn [equalFrom].
  - exists true. split; [reflexivity|]. split; [intros; lia|reflexivity].
  - rewrite (@rd_Some _ a i 0) by lia. rewrite (@rd_Some _ b i 0) by lia.
    cbn [bind].
    destruct (Z.eqb_spec (nth (Z.to_nat i) a 0) (nth (Z.to_nat i) b 0))
      as [E|E].
    + destruct (IH (i + 1)) as (r & R1 & R2); try lia.
      exists r. split; [assumption|]. rewrite R2. split.
      * intros H j Hj. destruct (Nat.eq_dec j (Z.to_nat i)) as [->|N];
          [assumption|]. apply H. lia.
      * intros H j Hj. apply H. lia.
    + exists false. split; [reflexivity|]. split; [discriminate|].
      intros H. exfalso. apply E. apply H. lia.
Qed.

Lemma mismatchLoop_spec key other depth off : forall n pos,
  0 <= depth -> 0 <= off -> 0 <= pos ->
  depth + pos + Z.of_nat n <= Z.of_nat (length key) ->
  off + pos + Z.of_nat n <= Z.of_nat (length other) ->
  Z.of_nat (length key) < 4294967296 ->
  Z.of_nat (length other) < 4294967296 ->
  exists r, mismatchLoop n key depth other off pos = Some r /\
    ((fst r = false /\ snd r = pos + Z.of_nat n /\
      forall i, pos <= i < pos + Z.of_nat n ->
        nth (Z.to_nat (depth + i)) key 0 = nth (Z.to_nat (off + i)) other 0) \/
     (fst r = true /\ pos <= snd r < pos + Z.of_nat n /\
      (forall i, pos <= i < snd r ->
         nth (Z.to_nat (depth + i)) key 0 = nth (Z.to_nat (off + i)) other 0) /\
      nth (Z.to_nat (depth + snd r)) key 0 <>
      nth (Z.to_nat (off + snd r)) other 0)).
Proof.
  induction n as [|n IH]; intros pos Hd Ho Hp Hk Hot Bk Bo;
    cbn [mismatchLoop].
  - eexists. split; [reflexivity|]. left. cbn [fst snd].
    split; [reflexivity|]. split; [lia|]. intros; lia.
  - rewrite (wrap32_small (x := depth + pos)) by lia.
    rewrite (wrap32_small (x := off + pos)) by lia.
    rewrite (@rd_Some _ key (depth + pos) 0) by lia.
    rewrite (@rd_Some _ other (off + pos) 0) by lia.
    cbn [bind].
    destruct (Z.eqb_spec (nth (Z.to_nat (depth + pos)) key 0)
                (nth (Z.to_nat (off + pos)) other 0)) as [E|E].
    + destruct (IH (pos + 1)) as (r & R1 & R2); try lia.
      exists r. split; [assumption|].
      destruct R2 as [(F1 & F2 & F3)|(F1 & F2 & F3 & F4)].
      * left. split; [assumption|]. split; [lia|].
        intros i Hi. destruct (Z.eq_dec i pos) as [->|N]; [assumption|].
        apply F3. lia.
      * right. split; [assumption|]. split; [lia|]. split; [|assumption].
        intros i Hi. destruct (Z.eq_dec i pos) as [->|N]; [assumption|].
        apply F3. lia.
    + eexists. split; [reflexivity|]. right. cbn [fst snd].
      split; [reflexivity|]. split; [lia|]. split; [intros; lia|assumption].
Qed.

(** * Unfolding the recursive operations at an inner node *)

Lemma lookupLoop_inner load n key kl d mx s :
  isInner n = true ->
  lookupLoop load n key kl d mx s =
  lookupInner (fun x d s => lookupLoop load x key kl d mx s)
    n (children n) key d s.
Proof. destruct n; try discriminate; reflexivity. Qed.

Lemma lookupPessimistic_inner load n key kl d mx :
  isInner n = true ->
  lookupPessimistic load n key kl d mx =
  lookupPessimisticInner load
    (fun x d => lookupPessimistic load x key kl d mx)
    n (children n) key d mx.
Proof. destruct n; try discriminate; reflexivity. Qed.

Lemma insert_inner load n key d v mx :
  isInner n = true ->
  insert load n key d v mx =
  insertInner load (fun x d => insert load x key d v mx)
    n (children n) key d v mx.
Proof. destruct n; try discriminate; reflexivity. Qed.

Lemma erase_inner load n key kl d mx :
  isInner n = true ->
  erase load n key kl d mx =
  eraseInner load (fun x d => erase load x key kl d mx)
    n (children n) key kl d mx.
Proof. destruct n; try discriminate; reflexivity. Qed.

Lemma on_nth_child (B : Type) (f : ArtNode -> B) (e : B) n b i :
  isInner n = true -> shape n -> 0 <= b < 256 ->
  findChild n b = Slot i ->
  on_nth f e (children n) i = f (childAt n b).
Proof.
  intros Hin Sh Hb E.
  destruct (@findChild_bound n b i Hin Sh Hb E) as [Hi Ec].
  rewrite (@on_nth_nth _ _ f e (children n) i Null Hi). rewrite Ec.
  reflexivity.
Qed.

Lemma childAt_NullSlot n b : findChild n b = NullSlot -> childAt n b = Null.
Proof. intros E. unfold childAt. rewrite E. reflexivity. Qed.

(** * Leaves below a node *)

Lemma hasLeaf_Null w : ~ hasLeaf Null w.
Proof. intros H. inversion H. discriminate. Qed.

Lemma hasLeaf_Leaf v w : hasLeaf (Leaf v) w <-> w = v.
Proof.
  split.
  - intros H. inversion H; [reflexivity|discriminate].
  - intros ->. constructor.
Qed.

Lemma hasLeaf_inner_iff n w :
  isInner n = true ->
  (hasLeaf n w <-> exists b, 0 <= b < 256 /\ hasLeaf (childAt n b) w).
Proof.
  intros Hin. split.
  - intros H. inversion H; subst; [discriminate|].
    exists b. split; assumption.
  - intros (b & Hb & H). apply hasLeaf_inner with (b := b); assumption.
Qed.

Lemma wf_nonNull p t : wf p t -> t <> Null.
Proof. intros H. inversion H; subst; [discriminate|]. intros ->. discriminate. Qed.

Lemma wf_hasLeaf p t :
  wf p t ->
  forall w, hasLeaf t w -> 0 <= w < 2 ^ 63 /\ firstn (length p) (loadKey w) = p.
Proof.
  induction 1 as [p v Hv Ha|p n Hin Sh Hpl Hd Hby Hch IH]; intros w Hw.
  - apply hasLeaf_Leaf in Hw. subst w. split; assumption.
  - apply (@hasLeaf_inner_iff n w Hin) in Hw. destruct Hw as (b & Hb & Hw).
    assert (Hc : childAt n b <> Null)
      by (intros E; rewrite E in Hw; exact (@hasLeaf_Null w Hw)).
    destruct (IH b Hb Hc w Hw) as [R A]. split; [assumption|].
    apply (@agree_prefix _ _ _ A).
Qed.

(** A leaf below the child for byte [b] has [b] after the compressed
    path. *)
Lemma wf_child_leaf p n b w :
  wf p n -> isInner n = true -> 0 <= b < 256 ->
  hasLeaf (childAt n b) w ->
  firstn (length (p ++ storedPrefix (header n) ++ [b])) (loadKey w) =
  p ++ storedPrefix (header n) ++ [b].
Proof.
  intros W Hin Hb Hw. inversion W; subst; [discriminate|].
  assert (Hc : childAt n b <> Null)
    by (intros E; rewrite E in Hw; exact (@hasLeaf_Null w Hw)).
  match goal with
  | H : forall b, 0 <= b < 256 -> childAt n b <> Null -> wf _ _ |- _ =>
      exact (proj2 (@wf_hasLeaf _ _ (H b Hb Hc) w Hw))
  end.
Qed.

Lemma wf_updated p n n' b y :
  wf p n -> isInner n = true -> updated n n' b y -> 0 <= b < 256 ->
  (y = Null \/ wf (p ++ storedPrefix (header n) ++ [b]) y) ->
  wf p n'.
Proof.
  intros W Hin (U1 & U2 & U3 & U4 & U5) Hb Hy.
  inversion W; subst; [discriminate|].
  apply wf_inner; try assumption; try (rewrite U3; assumption);
    try (rewrite U4; assumption).
  intros b' Hb' Hc. rewrite U5 in Hc |- * by assumption. rewrite U4.
  destruct (Z.eqb_spec b' b) as [->|Hne].
  - destruct Hy as [->|Hy]; [contradiction|assumption].
  - match goal with
    | H : forall b, 0 <= b < 256 -> childAt n b <> Null -> wf _ _ |- _ =>
        apply H; assumption
    end.
Qed.

Lemma hasLeaf_updated n n' b y w :
  isInner n = true -> updated n n' b y -> 0 <= b < 256 ->
  (hasLeaf n' w <->
   hasLeaf y w \/
   exists b', 0 <= b' < 256 /\ b' <> b /\ hasLeaf (childAt n b') w).
Proof.
  intros Hin (U1 & U2 & U3 & U4 & U5) Hb.
  rewrite (@hasLeaf_inner_iff n' w U1). split.
  - intros (b' & Hb' & H). rewrite U5 in H by assumption.
    destruct (Z.eqb_spec b' b) as [->|Hne]; [left; assumption|].
    right. exists b'. split; [assumption|split; assumption].
  - intros [H|(b' & Hb' & Hne & H)].
    + exists b. split; [assumption|]. rewrite U5 by assumption.
      rewrite Z.eqb_refl. assumption.
    + exists b'. split; [assumption|]. rewrite U5 by assumption.
      destruct (Z.eqb_spec b' b); [contradiction|assumption].
Qed.

(** * Checking the compressed path of a well-formed node *)

Lemma wf_depth p t : wf p t -> (length p <= 8)%nat.
Proof.
  intros W. inversion W; subst.
  - match goal with H : firstn _ (loadKey _) = _ |- _ =>
      pose proof (@agree_length _ _ H) as L end.
    rewrite length_loadKey in L. assumption.
  - lia.
Qed.

Lemma isKey_byte k i : isKey k -> (i < 8)%nat -> 0 <= nth i k 0 < 256.
Proof.
  intros [L F] Hi. rewrite Forall_forall in F. apply F.
  apply nth_In. lia.
Qed.

Lemma prefix_check p n k :
  wf p n -> isInner n = true -> isKey k -> firstn (length p) k = p ->
  let q := storedPrefix (header n) in
  length q = Z.to_nat (prefixLength (header n)) /\
  exists r,
    mismatchLoop (Z.to_nat (prefixLength (header n))) k
      (Z.of_nat (length p)) (prefix (header n)) 0 0 = Some r /\
    prefixMismatch loadKey n k (Z.of_nat (length p)) 8 = Some (snd r) /\
    ((fst r = false /\ snd r = prefixLength (header n) /\
      forall i, (i < length q)%nat -> nth (length p + i) k 0 = nth i q 0) \/
     (fst r = true /\ 0 <= snd r < prefixLength (header n) /\
      (forall i, (i < Z.to_nat (snd r))%nat ->
                 nth (length p + i) k 0 = nth i q 0) /\
      nth (length p + Z.to_nat (snd r)) k 0 <> nth (Z.to_nat (snd r)) q 0)).
Proof.
  intros W Hin [Lk Fk] A q. inversion W; subst; [discriminate|].
  match goal with H : shape n |- _ => destruct H as [Lp Ly] end.
  destruct (@storedPrefix_short (header n) Lp ltac:(lia)) as [Lq Nq].
  fold q in Lq, Nq. split; [assumption|].
  destruct (@mismatchLoop_spec k (prefix (header n)) (Z.of_nat (length p)) 0
              (Z.to_nat (prefixLength (header n))) 0)
    as (r & R1 & R2); try lia.
  exists r. split; [assumption|]. split.
  - unfold prefixMismatch.
    destruct (Z.ltb_spec maxPrefixLength (prefixLength (header n)));
      [unfold maxPrefixLength in *; lia|].
    rewrite R1. reflexivity.
  - destruct R2 as [(F1 & F2 & F3)|(F1 & F2 & F3 & F4)].
    + left. split; [assumption|]. split; [lia|].
      intros i Hi. rewrite Nq by lia.
      specialize (F3 (Z.of_nat i) ltac:(lia)).
      replace (Z.to_nat (Z.of_nat (length p) + Z.of_nat i))
        with (length p + i)%nat in F3 by lia.
      replace (Z.to_nat (0 + Z.of_nat i)) with i in F3 by lia.
      assumption.
    + right. split; [assumption|]. split; [lia|]. split.
      * intros i Hi. rewrite Nq by lia.
        specialize (F3 (Z.of_nat i) ltac:(lia)).
        replace (Z.to_nat (Z.of_nat (length p) + Z.of_nat i))
          with (length p + i)%nat in F3 by lia.
        replace (Z.to_nat (0 + Z.of_nat i)) with i in F3 by lia.
        assumption.
      * rewrite Nq by lia.
        replace (Z.to_nat (Z.of_nat (length p) + snd r))
          with (length p + Z.to_nat (snd r))%nat in F4 by lia.
        replace (Z.to_nat (0 + snd r)) with (Z.to_nat (snd r)) in F4 by lia.
        assumption.
Qed.

(** A leaf with key [k] below [n] lies below the child that [k] selects. *)
Lemma leaf_routes p n k v :
  wf p n -> isInner n = true -> hasLeaf n v -> loadKey v = k ->
  let q := storedPrefix (header n) in
  (forall i, (i < length q)%nat -> nth (length p + i) k 0 = nth i q 0) /\
  hasLeaf (childAt n (nth (length p + length q) k 0)) v.
Proof.
  intros W Hin Hv E q.
  apply (@hasLeaf_inner_iff n v Hin) in Hv. destruct Hv as (b & Hb & Hv).
  pose proof (@wf_child_leaf p n b v W Hin Hb Hv) as A.
  rewrite E in A. fold q in A.
  destruct (@agree_extend_inv p q k b A) as (_ & _ & A3 & A4).
  split; [assumption|]. rewrite A4. assumption.
Qed.

(** * lookup on well-formed trees *)

Lemma leaf_check p v k :
  0 <= v < 2 ^ 63 -> firstn (length p) (loadKey v) = p ->
  isKey k -> firstn (length p) k = p -> (length p < 8)%nat ->
  exists r,
    equalFrom (Z.to_nat (8 - Z.of_nat (length p))) (loadKey v) k
      (Z.of_nat (length p)) = Some r /\
    (r = true <-> loadKey v = k).
Proof.
  intros Hv A1 [Lk Fk] A2 Hd.
  destruct (@equalFrom_spec (loadKey v) k
              (Z.to_nat (8 - Z.of_nat (length p))) (Z.of_nat (length p)))
    as (r & R1 & R2); try (rewrite ?length_loadKey; lia).
  exists r. split; [assumption|]. rewrite R2. split.
  - intros H. apply key_eq_nth; [apply length_loadKey|assumption|].
    intros i Hi. destruct (Nat.lt_ge_cases i (length p)) as [L|L].
    + apply (@agree_two p _ _ A1 A2 i L).
    + apply H. lia.
  - intros E j Hj. rewrite E. reflexivity.
Qed.

Theorem lookup_wf p t :
  wf p t ->
  forall k, isKey k -> firstn (length p) k = p ->
  exists r,
    lookupLoop loadKey t k 8 (Z.of_nat (length p)) 8 false = Some r /\
    lookupPessimistic loadKey t k 8 (Z.of_nat (length p)) 8 = Some r /\
    ((exists v, r = Leaf v /\ hasLeaf t v /\ loadKey v = k) \/
     (r = Null /\ forall v, hasLeaf t v -> loadKey v <> k)).
Proof.
  induction 1 as [p v Hv Ha|p n Hin Sh Hpl Hd Hby Hch IH]; intros k Hk A.
  - (* leaf *)
    pose proof (@agree_length _ _ Ha) as Lp. rewrite length_loadKey in Lp.
    cbn [lookupLoop lookupPessimistic negb andb]. unfold leafMatches.
    destruct (Z.eqb_spec (Z.of_nat (length p)) 8) as [E8|E8]; cbn [negb bind].
    + exists (Leaf v). split; [reflexivity|]. split; [reflexivity|].
      left. exists v. split; [reflexivity|]. split; [constructor|].
      apply key_eq_nth; [apply length_loadKey|apply Hk|].
      intros i Hi. apply (@agree_two p _ _ Ha A i). lia.
    + cbn [getLeafValue]. rewrite loadBuf_loadKey. cbn [bind].
      destruct (@leaf_check p v k Hv Ha Hk A ltac:(lia)) as (r & R1 & R2).
      rewrite R1. cbn [bind]. destruct r.
      * exists (Leaf v). split; [reflexivity|]. split; [reflexivity|].
        left. exists v. split; [reflexivity|]. split; [constructor|].
        apply R2. reflexivity.
      * exists Null. split; [reflexivity|]. split; [reflexivity|].
        right. split; [reflexivity|]. intros w Hw.
        apply hasLeaf_Leaf in Hw. subst w. intros E.
        apply R2 in E. discriminate.
  - (* inner node *)
    assert (W : wf p n) by (apply wf_inner; assumption).
    destruct (@prefix_check p n k W Hin Hk A) as (Lq & r & R1 & R2 & R3).
    set (q := storedPrefix (header n)) in *.
    rewrite (@lookupLoop_inner loadKey n k 8 _ 8 false Hin).
    rewrite (@lookupPessimistic_inner loadKey n k 8 _ 8 Hin).
    unfold lookupInner, lookupPessimisticInner. rewrite R2. cbn [bind].
    assert (St :
      (if prefixLength (header n) =? 0
       then Some (true, Z.of_nat (length p), false)
       else if prefixLength (header n) <? maxPrefixLength
            then r0 <- mismatchLoop (Z.to_nat (prefixLength (header n))) k
                         (Z.of_nat (length p)) (prefix (header n)) 0 0 ;;
                 Some (negb (fst r0),
                       wrap32 (Z.of_nat (length p) + prefixLength (header n)),
                       false)
            else Some (true,
                       wrap32 (Z.of_nat (length p) + prefixLength (header n)),
                       true)) =
      Some (negb (fst r),
            wrap32 (Z.of_nat (length p) + prefixLength (header n)), false)).
    { destruct (Z.eqb_spec (prefixLength (header n)) 0) as [E0|E0].
      - rewrite E0 in *. cbn [Z.to_nat mismatchLoop] in R1.
        inversion R1; subst r. cbn [fst negb].
        rewrite Z.add_0_r. rewrite wrap32_small by lia. reflexivity.
      - destruct (Z.ltb_spec (prefixLength (header n)) maxPrefixLength);
          [|unfold maxPrefixLength in *; lia].
        rewrite R1. reflexivity. }
    rewrite St. cbn [bind]. clear St.
    rewrite wrap32_small by lia.
    destruct R3 as [(F1 & F2 & F3)|(F1 & F2 & F3 & F4)].
    + (* the compressed path matches *)
      rewrite F1, F2, Z.eqb_refl. cbn [negb].
      pose proof Hk as [Lk Fk].
      rewrite (@rd_Some _ k _ 0) by lia. cbn [bind].
      replace (Z.to_nat (Z.of_nat (length p) + prefixLength (header n)))
        with (length p + length q)%nat by lia.
      set (kb := nth (length p + length q) k 0).
      assert (Hkb : 0 <= kb < 256) by (apply isKey_byte; [assumption|lia]).
      assert (A' : firstn (length (p ++ q ++ [kb])) k = p ++ q ++ [kb])
        by (apply agree_extend; [assumption|lia|assumption|reflexivity]).
      assert (Miss : childAt n kb = Null \/
                     (forall v, hasLeaf (childAt n kb) v -> loadKey v <> k) ->
                     forall v, hasLeaf n v -> loadKey v <> k).
      { intros Hm v Hv E.
        destruct (@leaf_routes p n k v W Hin Hv E) as [_ Hr].
        fold q in Hr. fold kb in Hr.
        destruct Hm as [Hm|Hm].
        - rewrite Hm in Hr. exact (@hasLeaf_Null v Hr).
        - exact (Hm v Hr E). }
      destruct (findChild n kb) as [|i] eqn:Ef.
      * exists Null. split; [reflexivity|]. split; [reflexivity|].
        right. split; [reflexivity|]. apply Miss. left.
        apply childAt_NullSlot. assumption.
      * rewrite !(@on_nth_child _ _ _ n kb i Hin Sh Hkb Ef).
        rewrite wrap32_small by lia.
        destruct (isNull (childAt n kb)) eqn:Ec.
        -- apply isNull_true in Ec. rewrite Ec.
           exists Null. split; [reflexivity|]. split; [reflexivity|].
           right. split; [reflexivity|]. apply Miss. left. assumption.
        -- apply isNull_false in Ec.
           destruct (IH kb Hkb Ec k Hk A') as (r' & L1 & L2 & L3).
           replace (Z.of_nat (length (p ++ q ++ [kb])))
             with (Z.of_nat (length p) + prefixLength (header n) + 1)
             in L1, L2 by (rewrite !length_app; simpl; lia).
           exists r'. split; [assumption|]. split; [assumption|].
           destruct L3 as [(v & V1 & V2 & V3)|(V1 & V2)].
           ++ left. exists v. split; [assumption|]. split; [|assumption].
              apply hasLeaf_inner with (b := kb); assumption.
           ++ right. split; [assumption|]. apply Miss. right. assumption.
    + (* the key leaves the compressed path *)
      rewrite F1. cbn [negb].
      destruct (Z.eqb_spec (snd r) (prefixLength (header n))); [lia|].
      cbn [negb].
      exists Null. split; [reflexivity|]. split; [reflexivity|].
      right. split; [reflexivity|]. intros v Hv E.
      destruct (@leaf_routes p n k v W Hin Hv E) as [Hr _].
      fold q in Hr. apply F4. apply Hr. lia.
Qed.

(** * Changing the header of a node *)

Lemma childAt_setHeader n h' b :
  count h' = count (header n) -> childAt (setHeader n h') b = childAt n b.
Proof.
  intros E. destruct n; try reflexivity; unfold childAt;
    cbn [setHeader findChild header deref children] in *; rewrite E;
    reflexivity.
Qed.

Lemma layout_setHeader n h' :
  count h' = count (header n) -> layout n -> layout (setHeader n h').
Proof.
  intros E. destruct n; cbn [setHeader layout header] in *; try tauto;
    rewrite E; tauto.
Qed.

Lemma isInner_setHeader n h' : isInner (setHeader n h') = isInner n.
Proof. destruct n; reflexivity. Qed.

Lemma header_setHeader n h' :
  isInner n = true -> header (setHeader n h') = h'.
Proof. destruct n; try discriminate; reflexivity. Qed.

Lemma hasLeaf_setHeader n h' w :
  isInner n = true -> count h' = count (header n) ->
  (hasLeaf (setHeader n h') w <-> hasLeaf n w).
Proof.
  intros Hin E.
  rewrite (@hasLeaf_inner_iff (setHeader n h') w)
    by (rewrite isInner_setHeader; assumption).
  rewrite (@hasLeaf_inner_iff n w Hin).
  split; intros (b & Hb & H); exists b; (split; [assumption|]).
  - rewrite childAt_setHeader in H by assumption. assumption.
  - rewrite childAt_setHeader by assumption. assumption.
Qed.

(** The same subtree seen from another depth: the bytes of the path and
    of the compressed path together stay the same. *)
Lemma wf_rebase p p' n h' :
  wf p n -> isInner n = true ->
  p ++ storedPrefix (header n) = p' ++ storedPrefix h' ->
  length (prefix h') = 9%nat -> count h' = count (header n) ->
  0 <= prefixLength h' -> Z.of_nat (length p') + prefixLength h' < 8 ->
  Forall (fun b => 0 <= b < 256) (storedPrefix h') ->
  wf p' (setHeader n h').
Proof.
  intros W Hin Ep Lp Ec H0 Hd Hby. inversion W; subst; [discriminate|].
  match goal with H : shape n |- _ => destruct H as [_ Ly] end.
  apply wf_inner.
  - rewrite isInner_setHeader. assumption.
  - split; [rewrite header_setHeader by assumption; assumption|].
    apply layout_setHeader; assumption.
  - rewrite header_setHeader by assumption. assumption.
  - rewrite header_setHeader by assumption. assumption.
  - rewrite header_setHeader by assumption. assumption.
  - intros b Hb Hc. rewrite header_setHeader by assumption.
    rewrite childAt_setHeader in Hc |- * by assumption.
    rewrite app_assoc, <- Ep, <- app_assoc.
    match goal with
    | H : forall b, 0 <= b < 256 -> childAt n b <> Null -> wf _ _ |- _ =>
        apply H; assumption
    end.
Qed.

(** * Two children in a new Node4 *)

Lemma insertNode4_form h k c b y n' :
  count h < 4 -> insertNode4 (Node4 h k c) b y = Some n' ->
  exists k' c', n' = Node4 (setCount h (wrap16 (count h + 1))) k' c'.
Proof.
  intros H E. cbn [insertNode4] in E.
  destruct (Z.ltb_spec (count h) 4); [|lia].
  inversion E. eexists. eexists. reflexivity.
Qed.

Lemma childAt_empty4 h k c b : count h = 0 -> childAt (Node4 h k c) b = Null.
Proof. intros E. rewrite childAt_Node4, E. reflexivity. Qed.

Lemma shape_empty4 h :
  length (prefix h) = 9%nat -> count h = 0 ->
  shape (Node4 h (repeat 0 4) (repeat Null 4)).
Proof.
  intros L E. split; [assumption|]. cbn [layout]. rewrite E.
  split; [reflexivity|]. split; [reflexivity|]. split; [lia|].
  change (Z.to_nat 0) with 0%nat.
  split; [intros i Hi; lia|]. split; [intros i j Hij; lia|intros i Hi; lia].
Qed.

Lemma fresh_pair h b1 y1 b2 y2 :
  length (prefix h) = 9%nat -> count h = 0 ->
  0 <= b1 < 256 -> 0 <= b2 < 256 -> b1 <> b2 ->
  y1 <> Null -> y2 <> Null ->
  exists n1 n2,
    insertNode4 (Node4 h (repeat 0 4) (repeat Null 4)) b1 y1 = Some n1 /\
    insertNode4 n1 b2 y2 = Some n2 /\
    isInner n2 = true /\ shape n2 /\
    prefixLength (header n2) = prefixLength h /\
    storedPrefix (header n2) = storedPrefix h /\
    forall b, 0 <= b < 256 ->
      childAt n2 b = (if b =? b2 then y2 else if b =? b1 then y1 else Null).
Proof.
  intros L E H1 H2 Hne Y1 Y2.
  pose proof (@shape_empty4 h L E) as S0.
  destruct (@insertNode4_room h (repeat 0 4) (repeat Null 4) b1 y1 S0
              ltac:(lia) H1 (@childAt_empty4 h _ _ b1 E) Y1)
    as (n1 & E1 & U1).
  destruct (@insertNode4_form h _ _ b1 y1 n1 ltac:(lia) E1) as (k1 & c1 & ->).
  rewrite E in *. change (wrap16 (0 + 1)) with 1 in *.
  destruct U1 as (U11 & U12 & U13 & U14 & U15).
  assert (N1 : childAt (Node4 (setCount h 1) k1 c1) b2 = Null).
  { rewrite U15 by assumption.
    destruct (Z.eqb_spec b2 b1); [congruence|].
    apply childAt_empty4. assumption. }
  destruct (@insertNode4_room _ k1 c1 b2 y2 U12
              ltac:(cbn [count setCount]; lia) H2 N1 Y2)
    as (n2 & E2 & U2).
  exists (Node4 (setCount h 1) k1 c1), n2.
  destruct U2 as (U21 & U22 & U23 & U24 & U25).
  cbn [header] in *.
  split; [assumption|]. split; [assumption|]. split; [assumption|].
  split; [assumption|]. split; [congruence|]. split; [congruence|].
  intros b Hb. rewrite U25 by assumption.
  destruct (Z.eqb_spec b b2); [reflexivity|].
  rewrite U15 by assumption.
  destruct (Z.eqb_spec b b1); [reflexivity|].
  apply childAt_empty4. assumption.
Qed.

(** * The first byte where two keys differ *)

Lemma first_diff (a k : list Z) len : forall gap d,
  length a = len -> length k = len -> (d + gap = len)%nat ->
  (forall i, (i < d)%nat -> nth i a 0 = nth i k 0) -> a <> k ->
  exists j, (d <= j < len)%nat /\
            (forall i, (i < j)%nat -> nth i a 0 = nth i k 0) /\
            nth j a 0 <> nth j k 0.
Proof.
  induction gap as [|gap IH]; intros d La Lk Hd Hag Hne.
  - exfalso. apply Hne. apply nth_ext_eq with (d := 0); [congruence|].
    intros i Hi. apply Hag. lia.
  - destruct (Z.eq_dec (nth d a 0) (nth d k 0)) as [E|E].
    + destruct (IH (S d) La Lk ltac:(lia)) as (j & J1 & J2 & J3);
        try assumption.
      * intros i Hi. destruct (Nat.eq_dec i d) as [->|N];
          [assumption|apply Hag; lia].
      * exists j. split; [lia|]. split; assumption.
    + exists d. split; [lia|]. split; assumption.
Qed.

Lemma commonLength_spec a k d : forall fuel n m,
  0 <= d -> 0 <= n <= m ->
  d + m < Z.of_nat (length a) -> d + m < Z.of_nat (length k) ->
  Z.of_nat (length a) < 4294967296 -> Z.of_nat (length k) < 4294967296 ->
  (forall i, n <= i < m ->
     nth (Z.to_nat (d + i)) a 0 = nth (Z.to_nat (d + i)) k 0) ->
  nth (Z.to_nat (d + m)) a 0 <> nth (Z.to_nat (d + m)) k 0 ->
  (Z.to_nat (m - n) < fuel)%nat ->
  commonLength fuel a k d n = Some m.
Proof.
  induction fuel as [|fuel IH]; intros n m Hd Hn Ha Hk Ba Bk Heq Hne Hf;
    [lia|].
  cbn [commonLength]. rewrite (wrap32_small (x := d + n)) by lia.
  rewrite (@rd_Some _ a (d + n) 0) by lia.
  rewrite (@rd_Some _ k (d + n) 0) by lia. cbn [bind].
  destruct (Z.eq_dec n m) as [->|Hnm].
  - destruct (Z.eqb_spec (nth (Z.to_nat (d + m)) a 0)
                (nth (Z.to_nat (d + m)) k 0)); [contradiction|reflexivity].
  - rewrite (Heq n ltac:(lia)), Z.eqb_refl.
    rewrite (wrap32_small (x := n + 1)) by lia.
    apply IH; try lia; try assumption.
    intros i Hi. apply Heq. lia.
Qed.

Lemma slice_Some buf off n :
  0 <= off -> 0 <= n -> off + n <= Z.of_nat (length buf) ->
  slice buf off n = Some (firstn (Z.to_nat n) (skipn (Z.to_nat off) buf)).
Proof.
  intros H1 H2 H3. unfold slice.
  destruct (Z.ltb_spec (Z.of_nat (length buf)) (off + n)); [lia|reflexivity].
Qed.

(** * Splitting a leaf *)

Lemma storedPrefix_fresh (bytes : list Z) m :
  0 <= m < 9 -> length bytes = Z.to_nat m ->
  let h := mkHeader m 0 (overwrite (repeat 0 9) 0 bytes) in
  length (prefix h) = 9%nat /\ storedPrefix h = bytes.
Proof.
  intros Hm Lb h.
  assert (L : length (prefix h) = 9%nat)
    by (unfold h; cbn [prefix]; rewrite length_overwrite; reflexivity).
  split; [assumption|].
  destruct (@storedPrefix_short h L ltac:(unfold h; cbn [prefixLength]; lia))
    as [Lq Nq].
  change (prefixLength h) with m in Lq, Nq.
  apply nth_ext_eq with (d := 0); [lia|].
  intros i Hi. rewrite Nq by lia.
  change (prefix h) with (overwrite (repeat 0 9) 0 bytes).
  rewrite nth_overwrite by (rewrite repeat_length; lia).
  destruct (Nat.leb_spec 0 i), (Nat.ltb_spec i (0 + length bytes));
    simpl; try lia.
  f_equal. lia.
Qed.

Lemma nth_segment (k : list Z) d m i :
  (i < m)%nat -> (d + m <= length k)%nat ->
  nth i (firstn m (skipn d k)) 0 = nth (d + i) k 0.
Proof.
  intros Hi Hl. rewrite nth_firstn.
  destruct (Nat.ltb_spec i m); [|lia]. apply nth_skipn.
Qed.

Lemma Forall_firstn_any (A : Type) (P : A -> Prop) (l : list A) : forall n,
  Forall P l -> Forall P (firstn n l).
Proof.
  induction l as [|x r IH]; intros [|n] F; simpl; try constructor;
    inversion F; subst; auto.
Qed.

Lemma Forall_skipn_any (A : Type) (P : A -> Prop) (l : list A) : forall n,
  Forall P l -> Forall P (skipn n l).
Proof.
  induction l as [|x r IH]; intros [|n] F; simpl; try assumption.
  inversion F; subst; auto.
Qed.

Lemma segment_bytes (k : list Z) d m :
  Forall (fun b => 0 <= b < 256) k ->
  Forall (fun b => 0 <= b < 256) (firstn m (skipn d k)).
Proof.
  intros F. apply Forall_firstn_any. apply Forall_skipn_any. assumption.
Qed.

Lemma insertLeafSplit_wf p u v :
  wf p (Leaf u) -> 0 <= v < 2 ^ 63 -> v <> u ->
  firstn (length p) (loadKey v) = p ->
  exists t',
    insertLeafSplit loadKey (Leaf u) (loadKey v) (Z.of_nat (length p)) v 8
      = Some t' /\
    wf p t' /\
    forall w, hasLeaf t' w <-> (w = v \/ w = u).
Proof.
  intros W Hv Hne Av.
  inversion W as [p0 u0 Hu Au|p0 n0 Hin0]; subst; [|discriminate Hin0].
  pose proof (@agree_length _ _ Au) as Lp. rewrite length_loadKey in Lp.
  set (a := loadKey u) in *. set (k := loadKey v) in *.
  assert (La : length a = 8%nat) by apply length_loadKey.
  assert (Lk : length k = 8%nat) by apply length_loadKey.
  assert (Hak : a <> k).
  { intros E. apply Hne. symmetry.
    apply loadKey_inj; [lia|lia|assumption]. }
  destruct (@first_diff a k 8 (8 - length p) (length p) La Lk ltac:(lia))
    as (j & J1 & J2 & J3); [|assumption|].
  { intros i Hi. apply (@agree_two p a k Au Av i Hi). }
  set (m := Z.of_nat j - Z.of_nat (length p)).
  assert (Hm : 0 <= m < 8) by (unfold m; lia).
  assert (Ej : Z.to_nat (Z.of_nat (length p) + m) = j) by (unfold m; lia).
  unfold insertLeafSplit. cbn [getLeafValue]. rewrite loadBuf_loadKey.
  cbn [bind]. fold a k.
  rewrite (@commonLength_spec a k (Z.of_nat (length p)) (S (length k)) 0 m);
    try lia.
  2:{ intros i Hi.
      replace (Z.to_nat (Z.of_nat (length p) + i))
        with (length p + Z.to_nat i)%nat by lia.
      apply J2. lia. }
  2:{ rewrite Ej. assumption. }
  cbn [bind].
  assert (Emin : min m maxPrefixLength = m)
    by (rewrite min_spec; unfold maxPrefixLength; lia).
  rewrite Emin.
  rewrite slice_Some by lia. cbn [bind].
  rewrite (wrap32_small (x := Z.of_nat (length p) + m)) by lia.
  rewrite (@rd_Some _ a _ 0) by lia. rewrite (@rd_Some _ k _ 0) by lia.
  cbn [bind]. rewrite Ej. rewrite Nat2Z.id.
  rewrite makeLeaf_small by assumption.
  set (bytes := firstn (Z.to_nat m) (skipn (length p) k)).
  assert (Lb : length bytes = Z.to_nat m)
    by (unfold bytes; rewrite length_firstn, length_skipn; lia).
  destruct (@storedPrefix_fresh bytes m ltac:(lia) Lb) as [Lh Sh].
  set (h := mkHeader m 0 (overwrite (repeat 0 9) 0 bytes)) in *.
  change (Node4 h (repeat 0 4) (repeat Null 4)) with
    (Node4 h (repeat 0 4) (repeat Null 4)).
  assert (Ba : 0 <= nth j a 0 < 256) by (apply loadKey_byte; lia).
  assert (Bk : 0 <= nth j k 0 < 256) by (apply loadKey_byte; lia).
  destruct (@fresh_pair h (nth j a 0) (Leaf u) (nth j k 0) (Leaf v)
              Lh eq_refl Ba Bk J3 ltac:(discriminate) ltac:(discriminate))
    as (n1 & n2 & E1 & E2 & I2 & S2 & P2 & Q2 & C2).
  change (repeat 0 4) with [0; 0; 0; 0] in E1.
  change (repeat Null 4) with [Null; Null; Null; Null] in E1.
  cbn [repeat]. rewrite E1. cbn [bind]. rewrite E2.
  exists n2. split; [reflexivity|].
  assert (Nb : forall i, (i < length bytes)%nat ->
                 nth (length p + i) k 0 = nth i bytes 0).
  { intros i Hi. unfold bytes. rewrite nth_segment by lia. reflexivity. }
  split.
  - apply wf_inner; try assumption.
    + rewrite P2. unfold h. cbn [prefixLength]. lia.
    + rewrite P2. unfold h. cbn [prefixLength]. lia.
    + rewrite Q2, Sh. apply segment_bytes. apply loadKey_isKey.
    + intros b Hb Hc. rewrite C2 in Hc |- * by assumption.
      rewrite Q2, Sh.
      destruct (Z.eqb_spec b (nth j k 0)) as [->|N2].
      * apply wf_leaf; [assumption|].
        apply agree_extend; [assumption|fold k; lia|assumption|].
        fold k. f_equal. lia.
      * destruct (Z.eqb_spec b (nth j a 0)) as [->|N1]; [|contradiction].
        apply wf_leaf; [assumption|]. fold a.
        apply agree_extend; [assumption|lia| |f_equal; lia].
        intros i Hi. rewrite <- Nb by assumption. apply J2. lia.
  - intros w. rewrite (@hasLeaf_inner_iff n2 w I2). split.
    + intros (b & Hb & Hw). rewrite C2 in Hw by assumption.
      destruct (Z.eqb_spec b (nth j k 0)).
      * left. apply hasLeaf_Leaf. assumption.
      * destruct (Z.eqb_spec b (nth j a 0)).
        -- right. apply hasLeaf_Leaf. assumption.
        -- exfalso. exact (@hasLeaf_Null w Hw).
    + intros [->| ->].
      * exists (nth j k 0). split; [assumption|]. rewrite C2 by assumption.
        rewrite Z.eqb_refl. constructor.
      * exists (nth j a 0). split; [assumption|]. rewrite C2 by assumption.
        destruct (Z.eqb_spec (nth j a 0) (nth j k 0)); [contradiction|].
        rewrite Z.eqb_refl. constructor.
Qed.

(** * Splitting a compressed path *)

Lemma hasLeaf_split n b w :
  isInner n = true -> 0 <= b < 256 ->
  (hasLeaf n w <->
   hasLeaf (childAt n b) w \/
   exists b', 0 <= b' < 256 /\ b' <> b /\ hasLeaf (childAt n b') w).
Proof.
  intros Hin Hb. rewrite (@hasLeaf_inner_iff n w Hin). split.
  - intros (b' & Hb' & H). destruct (Z.eq_dec b' b) as [->|N].
    + left. assumption.
    + right. exists b'. split; [assumption|split; assumption].
  - intros [H|(b' & Hb' & _ & H)].
    + exists b. split; assumption.
    + exists b'. split; assumption.
Qed.

Lemma Forall_nth_byte (q : list Z) i :
  Forall (fun b => 0 <= b < 256) q -> (i < length q)%nat ->
  0 <= nth i q 0 < 256.
Proof.
  intros F Hi. rewrite Forall_forall in F. apply F. apply nth_In. assumption.
Qed.

Lemma insertSplitPrefix_wf p n v m :
  wf p n -> isInner n = true -> 0 <= v < 2 ^ 63 ->
  firstn (length p) (loadKey v) = p ->
  let q := storedPrefix (header n) in
  0 <= m < prefixLength (header n) ->
  (forall i, (i < Z.to_nat m)%nat ->
             nth (length p + i) (loadKey v) 0 = nth i q 0) ->
  nth (length p + Z.to_nat m) (loadKey v) 0 <> nth (Z.to_nat m) q 0 ->
  exists t',
    insertSplitPrefix loadKey n (loadKey v) (Z.of_nat (length p)) v 8 m
      = Some t' /\
    wf p t' /\
    forall w, hasLeaf t' w <-> (w = v \/ hasLeaf n w).
Proof.
  intros W Hin Hv Av q Hm Hq Hdiff.
  inversion W as [|p0 n0 _ Sh Hpl Hd Hby Hch]; subst; [discriminate|].
  destruct Sh as [Lp Ly].
  destruct (@storedPrefix_short (header n) Lp ltac:(lia)) as [Lq Nq].
  fold q in Lq, Nq, Hby.
  set (k := loadKey v) in *.
  assert (Lk : length k = 8%nat) by apply length_loadKey.
  set (pl := prefixLength (header n)) in *.
  set (pl' := pl - (m + 1)).
  assert (Hpl' : 0 <= pl' < 9) by (unfold pl'; lia).
  unfold insertSplitPrefix. fold pl.
  rewrite (wrap32_small (x := pl - (m + 1))) by lia. fold pl'.
  destruct (Z.ltb_spec pl maxPrefixLength);
    [|unfold maxPrefixLength in *; lia].
  assert (Em : min m maxPrefixLength = m)
    by (rewrite min_spec; unfold maxPrefixLength; lia).
  assert (Em' : min pl' maxPrefixLength = pl')
    by (rewrite min_spec; unfold maxPrefixLength; lia).
  rewrite Em, Em'.
  rewrite (wrap32_small (x := Z.of_nat (length p) + m)) by lia.
  rewrite (@rd_Some _ k _ 0) by lia.
  replace (Z.to_nat (Z.of_nat (length p) + m))
    with (length p + Z.to_nat m)%nat by lia.
  rewrite makeLeaf_small by assumption.
  (* the header of the new node *)
  set (bytesN := firstn (Z.to_nat m) (skipn 0 (prefix (header n)))).
  assert (LbN : length bytesN = Z.to_nat m)
    by (unfold bytesN; rewrite length_firstn, length_skipn; lia).
  destruct (@storedPrefix_fresh bytesN m ltac:(lia) LbN) as [LhN ShN].
  change (memmove (repeat 0 9) 0 (prefix (header n)) 0 (Z.to_nat m))
    with (overwrite (repeat 0 9) 0 bytesN).
  set (hN := mkHeader m 0 (overwrite (repeat 0 9) 0 bytesN)) in *.
  assert (NbN : forall i, (i < Z.to_nat m)%nat -> nth i bytesN 0 = nth i q 0).
  { intros i Hi. unfold bytesN. rewrite nth_segment by lia.
    rewrite Nq by lia. reflexivity. }
  (* the header of the old node *)
  set (h' := mkHeader pl' (count (header n))
               (memmove (prefix (header n)) 0 (prefix (header n))
                  (Z.to_nat (m + 1)) (Z.to_nat pl'))).
  assert (Lh' : length (prefix h') = 9%nat)
    by (unfold h'; cbn [prefix]; rewrite length_memmove; assumption).
  destruct (@storedPrefix_short h' Lh' ltac:(unfold h'; cbn [prefixLength]; lia))
    as [Lq' Nq'].
  change (prefixLength h') with pl' in Lq', Nq'.
  assert (Nq'' : forall i, (i < Z.to_nat pl')%nat ->
            nth i (storedPrefix h') 0 = nth (Z.to_nat m + 1 + i) q 0).
  { intros i Hi. rewrite Nq' by assumption. unfold h'. cbn [prefix].
    rewrite nth_memmove by lia.
    destruct (Nat.leb_spec 0 i), (Nat.ltb_spec i (0 + Z.to_nat pl'));
      simpl; try lia.
    rewrite Nq by lia. f_equal. lia. }
  set (b := nth (Z.to_nat m) (prefix (header n)) 0).
  assert (Eb : b = nth (Z.to_nat m) q 0) by (unfold b; rewrite Nq by lia; reflexivity).
  assert (Hb : 0 <= b < 256) by (rewrite Eb; apply Forall_nth_byte; [assumption|lia]).
  set (b2 := nth (length p + Z.to_nat m) k 0).
  assert (Hb2 : 0 <= b2 < 256) by (apply loadKey_byte; lia).
  assert (Eq : q = bytesN ++ [b] ++ storedPrefix h').
  { apply nth_ext_eq with (d := 0).
    - rewrite !length_app. simpl. lia.
    - intros i Hi.
      destruct (Nat.lt_ge_cases i (Z.to_nat m)) as [L1|L1].
      + rewrite app_nth1 by lia. symmetry. apply NbN. assumption.
      + rewrite app_nth2 by lia. rewrite LbN.
        destruct (Nat.eq_dec i (Z.to_nat m)) as [->|N].
        * rewrite Nat.sub_diag. simpl. symmetry. assumption.
        * replace (i - Z.to_nat m)%nat with (S (i - Z.to_nat m - 1)) by lia.
          simpl. rewrite Nq'' by lia. f_equal. lia. }
  pose proof (wf_nonNull W) as Wn.
  assert (Hn' : setHeader n h' <> Null)
    by (destruct n; try discriminate; contradiction).
  destruct (@fresh_pair hN b (setHeader n h') b2 (Leaf v)
              LhN eq_refl Hb Hb2 ltac:(unfold b2; congruence) Hn'
              ltac:(discriminate))
    as (n1 & n2 & E1 & E2 & I2 & S2 & P2 & Q2 & C2).
  change (repeat 0 4) with [0; 0; 0; 0] in E1.
  change (repeat Null 4) with [Null; Null; Null; Null] in E1.
  cbn [repeat]. rewrite E1. cbn [bind]. rewrite E2.
  exists n2. split; [reflexivity|].
  assert (W' : wf (p ++ bytesN ++ [b]) (setHeader n h')).
  { apply (@wf_rebase p (p ++ bytesN ++ [b]) n h' W Hin);
      try assumption; try reflexivity.
    - fold q. rewrite Eq. rewrite <- !app_assoc. reflexivity.
    - change (prefixLength h') with pl'. lia.
    - change (prefixLength h') with pl'. rewrite !length_app. simpl.
      unfold pl'. lia.
    - apply Forall_forall. intros x Hx.
      destruct (In_nth _ _ 0 Hx) as (i & Hi & <-).
      rewrite Nq'' by lia. apply Forall_nth_byte; [assumption|lia]. }
  split.
  - apply wf_inner; try assumption.
    + rewrite P2. change (prefixLength hN) with m. lia.
    + rewrite P2. change (prefixLength hN) with m. lia.
    + rewrite Q2, ShN. apply Forall_forall. intros x Hx.
      destruct (In_nth _ _ 0 Hx) as (i & Hi & <-).
      rewrite NbN by lia. apply Forall_nth_byte; [assumption|lia].
    + intros b' Hb' Hc. rewrite C2 in Hc |- * by assumption.
      rewrite Q2, ShN.
      destruct (Z.eqb_spec b' b2) as [->|N2].
      * apply wf_leaf; [assumption|].
        apply agree_extend;
          [assumption|fold k; lia| |unfold b2; fold k; f_equal; lia].
        intros i Hi. fold k. rewrite NbN by lia. apply Hq. lia.
      * destruct (Z.eqb_spec b' b) as [->|N1]; [assumption|contradiction].
  - intros w. rewrite (@hasLeaf_inner_iff n2 w I2). split.
    + intros (b' & Hb' & Hw). rewrite C2 in Hw by assumption.
      destruct (Z.eqb_spec b' b2).
      * left. apply hasLeaf_Leaf. assumption.
      * destruct (Z.eqb_spec b' b).
        -- right. apply (@hasLeaf_setHeader n h' w Hin eq_refl). assumption.
        -- exfalso. exact (@hasLeaf_Null w Hw).
    + intros [->|Hw].
      * exists b2. split; [assumption|]. rewrite C2 by assumption.
        rewrite Z.eqb_refl. constructor.
      * exists b. split; [assumption|]. rewrite C2 by assumption.
        destruct (Z.eqb_spec b b2);
          [exfalso; unfold b2 in *; congruence|].
        rewrite Z.eqb_refl.
        apply (@hasLeaf_setHeader n h' w Hin eq_refl). assumption.
Qed.

(** * insert on well-formed trees *)

Theorem insert_wf p t :
  wf p t ->
  forall v, 0 <= v < 2 ^ 63 -> ~ hasLeaf t v ->
  firstn (length p) (loadKey v) = p ->
  exists t',
    insert loadKey t (loadKey v) (Z.of_nat (length p)) v 8 = Some t' /\
    wf p t' /\
    forall w, hasLeaf t' w <-> (w = v \/ hasLeaf t w).
Proof.
  induction 1 as [p u Hu Ha|p n Hin Sh Hpl Hd Hby Hch IH];
    intros v Hv Hfresh Av.
  - (* leaf *)
    cbn [insert].
    destruct (@insertLeafSplit_wf p u v (@wf_leaf p u Hu Ha) Hv) as (t' & E & W' & L');
      [intros ->; apply Hfresh; constructor|assumption|].
    exists t'. split; [assumption|]. split; [assumption|].
    intros w. rewrite L'. rewrite hasLeaf_Leaf. reflexivity.
  - (* inner node *)
    assert (W : wf p n) by (apply wf_inner; assumption).
    pose proof (loadKey_isKey v) as Hk.
    set (k := loadKey v) in *.
    destruct (@prefix_check p n k W Hin Hk Av) as (Lq & r & R1 & R2 & R3).
    set (q := storedPrefix (header n)) in *.
    rewrite (@insert_inner loadKey n k _ v 8 Hin).
    unfold insertInner.
    destruct R3 as [(F1 & F2 & F3)|(F1 & F2 & F3 & F4)].
    + (* the compressed path matches: descend *)
      assert (St :
        (if prefixLength (header n) =? 0
         then Some (inr (Z.of_nat (length p)))
         else mismatchPos <- prefixMismatch loadKey n k
                               (Z.of_nat (length p)) 8 ;;
              if negb (mismatchPos =? prefixLength (header n))
              then r0 <- insertSplitPrefix loadKey n k
                           (Z.of_nat (length p)) v 8 mismatchPos ;;
                   Some (inl r0)
              else Some (inr (wrap32 (Z.of_nat (length p) +
                                      prefixLength (header n))))) =
        Some (inr (A := ArtNode)
                (Z.of_nat (length p) + prefixLength (header n)))).
      { destruct (Z.eqb_spec (prefixLength (header n)) 0) as [E0|E0].
        - rewrite E0, Z.add_0_r. reflexivity.
        - rewrite R2. cbn [bind]. rewrite F2, Z.eqb_refl. cbn [negb].
          rewrite wrap32_small by lia. reflexivity. }
      rewrite St. cbn [bind]. clear St.
      pose proof Hk as [Lk Fk].
      rewrite (@rd_Some _ k _ 0) by lia. cbn [bind].
      replace (Z.to_nat (Z.of_nat (length p) + prefixLength (header n)))
        with (length p + length q)%nat by lia.
      set (kb := nth (length p + length q) k 0).
      assert (Hkb : 0 <= kb < 256) by (apply isKey_byte; [assumption|lia]).
      assert (A' : firstn (length (p ++ q ++ [kb])) k = p ++ q ++ [kb])
        by (apply agree_extend; [assumption|lia|assumption|reflexivity]).
      rewrite makeLeaf_small by assumption.
      assert (Fill : childAt n kb = Null ->
                exists t', insertNode n kb (Leaf v) = Some t' /\ wf p t' /\
                           forall w, hasLeaf t' w <-> (w = v \/ hasLeaf n w)).
      { intros Ec.
        destruct (@insertNode_spec n kb (Leaf v) Hin Sh Hkb Ec
                    ltac:(discriminate)) as (n' & E' & U').
        exists n'. split; [assumption|]. split.
        - apply (@wf_updated p n n' kb (Leaf v) W Hin U' Hkb). right.
          apply wf_leaf; assumption.
        - intros w. rewrite (@hasLeaf_updated n n' kb (Leaf v) w Hin U' Hkb).
          rewrite (@hasLeaf_split n kb w Hin Hkb). rewrite Ec.
          rewrite hasLeaf_Leaf. split.
          + intros [->|H]; [left; reflexivity|right; right; assumption].
          + intros [->|[H|H]];
              [left; reflexivity|exfalso; exact (@hasLeaf_Null w H)|
               right; assumption]. }
      destruct (findChild n kb) as [|i] eqn:Ef.
      * apply Fill. apply childAt_NullSlot. assumption.
      * rewrite (@on_nth_child _ _ _ n kb i Hin Sh Hkb Ef).
        destruct (isNull (childAt n kb)) eqn:Ec.
        -- apply Fill. apply isNull_true. assumption.
        -- apply isNull_false in Ec.
           rewrite wrap32_small by lia.
           assert (Hf' : ~ hasLeaf (childAt n kb) v).
           { intros H. apply Hfresh.
             apply hasLeaf_inner with (b := kb); assumption. }
           destruct (IH kb Hkb Ec v Hv Hf' A') as (x' & E' & W' & L').
           replace (Z.of_nat (length (p ++ q ++ [kb])))
             with (Z.of_nat (length p) + prefixLength (header n) + 1)
             in E' by (rewrite !length_app; simpl; lia).
           fold k in E'. rewrite E'. cbn [bind].
           pose proof (@setChild_spec n kb i x' Hin Sh Hkb Ef Ec
                         (wf_nonNull W')) as U'.
           eexists. split; [reflexivity|]. split.
           ++ apply (@wf_updated p n _ kb x' W Hin U' Hkb). right.
              assumption.
           ++ intros w.
              rewrite (@hasLeaf_updated n _ kb x' w Hin U' Hkb).
              rewrite (@hasLeaf_split n kb w Hin Hkb). rewrite L'. tauto.
    + (* the key leaves the compressed path: split it *)
      destruct (Z.eqb_spec (prefixLength (header n)) 0) as [E0|E0]; [lia|].
      rewrite R2. cbn [bind].
      destruct (Z.eqb_spec (snd r) (prefixLength (header n))); [lia|].
      cbn [negb].
      destruct (@insertSplitPrefix_wf p n v (snd r) W Hin Hv Av
                  ltac:(lia) F3 F4) as (t' & E' & W' & L').
      fold k in E'. rewrite E'. cbn [bind].
      exists t'. split; [reflexivity|]. split; assumption.
Qed.

(** * Concatenating compressed paths *)

Lemma nth_three (a c : list Z) b i :
  nth i (a ++ b :: c) 0 =
  if (i <? length a)%nat then nth i a 0
  else if (i =? length a)%nat then b
  else nth (i - length a - 1) c 0.
Proof.
  destruct (Nat.ltb_spec i (length a)) as [L|L].
  - apply app_nth1. assumption.
  - rewrite app_nth2 by assumption.
    destruct (Nat.eqb_spec i (length a)) as [->|N].
    + rewrite Nat.sub_diag. reflexivity.
    + destruct (i - length a)%nat as [|j] eqn:E; [lia|].
      simpl. f_equal. lia.
Qed.

Lemma storedPrefix_nth h i :
  length (prefix h) = 9%nat -> 0 <= prefixLength h ->
  length (storedPrefix h) = Z.to_nat (Z.min (prefixLength h) 9) /\
  ((i < length (storedPrefix h))%nat ->
   nth i (storedPrefix h) 0 = nth i (prefix h) 0).
Proof.
  intros L H. unfold storedPrefix. rewrite min_spec. unfold maxPrefixLength.
  rewrite length_firstn. split; [lia|].
  intros Hi. rewrite nth_firstn.
  destruct (Nat.ltb_spec i (Z.to_nat (Z.min (prefixLength h) 9)));
    [reflexivity|lia].
Qed.

(** [memcpy(dst, src, n)] *)
Lemma nth_memcpy (dst src : list Z) n j :
  (n <= length dst)%nat -> (n <= length src)%nat ->
  nth j (memmove dst 0 src 0 n) 0 =
  if (j <? n)%nat then nth j src 0 else nth j dst 0.
Proof.
  intros H1 H2. rewrite nth_memmove by lia.
  cbn [Nat.leb Nat.add andb]. rewrite Nat.sub_0_r, Nat.add_0_r. reflexivity.
Qed.

(** The parent path has [a < 8] bytes: edge byte and [m] bytes of the
    child path follow it. *)
Lemma concat_fill (P X : list Z) b0 a x m :
  length P = 9%nat -> length X = 9%nat -> (a < 8)%nat ->
  m = Nat.min x (8 - a) ->
  firstn (S a + m)
    (memmove X 0 (memmove (upd a b0 P) (S a) X 0 m) 0 (S a + m)) =
  firstn 9 (firstn a P ++ b0 :: firstn (Nat.min x 9) X).
Proof.
  intros LP LX Ha Em.
  assert (Hm : (m <= x /\ S a + m <= 9)%nat) by lia.
  assert (Hx : (m <= Nat.min x 9)%nat) by lia.
  assert (Hc : (x <= 8 - a -> m = x)%nat) by lia.
  assert (Hd : (8 - a < x -> S a + m = 9 /\ 9 - a <= Nat.min x 9)%nat)
    by lia.
  clear Em.
  assert (La : length (firstn a P) = a) by (rewrite length_firstn; lia).
  apply nth_ext_eq with (d := 0).
  - rewrite !length_firstn, length_memmove, length_app. cbn [length].
    rewrite La, length_firstn, LX.
    destruct (Nat.le_gt_cases x (8 - a)) as [C|C].
    + specialize (Hc C). lia.
    + specialize (Hd C). lia.
  - intros i Hi. rewrite length_firstn, length_memmove, LX in Hi.
    assert (Hi' : (i < S a + m)%nat) by lia. clear Hi Hc Hd.
    rewrite !nth_firstn.
    destruct (Nat.ltb_spec i (S a + m)) as [_|F]; [|lia].
    destruct (Nat.ltb_spec i 9) as [_|F]; [|lia].
    rewrite nth_memcpy
      by (rewrite ?length_memmove, ?length_upd; lia).
    destruct (Nat.ltb_spec i (S a + m)) as [_|F]; [|lia].
    rewrite nth_memmove by (rewrite ?length_upd; lia).
    rewrite nth_three, La.
    destruct (lt_eq_lt_dec i a) as [[L|E]|G].
    + destruct (Nat.leb_spec (S a) i) as [F|_]; [lia|]. cbn [andb].
      destruct (Nat.ltb_spec i a) as [_|F]; [|lia].
      rewrite nth_upd_other by lia. rewrite nth_firstn.
      destruct (Nat.ltb_spec i a) as [_|F]; [reflexivity|lia].
    + subst i.
      destruct (Nat.leb_spec (S a) a) as [F|_]; [lia|]. cbn [andb].
      rewrite Nat.ltb_irrefl, Nat.eqb_refl.
      apply nth_upd_same. lia.
    + destruct (Nat.leb_spec (S a) i) as [_|F]; [|lia].
      destruct (Nat.ltb_spec i (S a + m)) as [_|F]; [|lia]. cbn [andb].
      destruct (Nat.ltb_spec i a) as [F|_]; [lia|].
      destruct (Nat.eqb_spec i a) as [F|_]; [lia|].
      rewrite nth_firstn.
      destruct (Nat.ltb_spec (i - a - 1) (Nat.min x 9)) as [_|F]; [|lia].
      f_equal. lia.
Qed.

(** The parent path has 8 bytes: the edge byte fills the header. *)
Lemma concat_edge (P X : list Z) b0 n :
  length P = 9%nat -> length X = 9%nat ->
  firstn 9 (memmove X 0 (upd 8 b0 P) 0 9) =
  firstn 9 (firstn 8 P ++ b0 :: firstn n X).
Proof.
  intros LP LX.
  destruct P as [|p0 [|p1 [|p2 [|p3 [|p4 [|p5 [|p6 [|p7 [|p8 [|]]]]]]]]]];
    try discriminate LP.
  destruct X as [|x0 [|x1 [|x2 [|x3 [|x4 [|x5 [|x6 [|x7 [|x8 [|]]]]]]]]]];
    try discriminate LX.
  reflexivity.
Qed.

(** The parent path has 9 bytes or more: it fills the header. *)
Lemma concat_full (P X : list Z) b0 n :
  length P = 9%nat -> length X = 9%nat ->
  firstn 9 (memmove X 0 P 0 9) = firstn 9 (firstn 9 P ++ b0 :: firstn n X).
Proof.
  intros LP LX.
  destruct P as [|p0 [|p1 [|p2 [|p3 [|p4 [|p5 [|p6 [|p7 [|p8 [|]]]]]]]]]];
    try discriminate LP.
  destruct X as [|x0 [|x1 [|x2 [|x3 [|x4 [|x5 [|x6 [|x7 [|x8 [|]]]]]]]]]];
    try discriminate LX.
  reflexivity.
Qed.

(** The lengths of [concatPrefix] when the parent path has less than 8
    bytes, as natural numbers. *)
Lemma concat_lengths (p q : Z) :
  0 <= p -> 0 <= q -> p + 1 < 9 ->
  Z.to_nat (Z.min q (9 - (p + 1))) = Nat.min (Z.to_nat q) (8 - Z.to_nat p) /\
  Z.to_nat (p + 1) = S (Z.to_nat p) /\
  Z.to_nat (Z.min p 9) = Z.to_nat p /\
  Z.to_nat (Z.min q 9) = Nat.min (Z.to_nat q) 9 /\
  Z.to_nat (Z.min (p + 1 + Z.min q (9 - (p + 1))) 9) =
  (S (Z.to_nat p) + Nat.min (Z.to_nat q) (8 - Z.to_nat p))%nat /\
  Z.to_nat (Z.min (q + (p + 1)) 9) =
  (S (Z.to_nat p) + Nat.min (Z.to_nat q) (8 - Z.to_nat p))%nat /\
  (Z.to_nat p < 8)%nat.
Proof.
  intros Hp Hq C.
  split; [lia|]. split; [lia|]. split; [lia|]. split; [lia|].
  split; [lia|]. split; lia.
Qed.

Lemma concatPrefix_spec h b0 hx :
  length (prefix h) = 9%nat -> length (prefix hx) = 9%nat ->
  0 <= prefixLength h -> 0 <= prefixLength hx ->
  prefixLength hx + (prefixLength h + 1) < 4294967296 ->
  prefixLength (concatPrefix h b0 hx) = prefixLength hx + (prefixLength h + 1) /\
  count (concatPrefix h b0 hx) = count hx /\
  length (prefix (concatPrefix h b0 hx)) = 9%nat /\
  storedPrefix (concatPrefix h b0 hx) =
  firstn 9 (storedPrefix h ++ [b0] ++ storedPrefix hx).
Proof.
  intros Lh Lx Hh Hx Hw.
  unfold storedPrefix, concatPrefix, maxPrefixLength.
  destruct (Z.ltb_spec (prefixLength h) 9) as [C1|C1].
  - destruct (Z.ltb_spec (prefixLength h + 1) 9) as [C2|C2].
    + (* parent path, edge byte and a part of the child path *)
      cbn [prefixLength count prefix].
      rewrite wrap32_small by lia. rewrite !min_spec.
      split; [reflexivity|]. split; [reflexivity|].
      split; [rewrite length_memmove; assumption|].
      destruct (concat_lengths Hh Hx C2)
        as (E1 & E2 & E3 & E4 & E5 & E6 & Ha).
      rewrite E6, E5, E1, E2, E3, E4. cbn [app].
      apply concat_fill; [assumption|assumption|assumption|reflexivity].
    + (* parent path and edge byte fill the header *)
      cbn [prefixLength count prefix].
      rewrite wrap32_small by lia. rewrite !min_spec.
      split; [reflexivity|]. split; [reflexivity|].
      split; [rewrite length_memmove; assumption|].
      replace (Z.to_nat (Z.min (prefixLength hx + (prefixLength h + 1)) 9))
        with 9%nat by lia.
      replace (Z.to_nat (Z.min (prefixLength h + 1) 9)) with 9%nat by lia.
      replace (Z.to_nat (Z.min (prefixLength h) 9)) with 8%nat by lia.
      replace (Z.to_nat (prefixLength h)) with 8%nat by lia.
      cbn [app]. apply concat_edge; assumption.
  - (* the parent path alone fills the header *)
    destruct (Z.ltb_spec (prefixLength h) 9) as [|_]; [lia|].
    cbn [prefixLength count prefix].
    rewrite wrap32_small by lia. rewrite !min_spec.
    split; [reflexivity|]. split; [reflexivity|].
    split; [rewrite length_memmove; assumption|].
    replace (Z.to_nat (Z.min (prefixLength hx + (prefixLength h + 1)) 9))
      with 9%nat by lia.
    replace (Z.to_nat (Z.min (prefixLength h) 9)) with 9%nat by lia.
    cbn [app]. apply concat_full; assumption.
Qed.

(** * erase on well-formed trees *)

Lemma leafMatches_wf p u k :
  wf p (Leaf u) -> isKey k -> firstn (length p) k = p ->
  exists r,
    leafMatches loadKey (Leaf u) k 8 (Z.of_nat (length p)) 8 = Some r /\
    (r = true <-> loadKey u = k).
Proof.
  intros W Hk A.
  inversion W as [p0 u0 Hu Au|p0 n0 Hin0]; subst; [|discriminate Hin0].
  pose proof (@agree_length _ _ Au) as Lp. rewrite length_loadKey in Lp.
  unfold leafMatches.
  destruct (Z.eqb_spec (Z.of_nat (length p)) 8) as [E8|E8]; cbn [negb].
  - exists true. split; [reflexivity|]. split; [|reflexivity]. intros _.
    apply key_eq_nth; [apply length_loadKey|apply Hk|].
    intros i Hi. apply (@agree_two p _ _ Au A i). lia.
  - cbn [getLeafValue]. rewrite loadBuf_loadKey. cbn [bind].
    apply (@leaf_check p u k Hu Au Hk A). lia.
Qed.

Lemma upd_nth_same (A : Type) (c : list A) d : forall i,
  upd i (nth i c d) c = c.
Proof.
  induction c as [|x r IH]; intros [|i]; simpl; try reflexivity.
  f_equal. apply IH.
Qed.

Lemma setChild_same n i :
  setChild n i (nth i (children n) Null) = n.
Proof.
  destruct n; cbn [setChild children]; try reflexivity;
    rewrite upd_nth_same; reflexivity.
Qed.

(** A leaf below another child than the one [k] selects has another key. *)
Lemma other_child_differs p n k b' w :
  wf p n -> isInner n = true -> 0 <= b' < 256 ->
  b' <> nth (length p + length (storedPrefix (header n))) k 0 ->
  hasLeaf (childAt n b') w -> loadKey w <> k.
Proof.
  intros W Hin Hb Hne Hw E.
  pose proof (@wf_child_leaf p n b' w W Hin Hb Hw) as A.
  destruct (@agree_extend_inv p _ _ b' A) as (_ & _ & _ & A4).
  rewrite E in A4. congruence.
Qed.

Theorem erase_wf p t :
  wf p t ->
  forall k, isKey k -> firstn (length p) k = p ->
  exists t',
    erase loadKey t k 8 (Z.of_nat (length p)) 8 = Some t' /\
    (forall w, hasLeaf t' w <-> (hasLeaf t w /\ loadKey w <> k)) /\
    ((t' = Null /\ exists u, t = Leaf u /\ loadKey u = k) \/ wf p t').
Proof.
  induction 1 as [p u Hu Ha|p n Hin Sh Hpl Hd Hby Hch IH]; intros k Hk A.
  - (* leaf *)
    cbn [erase].
    destruct (@leafMatches_wf p u k (@wf_leaf p u Hu Ha) Hk A)
      as (r & R1 & R2).
    rewrite R1. cbn [bind]. destruct r.
    + exists Null. split; [reflexivity|]. split.
      * intros w. split; [intros H; exfalso; exact (@hasLeaf_Null w H)|].
        intros [H N]. apply hasLeaf_Leaf in H. subst w.
        exfalso. apply N. apply R2. reflexivity.
      * left. split; [reflexivity|]. exists u. split; [reflexivity|].
        apply R2. reflexivity.
    + exists (Leaf u). split; [reflexivity|]. split.
      * intros w. rewrite hasLeaf_Leaf. split.
        -- intros ->. split; [reflexivity|]. intros E. apply R2 in E.
           discriminate.
        -- intros [H _]. assumption.
      * right. apply wf_leaf; assumption.
  - (* inner node *)
    assert (W : wf p n) by (apply wf_inner; assumption).
    destruct (@prefix_check p n k W Hin Hk A) as (Lq & r & R1 & R2 & R3).
    set (q := storedPrefix (header n)) in *.
    rewrite (@erase_inner loadKey n k 8 _ 8 Hin). unfold eraseInner.
    assert (Keep : (forall v, hasLeaf n v -> loadKey v <> k) ->
              exists t', Some n = Some t' /\
                (forall w, hasLeaf t' w <-> (hasLeaf n w /\ loadKey w <> k)) /\
                ((t' = Null /\ exists u, n = Leaf u /\ loadKey u = k) \/
                 wf p t')).
    { intros Hno. exists n. split; [reflexivity|]. split; [|right; assumption].
      intros w. split; [intros H; split; [assumption|apply Hno; assumption]|].
      intros [H _]. assumption. }
    destruct R3 as [(F1 & F2 & F3)|(F1 & F2 & F3 & F4)].
    + (* the compressed path matches *)
      assert (St :
        (if prefixLength (header n) =? 0
         then Some (true, Z.of_nat (length p))
         else mismatchPos <- prefixMismatch loadKey n k
                               (Z.of_nat (length p)) 8 ;;
              if negb (mismatchPos =? prefixLength (header n))
              then Some (false, Z.of_nat (length p))
              else Some (true, wrap32 (Z.of_nat (length p) +
                                       prefixLength (header n)))) =
        Some (true, Z.of_nat (length p) + prefixLength (header n))).
      { destruct (Z.eqb_spec (prefixLength (header n)) 0) as [E0|E0].
        - rewrite E0, Z.add_0_r. reflexivity.
        - rewrite R2. cbn [bind]. rewrite F2, Z.eqb_refl. cbn [negb].
          rewrite wrap32_small by lia. reflexivity. }
      rewrite St. cbn [bind]. clear St.
      pose proof Hk as [Lk Fk].
      rewrite (@rd_Some _ k _ 0) by lia. cbn [bind].
      replace (Z.to_nat (Z.of_nat (length p) + prefixLength (header n)))
        with (length p + length q)%nat by lia.
      set (kb := nth (length p + length q) k 0).
      assert (Hkb : 0 <= kb < 256) by (apply isKey_byte; [assumption|lia]).
      assert (A' : firstn (length (p ++ q ++ [kb])) k = p ++ q ++ [kb])
        by (apply agree_extend; [assumption|lia|assumption|reflexivity]).
      assert (Other : forall b' w, 0 <= b' < 256 -> b' <> kb ->
                hasLeaf (childAt n b') w -> loadKey w <> k).
      { intros b' w Hb' Hne Hw.
        apply (@other_child_differs p n k b' w W Hin Hb'); assumption. }
      assert (NoChild : childAt n kb = Null ->
                forall v, hasLeaf n v -> loadKey v <> k).
      { intros Ec v Hv E.
        destruct (@leaf_routes p n k v W Hin Hv E) as [_ Hr].
        fold q in Hr. fold kb in Hr. rewrite Ec in Hr.
        exact (@hasLeaf_Null v Hr). }
      destruct (findChild n kb) as [|i] eqn:Ef.
      * apply Keep. apply NoChild. apply childAt_NullSlot. assumption.
      * rewrite (@on_nth_child _ _ _ n kb i Hin Sh Hkb Ef).
        destruct (@findChild_bound n kb i Hin Sh Hkb Ef) as [Hi Enth].
        rewrite wrap32_small by lia.
        destruct (isNull (childAt n kb)) eqn:Ec.
        { (* an empty slot of a Node256 *)
          apply isNull_true in Ec.
          assert (Es : setChild n i Null = n).
          { rewrite <- Enth in Ec. rewrite <- Ec at 1. apply setChild_same. }
          rewrite Ec. cbn [isLeaf bind erase]. rewrite Es.
          apply Keep. apply NoChild. assumption. }
        apply isNull_false in Ec.
        (* the step that descends into the child *)
        assert (Descend :
          (forall u, childAt n kb = Leaf u -> loadKey u <> k) ->
          exists t',
            (x' <- erase loadKey (childAt n kb) k 8
                     (Z.of_nat (length p) + prefixLength (header n) + 1) 8 ;;
             Some (setChild n i x')) = Some t' /\
            (forall w, hasLeaf t' w <-> (hasLeaf n w /\ loadKey w <> k)) /\
            ((t' = Null /\ exists u, n = Leaf u /\ loadKey u = k) \/
             wf p t')).
        { intros Hnm.
          destruct (IH kb Hkb Ec k Hk A') as (x' & E' & L' & W').
          replace (Z.of_nat (length (p ++ q ++ [kb])))
            with (Z.of_nat (length p) + prefixLength (header n) + 1)
            in E' by (rewrite !length_app; simpl; lia).
          rewrite E'. cbn [bind].
          destruct W' as [(_ & u & Eu & Ek)|W'];
            [exfalso; exact (Hnm u Eu Ek)|].
          pose proof (@setChild_spec n kb i x' Hin Sh Hkb Ef Ec
                        (wf_nonNull W')) as U'.
          eexists. split; [reflexivity|]. split.
          - intros w.
            rewrite (@hasLeaf_updated n _ kb x' w Hin U' Hkb).
            rewrite (@hasLeaf_split n kb w Hin Hkb). rewrite L'.
            split.
            + intros [[H1 H2]|(b' & Hb' & Hne & H)].
              * split; [left; assumption|assumption].
              * split; [right; exists b'; split; [assumption|split; assumption]|].
                apply (Other b' w Hb' Hne H).
            + intros [[H|(b' & Hb' & Hne & H)] N].
              * left. split; assumption.
              * right. exists b'. split; [assumption|split; assumption].
          - right. apply (@wf_updated p n _ kb x' W Hin U' Hkb). right.
            assumption. }
        destruct (childAt n kb) as [|u|hx kx cx|hx kx cx|hx kx cx|hx cx]
          eqn:Ex; try contradiction;
          try (cbn [isLeaf bind]; apply Descend; intros u; discriminate).
        (* the child is a leaf *)
        cbn [isLeaf].
        assert (Wu : wf (p ++ q) (Leaf u)).
        { pose proof (Hch kb Hkb ltac:(rewrite Ex; discriminate)) as Wc.
          rewrite Ex in Wc. inversion Wc as [p0 u0 Hu Au|p0 n0 Hin0]; subst;
            [|discriminate Hin0].
          apply wf_leaf; [assumption|].
          rewrite app_assoc in Au. apply (@agree_prefix _ _ _ Au). }
        assert (Apq : firstn (length (p ++ q)) k = p ++ q).
        { rewrite app_assoc in A'. apply (@agree_prefix _ _ _ A'). }
        destruct (@leafMatches_wf (p ++ q) u k Wu Hk Apq) as (m & M1 & M2).
        replace (Z.of_nat (length (p ++ q)))
          with (Z.of_nat (length p) + prefixLength (header n))
          in M1 by (rewrite length_app; lia).
        rewrite M1. cbn [bind]. destruct m.
        -- (* the leaf found: delete it in the inner node *)
           assert (Eu : loadKey u = k) by (apply M2; reflexivity).
           assert (Uniq : forall w, hasLeaf (Leaf u) w -> loadKey w = k)
             by (intros w Hw; apply hasLeaf_Leaf in Hw; subst w; assumption).
           destruct (@eraseNode_spec n kb i Hin Sh Hkb Ef
                       ltac:(rewrite Ex; discriminate))
             as [(n' & E' & U')|(b0 & x0 & Hb0 & Hne0 & Ex0 & Nx0 & Only & E')].
           ++ rewrite E'. exists n'. split; [reflexivity|]. split.
              ** intros w.
                 rewrite (@hasLeaf_updated n n' kb Null w Hin U' Hkb).
                 rewrite (@hasLeaf_split n kb w Hin Hkb). rewrite Ex.
                 split.
                 --- intros [H|(b' & Hb' & Hne & H)];
                       [exfalso; exact (@hasLeaf_Null w H)|].
                     split; [right; exists b'; split; [assumption|split; assumption]|].
                     apply (Other b' w Hb' Hne H).
                 --- intros [[H|(b' & Hb' & Hne & H)] N].
                     +++ exfalso. apply N. apply Uniq. assumption.
                     +++ right. exists b'.
                         split; [assumption|split; assumption].
              ** right. apply (@wf_updated p n n' kb Null W Hin U' Hkb).
                 left. reflexivity.
           ++ (* the one-way node is replaced by its last child *)
              rewrite E'. eexists. split; [reflexivity|].
              pose proof (Hch b0 Hb0 ltac:(rewrite Ex0; assumption)) as W0.
              rewrite Ex0 in W0. fold q in W0.
              assert (Leaves : forall w,
                        hasLeaf x0 w <-> (hasLeaf n w /\ loadKey w <> k)).
              { intros w. rewrite (@hasLeaf_split n kb w Hin Hkb). rewrite Ex.
                split.
                - intros H.
                  assert (Hc : hasLeaf (childAt n b0) w)
                    by (rewrite Ex0; assumption).
                  split; [right; exists b0; split; [assumption|split; assumption]|].
                  apply (Other b0 w Hb0 Hne0 Hc).
                - intros [[H|(b' & Hb' & Hne & H)] N].
                  + exfalso. apply N. apply Uniq. assumption.
                  + destruct (Z.eq_dec b' b0) as [->|Nb].
                    * rewrite Ex0 in H. assumption.
                    * rewrite (Only b' Hne Nb) in H.
                      exfalso. exact (@hasLeaf_Null w H). }
              destruct (isLeaf x0) eqn:Il.
              ** (* a leaf moves up *)
                 split; [assumption|]. right.
                 destruct x0; try discriminate.
                 inversion W0 as [p0 u1 Hu0 Au0|p0 n0 Hin0]; subst;
                   [|discriminate Hin0].
                 apply wf_leaf; [assumption|].
                 apply (@agree_prefix _ _ _ Au0).
              ** (* an inner node moves up and takes the path over *)
                 assert (I0 : isInner x0 = true)
                   by (destruct x0; try reflexivity;
                       [contradiction|discriminate]).
                 inversion W0
                   as [p0 u1 Hu0 Au0 Ep Et|p0 n0 _ Sh0 Hpl0 Hd0 Hby0 Hch0 Ep Et];
                   [rewrite <- Et in I0; discriminate I0|].
                 subst p0 n0.
                 destruct Sh as [Lph _]. destruct Sh0 as [Lp0 _].
                 rewrite !length_app in Hd0. simpl length in Hd0.
                 destruct (@concatPrefix_spec (header n) b0 (header x0)
                             Lph Lp0 Hpl Hpl0 ltac:(lia))
                   as (C1 & C2 & C3 & C4).
                 fold q in C4.
                 rewrite firstn_all2 in C4
                   by (rewrite !length_app; simpl length;
                       destruct (@storedPrefix_short (header x0) Lp0
                                   ltac:(lia)) as [-> _]; lia).
                 split.
                 --- intros w. rewrite <- Leaves.
                     apply hasLeaf_setHeader; assumption.
                 --- right.
                     apply (@wf_rebase (p ++ q ++ [b0]) p x0 _ W0 I0);
                       try assumption.
                     +++ rewrite C4. rewrite <- !app_assoc. reflexivity.
                     +++ rewrite C1. lia.
                     +++ rewrite C1. lia.
                     +++ rewrite C4. apply Forall_app. split; [assumption|].
                         apply Forall_app. split; [|assumption].
                         constructor; [assumption|constructor].
        -- (* another leaf: the recursive call leaves it alone *)
           apply Descend. intros u' Eu' Ek. inversion Eu'; subst u'.
           apply M2 in Ek. discriminate.
    + (* the key leaves the compressed path *)
      destruct (Z.eqb_spec (prefixLength (header n)) 0) as [E0|E0]; [lia|].
      rewrite R2. cbn [bind].
      destruct (Z.eqb_spec (snd r) (prefixLength (header n))); [lia|].
      cbn [negb]. apply Keep. intros v Hv E.
      destruct (@leaf_routes p n k v W Hin Hv E) as [Hr _].
      fold q in Hr. apply F4. apply Hr. lia.
Qed.

(** * The operations at the root *)

Lemma wfRoot_hasLeaf t w :
  wfRoot t -> hasLeaf t w -> 0 <= w < 2 ^ 63.
Proof.
  intros [->|W] H.
  - exfalso. exact (@hasLeaf_Null w H).
  - exact (proj1 (@wf_hasLeaf _ _ W w H)).
Qed.

Lemma lookup_root t k :
  wfRoot t -> isKey k ->
  exists r,
    lookup loadKey t k 8 0 8 = Some r /\
    lookupPessimistic loadKey t k 8 0 8 = Some r /\
    ((exists v, r = Leaf v /\ hasLeaf t v /\ loadKey v = k) \/
     (r = Null /\ forall v, hasLeaf t v -> loadKey v <> k)).
Proof.
  intros [->|W] K.
  - exists Null. split; [reflexivity|]. split; [reflexivity|].
    right. split; [reflexivity|].
    intros v H. exfalso. exact (@hasLeaf_Null v H).
  - exact (@lookup_wf [] t W k K eq_refl).
Qed.

Lemma lookup_member t v :
  wfRoot t -> hasLeaf t v ->
  lookup loadKey t (loadKey v) 8 0 8 = Some (Leaf v) /\
  lookupPessimistic loadKey t (loadKey v) 8 0 8 = Some (Leaf v).
Proof.
  intros W H.
  destruct (@lookup_root t (loadKey v) W (loadKey_isKey v))
    as (r & E1 & E2 & [(u & -> & Hu & Eu)|(-> & N)]).
  - assert (u = v).
    { pose proof (@wfRoot_hasLeaf t u W Hu).
      pose proof (@wfRoot_hasLeaf t v W H).
      apply loadKey_inj; [lia|lia|assumption]. }
    subst u. split; assumption.
  - exfalso. exact (N v H eq_refl).
Qed.

Lemma lookup_absent t k :
  wfRoot t -> isKey k -> (forall v, hasLeaf t v -> loadKey v <> k) ->
  lookup loadKey t k 8 0 8 = Some Null /\
  lookupPessimistic loadKey t k 8 0 8 = Some Null.
Proof.
  intros W K N.
  destruct (@lookup_root t k W K)
    as (r & E1 & E2 & [(u & -> & Hu & Eu)|(-> & _)]).
  - exfalso. exact (N u Hu Eu).
  - split; assumption.
Qed.

Lemma insert_root t v :
  wfRoot t -> 0 <= v < 2 ^ 63 -> ~ hasLeaf t v ->
  exists t',
    insert loadKey t (loadKey v) 0 v 8 = Some t' /\ wfRoot t' /\
    forall w, hasLeaf t' w <-> (w = v \/ hasLeaf t w).
Proof.
  intros [->|W] Hv N.
  - exists (Leaf v). cbn [insert]. rewrite (makeLeaf_small Hv).
    split; [reflexivity|]. split.
    + right. constructor; [assumption|reflexivity].
    + intros w. rewrite hasLeaf_Leaf. split; [auto|].
      intros [E|E]; [assumption|]. exfalso. exact (@hasLeaf_Null w E).
  - destruct (@insert_wf [] t W v Hv N eq_refl) as (t' & E & W' & H).
    exists t'. split; [exact E|]. split; [right; assumption|assumption].
Qed.

Lemma erase_root t k :
  wfRoot t -> isKey k ->
  exists t',
    erase loadKey t k 8 0 8 = Some t' /\ wfRoot t' /\
    forall w, hasLeaf t' w <-> (hasLeaf t w /\ loadKey w <> k).
Proof.
  intros [->|W] K.
  - exists Null. split; [reflexivity|]. split; [left; reflexivity|].
    intros w. split.
    + intros H. exfalso. exact (@hasLeaf_Null w H).
    + intros [H _]. assumption.
  - destruct (@erase_wf [] t W k K eq_refl) as (t' & E & H & [[-> _]|W']).
    + exists Null. split; [exact E|]. split; [left; reflexivity|assumption].
    + exists t'. split; [exact E|]. split; [right; assumption|assumption].
Qed.

Lemma keyEqb_spec a b : keyEqb a b = true <-> a = b.
Proof.
  unfold keyEqb. destruct (list_eq_dec Z.eq_dec a b); split; congruence.
Qed.

(** A tree built by the operations is well formed and holds the values of
    its list. *)
Lemma builds_wf S t :
  builds S t -> wfRoot t /\ forall w, hasLeaf t w <-> In w S.
Proof.
  induction 1 as [|S t v t' B [W H] Hv N E|S t k t' B [W H] K E].
  - split; [left; reflexivity|].
    intros w. split; [intros F; exfalso; exact (@hasLeaf_Null w F)|].
    intros [].
  - assert (N' : ~ hasLeaf t v) by (rewrite H; assumption).
    destruct (@insert_root t v W Hv N') as (t2 & E2 & W2 & H2).
    rewrite E in E2. injection E2 as <-.
    split; [assumption|].
    intros w. rewrite H2, H. cbn [In]. split; intros [A|A]; auto.
  - destruct (@erase_root t k W K) as (t2 & E2 & W2 & H2).
    rewrite E in E2. injection E2 as <-.
    split; [assumption|].
    intros w. rewrite H2, H, filter_In.
    split; intros [A C]; (split; [assumption|]).
    + destruct (keyEqb (loadKey w) k) eqn:Q; [|reflexivity].
      apply keyEqb_spec in Q. contradiction.
    + intros F. apply keyEqb_spec in F. rewrite F in C. discriminate.
Qed.

(** The build loop returns a tree with the values of the list. *)
Lemma insertAll_builds vs : forall S t,
  builds S t -> NoDup vs -> Forall (fun v => 0 <= v < 2 ^ 63) vs ->
  (forall v, In v vs -> ~ In v S) ->
  exists t', insertAll vs t = Some t' /\ builds (rev vs ++ S) t'.
Proof.
  induction vs as [|v r IH]; intros S t B D R F.
  - exists t. split; [reflexivity|assumption].
  - cbn [insertAll]. inversion D as [|? ? Nv Dr]; subst.
    inversion R as [|? ? Rv Rr]; subst.
    destruct (builds_wf B) as [W H].
    assert (N : ~ hasLeaf t v) by (rewrite H; apply F; left; reflexivity).
    destruct (@insert_root t v W Rv N) as (t1 & E1 & _ & _).
    rewrite E1. cbn [bind].
    assert (B1 : builds (v :: S) t1).
    { apply builds_insert with (t := t); try assumption.
      apply F. left. reflexivity. }
    destruct (IH (v :: S) t1 B1 Dr Rr) as (t' & E' & B').
    { intros w Hw [<-|Hs]; [contradiction|].
      apply (F w); [right; assumption|assumption]. }
    exists t'. split; [assumption|].
    cbn [rev]. rewrite <- app_assoc. exact B'.
Qed.

(** * Sorted keys *)

Lemma reachable_wf t m :
  reachable t m -> forall p, wf p t -> m = Null \/ exists q, wf q m.
Proof.
  induction 1 as [t|n b m Hin Hb R IH]; intros p W.
  - right. exists p. assumption.
  - inversion W as [|? ? _ _ _ _ _ Hch]; subst; [discriminate|].
    destruct (isNull (childAt n b)) eqn:C.
    + apply isNull_true in C. rewrite C in R. left.
      inversion R; [reflexivity|discriminate].
    + apply isNull_false in C. exact (IH _ (Hch b Hb C)).
Qed.




(** * Compressed paths *)

Lemma firstn_paths (a c : list Z) e n :
  firstn n (firstn n a ++ e :: firstn n c) = firstn n (a ++ e :: c).
Proof.
  rewrite !firstn_app, firstn_firstn, Nat.min_id, length_firstn.
  f_equal.
  destruct (Nat.le_gt_cases (length a) n) as [L|L].
  - rewrite Nat.min_r by assumption.
    destruct (n - length a)%nat as [|m] eqn:Q; [reflexivity|].
    cbn [firstn]. f_equal. rewrite firstn_firstn. f_equal. lia.
  - rewrite Nat.min_l by lia. rewrite Nat.sub_diag.
    replace (n - length a)%nat with 0%nat by lia. reflexivity.
Qed.

Lemma firstn_whole (l : list Z) len :
  Z.of_nat (length l) = len ->
  firstn (Z.to_nat (Z.min len 9)) l = firstn 9 l.
Proof.
  intros E. destruct (Z_le_gt_dec len 9) as [L|L].
  - rewrite Z.min_l by assumption.
    rewrite !firstn_all2 by lia. reflexivity.
  - rewrite Z.min_r by lia. reflexivity.
Qed.

(** * The properties of the specification *)

Lemma insertAll_wf vs t :
  NoDup vs -> Forall (fun v => 0 <= v < 2 ^ 63) vs ->
  insertAll vs Null = Some t ->
  builds (rev vs) t.
Proof.
  intros D R E.
  destruct (@insertAll_builds vs [] Null builds_empty D R) as (t' & E' & B).
  { intros v _ []. }
  rewrite E in E'. injection E' as <-.
  rewrite app_nil_r in B. exact B.
Qed.

Lemma sample_values :
  NoDup [1; 2; 3; 4; 5] /\ Forall (fun v => 0 <= v < 2 ^ 63) [1; 2; 3; 4; 5].
Proof.
  split.
  - repeat constructor; cbn [In]; intros F;
      repeat (destruct F as [F|F]; [discriminate F|]); exact F.
  - repeat constructor; lia.
Qed.

(** C1: with keys of 10 bytes the lookup finds a key that was never
    inserted.  The keys [0 0 0 0 0 0 0 0 0 1] and [0 0 0 0 0 0 0 0 0 2] of
    the values 1 and 2, inserted into the empty tree in either order, give
    [tenByteTree]; both are found with their leaves; the lookup of the key
    [0 0 0 0 0 0 0 0 1 1] of the value 257, which is not among them, returns
    the leaf of value 1 and not null, for every [loadKey] and every
    [maxKeyLength]: the compressed path of nine bytes is skipped and the
    leaf, reached at [depth = keyLength], is returned unchecked. *)
Theorem lookup_finds_key_never_inserted :
  (t1 <- insert (loadKeyBE 10) Null (loadKeyBE 10 1) 0 1 10 ;;
   insert (loadKeyBE 10) t1 (loadKeyBE 10 2) 0 2 10) = Some tenByteTree /\
  (t1 <- insert (loadKeyBE 10) Null (loadKeyBE 10 2) 0 2 10 ;;
   insert (loadKeyBE 10) t1 (loadKeyBE 10 1) 0 1 10) = Some tenByteTree /\
  lookup (loadKeyBE 10) tenByteTree (loadKeyBE 10 1) 10 0 10
    = Some (Leaf 1) /\
  lookup (loadKeyBE 10) tenByteTree (loadKeyBE 10 2) 10 0 10
    = Some (Leaf 2) /\
  loadKeyBE 10 257 = [0; 0; 0; 0; 0; 0; 0; 0; 1; 1] /\
  ~ In (loadKeyBE 10 257) [loadKeyBE 10 1; loadKeyBE 10 2] /\
  (forall load maxKeyLength,
     lookup load tenByteTree (loadKeyBE 10 257) 10 0 maxKeyLength
       = Some (Leaf 1)).
Proof.
  split; [vm_compute; reflexivity|].
  split; [vm_compute; reflexivity|].
  split; [vm_compute; reflexivity|].
  split; [vm_compute; reflexivity|].
  split; [vm_compute; reflexivity|].
  split.
  - intros [F|[F|[]]]; vm_compute in F; discriminate F.
  - intros load maxKeyLength. reflexivity.
Qed.

(** X24: the build loop and the query loop of the driver.  For every list
    of values below 2^63 with distinct 8-byte keys, inserted one after the
    other, in the order of the list, into the empty tree, the build returns
    a tree in which the lookup of the key of each value of the list returns
    the leaf of that value, as the assertion of the driver says, and the
    lookup of each 8-byte key that is not the key of a value of the list
    returns null. *)
Theorem insert_then_lookup vs :
  NoDup (map loadKey vs) -> Forall (fun v => 0 <= v < 2 ^ 63) vs ->
  exists t,
    insertAll vs Null = Some t /\
    (forall v, In v vs ->
       lookup loadKey t (loadKey v) 8 0 8 = Some (Leaf v) /\
       getLeafValue (Leaf v) = v) /\
    (forall k, isKey k -> ~ In k (map loadKey vs) ->
       lookup loadKey t k 8 0 8 = Some Null).
Proof.
  intros D R. apply NoDup_map_inv in D.
  destruct (@insertAll_builds vs [] Null builds_empty D R) as (t & E & B).
  { intros v _ []. }
  rewrite app_nil_r in B. destruct (builds_wf B) as [W H].
  exists t. split; [exact E|]. split.
  - intros v Hv. split; [|reflexivity].
    apply lookup_member; [assumption|]. apply H. apply in_rev in Hv. exact Hv.
  - intros k K N. apply lookup_absent; [assumption|assumption|].
    intros v Hv F. apply N. rewrite <- F. apply in_map.
    apply in_rev. apply H. exact Hv.
Qed.

Lemma insert_then_lookup_witness :
  exists t,
    insertAll [3; 1; 2] Null = Some t /\
    (forall v, In v [3; 1; 2] ->
       lookup loadKey t (loadKey v) 8 0 8 = Some (Leaf v) /\
       getLeafValue (Leaf v) = v) /\
    (forall k, isKey k -> ~ In k (map loadKey [3; 1; 2]) ->
       lookup loadKey t k 8 0 8 = Some Null).
Proof.
  apply (@insert_then_lookup [3; 1; 2]).
  - vm_compute. repeat constructor; cbn [In]; intros F;
      repeat (destruct F as [F|F]; [discriminate F|]); exact F.
  - repeat constructor; lia.
Defined.

(** C2: the optimistic lookup returns a leaf that it reached at
    [depth = keyLength] after a skipped prefix without the comparison of the
    keys.  In the tree that [insert] builds for the 10-byte keys
    [0 0 0 0 0 0 0 0 0 1] and [0 0 0 0 0 0 0 0 0 2], the lookup of
    [7 0 0 0 0 0 0 0 0 1] returns the leaf of value 1 for every [loadKey]
    and every [maxKeyLength], although the comparison from byte 0 fails; the
    pessimistic lookup returns null. *)
Theorem lookup_skipped_prefix_unchecked :
  (t1 <- insert (loadKeyBE 10) Null (loadKeyBE 10 1) 0 1 10 ;;
   insert (loadKeyBE 10) t1 (loadKeyBE 10 2) 0 2 10) = Some tenByteTree /\
  (forall load maxKeyLength,
     lookup load tenByteTree tenByteKey 10 0 maxKeyLength = Some (Leaf 1)) /\
  equalFrom 10 (loadKeyBE 10 1) tenByteKey 0 = Some false /\
  lookupPessimistic (loadKeyBE 10) tenByteTree tenByteKey 10 0 10 = Some Null.
Proof.
  split; [vm_compute; reflexivity|].
  split; [intros load maxKeyLength; reflexivity|].
  split; vm_compute; reflexivity.
Qed.

(** C3: with keys of 10 bytes the two lookups differ on a tree that
    inserts and erases build.  Inserting the keys of the values 1, 2 and 257
    and erasing the key of 257 gives [tenByteTree]; for the search key
    [0 0 0 0 0 0 0 0 1 1] of the value 257 the optimistic lookup returns the
    leaf of value 1, the pessimistic lookup returns null, and the
    pessimistic one is right: the key of the leaf differs from the search
    key. *)
Theorem lookup_differs_from_lookupPessimistic :
  (t1 <- insert (loadKeyBE 10) Null (loadKeyBE 10 1) 0 1 10 ;;
   t2 <- insert (loadKeyBE 10) t1 (loadKeyBE 10 2) 0 2 10 ;;
   t3 <- insert (loadKeyBE 10) t2 (loadKeyBE 10 257) 0 257 10 ;;
   erase (loadKeyBE 10) t3 (loadKeyBE 10 257) 10 0 10) = Some tenByteTree /\
  lookup (loadKeyBE 10) tenByteTree (loadKeyBE 10 257) 10 0 10
    = Some (Leaf 1) /\
  lookupPessimistic (loadKeyBE 10) tenByteTree (loadKeyBE 10 257) 10 0 10
    = Some Null /\
  equalFrom 10 (loadKeyBE 10 1) (loadKeyBE 10 257) 0 = Some false.
Proof.
  split; [vm_compute; reflexivity|].
  split; [vm_compute; reflexivity|].
  split; vm_compute; reflexivity.
Qed.

(** X25: on every tree built from the empty tree by inserts of values with
    distinct 8-byte keys and erases of 8-byte keys, and for every 8-byte
    search key, the optimistic and the pessimistic lookup both return, and
    return the same result. *)
Theorem lookup_eq_lookupPessimistic S t k :
  builds S t -> isKey k ->
  exists r,
    lookup loadKey t k 8 0 8 = Some r /\
    lookupPessimistic loadKey t k 8 0 8 = Some r.
Proof.
  intros B K. destruct (builds_wf B) as [W _].
  destruct (@lookup_root t k W K) as (r & E1 & E2 & _).
  exists r. split; assumption.
Qed.

Lemma lookup_eq_lookupPessimistic_witness :
  exists t r,
    insertAll [1; 2; 3; 4; 5] Null = Some t /\
    lookup loadKey t (loadKey 3) 8 0 8 = Some r /\
    lookupPessimistic loadKey t (loadKey 3) 8 0 8 = Some r.
Proof.
  destruct (insertAll [1; 2; 3; 4; 5] Null) as [t|] eqn:E;
    [|vm_compute in E; discriminate E].
  destruct (@lookup_eq_lookupPessimistic (rev [1; 2; 3; 4; 5]) t (loadKey 3))
    as (r & E1 & E2).
  - exact (@insertAll_wf [1; 2; 3; 4; 5] t (proj1 sample_values)
             (proj2 sample_values) E).
  - apply loadKey_isKey.
  - exists t, r. split; [reflexivity|]. split; assumption.
Defined.

(** C4: with keys of 10 bytes the key inserted and erased is still found.
    On [tenByteTree], which holds the keys of the values 1 and 2, the insert
    of the key [0 0 0 0 0 0 0 0 1 1] of the value 257 returns a tree in
    which that key is found with its value; the erase of the key returns
    [tenByteTree] again, where the keys of 1 and 2 are found as before, but
    the lookup of the erased key returns the leaf of value 1 and not
    null. *)
Theorem insert_erase_key_still_found :
  ~ In (loadKeyBE 10 257) [loadKeyBE 10 1; loadKeyBE 10 2] /\
  exists t1,
    insert (loadKeyBE 10) tenByteTree (loadKeyBE 10 257) 0 257 10
      = Some t1 /\
    lookup (loadKeyBE 10) t1 (loadKeyBE 10 257) 10 0 10
      = Some (Leaf 257) /\
    erase (loadKeyBE 10) t1 (loadKeyBE 10 257) 10 0 10
      = Some tenByteTree /\
    lookup (loadKeyBE 10) tenByteTree (loadKeyBE 10 1) 10 0 10
      = Some (Leaf 1) /\
    lookup (loadKeyBE 10) tenByteTree (loadKeyBE 10 2) 10 0 10
      = Some (Leaf 2) /\
    lookup (loadKeyBE 10) tenByteTree (loadKeyBE 10 257) 10 0 10
      = Some (Leaf 1).
Proof.
  split.
  - intros [F|[F|[]]]; vm_compute in F; discriminate F.
  - destruct (insert (loadKeyBE 10) tenByteTree (loadKeyBE 10 257) 0 257 10)
      as [t1|] eqn:E; [|vm_compute in E; discriminate E].
    exists t1. split; [reflexivity|].
    vm_compute in E. injection E as <-.
    split; [vm_compute; reflexivity|].
    split; [vm_compute; reflexivity|].
    split; [vm_compute; reflexivity|].
    split; vm_compute; reflexivity.
Qed.

(** X26: the round trip with 8-byte keys.  On a tree built by the
    operations that holds the values [S], for a value [v] below 2^63 not in
    [S], inserting the key of [v] and then erasing it both return; in the
    tree that results the lookup of the key of [v] returns null, the lookup
    of the key of each value of [S] returns its leaf as it did before, and
    the lookup of every 8-byte key returns what it returned before. *)
Theorem insert_erase_round_trip S t v :
  builds S t -> 0 <= v < 2 ^ 63 -> ~ In v S ->
  exists t1 t2,
    insert loadKey t (loadKey v) 0 v 8 = Some t1 /\
    erase loadKey t1 (loadKey v) 8 0 8 = Some t2 /\
    lookup loadKey t2 (loadKey v) 8 0 8 = Some Null /\
    (forall w, In w S ->
       lookup loadKey t (loadKey w) 8 0 8 = Some (Leaf w) /\
       lookup loadKey t2 (loadKey w) 8 0 8 = Some (Leaf w)) /\
    (forall k, isKey k ->
       lookup loadKey t2 k 8 0 8 = lookup loadKey t k 8 0 8).
Proof.
  intros B Hv N. destruct (builds_wf B) as [W H].
  assert (N' : ~ hasLeaf t v) by (rewrite H; assumption).
  destruct (@insert_root t v W Hv N') as (t1 & E1 & W1 & H1).
  destruct (@erase_root t1 (loadKey v) W1 (loadKey_isKey v))
    as (t2 & E2 & W2 & H2).
  assert (Same : forall w, hasLeaf t2 w <-> hasLeaf t w).
  { intros w. rewrite H2, H1. split.
    - intros [[->|A] C]; [contradiction C; reflexivity|assumption].
    - intros A. split; [right; assumption|].
      intros F. apply N'.
      assert (w = v); [|subst w; assumption].
      pose proof (@wfRoot_hasLeaf t w W A).
      apply loadKey_inj; [lia|lia|assumption]. }
  exists t1, t2. split; [exact E1|]. split; [exact E2|]. split; [|split].
  - apply lookup_absent; [assumption|apply loadKey_isKey|].
    intros w A F. apply Same in A. apply N'.
    assert (w = v); [|subst w; assumption].
    pose proof (@wfRoot_hasLeaf t w W A).
    apply loadKey_inj; [lia|lia|assumption].
  - intros w Hw. apply H in Hw. split.
    + apply lookup_member; assumption.
    + apply lookup_member; [assumption|]. apply Same. assumption.
  - intros k K.
    destruct (@lookup_root t k W K)
      as (r & R1 & _ & [(u & -> & Hu & Eu)|(-> & Nk)]).
    + rewrite R1. subst k. apply lookup_member; [assumption|].
      apply Same. assumption.
    + rewrite R1. apply lookup_absent; [assumption|assumption|].
      intros u Hu. apply Nk. apply Same. assumption.
Qed.

Lemma insert_erase_round_trip_witness :
  exists t t1 t2,
    insertAll [1; 2; 3; 4; 5] Null = Some t /\
    insert loadKey t (loadKey 6) 0 6 8 = Some t1 /\
    erase loadKey t1 (loadKey 6) 8 0 8 = Some t2 /\
    lookup loadKey t2 (loadKey 6) 8 0 8 = Some Null /\
    lookup loadKey t2 (loadKey 4) 8 0 8 = Some (Leaf 4).
Proof.
  destruct (insertAll [1; 2; 3; 4; 5] Null) as [t|] eqn:E;
    [|vm_compute in E; discriminate E].
  destruct (@insert_erase_round_trip (rev [1; 2; 3; 4; 5]) t 6)
    as (t1 & t2 & E1 & E2 & E3 & E4 & _).
  - exact (@insertAll_wf [1; 2; 3; 4; 5] t (proj1 sample_values)
             (proj2 sample_values) E).
  - lia.
  - cbn [rev app In]. intros F.
    repeat (destruct F as [F|F]; [discriminate F|]). exact F.
  - exists t, t1, t2. split; [reflexivity|]. split; [exact E1|].
    split; [exact E2|]. split; [exact E3|].
    apply E4. cbn [rev app In]. auto.
Defined.

(** C5: when the erase of a child of a Node4 leaves [count = 1], the result
    for the parent's slot is the sole remaining child [x].  A leaf is taken
    as it is.  An inner node, under the stored-prefix invariant for the
    parent with compressed path [cpP] and for the child with compressed path
    [cpC], keeps its children and gets a header whose [prefixLength] is the
    old one plus the parent's plus 1, and whose stored prefix is the first
    [min(prefixLength, 9)] bytes of [cpP], the remaining edge byte and
    [cpC]. *)
Theorem eraseNode4_collapse_prefix h k c pos x :
  length k = 4%nat -> length c = 4%nat -> count h = 2 -> (pos < 2)%nat ->
  nth (1 - pos) c Null = x ->
  (isLeaf x = true -> eraseNode4 (Node4 h k c) pos = Some x) /\
  (isInner x = true ->
   forall cpP cpC,
     length (prefix h) = 9%nat -> length (prefix (header x)) = 9%nat ->
     Z.of_nat (length cpP) = prefixLength h ->
     storedPrefix h = firstn 9 cpP ->
     Z.of_nat (length cpC) = prefixLength (header x) ->
     storedPrefix (header x) = firstn 9 cpC ->
     prefixLength (header x) + (prefixLength h + 1) < 2 ^ 32 ->
     exists h',
       eraseNode4 (Node4 h k c) pos = Some (setHeader x h') /\
       prefixLength h' = prefixLength (header x) + (prefixLength h + 1) /\
       count h' = count (header x) /\
       storedPrefix h' =
       firstn (Z.to_nat (Z.min (prefixLength h') 9))
              (cpP ++ [nth (1 - pos) k 0] ++ cpC)).
Proof.
  intros Lk Lc Hcnt Hpos Ex.
  assert (E : eraseNode4 (Node4 h k c) pos =
              match x with
              | Null => None
              | Leaf v => Some (Leaf v)
              | _ => Some (setHeader x
                             (concatPrefix h (nth (1 - pos) k 0) (header x)))
              end).
  { destruct k as [|k0 [|k1 [|k2 [|k3 [|]]]]]; try discriminate Lk.
    destruct c as [|c0 [|c1 [|c2 [|c3 [|]]]]]; try discriminate Lc.
    unfold eraseNode4. rewrite Hcnt.
    change (wrap16 (2 - 1) =? 1) with true. cbv iota.
    change (Z.to_nat 2) with 2%nat.
    destruct pos as [|[|pos]]; [| |lia]; subst x;
      cbn [Nat.sub memmove overwrite firstn skipn upd nth];
      [destruct c1|destruct c0]; reflexivity. }
  split.
  - intros L. rewrite E. destruct x; try discriminate L. reflexivity.
  - intros Hin cpP cpC Lh Lx LP SP LC SC Hw.
    exists (concatPrefix h (nth (1 - pos) k 0) (header x)).
    destruct (@concatPrefix_spec h (nth (1 - pos) k 0) (header x) Lh Lx)
      as (C1 & C2 & C3 & C4); [lia|lia|exact Hw|].
    split; [rewrite E; destruct x; try discriminate Hin; reflexivity|].
    split; [exact C1|]. split; [exact C2|].
    rewrite C4, C1, SP, SC. cbn [app].
    rewrite (@firstn_paths cpP cpC (nth (1 - pos) k 0) 9).
    symmetry. apply firstn_whole.
    rewrite length_app. cbn [length]. lia.
Qed.

Lemma eraseNode4_collapse_prefix_witness :
  exists h',
    eraseNode4 oneWayNode 0 =
    Some (setHeader
            (Node4 (mkHeader 2 2 [6; 7; 0; 0; 0; 0; 0; 0; 0]) [0; 1; 0; 0]
               [Leaf 72623864102191104; Leaf 72623864102191360; Null; Null])
            h') /\
    prefixLength h' = 2 + (3 + 1) /\
    count h' = 2 /\
    storedPrefix h' = [1; 2; 3; 5; 6; 7].
Proof.
  destruct (proj2 (@eraseNode4_collapse_prefix
                     (mkHeader 3 2 [1; 2; 3; 0; 0; 0; 0; 0; 0]) [4; 5; 0; 0]
                     [Leaf 72623859706101760;
                      Node4 (mkHeader 2 2 [6; 7; 0; 0; 0; 0; 0; 0; 0])
                        [0; 1; 0; 0]
                        [Leaf 72623864102191104; Leaf 72623864102191360;
                         Null; Null];
                      Null; Null]
                     0%nat _ eq_refl eq_refl eq_refl ltac:(lia) eq_refl)
              eq_refl [1; 2; 3] [6; 7] eq_refl eq_refl eq_refl eq_refl
              eq_refl eq_refl ltac:(reflexivity))
    as (h' & E & P & C & S).
  exists h'. split; [exact E|]. split; [exact P|]. split; [exact C|].
  rewrite S, P. reflexivity.
Defined.

(** C6: for an inner node with compressed path [cp] whose stored prefix
    holds the first bytes of [cp] and, when [prefixLength] exceeds 9, whose
    minimum leaf has a key that holds the bytes of [cp] from the tenth on at
    [depth + 9], [prefixMismatch] returns the first position, relative to
    [depth], at which the key differs from [cp], and [prefixLength] when
    there is none.  With [prefixLength <= 9] nothing is assumed of the
    minimum leaf: only the stored bytes are compared. *)
Theorem prefixMismatch_first_divergence load node key depth maxKeyLength cp :
  isInner node = true ->
  length (prefix (header node)) = 9%nat ->
  Z.of_nat (length cp) = prefixLength (header node) ->
  storedPrefix (header node) = firstn 9 cp ->
  0 <= depth ->
  depth + prefixLength (header node) <= Z.of_nat (length key) ->
  Z.of_nat (length key) < 2 ^ 32 ->
  (9 < prefixLength (header node) ->
   exists m minKey,
     minimum node = Some m /\
     loadBuf load maxKeyLength (getLeafValue m) = Some minKey /\
     Z.of_nat (length minKey) < 2 ^ 32 /\
     firstn (Z.to_nat (prefixLength (header node) - 9))
            (skipn (Z.to_nat (depth + 9)) minKey) = skipn 9 cp) ->
  exists pos,
    prefixMismatch load node key depth maxKeyLength = Some pos /\
    0 <= pos <= prefixLength (header node) /\
    (forall i, 0 <= i < pos ->
       nth (Z.to_nat (depth + i)) key 0 = nth (Z.to_nat i) cp 0) /\
    (pos < prefixLength (header node) ->
     nth (Z.to_nat (depth + pos)) key 0 <> nth (Z.to_nat pos) cp 0) /\
    (pos = prefixLength (header node) <->
     forall i, 0 <= i < prefixLength (header node) ->
       nth (Z.to_nat (depth + i)) key 0 = nth (Z.to_nat i) cp 0).
Proof.
  intros Hin Lp Lcp SP Hd Hk Bk Long.
  set (pl := prefixLength (header node)) in *.
  assert (Hpl : 0 <= pl) by lia.
  assert (St : forall i, 0 <= i < Z.min pl 9 ->
                 nth (Z.to_nat (0 + i)) (prefix (header node)) 0 =
                 nth (Z.to_nat i) cp 0).
  { intros i Hi. destruct (@storedPrefix_nth (header node) (Z.to_nat i) Lp Hpl)
      as [L1 L2]. fold pl in L1.
    rewrite Z.add_0_l. rewrite <- L2 by lia. rewrite SP.
    rewrite nth_firstn.
    destruct (Nat.ltb_spec (Z.to_nat i) 9); [reflexivity|lia]. }
  assert (Fin : forall pos,
            0 <= pos <= pl ->
            (forall i, 0 <= i < pos ->
               nth (Z.to_nat (depth + i)) key 0 = nth (Z.to_nat i) cp 0) ->
            (pos < pl ->
             nth (Z.to_nat (depth + pos)) key 0 <> nth (Z.to_nat pos) cp 0) ->
            pos = pl <->
            forall i, 0 <= i < pl ->
              nth (Z.to_nat (depth + i)) key 0 = nth (Z.to_nat i) cp 0).
  { intros pos R A D. split.
    - intros ->. exact A.
    - intros F. destruct (Z.eq_dec pos pl) as [|Ne]; [assumption|].
      exfalso. apply D; [lia|]. apply F. lia. }
  unfold prefixMismatch. fold pl. unfold maxPrefixLength.
  change (2 ^ 32) with 4294967296 in *.
  destruct (Z.ltb_spec 9 pl) as [C|C].
  - (* the path is longer than the stored prefix *)
    destruct (@mismatchLoop_spec key (prefix (header node)) depth 0
                (Z.to_nat 9) 0) as (r & R1 & R2); try lia.
    rewrite R1. cbn [bind].
    destruct R2 as [(F1 & F2 & F3)|(F1 & F2 & F3 & F4)].
    + rewrite F1.
      destruct (Long C) as (m & minKey & Em & Eb & Bm & Ag).
      rewrite Em. cbn [bind]. rewrite Eb. cbn [bind].
      assert (Lm : depth + pl <= Z.of_nat (length minKey)).
      { apply (f_equal (@length Z)) in Ag.
        rewrite length_firstn, !length_skipn in Ag. lia. }
      assert (Sm : forall i, 9 <= i < pl ->
                 nth (Z.to_nat (depth + i)) minKey 0 =
                 nth (Z.to_nat i) cp 0).
      { intros i Hi.
        apply (f_equal (fun l => nth (Z.to_nat (i - 9)) l 0)) in Ag.
        rewrite nth_firstn, !nth_skipn in Ag.
        destruct (Nat.ltb_spec (Z.to_nat (i - 9)) (Z.to_nat (pl - 9)));
          [|lia].
        replace (Z.to_nat (depth + i))
          with (Z.to_nat (depth + 9) + Z.to_nat (i - 9))%nat by lia.
        replace (Z.to_nat i) with (9 + Z.to_nat (i - 9))%nat by lia.
        exact Ag. }
      destruct (@mismatchLoop_spec key minKey depth depth
                  (Z.to_nat (pl - 9)) 9) as (r2 & Q1 & Q2); try lia.
      rewrite Q1. cbn [bind]. exists (snd r2). split; [reflexivity|].
      assert (Low : forall i, 0 <= i < 9 ->
                nth (Z.to_nat (depth + i)) key 0 = nth (Z.to_nat i) cp 0).
      { intros i Hi. rewrite F3 by lia. apply St. lia. }
      destruct Q2 as [(G1 & G2 & G3)|(G1 & G2 & G3 & G4)].
      * assert (A : forall i, 0 <= i < snd r2 ->
                  nth (Z.to_nat (depth + i)) key 0 = nth (Z.to_nat i) cp 0).
        { intros i Hi. destruct (Z_lt_dec i 9) as [L|L]; [apply Low; lia|].
          rewrite G3 by lia. apply Sm. lia. }
        split; [lia|]. split; [exact A|]. split; [intros; lia|].
        apply Fin; [lia|exact A|intros; lia].
      * assert (A : forall i, 0 <= i < snd r2 ->
                  nth (Z.to_nat (depth + i)) key 0 = nth (Z.to_nat i) cp 0).
        { intros i Hi. destruct (Z_lt_dec i 9) as [L|L]; [apply Low; lia|].
          rewrite G3 by lia. apply Sm. lia. }
        assert (D : nth (Z.to_nat (depth + snd r2)) key 0 <>
                    nth (Z.to_nat (snd r2)) cp 0).
        { rewrite <- Sm by lia. exact G4. }
        split; [lia|]. split; [exact A|]. split; [intros _; exact D|].
        apply Fin; [lia|exact A|intros _; exact D].
    + rewrite F1. exists (snd r). split; [reflexivity|].
      assert (A : forall i, 0 <= i < snd r ->
                  nth (Z.to_nat (depth + i)) key 0 = nth (Z.to_nat i) cp 0).
      { intros i Hi. rewrite F3 by lia. apply St. lia. }
      assert (D : nth (Z.to_nat (depth + snd r)) key 0 <>
                  nth (Z.to_nat (snd r)) cp 0).
      { rewrite <- St by lia. exact F4. }
      split; [lia|]. split; [exact A|]. split; [intros _; exact D|].
      apply Fin; [lia|exact A|intros _; exact D].
  - (* the stored prefix is the whole path *)
    destruct (@mismatchLoop_spec key (prefix (header node)) depth 0
                (Z.to_nat pl) 0) as (r & R1 & R2); try lia.
    rewrite R1. cbn [bind]. exists (snd r). split; [reflexivity|].
    destruct R2 as [(F1 & F2 & F3)|(F1 & F2 & F3 & F4)].
    + assert (A : forall i, 0 <= i < snd r ->
                  nth (Z.to_nat (depth + i)) key 0 = nth (Z.to_nat i) cp 0).
      { intros i Hi. rewrite F3 by lia. apply St. lia. }
      split; [lia|]. split; [exact A|]. split; [intros; lia|].
      apply Fin; [lia|exact A|intros; lia].
    + assert (A : forall i, 0 <= i < snd r ->
                  nth (Z.to_nat (depth + i)) key 0 = nth (Z.to_nat i) cp 0).
      { intros i Hi. rewrite F3 by lia. apply St. lia. }
      assert (D : nth (Z.to_nat (depth + snd r)) key 0 <>
                  nth (Z.to_nat (snd r)) cp 0).
      { rewrite <- St by lia. exact F4. }
      split; [lia|]. split; [exact A|]. split; [intros _; exact D|].
      apply Fin; [lia|exact A|intros _; exact D].
Qed.

Lemma prefixMismatch_first_divergence_witness :
  exists pos,
    prefixMismatch (loadKeyBE 16) widePathNode wideKey 4 16 = Some pos /\
    0 <= pos <= 11 /\
    (forall i, 0 <= i < pos ->
       nth (Z.to_nat (4 + i)) wideKey 0 = nth (Z.to_nat i) widePath 0) /\
    (pos < 11 ->
     nth (Z.to_nat (4 + pos)) wideKey 0 <> nth (Z.to_nat pos) widePath 0) /\
    (pos = 11 <->
     forall i, 0 <= i < 11 ->
       nth (Z.to_nat (4 + i)) wideKey 0 = nth (Z.to_nat i) widePath 0).
Proof.
  apply (@prefixMismatch_first_divergence (loadKeyBE 16) widePathNode wideKey
           4 16 widePath).
  - reflexivity.
  - reflexivity.
  - reflexivity.
  - reflexivity.
  - lia.
  - vm_compute. discriminate.
  - vm_compute. reflexivity.
  - intros _.
    exists (Leaf 1339673755198158349044581307228491536),
           (loadKeyBE 16 1339673755198158349044581307228491536).
    split; [reflexivity|]. split; [reflexivity|].
    split; vm_compute; reflexivity.
Defined.



(** C8: erasing a present child from a Node256 with [count] children nulls
    the slot of the byte and decrements [count].  The node stays a Node256
    unless [count] was 38; then it becomes a Node48 with [count = 37] in
    which the erased byte and the bytes without a child have the empty marker
    and every other byte is mapped by [childIndex] to the child it had. *)
Theorem eraseNode256_shrink_at_37 h c b :
  length c = 256%nat -> count h = Z.of_nat (nonNull c) ->
  0 <= b < 256 -> nth (Z.to_nat b) c Null <> Null ->
  (count h <> 38 ->
   eraseNode256 (Node256 h c) b =
   Some (Node256 (setCount h (count h - 1)) (upd (Z.to_nat b) Null c))) /\
  (count h = 38 ->
   exists h' ci nc,
     eraseNode256 (Node256 h c) b = Some (Node48 h' ci nc) /\
     count h' = 37 /\ prefixLength h' = prefixLength h /\
     length ci = 256%nat /\ length nc = 48%nat /\
     nth (Z.to_nat b) ci emptyMarker = emptyMarker /\
     forall b', (b' < 256)%nat -> b' <> Z.to_nat b ->
       (nth b' c Null = Null -> nth b' ci emptyMarker = emptyMarker) /\
       (nth b' c Null <> Null ->
        0 <= nth b' ci emptyMarker < 48 /\
        nth (Z.to_nat (nth b' ci emptyMarker)) nc Null = nth b' c Null)).
Proof.
  intros Lc Hcnt Hb Hc.
  pose proof (nonNull_le c) as Le.
  pose proof (@nonNull_upd_clear (Z.to_nat b) c ltac:(lia) Hc) as En.
  assert (Hw : wrap16 (count h - 1) = count h - 1)
    by (apply wrap16_small; lia).
  cbn [eraseNode256]. rewrite Hw. split.
  - intros Ne. destruct (Z.eqb_spec (count h - 1) 37); [lia|reflexivity].
  - intros E38. destruct (Z.eqb_spec (count h - 1) 37); [|lia].
    set (c1 := upd (Z.to_nat b) Null c) in *.
    assert (L1 : length c1 = 256%nat) by (unfold c1; rewrite length_upd; exact Lc).
    assert (N1 : (nonNull c1 <= 48)%nat) by lia.
    pose proof (@shrink256_loop c1 256 L1 N1 (le_n _)) as I.
    destruct (fold_left (shrink256Step c1) (seq 0 256)
                (0, repeat emptyMarker 256, repeat Null 48))
      as [[ncnt nci] nc].
    unfold shrink256Inv in I. rewrite firstn_all2 in I by lia.
    destruct I as (Ia & Lci & Lnc & Ic & Id & Ie & If & Ig & Ih & Ii).
    exists (setCount (copyPrefix h newHeader) ncnt), nci, nc.
    split; [reflexivity|].
    split; [cbn [count setCount]; lia|].
    split; [reflexivity|].
    split; [assumption|]. split; [assumption|].
    assert (C1 : forall b', (b' < 256)%nat ->
              nth b' c1 Null =
              if (b' =? Z.to_nat b)%nat then Null else nth b' c Null).
    { intros b' Hb'. unfold c1. rewrite nth_upd.
      destruct (Nat.eqb_spec b' (Z.to_nat b)); [|reflexivity].
      destruct (Nat.ltb_spec (Z.to_nat b) (length c)); [reflexivity|lia]. }
    assert (Em : forall b', (b' < 256)%nat -> nth b' c1 Null = Null ->
              nth b' nci emptyMarker = emptyMarker).
    { intros b' Hb' N.
      destruct (Z.eq_dec (nth b' nci emptyMarker) 48) as [Q|Q];
        [exact Q|].
      destruct (Ig b' Hb' Q) as (_ & _ & _ & G). contradiction. }
    split.
    + apply Em; [lia|]. rewrite C1 by lia. rewrite Nat.eqb_refl. reflexivity.
    + intros b' Hb' Ne.
      specialize (C1 b' Hb').
      destruct (Nat.eqb_spec b' (Z.to_nat b)) as [|_]; [contradiction|].
      split.
      * intros N. apply Em; [assumption|]. rewrite C1. exact N.
      * intros N. rewrite <- C1 in N.
        pose proof (Ih b' Hb' N) as Q.
        destruct (Ig b' Hb' Q) as (_ & G2 & G3 & _).
        pose proof (If b' Hb'). unfold emptyMarker in *.
        split; [lia|]. rewrite G3. exact C1.
Qed.

Lemma eraseNode256_shrink_at_37_witness :
  exists h' ci nc,
    eraseNode256
      (Node256 (mkHeader 0 38 (repeat 0 9))
         (repeat (Leaf 1) 38 ++ repeat Null 218)) 5 =
    Some (Node48 h' ci nc) /\ count h' = 37.
Proof.
  destruct (proj2 (@eraseNode256_shrink_at_37
                     (mkHeader 0 38 (repeat 0 9))
                     (repeat (Leaf 1) 38 ++ repeat Null 218) 5
                     eq_refl eq_refl ltac:(lia) ltac:(discriminate))
              eq_refl)
    as (h' & ci & nc & E & C & _).
  exists h', ci, nc. split; [exact E|exact C].
Defined.

Section DriverFacts.
Import String.
Local Open Scope string_scope.

(** C9: with the arguments [-f path] the driver reads its keys from the
    file named [-f], the flag itself, for every [path]: the branch of [-f]
    stores [argv[i]], not [argv[i + 1]]. *)
Theorem main_f_reads_flag_itself (path : string) :
  Driver.mainInputFile ["main"; "-f"; path] = Some "-f".
Proof. reflexivity. Qed.

End DriverFacts.

(** C10: for every [x] with [0 < x < 2^16] the portable branch of [ctz]
    returns the number of trailing zero bits of [x]: the index, below 16, of
    the lowest set bit. *)
Theorem ctz_fallback_trailing_zeros x :
  0 < x < 65536 ->
  ctz x = trailingZeros x /\
  0 <= ctz x < 16 /\
  Z.testbit x (ctz x) = true /\
  (forall i, 0 <= i < ctz x -> Z.testbit x i = false).
Proof.
  intros Hx. split; [exact (ctz_eq_trailingZeros Hx)|].
  exact (ctz_lowest_bit Hx).
Qed.

Lemma ctz_fallback_trailing_zeros_witness :
  ctz 40 = trailingZeros 40 /\
  0 <= ctz 40 < 16 /\
  Z.testbit 40 (ctz 40) = true /\
  (forall i, 0 <= i < ctz 40 -> Z.testbit 40 i = false).
Proof. apply (@ctz_fallback_trailing_zeros 40). lia. Defined.

(** * Leaves, bytes and keys *)

Lemma tag_untag x : 0 <= x -> Z.shiftr (Z.lor (2 * x) 1) 1 = x.
Proof.
  intros H. apply Z.bits_inj'. intros n Hn.
  rewrite Z.shiftr_spec, Z.lor_spec by lia.
  replace (n + 1) with (Z.succ n) by lia.
  rewrite Z.testbit_even_succ by lia.
  change 1 with (2 * 0 + 1). rewrite Z.testbit_odd_succ by lia.
  rewrite Z.testbit_0_l. apply orb_false_r.
Qed.

(** X1: a pseudo-leaf made from a 64-bit value is a leaf, and the value read
    back from it is the value without its bit 63; so the value comes back
    unchanged exactly when it is below 2^63. *)
Theorem leaf_value_round_trip v :
  0 <= v < 2 ^ 64 ->
  isLeaf (makeLeaf v) = true /\
  getLeafValue (makeLeaf v) = v mod 2 ^ 63 /\
  (getLeafValue (makeLeaf v) = v <-> v < 2 ^ 63).
Proof.
  intros H.
  assert (E : getLeafValue (makeLeaf v) = v mod 2 ^ 63).
  { unfold makeLeaf. cbn [getLeafValue].
    rewrite Z.shiftl_mul_pow2 by lia. change (2 ^ 1) with 2.
    unfold wrap64. change 18446744073709551616 with (2 * 2 ^ 63).
    rewrite (Z.mul_comm v 2). rewrite Z.mul_mod_distr_l by lia.
    apply tag_untag. apply Z.mod_pos_bound. lia. }
  split; [reflexivity|]. split; [exact E|]. rewrite E.
  pose proof (Z.mod_pos_bound v (2 ^ 63) ltac:(lia)) as B.
  split.
  - intros Q. lia.
  - intros Q. apply Z.mod_small. lia.
Qed.

Lemma leaf_value_round_trip_witness :
  isLeaf (makeLeaf 9223372036854775813) = true /\
  getLeafValue (makeLeaf 9223372036854775813) =
  9223372036854775813 mod 2 ^ 63 /\
  (getLeafValue (makeLeaf 9223372036854775813) = 9223372036854775813 <->
   9223372036854775813 < 2 ^ 63).
Proof. apply (@leaf_value_round_trip 9223372036854775813). lia. Defined.

(** X2: [flipSign] maps bytes to bytes, is its own inverse, and turns the
    unsigned order of bytes into the signed order of the flipped bytes. *)
Theorem flipSign_unsigned_to_signed a b :
  0 <= a < 256 -> 0 <= b < 256 ->
  0 <= flipSign a < 256 /\
  flipSign (flipSign a) = a /\
  (signed8 (flipSign a) < signed8 (flipSign b) <-> a < b).
Proof.
  intros Ha Hb.
  split; [exact (proj2 (flipSign_byte Ha))|].
  split; [apply flipSign_involutive|].
  rewrite (signed8_flipSign Ha), (signed8_flipSign Hb). lia.
Qed.

Lemma flipSign_unsigned_to_signed_witness :
  0 <= flipSign 127 < 256 /\
  flipSign (flipSign 127) = 127 /\
  (signed8 (flipSign 127) < signed8 (flipSign 128) <-> 127 < 128).
Proof. apply (@flipSign_unsigned_to_signed 127 128); lia. Defined.

(** ** The bytes of a key *)

Lemma fold_keyValue (k : list Z) : forall acc,
  fold_left (fun acc b => acc * 256 + b) k acc =
  acc * 256 ^ Z.of_nat (length k) + keyValue k.
Proof.
  unfold keyValue. induction k as [|x r IH]; intros acc.
  - cbn [fold_left length Z.of_nat]. lia.
  - cbn [fold_left]. rewrite IH. rewrite (IH (0 * 256 + x)).
    cbn [length]. rewrite Nat2Z.inj_succ, Z.pow_succ_r by lia. ring.
Qed.

Lemma keyValue_cons x (k : list Z) :
  keyValue (x :: k) = x * 256 ^ Z.of_nat (length k) + keyValue k.
Proof.
  unfold keyValue at 1. cbn [fold_left]. rewrite fold_keyValue. ring.
Qed.

Lemma keyValue_bound (k : list Z) :
  Forall (fun b => 0 <= b < 256) k ->
  0 <= keyValue k < 256 ^ Z.of_nat (length k).
Proof.
  induction 1 as [|x r Hx Hr IH].
  - cbn. lia.
  - rewrite keyValue_cons. cbn [length].
    rewrite Nat2Z.inj_succ, Z.pow_succ_r by lia.
    assert (0 < 256 ^ Z.of_nat (length r)) by (apply Z.pow_pos_nonneg; lia).
    nia.
Qed.

Lemma lexLtb_keyValue (a : list Z) : forall b,
  length a = length b ->
  Forall (fun x => 0 <= x < 256) a -> Forall (fun x => 0 <= x < 256) b ->
  (lexLtb a b = true <-> keyValue a < keyValue b).
Proof.
  induction a as [|x a IH]; intros [|y b] L Fa Fb; try discriminate L.
  - cbn. split; [discriminate|lia].
  - inversion Fa as [|? ? Hx Fa']; subst. inversion Fb as [|? ? Hy Fb']; subst.
    injection L as L.
    rewrite !keyValue_cons. rewrite <- L.
    pose proof (keyValue_bound Fa') as Ba.
    pose proof (keyValue_bound Fb') as Bb. rewrite <- L in Bb.
    specialize (IH b L Fa' Fb').
    set (M := 256 ^ Z.of_nat (length a)) in *.
    cbn [lexLtb]. rewrite orb_true_iff, andb_true_iff, IH.
    rewrite Z.ltb_lt, Z.eqb_eq.
    split.
    + intros [Q|[-> Q]]; [|lia]. nia.
    + intros Q. destruct (Z_lt_dec x y) as [C|C]; [left; assumption|].
      right. assert (x = y) by nia. split; [assumption|]. subst. lia.
Qed.

Lemma div_step v s :
  0 <= v -> 0 <= s ->
  v / 2 ^ s = 256 * (v / 2 ^ (s + 8)) + (v / 2 ^ s) mod 256.
Proof.
  intros Hv Hs. rewrite Z.pow_add_r by lia. change (2 ^ 8) with 256.
  rewrite <- Z.div_div by (try apply Z.pow_pos_nonneg; lia).
  apply Z.div_mod. lia.
Qed.

Lemma loadKey_bytes v :
  loadKey v =
  [(v / 2 ^ 56) mod 256; (v / 2 ^ 48) mod 256; (v / 2 ^ 40) mod 256;
   (v / 2 ^ 32) mod 256; (v / 2 ^ 24) mod 256; (v / 2 ^ 16) mod 256;
   (v / 2 ^ 8) mod 256; (v / 2 ^ 0) mod 256].
Proof.
  assert (B : forall s, 0 <= s ->
            Z.land (Z.shiftr v s) 255 = (v / 2 ^ s) mod 256).
  { intros s Hs. change 255 with (Z.ones 8).
    rewrite Z.land_ones, Z.shiftr_div_pow2 by lia. reflexivity. }
  unfold loadKey. cbn [seq map].
  rewrite !B by lia. reflexivity.
Qed.

Lemma keyValue_loadKey v : 0 <= v < 2 ^ 64 -> keyValue (loadKey v) = v.
Proof.
  intros H. rewrite loadKey_bytes. unfold keyValue. cbn [fold_left].
  pose proof (@div_step v 0 ltac:(lia) ltac:(lia)) as S0.
  pose proof (@div_step v 8 ltac:(lia) ltac:(lia)) as S1.
  pose proof (@div_step v 16 ltac:(lia) ltac:(lia)) as S2.
  pose proof (@div_step v 24 ltac:(lia) ltac:(lia)) as S3.
  pose proof (@div_step v 32 ltac:(lia) ltac:(lia)) as S4.
  pose proof (@div_step v 40 ltac:(lia) ltac:(lia)) as S5.
  pose proof (@div_step v 48 ltac:(lia) ltac:(lia)) as S6.
  pose proof (@div_step v 56 ltac:(lia) ltac:(lia)) as S7.
  cbn [Z.add Pos.add Pos.succ] in S0, S1, S2, S3, S4, S5, S6, S7.
  assert (T : v / 2 ^ 64 = 0) by (apply Z.div_small; lia).
  assert (U : v / 2 ^ 0 = v) by (change (2 ^ 0) with 1; apply Z.div_1_r).
  rewrite T in S7. rewrite U in *.
  lia.
Qed.

(** X3: [loadKey] writes eight bytes, each below 256, that hold the value
    most significant byte first: read back as a big-endian number they give
    the value, so that two 64-bit values with the same key are equal. *)
Theorem loadKey_big_endian v :
  0 <= v < 2 ^ 64 ->
  length (loadKey v) = 8%nat /\
  Forall (fun b => 0 <= b < 256) (loadKey v) /\
  keyValue (loadKey v) = v /\
  (forall w, 0 <= w < 2 ^ 64 -> loadKey w = loadKey v -> w = v).
Proof.
  intros H. split; [apply length_loadKey|].
  split; [exact (proj2 (loadKey_isKey v))|].
  split; [apply keyValue_loadKey; assumption|].
  intros w Hw E. rewrite <- (keyValue_loadKey Hw), E.
  apply keyValue_loadKey. assumption.
Qed.

Lemma loadKey_big_endian_witness :
  length (loadKey 72623859790382856) = 8%nat /\
  Forall (fun b => 0 <= b < 256) (loadKey 72623859790382856) /\
  keyValue (loadKey 72623859790382856) = 72623859790382856 /\
  (forall w, 0 <= w < 2 ^ 64 ->
     loadKey w = loadKey 72623859790382856 -> w = 72623859790382856).
Proof. apply (@loadKey_big_endian 72623859790382856). lia. Defined.

(** X4: the keys of [loadKey] are ordered as their values: a 64-bit value
    is below another exactly when its key is before the other's in the
    lexicographic order of the bytes. *)
Theorem loadKey_preserves_order v w :
  0 <= v < 2 ^ 64 -> 0 <= w < 2 ^ 64 ->
  (lexLtb (loadKey v) (loadKey w) = true <-> v < w).
Proof.
  intros Hv Hw.
  rewrite (@lexLtb_keyValue (loadKey v) (loadKey w)).
  - rewrite (keyValue_loadKey Hv), (keyValue_loadKey Hw). reflexivity.
  - rewrite !length_loadKey. reflexivity.
  - exact (proj2 (loadKey_isKey v)).
  - exact (proj2 (loadKey_isKey w)).
Qed.

Lemma loadKey_preserves_order_witness :
  lexLtb (loadKey 255) (loadKey 256) = true <-> 255 < 256.
Proof. apply (@loadKey_preserves_order 255 256); lia. Defined.

(** * Inner nodes *)

(** X5: the SSE search of a Node16 gives the first position below [count]
    whose key is the sign-flipped key byte, and the null slot when no key
    below [count] is that byte: the result of the linear search of Node4 on
    the flipped byte. *)
Theorem findChild_Node16_first_match h k c b :
  length k = 16%nat -> 0 <= count h <= 16 ->
  match findChild (Node16 h k c) b with
  | Slot i =>
      (i < Z.to_nat (count h))%nat /\ nth i k 0 = flipSign b /\
      forall j, (j < i)%nat -> nth j k 0 <> flipSign b
  | NullSlot =>
      forall j, (j < Z.to_nat (count h))%nat -> nth j k 0 <> flipSign b
  end.
Proof.
  intros Lk Hc. rewrite findChild_Node16 by assumption.
  destruct (scan4 k (flipSign b) (Z.to_nat (count h)) 0) as [|i] eqn:E.
  - intros j Hj. eapply scan4_Null; [exact E|lia].
  - apply scan4_Slot in E. destruct E as (E1 & E2 & E3).
    split; [lia|]. split; [assumption|]. intros j Hj. apply E3. lia.
Qed.

Lemma findChild_Node16_first_match_witness :
  match findChild
          (Node16 (mkHeader 0 3 (repeat 0 9))
             (map flipSign [1; 130; 200] ++ repeat 0 13) (repeat Null 16))
          200 with
  | Slot i =>
      (i < Z.to_nat 3)%nat /\
      nth i (map flipSign [1; 130; 200] ++ repeat 0 13) 0 = flipSign 200 /\
      forall j, (j < i)%nat ->
        nth j (map flipSign [1; 130; 200] ++ repeat 0 13) 0 <> flipSign 200
  | NullSlot =>
      forall j, (j < Z.to_nat 3)%nat ->
        nth j (map flipSign [1; 130; 200] ++ repeat 0 13) 0 <> flipSign 200
  end.
Proof.
  apply (@findChild_Node16_first_match (mkHeader 0 3 (repeat 0 9))
           (map flipSign [1; 130; 200] ++ repeat 0 13) (repeat Null 16) 200).
  - reflexivity.
  - cbn [count]. lia.
Defined.

Lemma wf_shape p n : wf p n -> isInner n = true -> shape n.
Proof.
  intros W Hin. destruct W as [p v _ _|p n _ Sh _ _ _ _];
    [discriminate Hin|exact Sh].
Qed.

Lemma oneWayNode_built :
  builds (rev [72623864102191104; 72623859706101760; 72623864102191360])
    oneWayNode.
Proof.
  apply insertAll_wf.
  - repeat constructor; cbn [In]; intros F;
      repeat (destruct F as [F|F]; [discriminate F|]); exact F.
  - repeat constructor; lia.
  - vm_compute. reflexivity.
Qed.

Lemma oneWayNode_shape : shape oneWayNode.
Proof.
  destruct (builds_wf oneWayNode_built) as [[E|W] _]; [discriminate E|].
  exact (wf_shape W eq_refl).
Qed.

Lemma shape_capacity n :
  isInner n = true -> shape n ->
  Z.of_nat (length (children n)) = capacity n /\
  0 <= count (header n) <= capacity n.
Proof.
  intros Hin [_ L]. destruct n; try discriminate Hin;
    cbn [children capacity header layout] in *.
  - destruct L as (_ & Lc & Hc & _). lia.
  - destruct L as (_ & Lc & Hc & _). lia.
  - destruct L as (_ & Lc & Hc & _). pose proof (nonNull_le child). lia.
  - destruct L as (Lc & Hc). pose proof (nonNull_le child). lia.
Qed.

(** X6: on a well-shaped inner node the slot that [findChild] returns for a
    key byte is inside of the child array of the node type. *)
Theorem findChild_within_child_array n b i :
  isInner n = true -> shape n -> 0 <= b < 256 ->
  findChild n b = Slot i ->
  Z.of_nat i < capacity n /\ Z.of_nat (length (children n)) = capacity n.
Proof.
  intros Hin Sh Hb E.
  destruct (@findChild_bound n b i Hin Sh Hb E) as [Hi _].
  destruct (shape_capacity Hin Sh) as [L _]. lia.
Qed.

Lemma findChild_within_child_array_witness :
  Z.of_nat 1 < capacity oneWayNode /\
  Z.of_nat (length (children oneWayNode)) = capacity oneWayNode.
Proof.
  apply (@findChild_within_child_array oneWayNode 5 1%nat).
  - reflexivity.
  - exact oneWayNode_shape.
  - lia.
  - reflexivity.
Defined.

(** ** Inserting into an inner node *)

(** X7: inserting a child for a key byte that has none into a well-shaped
    inner node of any type, full or not, gives a well-shaped inner node with
    the same compressed path in which that byte has the new child and every
    other byte the child it had. *)
Theorem insertNode_adds_child n b y :
  isInner n = true -> shape n -> 0 <= b < 256 ->
  childAt n b = Null -> y <> Null ->
  exists n',
    insertNode n b y = Some n' /\
    isInner n' = true /\ shape n' /\
    prefixLength (header n') = prefixLength (header n) /\
    storedPrefix (header n') = storedPrefix (header n) /\
    childAt n' b = y /\
    forall b', 0 <= b' < 256 -> b' <> b -> childAt n' b' = childAt n b'.
Proof.
  intros Hin Sh Hb Hc Hy.
  destruct (@insertNode_spec n b y Hin Sh Hb Hc Hy)
    as (n' & E & I' & S' & P1 & P2 & C).
  exists n'. split; [exact E|]. split; [exact I'|]. split; [exact S'|].
  split; [exact P1|]. split; [exact P2|]. split.
  - rewrite (C b Hb), Z.eqb_refl. reflexivity.
  - intros b' Hb' Ne. rewrite (C b' Hb').
    destruct (Z.eqb_spec b' b); [contradiction|reflexivity].
Qed.

Lemma insertNode_adds_child_witness :
  exists n',
    insertNode oneWayNode 9 (Leaf 7) = Some n' /\
    isInner n' = true /\ shape n' /\
    prefixLength (header n') = prefixLength (header oneWayNode) /\
    storedPrefix (header n') = storedPrefix (header oneWayNode) /\
    childAt n' 9 = Leaf 7 /\
    forall b', 0 <= b' < 256 -> b' <> 9 ->
      childAt n' b' = childAt oneWayNode b'.
Proof.
  apply (@insertNode_adds_child oneWayNode 9 (Leaf 7)).
  - reflexivity.
  - exact oneWayNode_shape.
  - lia.
  - reflexivity.
  - discriminate.
Defined.

Lemma count_copyPrefix src dst : count (copyPrefix src dst) = count dst.
Proof. reflexivity. Qed.

Lemma insertNode_kind n b y n' :
  isInner n = true -> shape n -> insertNode n b y = Some n' ->
  count (header n) < 256 ->
  count (header n') = count (header n) + 1 /\
  capacity n' =
  (if count (header n) <? capacity n then capacity n
   else grown (capacity n)).
Proof.
  intros Hin Sh E Hlt.
  destruct (shape_capacity Hin Sh) as [_ Hc].
  destruct n as [| |h k c|h k c|h ci c|h c]; try discriminate Hin;
    cbn [header capacity] in *.
  - (* Node4 *)
    cbn [insertNode insertNode4] in E.
    destruct (Z.ltb_spec (count h) 4) as [C|C].
    + injection E as <-. cbn [header capacity count setCount].
      rewrite wrap16_small by lia. split; reflexivity.
    + cbn [insertNode16] in E. rewrite count_copyPrefix in E.
      cbn [count setCount] in E. change (4 <? 16) with true in E.
      cbv iota in E. injection E as <-.
      cbn [header capacity count setCount copyPrefix].
      split; [change (wrap16 5) with 5; lia|reflexivity].
  - (* Node16 *)
    cbn [insertNode insertNode16] in E.
    destruct (Z.ltb_spec (count h) 16) as [C|C].
    + injection E as <-. cbn [header capacity count setCount].
      rewrite wrap16_small by lia. split; reflexivity.
    + assert (E16 : count h = 16) by lia.
      cbn [insertNode48] in E. cbn [count setCount] in E.
      rewrite E16 in E. change (16 <? 48) with true in E. cbv iota in E.
      match type of E with
      | (pos <- ?m ;; _) = _ => destruct m as [pos|]; [|discriminate E]
      end.
      cbn [bind] in E. injection E as <-.
      cbn [header capacity count setCount].
      split; [rewrite E16; reflexivity|reflexivity].
  - (* Node48 *)
    cbn [insertNode insertNode48] in E.
    destruct (Z.ltb_spec (count h) 48) as [C|C].
    + match type of E with
      | (pos <- ?m ;; _) = _ => destruct m as [pos|]; [|discriminate E]
      end.
      cbn [bind] in E. injection E as <-.
      cbn [header capacity count setCount].
      rewrite wrap16_small by lia. split; reflexivity.
    + cbn [insertNode256] in E. rewrite count_copyPrefix in E.
      cbn [count setCount] in E. injection E as <-.
      cbn [header capacity count setCount copyPrefix].
      rewrite wrap16_small by lia. split; reflexivity.
  - (* Node256 *)
    cbn [insertNode insertNode256] in E. injection E as <-.
    cbn [header capacity count setCount].
    rewrite wrap16_small by lia.
    destruct (Z.ltb_spec (count h) 256); [split; reflexivity|lia].
Qed.

(** X8: inserting a child for an absent key byte into a well-shaped inner
    node increments [count]; the node keeps its type while it has a free
    slot, and a full Node4, Node16 or Node48 is replaced by a node of the
    next larger type (16, 48, 256 slots). *)
Theorem insertNode_grows_when_full n b y :
  isInner n = true -> shape n -> 0 <= b < 256 ->
  childAt n b = Null -> y <> Null ->
  exists n',
    insertNode n b y = Some n' /\
    count (header n') = count (header n) + 1 /\
    capacity n' =
    (if count (header n) <? capacity n then capacity n
     else grown (capacity n)).
Proof.
  intros Hin Sh Hb Hc Hy.
  destruct (@insertNode_spec n b y Hin Sh Hb Hc Hy) as (n' & E & _).
  exists n'. split; [exact E|].
  apply (@insertNode_kind n b y n' Hin Sh E).
  destruct (shape_capacity Hin Sh) as [_ Hcap].
  destruct n as [| |h k c|h k c|h ci c|h c]; try discriminate Hin;
    cbn [header capacity] in *; try lia.
  (* a Node256 with a free byte has less than 256 children *)
  destruct Sh as [_ [Lc Hn]]. cbn [header] in *.
  rewrite childAt_Node256 in Hc.
  assert (nonNull c < length c)%nat; [|lia].
  clear - Hc Lc Hb.
  assert (Hi : (Z.to_nat b < length c)%nat) by lia.
  revert Hi Hc. generalize (Z.to_nat b). clear.
  induction c as [|x r IH]; intros [|i] Hi Hc; cbn [length nth nonNull] in *;
    try lia.
  - subst x. cbn [isNull]. pose proof (nonNull_le r). lia.
  - specialize (IH i ltac:(lia) Hc). destruct (isNull x); lia.
Qed.

Lemma full_node4 :
  isInner (Node4 (mkHeader 0 4 (repeat 0 9)) [1; 2; 3; 4]
             [Leaf 1; Leaf 2; Leaf 3; Leaf 4]) = true /\
  shape (Node4 (mkHeader 0 4 (repeat 0 9)) [1; 2; 3; 4]
           [Leaf 1; Leaf 2; Leaf 3; Leaf 4]).
Proof.
  split; [reflexivity|]. split; [reflexivity|].
  cbn [layout count]. change (Z.to_nat 4) with 4%nat.
  split; [reflexivity|]. split; [reflexivity|]. split; [lia|].
  split; [intros [|[|[|[|i]]]] Hi; cbn; lia|].
  split; [intros [|[|[|[|i]]]] [|[|[|[|j]]]] Hij; cbn; lia|].
  intros [|[|[|[|i]]]] Hi; cbn; try discriminate; lia.
Qed.

Lemma insertNode_grows_when_full_witness :
  exists n',
    insertNode (Node4 (mkHeader 0 4 (repeat 0 9)) [1; 2; 3; 4]
                  [Leaf 1; Leaf 2; Leaf 3; Leaf 4]) 0 (Leaf 0) = Some n' /\
    count (header n') = 4 + 1 /\
    capacity n' = 16.
Proof.
  apply (@insertNode_grows_when_full
           (Node4 (mkHeader 0 4 (repeat 0 9)) [1; 2; 3; 4]
              [Leaf 1; Leaf 2; Leaf 3; Leaf 4]) 0 (Leaf 0)).
  - reflexivity.
  - exact (proj2 full_node4).
  - lia.
  - reflexivity.
  - discriminate.
Defined.

(** ** Erasing from an inner node *)

(** X9: erasing the child of a key byte from a well-shaped inner node, other
    than a Node4 with two children, gives a well-shaped inner node with the
    same compressed path in which that byte has no child and every other
    byte the child it had, also when the node shrinks to a smaller type. *)
Theorem eraseNode_removes_child n b i :
  isInner n = true -> shape n -> 0 <= b < 256 ->
  findChild n b = Slot i -> childAt n b <> Null ->
  ~ (capacity n = 4 /\ count (header n) = 2) ->
  exists n',
    eraseNode n i b = Some n' /\
    isInner n' = true /\ shape n' /\
    prefixLength (header n') = prefixLength (header n) /\
    storedPrefix (header n') = storedPrefix (header n) /\
    childAt n' b = Null /\
    forall b', 0 <= b' < 256 -> b' <> b -> childAt n' b' = childAt n b'.
Proof.
  intros Hin Sh Hb Ef Hc Ne.
  assert (U : exists n', eraseNode n i b = Some n' /\ updated n n' b Null).
  { destruct n as [| |h k c|h k c|h ci c|h c]; try discriminate Hin;
      cbn [eraseNode].
    - apply eraseNode4_keep; [assumption|assumption|].
      intros E. apply Ne. split; [reflexivity|exact E].
    - apply eraseNode16_spec; assumption.
    - apply eraseNode48_spec; assumption.
    - apply eraseNode256_spec; assumption. }
  destruct U as (n' & E & I' & S' & P1 & P2 & C).
  exists n'. split; [exact E|]. split; [exact I'|]. split; [exact S'|].
  split; [exact P1|]. split; [exact P2|]. split.
  - rewrite (C b Hb), Z.eqb_refl. reflexivity.
  - intros b' Hb' N. rewrite (C b' Hb').
    destruct (Z.eqb_spec b' b); [contradiction|reflexivity].
Qed.

Lemma full_node4_findChild :
  findChild (Node4 (mkHeader 0 4 (repeat 0 9)) [1; 2; 3; 4]
               [Leaf 1; Leaf 2; Leaf 3; Leaf 4]) 3 = Slot 2.
Proof. reflexivity. Qed.

Lemma eraseNode_removes_child_witness :
  exists n',
    eraseNode (Node4 (mkHeader 0 4 (repeat 0 9)) [1; 2; 3; 4]
                 [Leaf 1; Leaf 2; Leaf 3; Leaf 4]) 2 3 = Some n' /\
    isInner n' = true /\ shape n' /\
    prefixLength (header n') = 0 /\
    storedPrefix (header n') = [] /\
    childAt n' 3 = Null /\
    forall b', 0 <= b' < 256 -> b' <> 3 ->
      childAt n' b' =
      childAt (Node4 (mkHeader 0 4 (repeat 0 9)) [1; 2; 3; 4]
                 [Leaf 1; Leaf 2; Leaf 3; Leaf 4]) b'.
Proof.
  apply (@eraseNode_removes_child
           (Node4 (mkHeader 0 4 (repeat 0 9)) [1; 2; 3; 4]
              [Leaf 1; Leaf 2; Leaf 3; Leaf 4]) 3 2%nat).
  - reflexivity.
  - exact (proj2 full_node4).
  - lia.
  - reflexivity.
  - discriminate.
  - cbn [header count]. intros [_ F]. discriminate F.
Defined.

Lemma eraseNode_kind n b i :
  isInner n = true -> shape n -> 0 <= b < 256 ->
  findChild n b = Slot i -> childAt n b <> Null ->
  16 <= capacity n ->
  exists n',
    eraseNode n i b = Some n' /\
    count (header n') = count (header n) - 1 /\
    capacity n' =
    (if count (header n) - 1 =? shrinkAt (capacity n)
     then shrunk (capacity n) else capacity n).
Proof.
  intros Hin Sh Hb Ef Hc Hcap.
  destruct n as [| |h k c|h k c|h ci c|h c]; try discriminate Hin;
    cbn [header capacity eraseNode] in *; [lia| | |].
  - (* Node16 *)
    destruct (@findChild_Node16_bound _ _ _ b i Sh Ef) as [Hi _].
    destruct Sh as (_ & _ & _ & Hcnt & _).
    assert (Hw : wrap16 (count h - 1) = count h - 1)
      by (apply wrap16_small; lia).
    cbn [eraseNode16]. rewrite Hw.
    change (shrinkAt 16) with 3. change (shrunk 16) with 4.
    destruct (Z.eqb_spec (count h - 1) 3) as [E3|E3].
    + eexists. split; [reflexivity|].
      cbn [header capacity count setCount copyPrefix]. split; reflexivity.
    + eexists. split; [reflexivity|].
      cbn [header capacity count setCount]. split; reflexivity.
  - (* Node48 *)
    pose proof Sh as (_ & Lci & Lc & Hn & Hpr & Rg & Ref & Inj).
    rewrite childAt_Node48 in Hc.
    destruct (Z.eqb_spec (nth (Z.to_nat b) ci emptyMarker) emptyMarker)
      as [F|Hm]; [contradiction Hc; reflexivity|].
    pose proof (@present_upd_clear (Z.to_nat b) ci ltac:(lia) Hm) as Ep.
    pose proof (present_le ci) as Le.
    assert (Hw : wrap16 (count h - 1) = count h - 1)
      by (apply wrap16_small; lia).
    cbn [eraseNode48]. rewrite Hw.
    change (shrinkAt 48) with 12. change (shrunk 48) with 16.
    destruct (Z.eqb_spec (count h - 1) 12) as [E12|E12].
    + set (ci1 := upd (Z.to_nat b) emptyMarker ci) in *.
      set (c1 := upd (Z.to_nat (nth (Z.to_nat b) ci emptyMarker)) Null c).
      assert (L1 : length ci1 = 256%nat)
        by (unfold ci1; rewrite length_upd; exact Lci).
      assert (N1 : (present ci1 <= 16)%nat) by lia.
      pose proof (@shrink48_loop ci1 c1 256 L1 N1 (le_n _)) as I.
      destruct (fold_left (shrink48Step ci1 c1) (seq 0 256)
                  (0, repeat 0 16, repeat Null 16)) as [[ncnt nk] nc].
      unfold shrink48Inv in I. rewrite firstn_all2 in I by lia.
      destruct I as (Ia & _).
      eexists. split; [reflexivity|].
      cbn [header capacity count setCount]. split; [lia|reflexivity].
    + eexists. split; [reflexivity|].
      cbn [header capacity count setCount]. split; reflexivity.
  - (* Node256 *)
    pose proof Sh as (_ & Lc & Hn).
    rewrite childAt_Node256 in Hc.
    pose proof (nonNull_le c) as Le.
    pose proof (@nonNull_upd_clear (Z.to_nat b) c ltac:(lia) Hc) as En.
    assert (Hw : wrap16 (count h - 1) = count h - 1)
      by (apply wrap16_small; lia).
    cbn [eraseNode256]. rewrite Hw.
    change (shrinkAt 256) with 37. change (shrunk 256) with 48.
    destruct (Z.eqb_spec (count h - 1) 37) as [E37|E37].
    + set (c1 := upd (Z.to_nat b) Null c) in *.
      assert (L1 : length c1 = 256%nat)
        by (unfold c1; rewrite length_upd; exact Lc).
      assert (N1 : (nonNull c1 <= 48)%nat) by lia.
      pose proof (@shrink256_loop c1 256 L1 N1 (le_n _)) as I.
      destruct (fold_left (shrink256Step c1) (seq 0 256)
                  (0, repeat emptyMarker 256, repeat Null 48))
        as [[ncnt nci] nc].
      unfold shrink256Inv in I. rewrite firstn_all2 in I by lia.
      destruct I as (Ia & _).
      eexists. split; [reflexivity|].
      cbn [header capacity count setCount]. split; [lia|reflexivity].
    + eexists. split; [reflexivity|].
      cbn [header capacity count setCount]. split; reflexivity.
Qed.

Lemma eraseNode4_kind h k c b i :
  shape (Node4 h k c) -> findChild (Node4 h k c) b = Slot i ->
  count h <> 2 ->
  exists n',
    eraseNode4 (Node4 h k c) i = Some n' /\
    count (header n') = count h - 1 /\ capacity n' = 4.
Proof.
  intros Sh Ef Ne.
  destruct (@findChild_Node4_bound _ _ _ b i Sh Ef) as [Hi _].
  destruct Sh as (_ & _ & _ & Hcnt & _).
  assert (Hw : wrap16 (count h - 1) = count h - 1)
    by (apply wrap16_small; lia).
  cbn [eraseNode4]. rewrite Hw.
  destruct (Z.eqb_spec (count h - 1) 1) as [E1|E1]; [lia|].
  eexists. split; [reflexivity|].
  cbn [header capacity count setCount]. split; reflexivity.
Qed.

(** X10: erasing a present child from a well-shaped inner node, other than
    a Node4 with two children, decrements [count]; a Node16, Node48 or
    Node256 is replaced by a node of the next smaller type exactly when the
    decremented [count] is 3, 12 or 37, and every node keeps its type
    otherwise. *)
Theorem eraseNode_shrinks_at_threshold n b i :
  isInner n = true -> shape n -> 0 <= b < 256 ->
  findChild n b = Slot i -> childAt n b <> Null ->
  ~ (capacity n = 4 /\ count (header n) = 2) ->
  exists n',
    eraseNode n i b = Some n' /\
    count (header n') = count (header n) - 1 /\
    capacity n' =
    (if (16 <=? capacity n) &&
        (count (header n) - 1 =? shrinkAt (capacity n))
     then shrunk (capacity n) else capacity n).
Proof.
  intros Hin Sh Hb Ef Hc Ne.
  destruct (Z.leb_spec 16 (capacity n)) as [C|C]; cbn [andb].
  - exact (@eraseNode_kind n b i Hin Sh Hb Ef Hc C).
  - destruct n as [| |h k c|h k c|h ci c|h c]; try discriminate Hin;
      cbn [capacity] in C; try lia.
    cbn [eraseNode header capacity] in *.
    apply (@eraseNode4_kind h k c b i Sh Ef).
    intros E. apply Ne. split; [reflexivity|exact E].
Qed.

Lemma sample16_built :
  builds (filter (fun v => negb (keyEqb (loadKey v) (loadKey 5)))
            (rev [1; 2; 3; 4; 5])) sample16.
Proof.
  destruct (insertAll [1; 2; 3; 4; 5] Null) as [t|] eqn:E;
    [|vm_compute in E; discriminate E].
  apply builds_erase with (t := t).
  - exact (@insertAll_wf [1; 2; 3; 4; 5] t (proj1 sample_values)
             (proj2 sample_values) E).
  - apply loadKey_isKey.
  - vm_compute in E. injection E as <-. vm_compute. reflexivity.
Qed.

Lemma sample16_shape : shape sample16.
Proof.
  destruct (builds_wf sample16_built) as [[E|W] _]; [discriminate E|].
  exact (wf_shape W eq_refl).
Qed.

Lemma eraseNode_shrinks_at_threshold_witness :
  exists n',
    eraseNode sample16 3 4 = Some n' /\
    count (header n') = 4 - 1 /\
    capacity n' = 4.
Proof.
  apply (@eraseNode_shrinks_at_threshold sample16 4 3%nat).
  - reflexivity.
  - exact sample16_shape.
  - lia.
  - reflexivity.
  - discriminate.
  - cbn [sample16 capacity]. intros [F _]. discriminate F.
Defined.

(** * Whole trees *)

(** X11: [leafMatches] on 8-byte keys compares the key of the leaf with the
    searched key from [depth] on only: it answers true exactly when the two
    agree from byte [depth] to the end, whatever the bytes before are. *)
Theorem leafMatches_compares_from_depth u k depth :
  length k = 8%nat -> 0 <= depth <= 8 ->
  exists r,
    leafMatches loadKey (Leaf u) k 8 depth 8 = Some r /\
    (r = true <->
     skipn (Z.to_nat depth) (loadKey u) = skipn (Z.to_nat depth) k).
Proof.
  intros Lk Hd. unfold leafMatches.
  destruct (Z.eqb_spec depth 8) as [->|Ne]; cbn [negb].
  - exists true. split; [reflexivity|]. split; [|reflexivity]. intros _.
    rewrite !skipn_all2; [reflexivity|rewrite Lk; simpl; lia|].
    rewrite length_loadKey. simpl. lia.
  - cbn [getLeafValue]. rewrite loadBuf_loadKey. cbn [bind].
    destruct (@equalFrom_spec (loadKey u) k (Z.to_nat (8 - depth)) depth)
      as (r & R1 & R2); try (rewrite ?length_loadKey, ?Lk; lia).
    exists r. split; [exact R1|]. rewrite R2. split.
    + intros H. apply (@nth_ext_eq _ _ _ 0).
      * rewrite !length_skipn, length_loadKey, Lk. reflexivity.
      * intros i Hi. rewrite length_skipn, length_loadKey in Hi.
        rewrite !nth_skipn. apply H. lia.
    + intros H j Hj.
      apply (f_equal (fun l => nth (j - Z.to_nat depth) l 0)) in H.
      rewrite !nth_skipn in H.
      replace (Z.to_nat depth + (j - Z.to_nat depth))%nat with j in H by lia.
      exact H.
Qed.

Lemma leafMatches_compares_from_depth_witness :
  exists r,
    leafMatches loadKey (Leaf 258) [9; 9; 9; 9; 9; 9; 1; 2] 8 6 8 = Some r /\
    (r = true <->
     skipn (Z.to_nat 6) (loadKey 258) =
     skipn (Z.to_nat 6) [9; 9; 9; 9; 9; 9; 1; 2]).
Proof.
  apply (@leafMatches_compares_from_depth 258 [9; 9; 9; 9; 9; 9; 1; 2] 6).
  - reflexivity.
  - lia.
Defined.

(** X12: every tree that the operations build from the empty tree keeps
    the invariants of the node layouts: each reachable inner node is
    well-shaped (array sizes, [count], the order of the keys, a consistent
    child index) and has a compressed path shorter than 8 bytes; and the
    leaves of the tree are exactly the values inserted and not erased. *)
Theorem built_tree_invariants S t :
  builds S t ->
  (forall m, reachable t m -> isInner m = true ->
     shape m /\ 0 <= prefixLength (header m) < 8) /\
  (forall w, hasLeaf t w <-> In w S).
Proof.
  intros B. destruct (builds_wf B) as [W H]. split; [|exact H].
  intros m R Hin.
  assert (Q : exists q, wf q m).
  { destruct W as [->|W].
    - inversion R; subst; discriminate.
    - destruct (reachable_wf R W) as [->|Q]; [discriminate Hin|exact Q]. }
  destruct Q as [q Wm].
  destruct Wm as [q v _ _|q m _ Sh Hpl Hd _ _]; [discriminate Hin|].
  split; [exact Sh|lia].
Qed.

Lemma built_tree_invariants_witness :
  (forall m, reachable sample16 m -> isInner m = true ->
     shape m /\ 0 <= prefixLength (header m) < 8) /\
  (forall w, hasLeaf sample16 w <->
     In w (filter (fun v => negb (keyEqb (loadKey v) (loadKey 5)))
             (rev [1; 2; 3; 4; 5]))).
Proof. apply built_tree_invariants. exact sample16_built. Defined.

(** X13: on every tree that inserts and erases build, both lookups are
    exact: the key of a value that the tree holds is found with the leaf of
    that value, and an 8-byte key that is the key of no value of the tree
    gives null. *)
Theorem lookup_exact_on_built_trees S t k :
  builds S t -> isKey k ->
  (forall v, In v S -> loadKey v = k ->
     lookup loadKey t k 8 0 8 = Some (Leaf v) /\
     lookupPessimistic loadKey t k 8 0 8 = Some (Leaf v)) /\
  ((forall v, In v S -> loadKey v <> k) ->
   lookup loadKey t k 8 0 8 = Some Null /\
   lookupPessimistic loadKey t k 8 0 8 = Some Null).
Proof.
  intros B K. destruct (builds_wf B) as [W H]. split.
  - intros v Hv <-. apply lookup_member; [assumption|]. apply H. assumption.
  - intros N. apply lookup_absent; [assumption|assumption|].
    intros v Hv. apply N. apply H. assumption.
Qed.

Lemma lookup_exact_on_built_trees_witness :
  (forall v,
     In v (filter (fun v => negb (keyEqb (loadKey v) (loadKey 5)))
             (rev [1; 2; 3; 4; 5])) ->
     loadKey v = loadKey 5 ->
     lookup loadKey sample16 (loadKey 5) 8 0 8 = Some (Leaf v) /\
     lookupPessimistic loadKey sample16 (loadKey 5) 8 0 8 = Some (Leaf v)) /\
  ((forall v,
      In v (filter (fun v => negb (keyEqb (loadKey v) (loadKey 5)))
              (rev [1; 2; 3; 4; 5])) ->
      loadKey v <> loadKey 5) ->
   lookup loadKey sample16 (loadKey 5) 8 0 8 = Some Null /\
   lookupPessimistic loadKey sample16 (loadKey 5) 8 0 8 = Some Null).
Proof.
  apply lookup_exact_on_built_trees.
  - exact sample16_built.
  - apply loadKey_isKey.
Defined.

(** X14: on a tree that the operations built, an erase returns a tree in
    which the erased key is not found and every other 8-byte key has the
    lookup result it had before. *)
Theorem erase_removes_only_the_key S t k :
  builds S t -> isKey k ->
  exists t',
    erase loadKey t k 8 0 8 = Some t' /\
    lookup loadKey t' k 8 0 8 = Some Null /\
    forall k', isKey k' -> k' <> k ->
      lookup loadKey t' k' 8 0 8 = lookup loadKey t k' 8 0 8.
Proof.
  intros B K. destruct (builds_wf B) as [W H].
  destruct (@erase_root t k W K) as (t' & E & W' & H').
  exists t'. split; [exact E|]. split.
  - apply lookup_absent; [assumption|assumption|].
    intros v Hv. apply H' in Hv. exact (proj2 Hv).
  - intros k' K' Ne.
    destruct (@lookup_root t k' W K')
      as (r & R1 & _ & [(u & -> & Hu & Eu)|(-> & Nk)]); rewrite R1.
    + subst k'. apply lookup_member; [assumption|].
      apply H'. split; assumption.
    + apply lookup_absent; [assumption|assumption|].
      intros v Hv. apply Nk. apply H' in Hv. exact (proj1 Hv).
Qed.

Lemma erase_removes_only_the_key_witness :
  exists t',
    erase loadKey sample16 (loadKey 2) 8 0 8 = Some t' /\
    lookup loadKey t' (loadKey 2) 8 0 8 = Some Null /\
    forall k', isKey k' -> k' <> loadKey 2 ->
      lookup loadKey t' k' 8 0 8 = lookup loadKey sample16 k' 8 0 8.
Proof.
  eapply erase_removes_only_the_key.
  - exact sample16_built.
  - apply loadKey_isKey.
Defined.

(** The recursive step of [erase] for a key that no leaf below [t] has. *)
Lemma erase_absent p t :
  wf p t ->
  forall k, isKey k -> firstn (length p) k = p ->
  (forall v, hasLeaf t v -> loadKey v <> k) ->
  erase loadKey t k 8 (Z.of_nat (length p)) 8 = Some t.
Proof.
  induction 1 as [p u Hu Ha|p n Hin Sh Hpl Hd Hby Hch IH]; intros k Hk A No.
  - cbn [erase].
    destruct (@leafMatches_wf p u k (@wf_leaf p u Hu Ha) Hk A)
      as (r & R1 & R2).
    rewrite R1. cbn [bind]. destruct r; [|reflexivity].
    exfalso. apply (No u); [constructor|]. apply R2. reflexivity.
  - assert (W : wf p n) by (apply wf_inner; assumption).
    destruct (@prefix_check p n k W Hin Hk A) as (Lq & r & R1 & R2 & R3).
    set (q := storedPrefix (header n)) in *.
    rewrite (@erase_inner loadKey n k 8 _ 8 Hin). unfold eraseInner.
    destruct R3 as [(F1 & F2 & F3)|(F1 & F2 & F3 & F4)].
    + assert (St :
        (if prefixLength (header n) =? 0
         then Some (true, Z.of_nat (length p))
         else mismatchPos <- prefixMismatch loadKey n k
                               (Z.of_nat (length p)) 8 ;;
              if negb (mismatchPos =? prefixLength (header n))
              then Some (false, Z.of_nat (length p))
              else Some (true, wrap32 (Z.of_nat (length p) +
                                       prefixLength (header n)))) =
        Some (true, Z.of_nat (length p) + prefixLength (header n))).
      { destruct (Z.eqb_spec (prefixLength (header n)) 0) as [E0|E0].
        - rewrite E0, Z.add_0_r. reflexivity.
        - rewrite R2. cbn [bind]. rewrite F2, Z.eqb_refl. cbn [negb].
          rewrite wrap32_small by lia. reflexivity. }
      rewrite St. cbn [bind]. clear St.
      pose proof Hk as [Lk Fk].
      rewrite (@rd_Some _ k _ 0) by lia. cbn [bind].
      replace (Z.to_nat (Z.of_nat (length p) + prefixLength (header n)))
        with (length p + length q)%nat by lia.
      set (kb := nth (length p + length q) k 0).
      assert (Hkb : 0 <= kb < 256) by (apply isKey_byte; [assumption|lia]).
      assert (A' : firstn (length (p ++ q ++ [kb])) k = p ++ q ++ [kb])
        by (apply agree_extend; [assumption|lia|assumption|reflexivity]).
      destruct (findChild n kb) as [|i] eqn:Ef; [reflexivity|].
      rewrite (@on_nth_child _ _ _ n kb i Hin Sh Hkb Ef).
      destruct (@findChild_bound n kb i Hin Sh Hkb Ef) as [Hi Enth].
      rewrite wrap32_small by lia.
      assert (Es : setChild n i (childAt n kb) = n)
        by (rewrite <- Enth; apply setChild_same).
      assert (NoC : forall v, hasLeaf (childAt n kb) v -> loadKey v <> k).
      { intros v Hv. apply No.
        apply hasLeaf_inner with (b := kb); assumption. }
      destruct (isNull (childAt n kb)) eqn:Ec.
      { apply isNull_true in Ec. rewrite Ec in *.
        cbn [isLeaf bind erase]. rewrite Es. reflexivity. }
      apply isNull_false in Ec.
      assert (Descend :
        (x' <- erase loadKey (childAt n kb) k 8
                 (Z.of_nat (length p) + prefixLength (header n) + 1) 8 ;;
         Some (setChild n i x')) = Some n).
      { pose proof (IH kb Hkb Ec k Hk A' NoC) as E'.
        replace (Z.of_nat (length (p ++ q ++ [kb])))
          with (Z.of_nat (length p) + prefixLength (header n) + 1)
          in E' by (rewrite !length_app; simpl; lia).
        rewrite E'. cbn [bind]. rewrite Es. reflexivity. }
      destruct (childAt n kb) as [|u|hx kx cx|hx kx cx|hx kx cx|hx cx]
        eqn:Ex; try contradiction;
        try (cbn [isLeaf bind]; exact Descend).
      cbn [isLeaf].
      assert (Wu : wf (p ++ q) (Leaf u)).
      { pose proof (Hch kb Hkb ltac:(rewrite Ex; discriminate)) as Wc.
        rewrite Ex in Wc. inversion Wc as [p0 u0 Hu Au|p0 n0 Hin0]; subst;
          [|discriminate Hin0].
        apply wf_leaf; [assumption|].
        rewrite app_assoc in Au. apply (@agree_prefix _ _ _ Au). }
      assert (Apq : firstn (length (p ++ q)) k = p ++ q).
      { rewrite app_assoc in A'. apply (@agree_prefix _ _ _ A'). }
      destruct (@leafMatches_wf (p ++ q) u k Wu Hk Apq) as (m & M1 & M2).
      replace (Z.of_nat (length (p ++ q)))
        with (Z.of_nat (length p) + prefixLength (header n))
        in M1 by (rewrite length_app; lia).
      rewrite M1. cbn [bind]. destruct m; [|exact Descend].
      exfalso. apply (NoC u); [constructor|]. apply M2. reflexivity.
    + destruct (Z.eqb_spec (prefixLength (header n)) 0) as [E0|E0]; [lia|].
      rewrite R2. cbn [bind].
      destruct (Z.eqb_spec (snd r) (prefixLength (header n))); [lia|].
      reflexivity.
Qed.

(** X15: erasing an 8-byte key that is the key of no value of the tree
    returns the tree as it is, node for node. *)
Theorem erase_absent_key_unchanged S t k :
  builds S t -> isKey k -> (forall v, In v S -> loadKey v <> k) ->
  erase loadKey t k 8 0 8 = Some t.
Proof.
  intros B K N. destruct (builds_wf B) as [[->|W] H]; [reflexivity|].
  apply (@erase_absent [] t W k K eq_refl).
  intros v Hv. apply N. apply H. assumption.
Qed.

Lemma erase_absent_key_unchanged_witness :
  erase loadKey sample16 (loadKey 5) 8 0 8 = Some sample16.
Proof.
  apply (erase_absent_key_unchanged sample16_built).
  - apply loadKey_isKey.
  - intros v Hv. cbn [rev app] in Hv. apply filter_In in Hv.
    destruct Hv as [_ Hv] . intros E. rewrite E in Hv.
    unfold keyEqb in Hv.
    destruct (list_eq_dec Z.eq_dec (loadKey 5) (loadKey 5)) as [_|F];
      [discriminate Hv|apply F; reflexivity].
Defined.

(** X16: on a tree that the operations built, the insert of a value whose
    key is new returns a tree in which that key is found with the value and
    every other 8-byte key has the lookup result it had before. *)
Theorem insert_adds_only_the_key S t v :
  builds S t -> 0 <= v < 2 ^ 63 -> ~ In v S ->
  exists t',
    insert loadKey t (loadKey v) 0 v 8 = Some t' /\
    lookup loadKey t' (loadKey v) 8 0 8 = Some (Leaf v) /\
    forall k, isKey k -> k <> loadKey v ->
      lookup loadKey t' k 8 0 8 = lookup loadKey t k 8 0 8.
Proof.
  intros B Hv N. destruct (builds_wf B) as [W H].
  assert (N' : ~ hasLeaf t v) by (rewrite H; assumption).
  destruct (@insert_root t v W Hv N') as (t' & E & W' & H').
  exists t'. split; [exact E|]. split.
  - apply lookup_member; [assumption|]. apply H'. left. reflexivity.
  - intros k K Ne.
    destruct (@lookup_root t k W K)
      as (r & R1 & _ & [(u & -> & Hu & Eu)|(-> & Nk)]); rewrite R1.
    + subst k. apply lookup_member; [assumption|].
      apply H'. right. assumption.
    + apply lookup_absent; [assumption|assumption|].
      intros w Hw. apply H' in Hw. destruct Hw as [->|Hw].
      * intros F. apply Ne. symmetry. exact F.
      * apply Nk. assumption.
Qed.

Lemma insert_adds_only_the_key_witness :
  exists t',
    insert loadKey sample16 (loadKey 300) 0 300 8 = Some t' /\
    lookup loadKey t' (loadKey 300) 8 0 8 = Some (Leaf 300) /\
    forall k, isKey k -> k <> loadKey 300 ->
      lookup loadKey t' k 8 0 8 = lookup loadKey sample16 k 8 0 8.
Proof.
  apply (insert_adds_only_the_key sample16_built).
  - lia.
  - intros F. apply filter_In in F. destruct F as [F _].
    cbn [rev app In] in F.
    repeat (destruct F as [F|F]; [discriminate F|]). exact F.
Defined.

(** ** Values that do not fit a pseudo-leaf *)

Lemma makeLeaf_mod v : 0 <= v < 2 ^ 64 -> makeLeaf v = Leaf (v mod 2 ^ 63).
Proof.
  intros H. unfold makeLeaf. f_equal.
  rewrite Z.shiftl_mul_pow2 by lia. change (2 ^ 1) with 2.
  unfold wrap64. change 18446744073709551616 with (2 * 2 ^ 63).
  rewrite (Z.mul_comm v 2). rewrite Z.mul_mod_distr_l by lia.
  apply tag_untag. apply Z.mod_pos_bound. lia.
Qed.

(** X17: a value with bit 63 set does not survive the insert: inserted into
    the empty tree it gives the leaf of the value without that bit, and the
    lookup of the key of the value in that tree returns null, since the key
    of the leaf differs. *)
Theorem value_with_bit_63_is_lost v :
  2 ^ 63 <= v < 2 ^ 64 ->
  exists t,
    insert loadKey Null (loadKey v) 0 v 8 = Some t /\
    t = Leaf (v - 2 ^ 63) /\
    lookup loadKey t (loadKey v) 8 0 8 = Some Null /\
    lookupPessimistic loadKey t (loadKey v) 8 0 8 = Some Null.
Proof.
  intros H. exists (Leaf (v - 2 ^ 63)).
  assert (E : v mod 2 ^ 63 = v - 2 ^ 63).
  { symmetry. apply (Z.mod_unique v (2 ^ 63) 1 (v - 2 ^ 63)); lia. }
  split; [cbn [insert]; rewrite makeLeaf_mod by lia; rewrite E; reflexivity|].
  split; [reflexivity|].
  assert (Q : equalFrom 8 (loadKey (v - 2 ^ 63)) (loadKey v) 0 = Some false).
  { destruct (@equalFrom_spec (loadKey (v - 2 ^ 63)) (loadKey v) 8 0)
      as (r & R1 & R2); try (rewrite ?length_loadKey; lia).
    rewrite R1. destruct r; [|reflexivity]. exfalso.
    assert (F : loadKey (v - 2 ^ 63) = loadKey v).
    { apply key_eq_nth; [apply length_loadKey|apply loadKey_isKey|].
      intros i Hi. apply (proj1 R2 eq_refl). lia. }
    apply loadKey_inj in F; lia. }
  unfold lookup. cbn [lookupLoop lookupPessimistic negb andb].
  unfold leafMatches.
  change (0 =? 8) with false. cbn [negb getLeafValue].
  rewrite loadBuf_loadKey. cbn [bind].
  change (Z.to_nat (8 - 0)) with 8%nat. rewrite Q. split; reflexivity.
Qed.

Lemma value_with_bit_63_is_lost_witness :
  exists t,
    insert loadKey Null (loadKey 9223372036854775813) 0
      9223372036854775813 8 = Some t /\
    t = Leaf (9223372036854775813 - 2 ^ 63) /\
    lookup loadKey t (loadKey 9223372036854775813) 8 0 8 = Some Null /\
    lookupPessimistic loadKey t (loadKey 9223372036854775813) 8 0 8 =
    Some Null.
Proof. apply (@value_with_bit_63_is_lost 9223372036854775813). lia. Defined.

Section DriverLoop.
Import String.
Local Open Scope string_scope.

(** X18: an argument that is none of [-v], [-N] and [-f] stops the
    argument loop of [main] for good: no branch advances [i], so that the
    loop does not end, however many turns it is given. *)
Theorem parseArgs_unknown_argument_never_ends
    (fuel : nat) (argv : list string) (i : nat) (a : Driver.Args)
    (arg : string) :
  nth_error argv i = Some arg ->
  arg <> "-v" -> arg <> "-N" -> arg <> "-f" ->
  Driver.parseArgs fuel argv i a = None.
Proof.
  intros E Nv Nn Nf.
  apply String.eqb_neq in Nv. apply String.eqb_neq in Nn.
  apply String.eqb_neq in Nf.
  induction fuel as [|fuel IH]; [reflexivity|].
  cbn [Driver.parseArgs]. rewrite E, Nv, Nn, Nf. exact IH.
Qed.

Lemma parseArgs_unknown_argument_never_ends_witness :
  Driver.parseArgs 1000 ["main"; "-v"; "keys.bin"] 2
    (Driver.mkArgs true 1000000 "") = None.
Proof.
  apply (@parseArgs_unknown_argument_never_ends 1000
           ["main"; "-v"; "keys.bin"] 2 (Driver.mkArgs true 1000000 "")
           "keys.bin").
  - reflexivity.
  - discriminate.
  - discriminate.
  - discriminate.
Defined.

End DriverLoop.

(** * The number of children of the nodes of a tree *)

Lemma dense_updated n n' b y :
  isInner n = true -> updated n n' b y -> 0 <= b < 256 ->
  dense n -> minCount n' <= count (header n') ->
  (y = Null \/ dense y) ->
  dense n'.
Proof.
  intros Hin (U1 & U2 & U3 & U4 & U5) Hb D Hc Hy.
  inversion D as [v E|n0 _ _ Dc E]; [subst n; discriminate Hin|]. subst n0.
  apply dense_inner; [assumption|assumption|].
  intros b' Hb' Ne. rewrite (U5 b' Hb') in Ne |- *.
  destruct (Z.eqb_spec b' b) as [->|N].
  - destruct Hy as [->|Hy]; [contradiction Ne; reflexivity|assumption].
  - apply Dc; assumption.
Qed.

Lemma minCount_setHeader n h' : minCount (setHeader n h') = minCount n.
Proof. destruct n; reflexivity. Qed.

Lemma dense_setHeader n h' :
  isInner n = true -> count h' = count (header n) ->
  dense n -> dense (setHeader n h').
Proof.
  intros Hin E D.
  inversion D as [v Ev|n0 _ Hc Dc Ev]; [subst n; discriminate Hin|]. subst n0.
  apply dense_inner.
  - rewrite isInner_setHeader. assumption.
  - rewrite minCount_setHeader, (@header_setHeader n h' Hin), E. assumption.
  - intros b Hb. rewrite (@childAt_setHeader n h' b E). apply Dc. assumption.
Qed.

Lemma header_setChild n i x : header (setChild n i x) = header n.
Proof. destruct n; reflexivity. Qed.

Lemma minCount_setChild n i x : minCount (setChild n i x) = minCount n.
Proof. destruct n; reflexivity. Qed.

(** A Node4 with two children that are dense. *)
Lemma dense_pair h k c :
  count h = 2 ->
  (forall i, (i < 2)%nat -> nth i c Null = Null \/ dense (nth i c Null)) ->
  dense (Node4 h k c).
Proof.
  intros E H. apply dense_inner; [reflexivity|cbn [minCount header]; lia|].
  intros b Hb. rewrite childAt_Node4, E. change (Z.to_nat 2) with 2%nat.
  unfold keyChild. destruct (scan4 k b 2 0) as [|i] eqn:S;
    [intros F; contradiction F; reflexivity|].
  apply scan4_Slot in S. destruct S as (S1 & _).
  intros Ne. destruct (H i ltac:(lia)) as [F|D]; [contradiction|assumption].
Qed.

(** The Node4 that [insertNode4] fills with two children, starting from an
    empty one. *)
Lemma insertNode4_twice h b1 y1 b2 y2 t :
  count h = 0 ->
  (n1 <- insertNode4 (Node4 h (repeat 0 4) (repeat Null 4)) b1 y1 ;;
   insertNode4 n1 b2 y2) = Some t ->
  exists h' k' c',
    t = Node4 h' k' c' /\ count h' = 2 /\
    forall i, (i < 2)%nat -> nth i c' Null = y1 \/ nth i c' Null = y2.
Proof.
  intros E0 E. cbn [insertNode4] in E. rewrite E0 in E.
  change (0 <? 4) with true in E. cbv iota in E. cbn [bind] in E.
  cbn [insertNode4 count setCount] in E.
  change (wrap16 (0 + 1) <? 4) with true in E. cbv iota in E.
  change (Z.to_nat 0) with 0%nat in E.
  change (Z.to_nat (wrap16 (0 + 1))) with 1%nat in E.
  cbn [insertPos4 Nat.sub] in E.
  cbn [memmove overwrite firstn skipn repeat upd nth] in E.
  destruct (b1 <? b2) in E; cbn [Nat.sub memmove overwrite firstn skipn
    upd nth] in E; injection E as <-;
    (eexists; eexists; eexists; split; [reflexivity|]; split;
     [reflexivity|]; intros [|[|i]] Hi; cbn [nth]; [| |lia]; auto).
Qed.

Lemma insertLeafSplit_struct load u key d v mx t :
  insertLeafSplit load (Leaf u) key d v mx = Some t ->
  exists h k c,
    t = Node4 h k c /\ count h = 2 /\
    forall i, (i < 2)%nat ->
      nth i c Null = Leaf u \/ nth i c Null = makeLeaf v.
Proof.
  unfold insertLeafSplit. intros E.
  destruct (loadBuf load mx (getLeafValue (Leaf u))) as [ek|];
    [|discriminate E]. cbn [bind] in E.
  destruct (commonLength (S (length key)) ek key d 0) as [npl|];
    [|discriminate E]. cbn [bind] in E.
  destruct (slice key d (min npl maxPrefixLength)) as [bytes|];
    [|discriminate E]. cbn [bind] in E.
  destruct (rd ek (wrap32 (d + npl))) as [b1|]; [|discriminate E].
  cbn [bind] in E.
  match type of E with
  | (n1 <- insertNode4 ?nn b1 (Leaf u) ;; _) = _ =>
      destruct (insertNode4 nn b1 (Leaf u)) as [n1|] eqn:E1;
        [|discriminate E]
  end.
  cbn [bind] in E.
  destruct (rd key (wrap32 (d + npl))) as [b2|]; [|discriminate E].
  cbn [bind] in E.
  eapply insertNode4_twice; [|rewrite E1; cbn [bind]; exact E].
  reflexivity.
Qed.

Lemma insertSplitPrefix_struct load node key d v mx m t :
  insertSplitPrefix load node key d v mx m = Some t ->
  exists h k c h',
    t = Node4 h k c /\ count h = 2 /\
    count h' = count (header node) /\
    forall i, (i < 2)%nat ->
      nth i c Null = setHeader node h' \/ nth i c Null = makeLeaf v.
Proof.
  unfold insertSplitPrefix. intros E.
  destruct (prefixLength (header node) <? maxPrefixLength).
  - match type of E with
    | (n1 <- insertNode4 (Node4 ?hd ?k0 ?c0) ?b (setHeader node ?hh) ;; _)
      = _ =>
        destruct (insertNode4 (Node4 hd k0 c0) b (setHeader node hh))
          as [n1|] eqn:E1;
          [|discriminate E];
        cbn [bind] in E;
        destruct (rd key (wrap32 (d + m))) as [b2|]; [|discriminate E];
        cbn [bind] in E;
        destruct (@insertNode4_twice hd b (setHeader node hh) b2 (makeLeaf v)
                    t eq_refl ltac:(rewrite E1; cbn [bind]; exact E))
          as (h & k & c & Et & Ec & Hc);
        exists h, k, c, hh
    end.
    split; [exact Et|]. split; [exact Ec|]. split; [reflexivity|exact Hc].
  - destruct (minimum node) as [mn|]; [|discriminate E]. cbn [bind] in E.
    destruct (loadBuf load mx (getLeafValue mn)) as [mk|]; [|discriminate E].
    cbn [bind] in E.
    destruct (rd mk (wrap32 (d + m))) as [b|]; [|discriminate E].
    cbn [bind] in E.
    match type of E with
    | (n1 <- (bytes <- ?sl ;; _) ;; _) = _ =>
        destruct sl as [bytes|]; [|discriminate E]
    end.
    cbn [bind] in E.
    match type of E with
    | (n1 <- insertNode4 (Node4 ?hd ?k0 ?c0) b (setHeader node ?hh) ;; _)
      = _ =>
        destruct (insertNode4 (Node4 hd k0 c0) b (setHeader node hh))
          as [n1|] eqn:E1;
          [|discriminate E];
        cbn [bind] in E;
        destruct (rd key (wrap32 (d + m))) as [b2|]; [|discriminate E];
        cbn [bind] in E;
        destruct (@insertNode4_twice hd b (setHeader node hh) b2 (makeLeaf v)
                    t eq_refl ltac:(rewrite E1; cbn [bind]; exact E))
          as (h & k & c & Et & Ec & Hc);
        exists h, k, c, hh
    end.
    split; [exact Et|]. split; [exact Ec|]. split; [reflexivity|exact Hc].
Qed.

Lemma dense_nonNull t : dense t -> t <> Null.
Proof. intros D E. subst t. inversion D. discriminate. Qed.

Lemma nonNull_free (c : list ArtNode) : forall i,
  (i < length c)%nat -> nth i c Null = Null -> (nonNull c < length c)%nat.
Proof.
  induction c as [|x r IH]; intros [|i] Hi Hc; cbn [length nth nonNull] in *;
    try lia.
  - subst x. cbn [isNull]. pose proof (nonNull_le r). lia.
  - specialize (IH i ltac:(lia) Hc). destruct (isNull x); lia.
Qed.

(** A node with a key byte without a child has less than 256 children. *)
Lemma free_byte_count n b :
  isInner n = true -> shape n -> 0 <= b < 256 -> childAt n b = Null ->
  count (header n) < 256.
Proof.
  intros Hin Sh Hb Hc.
  destruct (shape_capacity Hin Sh) as [_ Hcap].
  destruct n as [| |h k c|h k c|h ci c|h c]; try discriminate Hin;
    cbn [header capacity] in *; try lia.
  destruct Sh as [_ [Lc Hn]]. cbn [header] in *.
  rewrite childAt_Node256 in Hc.
  pose proof (@nonNull_free c (Z.to_nat b) ltac:(lia) Hc). lia.
Qed.

Lemma insertNode_minCount n b y n' :
  isInner n = true -> shape n -> minCount n <= count (header n) ->
  count (header n) < 256 ->
  insertNode n b y = Some n' -> isInner n' = true ->
  minCount n' <= count (header n').
Proof.
  intros Hin Sh Hm Hlt E Hin'.
  destruct (@insertNode_kind n b y n' Hin Sh E Hlt) as [Ec Ek].
  destruct (shape_capacity Hin Sh) as [_ Hcap].
  rewrite Ec.
  destruct n as [| |h k c|h k c|h ci c|h c]; try discriminate Hin;
    destruct n' as [| |h' k' c'|h' k' c'|h' ci' c'|h' c'];
    try discriminate Hin';
    cbn [header capacity minCount] in *;
    match type of Ek with
    | _ = (if ?x <? ?y then _ else _) => destruct (Z.ltb_spec x y)
    end; unfold grown in Ek; cbn in Ek; lia.
Qed.

Lemma count_concatPrefix h e ch : count (concatPrefix h e ch) = count ch.
Proof.
  unfold concatPrefix.
  destruct (prefixLength h <? maxPrefixLength);
    match goal with
    | |- context [if ?x <? ?y then _ else _] => destruct (x <? y)
    end; reflexivity.
Qed.

Lemma insert_dense p t :
  wf p t -> dense t ->
  forall v, 0 <= v < 2 ^ 63 -> ~ hasLeaf t v ->
  firstn (length p) (loadKey v) = p ->
  forall t',
    insert loadKey t (loadKey v) (Z.of_nat (length p)) v 8 = Some t' ->
    dense t'.
Proof.
  induction 1 as [p u Hu Ha|p n Hin Sh Hpl Hd Hby Hch IH];
    intros D v Hv Hfresh Av t' E.
  - cbn [insert] in E.
    apply insertLeafSplit_struct in E.
    destruct E as (h & k & c & -> & Ec & Hc).
    apply dense_pair; [exact Ec|]. intros i Hi. right.
    destruct (Hc i Hi) as [->| ->];
      [|rewrite makeLeaf_small by assumption]; constructor.
  - assert (W : wf p n) by (apply wf_inner; assumption).
    inversion D as [u Eu|n0 _ Hm Dc En]; [subst n; discriminate Hin|].
    subst n0.
    pose proof (loadKey_isKey v) as Hk.
    set (k := loadKey v) in *.
    destruct (@prefix_check p n k W Hin Hk Av) as (Lq & r & R1 & R2 & R3).
    set (q := storedPrefix (header n)) in *.
    rewrite (@insert_inner loadKey n k _ v 8 Hin) in E.
    unfold insertInner in E.
    destruct R3 as [(F1 & F2 & F3)|(F1 & F2 & F3 & F4)].
    + assert (St :
        (if prefixLength (header n) =? 0
         then Some (inr (Z.of_nat (length p)))
         else mismatchPos <- prefixMismatch loadKey n k
                               (Z.of_nat (length p)) 8 ;;
              if negb (mismatchPos =? prefixLength (header n))
              then r0 <- insertSplitPrefix loadKey n k
                           (Z.of_nat (length p)) v 8 mismatchPos ;;
                   Some (inl r0)
              else Some (inr (wrap32 (Z.of_nat (length p) +
                                      prefixLength (header n))))) =
        Some (inr (A := ArtNode)
                (Z.of_nat (length p) + prefixLength (header n)))).
      { destruct (Z.eqb_spec (prefixLength (header n)) 0) as [E0|E0].
        - rewrite E0, Z.add_0_r. reflexivity.
        - rewrite R2. cbn [bind]. rewrite F2, Z.eqb_refl. cbn [negb].
          rewrite wrap32_small by lia. reflexivity. }
      rewrite St in E. cbn [bind] in E. clear St.
      pose proof Hk as [Lk Fk].
      rewrite (@rd_Some _ k _ 0) in E by lia. cbn [bind] in E.
      replace (Z.to_nat (Z.of_nat (length p) + prefixLength (header n)))
        with (length p + length q)%nat in E by lia.
      set (kb := nth (length p + length q) k 0) in *.
      assert (Hkb : 0 <= kb < 256) by (apply isKey_byte; [assumption|lia]).
      assert (A' : firstn (length (p ++ q ++ [kb])) k = p ++ q ++ [kb])
        by (apply agree_extend; [assumption|lia|assumption|reflexivity]).
      rewrite makeLeaf_small in E by assumption.
      assert (Fill : childAt n kb = Null ->
                insertNode n kb (Leaf v) = Some t' -> dense t').
      { intros Ec E'.
        destruct (@insertNode_spec n kb (Leaf v) Hin Sh Hkb Ec
                    ltac:(discriminate)) as (n' & E'' & U').
        rewrite E' in E''. injection E'' as <-.
        apply (@dense_updated n t' kb (Leaf v) Hin U' Hkb D);
          [|right; constructor].
        apply (@insertNode_minCount n kb (Leaf v) t' Hin Sh Hm); try assumption.
        - apply (@free_byte_count n kb); assumption.
        - exact (proj1 U'). }
      destruct (findChild n kb) as [|i] eqn:Ef.
      * apply Fill; [apply childAt_NullSlot|]; assumption.
      * rewrite (@on_nth_child _ _ _ n kb i Hin Sh Hkb Ef) in E.
        destruct (isNull (childAt n kb)) eqn:Ec.
        -- apply Fill; [apply isNull_true|]; assumption.
        -- apply isNull_false in Ec.
           rewrite wrap32_small in E by lia.
           assert (Hf' : ~ hasLeaf (childAt n kb) v).
           { intros H. apply Hfresh.
             apply hasLeaf_inner with (b := kb); assumption. }
           destruct (insert loadKey (childAt n kb) k
                       (Z.of_nat (length p) + prefixLength (header n) + 1)
                       v 8) as [x'|] eqn:Ex; [|discriminate E].
           cbn [bind] in E. injection E as <-.
           assert (Dx : dense x').
           { apply (IH kb Hkb Ec (Dc kb Hkb Ec) v Hv Hf' A').
             replace (Z.of_nat (length (p ++ q ++ [kb])))
               with (Z.of_nat (length p) + prefixLength (header n) + 1)
               by (rewrite !length_app; simpl; lia).
             exact Ex. }
           pose proof (@setChild_spec n kb i x' Hin Sh Hkb Ef Ec
                         (dense_nonNull Dx)) as U'.
           apply (@dense_updated n _ kb x' Hin U' Hkb D); [|right; exact Dx].
           rewrite minCount_setChild, header_setChild. exact Hm.
    + destruct (Z.eqb_spec (prefixLength (header n)) 0) as [E0|E0]; [lia|].
      rewrite R2 in E. cbn [bind] in E.
      destruct (Z.eqb_spec (snd r) (prefixLength (header n))); [lia|].
      cbn [negb] in E.
      destruct (insertSplitPrefix loadKey n k (Z.of_nat (length p)) v 8
                  (snd r)) as [t0|] eqn:Es; [|discriminate E].
      cbn [bind] in E. injection E as <-.
      apply insertSplitPrefix_struct in Es.
      destruct Es as (h & k' & c & h' & -> & Ec & Eh & Hc).
      apply dense_pair; [exact Ec|]. intros i Hi. right.
      destruct (Hc i Hi) as [->| ->].
      * apply dense_setHeader; assumption.
      * rewrite makeLeaf_small by assumption. constructor.
Qed.

Lemma eraseNode_minCount n n' :
  isInner n = true -> isInner n' = true ->
  minCount n <= count (header n) ->
  count (header n') = count (header n) - 1 ->
  capacity n' =
  (if (16 <=? capacity n) && (count (header n) - 1 =? shrinkAt (capacity n))
   then shrunk (capacity n) else capacity n) ->
  ~ (capacity n = 4 /\ count (header n) = 2) ->
  minCount n' <= count (header n').
Proof.
  intros Hin Hin' Hm Ec Ek Ne. rewrite Ec.
  destruct n as [| |h k c|h k c|h ci c|h c]; try discriminate Hin;
    destruct n' as [| |h' k' c'|h' k' c'|h' ci' c'|h' c'];
    try discriminate Hin';
    cbn [header capacity minCount] in *;
    unfold shrinkAt, shrunk in Ek; cbn in Ek;
    try match type of Ek with
    | _ = (if ?x =? ?y then _ else _) => destruct (Z.eqb_spec x y)
    end; lia.
Qed.

Lemma eraseNode_dense n b i t' :
  isInner n = true -> shape n -> dense n -> 0 <= b < 256 ->
  findChild n b = Slot i -> childAt n b <> Null ->
  eraseNode n i b = Some t' ->
  dense t'.
Proof.
  intros Hin Sh D Hb Ef Hc E.
  inversion D as [u Eu|n0 _ Hm Dc En]; [subst n; discriminate Hin|]. subst n0.
  destruct (Z.eq_dec (capacity n) 4) as [C4|C4];
    [destruct (Z.eq_dec (count (header n)) 2) as [C2|C2]|].
  - (* a Node4 with two children: the other child takes its place *)
    destruct n as [| |h k c|h k c|h ci c|h c]; try discriminate Hin;
      try discriminate C4.
    cbn [header eraseNode] in *.
    destruct (@eraseNode4_collapse h k c b i Sh Ef C2)
      as (b0 & x & Hb0 & _ & Ex & Nx & _ & E').
    rewrite E in E'. injection E' as ->.
    assert (Dx : dense x) by (rewrite <- Ex; apply Dc; [|rewrite Ex]; assumption).
    destruct (isLeaf x) eqn:Il; [exact Dx|].
    apply dense_setHeader; [|apply count_concatPrefix|exact Dx].
    destruct x; try reflexivity; [contradiction Nx; reflexivity|discriminate Il].
  - (* a Node4 that stays *)
    destruct n as [| |h k c|h k c|h ci c|h c]; try discriminate Hin;
      try discriminate C4.
    cbn [header eraseNode] in *.
    destruct (@eraseNode4_keep h k c b i Sh Ef C2) as (n' & E' & U').
    destruct (@eraseNode4_kind h k c b i Sh Ef C2) as (n'' & E'' & Kc & Kk).
    rewrite E in E', E''. injection E' as <-. injection E'' as <-.
    apply (@dense_updated (Node4 h k c) t' b Null Hin U' Hb D);
      [|left; reflexivity].
    apply (@eraseNode_minCount (Node4 h k c) t' Hin (proj1 U') Hm Kc).
    + cbn [capacity andb Z.leb]. rewrite Kk. reflexivity.
    + cbn [capacity header]. intros [_ F]. contradiction.
  - (* the larger types *)
    assert (C16 : 16 <= capacity n)
      by (destruct n; try discriminate Hin; cbn [capacity] in *; lia).
    assert (U : exists n', eraseNode n i b = Some n' /\ updated n n' b Null).
    { destruct n as [| |h k c|h k c|h ci c|h c]; try discriminate Hin;
        cbn [eraseNode]; cbn [capacity] in C4.
      - contradiction C4. reflexivity.
      - apply eraseNode16_spec; assumption.
      - apply eraseNode48_spec; assumption.
      - apply eraseNode256_spec; assumption. }
    destruct U as (n' & E' & U').
    destruct (@eraseNode_kind n b i Hin Sh Hb Ef Hc C16)
      as (n'' & E'' & Kc & Kk).
    rewrite E in E', E''. injection E' as <-. injection E'' as <-.
    apply (@dense_updated n t' b Null Hin U' Hb D); [|left; reflexivity].
    apply (@eraseNode_minCount n t' Hin (proj1 U') Hm Kc).
    + destruct (Z.leb_spec 16 (capacity n)); [|lia]. cbn [andb]. exact Kk.
    + intros [F _]. contradiction.
Qed.

Lemma erase_dense p t :
  wf p t -> dense t ->
  forall k, isKey k -> firstn (length p) k = p ->
  forall t',
    erase loadKey t k 8 (Z.of_nat (length p)) 8 = Some t' ->
    t' = Null \/ dense t'.
Proof.
  induction 1 as [p u Hu Ha|p n Hin Sh Hpl Hd Hby Hch IH];
    intros D k Hk A t' E.
  - cbn [erase] in E.
    destruct (leafMatches loadKey (Leaf u) k 8 (Z.of_nat (length p)) 8)
      as [[|]|]; cbn [bind] in E; try discriminate E; injection E as <-.
    + left. reflexivity.
    + right. constructor.
  - right.
    assert (W : wf p n) by (apply wf_inner; assumption).
    inversion D as [u Eu|n0 _ Hm Dc En]; [subst n; discriminate Hin|].
    subst n0.
    destruct (@prefix_check p n k W Hin Hk A) as (Lq & r & R1 & R2 & R3).
    set (q := storedPrefix (header n)) in *.
    rewrite (@erase_inner loadKey n k 8 _ 8 Hin) in E.
    unfold eraseInner in E.
    destruct R3 as [(F1 & F2 & F3)|(F1 & F2 & F3 & F4)].
    + assert (St :
        (if prefixLength (header n) =? 0
         then Some (true, Z.of_nat (length p))
         else mismatchPos <- prefixMismatch loadKey n k
                               (Z.of_nat (length p)) 8 ;;
              if negb (mismatchPos =? prefixLength (header n))
              then Some (false, Z.of_nat (length p))
              else Some (true, wrap32 (Z.of_nat (length p) +
                                       prefixLength (header n)))) =
        Some (true, Z.of_nat (length p) + prefixLength (header n))).
      { destruct (Z.eqb_spec (prefixLength (header n)) 0) as [E0|E0].
        - rewrite E0, Z.add_0_r. reflexivity.
        - rewrite R2. cbn [bind]. rewrite F2, Z.eqb_refl. cbn [negb].
          rewrite wrap32_small by lia. reflexivity. }
      rewrite St in E. cbn [bind] in E. clear St.
      pose proof Hk as [Lk Fk].
      rewrite (@rd_Some _ k _ 0) in E by lia. cbn [bind] in E.
      replace (Z.to_nat (Z.of_nat (length p) + prefixLength (header n)))
        with (length p + length q)%nat in E by lia.
      set (kb := nth (length p + length q) k 0) in *.
      assert (Hkb : 0 <= kb < 256) by (apply isKey_byte; [assumption|lia]).
      assert (A' : firstn (length (p ++ q ++ [kb])) k = p ++ q ++ [kb])
        by (apply agree_extend; [assumption|lia|assumption|reflexivity]).
      destruct (findChild n kb) as [|i] eqn:Ef;
        [injection E as <-; exact D|].
      rewrite (@on_nth_child _ _ _ n kb i Hin Sh Hkb Ef) in E.
      destruct (@findChild_bound n kb i Hin Sh Hkb Ef) as [Hi Enth].
      rewrite wrap32_small in E by lia.
      destruct (isNull (childAt n kb)) eqn:Ec.
      { apply isNull_true in Ec.
        assert (Es : setChild n i Null = n).
        { rewrite <- Enth in Ec. rewrite <- Ec at 1. apply setChild_same. }
        rewrite Ec in E. cbn [isLeaf bind erase] in E. rewrite Es in E.
        injection E as <-. exact D. }
      apply isNull_false in Ec.
      pose proof (Hch kb Hkb Ec) as Wc.
      pose proof (Dc kb Hkb Ec) as Dchild.
      assert (Descend :
        (x' <- erase loadKey (childAt n kb) k 8
                 (Z.of_nat (length p) + prefixLength (header n) + 1) 8 ;;
         Some (setChild n i x')) = Some t' ->
        (forall u, childAt n kb = Leaf u -> loadKey u <> k) ->
        dense t').
      { intros E' Hnm.
        destruct (@erase_wf _ _ Wc k Hk A') as (x'' & E'' & _ & W'').
        replace (Z.of_nat (length (p ++ q ++ [kb])))
          with (Z.of_nat (length p) + prefixLength (header n) + 1)
          in E'' by (rewrite !length_app; simpl; lia).
        rewrite E'' in E'. cbn [bind] in E'. injection E' as <-.
        destruct W'' as [(_ & u & Eu & Ek)|W''];
          [exfalso; exact (Hnm u Eu Ek)|].
        assert (Dx : dense x'').
        { destruct (IH kb Hkb Ec Dchild k Hk A' x'') as [F|Dx].
          - replace (Z.of_nat (length (p ++ q ++ [kb])))
              with (Z.of_nat (length p) + prefixLength (header n) + 1)
              by (rewrite !length_app; simpl; lia).
            exact E''.
          - exfalso. exact (wf_nonNull W'' F).
          - exact Dx. }
        pose proof (@setChild_spec n kb i x'' Hin Sh Hkb Ef Ec
                      (wf_nonNull W'')) as U'.
        apply (@dense_updated n _ kb x'' Hin U' Hkb D); [|right; exact Dx].
        rewrite minCount_setChild, header_setChild. exact Hm. }
      destruct (childAt n kb) as [|u|hx kx cx|hx kx cx|hx kx cx|hx cx]
        eqn:Ex; try contradiction;
        try (cbn [isLeaf bind] in E; apply Descend;
             [exact E|intros u; discriminate]).
      cbn [isLeaf] in E.
      assert (Wu : wf (p ++ q) (Leaf u)).
      { inversion Wc as [p0 u0 Hu Au|p0 n0 Hin0]; subst;
          [|discriminate Hin0].
        apply wf_leaf; [assumption|].
        rewrite app_assoc in Au. apply (@agree_prefix _ _ _ Au). }
      assert (Apq : firstn (length (p ++ q)) k = p ++ q).
      { rewrite app_assoc in A'. apply (@agree_prefix _ _ _ A'). }
      destruct (@leafMatches_wf (p ++ q) u k Wu Hk Apq) as (m & M1 & M2).
      replace (Z.of_nat (length (p ++ q)))
        with (Z.of_nat (length p) + prefixLength (header n))
        in M1 by (rewrite length_app; lia).
      rewrite M1 in E. cbn [bind] in E. destruct m.
      * apply (@eraseNode_dense n kb i t' Hin Sh D Hkb Ef); [|exact E].
        rewrite Ex. discriminate.
      * apply Descend; [exact E|].
        intros u' Eu' Ek. inversion Eu'; subst u'.
        apply M2 in Ek. discriminate.
    + destruct (Z.eqb_spec (prefixLength (header n)) 0) as [E0|E0]; [lia|].
      rewrite R2 in E. cbn [bind] in E.
      destruct (Z.eqb_spec (snd r) (prefixLength (header n))); [lia|].
      cbn [negb] in E. injection E as <-. exact D.
Qed.

(** A tree that the operations built is empty or dense. *)
Lemma builds_dense S t : builds S t -> t = Null \/ dense t.
Proof.
  induction 1 as [|S t v t' B IH Hv N E|S t k t' B IH K E].
  - left. reflexivity.
  - right. destruct (builds_wf B) as [[->|W] H].
    + cbn [insert] in E. rewrite makeLeaf_small in E by assumption.
      injection E as <-. constructor.
    + destruct IH as [->|D]; [exfalso; exact (wf_nonNull W eq_refl)|].
      apply (@insert_dense [] t W D v Hv); [rewrite H; assumption|reflexivity|].
      exact E.
  - destruct (builds_wf B) as [[->|W] H].
    + cbn [erase] in E. injection E as <-. left. reflexivity.
    + destruct IH as [->|D]; [exfalso; exact (wf_nonNull W eq_refl)|].
      apply (@erase_dense [] t W D k K eq_refl). exact E.
Qed.

(** * The smallest and the largest leaf *)

Lemma key_prefix_lt (a : list Z) : forall (b : list Z) i,
  length a = length b ->
  Forall (fun x => 0 <= x < 256) a -> Forall (fun x => 0 <= x < 256) b ->
  (i < length a)%nat -> firstn i a = firstn i b ->
  nth i a 0 < nth i b 0 ->
  keyValue a < keyValue b.
Proof.
  induction a as [|x a IH]; intros [|y b] i L Fa Fb Hi E Hlt;
    try discriminate L; cbn [length] in Hi; [lia|].
  inversion Fa as [|? ? Hx Fa']; subst. inversion Fb as [|? ? Hy Fb']; subst.
  injection L as L.
  rewrite !keyValue_cons. rewrite <- L.
  pose proof (keyValue_bound Fa') as Ba.
  pose proof (keyValue_bound Fb') as Bb. rewrite <- L in Bb.
  destruct i as [|i].
  - cbn [nth] in Hlt. nia.
  - cbn [firstn nth] in E, Hlt. injection E as -> E.
    pose proof (IH b i L Fa' Fb' ltac:(lia) E Hlt). lia.
Qed.

(** Two leaves below different children of a node are ordered as the key
    bytes of the children. *)
Lemma leaves_ordered p n b1 b2 v w :
  wf p n -> isInner n = true -> 0 <= b1 < 256 -> 0 <= b2 < 256 ->
  hasLeaf (childAt n b1) v -> hasLeaf (childAt n b2) w ->
  b1 < b2 -> v < w.
Proof.
  intros W Hin H1 H2 Hv Hw Hlt.
  pose proof (@wf_child_leaf p n b1 v W Hin H1 Hv) as Av.
  pose proof (@wf_child_leaf p n b2 w W Hin H2 Hw) as Aw.
  assert (Rv : 0 <= v < 2 ^ 63).
  { apply (@wf_hasLeaf p n W v).
    apply hasLeaf_inner with (b := b1); assumption. }
  assert (Rw : 0 <= w < 2 ^ 63).
  { apply (@wf_hasLeaf p n W w).
    apply hasLeaf_inner with (b := b2); assumption. }
  set (q := p ++ storedPrefix (header n)) in *.
  rewrite app_assoc in Av, Aw. fold q in Av, Aw.
  pose proof (@agree_length _ _ Av) as Lq.
  rewrite length_app, length_loadKey in Lq. cbn [length] in Lq.
  assert (Nv : nth (length q) (loadKey v) 0 = b1).
  { rewrite (@agree_nth _ _ (length q) Av) by (rewrite length_app; simpl; lia).
    rewrite app_nth2, Nat.sub_diag by lia. reflexivity. }
  assert (Nw : nth (length q) (loadKey w) 0 = b2).
  { rewrite (@agree_nth _ _ (length q) Aw) by (rewrite length_app; simpl; lia).
    rewrite app_nth2, Nat.sub_diag by lia. reflexivity. }
  rewrite <- (@keyValue_loadKey v) by lia.
  rewrite <- (@keyValue_loadKey w) by lia.
  apply (@key_prefix_lt (loadKey v) (loadKey w) (length q)).
  - rewrite !length_loadKey. reflexivity.
  - exact (proj2 (loadKey_isKey v)).
  - exact (proj2 (loadKey_isKey w)).
  - rewrite length_loadKey. lia.
  - rewrite (@agree_prefix _ _ _ Av), (@agree_prefix _ _ _ Aw). reflexivity.
  - rewrite Nv, Nw. exact Hlt.
Qed.

(** ** The children of a node by key byte *)

Lemma keyChild_present k c n x :
  keyChild k c n x <> Null -> exists i, (i < n)%nat /\ nth i k 0 = x.
Proof.
  unfold keyChild. destruct (scan4 k x n 0) as [|i] eqn:S;
    [intros F; contradiction F; reflexivity|].
  intros _. apply scan4_Slot in S. destruct S as (S1 & S2 & _).
  exists i. split; [lia|assumption].
Qed.

Lemma firstPresent_spec ci : forall pos j,
  (j < length ci)%nat -> nth j ci emptyMarker <> emptyMarker ->
  exists j0,
    firstPresent ci pos = Some (pos + j0)%nat /\ (j0 <= j)%nat /\
    nth j0 ci emptyMarker <> emptyMarker /\
    forall i, (i < j0)%nat -> nth i ci emptyMarker = emptyMarker.
Proof.
  induction ci as [|x r IH]; intros pos j Hj Hn; cbn [length] in Hj; [lia|].
  cbn [firstPresent]. destruct (Z.eqb_spec x emptyMarker) as [E|E].
  - destruct j as [|j]; [contradiction|]. cbn [nth] in Hn.
    destruct (IH (S pos) j ltac:(lia) Hn) as (j0 & E0 & L0 & N0 & A0).
    exists (S j0). split; [rewrite E0; f_equal; lia|]. split; [lia|].
    split; [exact N0|]. intros [|i] Hi; [exact E|]. apply A0. lia.
  - exists 0%nat. split; [f_equal; lia|]. split; [lia|].
    split; [exact E|]. intros i Hi. lia.
Qed.

Lemma firstNonNull_spec c : forall pos j,
  (j < length c)%nat -> nth j c Null <> Null ->
  exists j0,
    firstNonNull c pos = Some (pos + j0)%nat /\ (j0 <= j)%nat /\
    nth j0 c Null <> Null /\
    forall i, (i < j0)%nat -> nth i c Null = Null.
Proof.
  induction c as [|x r IH]; intros pos j Hj Hn; cbn [length] in Hj; [lia|].
  cbn [firstNonNull]. destruct (isNull x) eqn:E.
  - apply isNull_true in E.
    destruct j as [|j]; [contradiction|]. cbn [nth] in Hn.
    destruct (IH (S pos) j ltac:(lia) Hn) as (j0 & E0 & L0 & N0 & A0).
    exists (S j0). split; [rewrite E0; f_equal; lia|]. split; [lia|].
    split; [exact N0|]. intros [|i] Hi; [exact E|]. apply A0. lia.
  - apply isNull_false in E.
    exists 0%nat. split; [f_equal; lia|]. split; [lia|].
    split; [exact E|]. intros i Hi. lia.
Qed.

Lemma present_exists ci :
  (0 < present ci)%nat ->
  exists j, (j < length ci)%nat /\ nth j ci emptyMarker <> emptyMarker.
Proof.
  induction ci as [|x r IH]; cbn [present length]; [lia|].
  destruct (Z.eqb_spec x emptyMarker) as [E|E]; intros H.
  - destruct (IH ltac:(lia)) as (j & Hj & Hn).
    exists (S j). split; [lia|exact Hn].
  - exists 0%nat. split; [lia|exact E].
Qed.

Lemma nonNull_exists c :
  (0 < nonNull c)%nat ->
  exists j, (j < length c)%nat /\ nth j c Null <> Null.
Proof.
  induction c as [|x r IH]; cbn [nonNull length]; [lia|].
  destruct (isNull x) eqn:E; intros H.
  - destruct (IH ltac:(lia)) as (j & Hj & Hn).
    exists (S j). split; [lia|exact Hn].
  - apply isNull_false in E. exists 0%nat. split; [lia|exact E].
Qed.

(** The child that [minimum] descends into is the child of the smallest
    key byte that has one. *)
Lemma minimum_inner n :
  isInner n = true -> shape n -> 1 <= count (header n) ->
  exists b0,
    0 <= b0 < 256 /\ childAt n b0 <> Null /\
    minimum n = minimum (childAt n b0) /\
    forall b, 0 <= b < 256 -> childAt n b <> Null -> b0 <= b.
Proof.
  intros Hin [_ L] Hc.
  destruct n as [| |h k c|h k c|h ci c|h c]; try discriminate Hin;
    cbn [header layout] in *.
  - (* Node4 *)
    destruct L as (Lk & Lc & Hcnt & Bk & Ak & Pc).
    pose proof (ascendingBy_distinct Ak) as Dk.
    exists (nth 0 k 0).
    assert (E0 : childAt (Node4 h k c) (nth 0 k 0) = nth 0 c Null).
    { rewrite childAt_Node4. apply keyChild_hit; [assumption|lia|reflexivity]. }
    split; [apply Bk; lia|]. split; [rewrite E0; apply Pc; lia|].
    split.
    + rewrite E0. cbn [minimum]. apply on_nth_nth. lia.
    + intros b Hb Hn. rewrite childAt_Node4 in Hn.
      apply keyChild_present in Hn. destruct Hn as (i & Hi & <-).
      destruct i as [|i]; [lia|].
      pose proof (Ak 0%nat (S i) ltac:(lia)) as Q. cbv beta in Q. lia.
  - (* Node16 *)
    destruct L as (Lk & Lc & Hcnt & Bk & Ak & Pc).
    pose proof (ascendingBy_distinct Ak) as Dk.
    pose proof (Bk 0%nat ltac:(lia)) as B0.
    destruct (flipSign_byte B0) as [_ R0].
    exists (flipSign (nth 0 k 0)).
    assert (E0 : childAt (Node16 h k c) (flipSign (nth 0 k 0)) =
                 nth 0 c Null).
    { rewrite childAt_Node16 by assumption.
      apply keyChild_hit; [assumption|lia|].
      symmetry. apply flipSign_involutive. }
    split; [exact R0|]. split; [rewrite E0; apply Pc; lia|].
    split.
    + rewrite E0. cbn [minimum]. apply on_nth_nth. lia.
    + intros b Hb Hn. rewrite childAt_Node16 in Hn by assumption.
      apply keyChild_present in Hn. destruct Hn as (i & Hi & Ei).
      pose proof (signed8_flipSign Hb) as Sb.
      pose proof (signed8_flipSign R0) as S0.
      rewrite flipSign_involutive in S0.
      destruct i as [|i]; [rewrite Ei, flipSign_involutive; lia|].
      pose proof (Ak 0%nat (S i) ltac:(lia)) as Q. cbv beta in Q.
      rewrite Ei in Q. lia.
  - (* Node48 *)
    destruct L as (Lci & Lc & Hn & Hpr & Rg & Ref & Inj).
    destruct (@present_exists ci ltac:(lia)) as (j & Hj & Nj).
    destruct (@firstPresent_spec ci 0 j Hj Nj) as (j0 & E0 & L0 & N0 & A0).
    exists (Z.of_nat j0).
    assert (Ec : childAt (Node48 h ci c) (Z.of_nat j0) =
                 nth (Z.to_nat (nth j0 ci emptyMarker)) c Null).
    { rewrite childAt_Node48, Nat2Z.id.
      destruct (Z.eqb_spec (nth j0 ci emptyMarker) emptyMarker);
        [contradiction|reflexivity]. }
    split; [lia|]. split; [rewrite Ec; apply Ref; [lia|exact N0]|].
    split.
    + rewrite Ec. cbn [minimum]. rewrite E0. cbn [bind Nat.add].
      apply on_nth_nth.
      pose proof (Rg j0 ltac:(lia)). unfold emptyMarker in *. lia.
    + intros b Hb Hnb. rewrite childAt_Node48 in Hnb.
      destruct (Z_le_gt_dec (Z.of_nat j0) b) as [C|C]; [exact C|].
      rewrite (A0 (Z.to_nat b) ltac:(lia)) in Hnb.
      rewrite Z.eqb_refl in Hnb. contradiction Hnb. reflexivity.
  - (* Node256 *)
    destruct L as (Lc & Hn).
    destruct (@nonNull_exists c ltac:(lia)) as (j & Hj & Nj).
    destruct (@firstNonNull_spec c 0 j Hj Nj) as (j0 & E0 & L0 & N0 & A0).
    exists (Z.of_nat j0).
    assert (Ec : childAt (Node256 h c) (Z.of_nat j0) = nth j0 c Null)
      by (rewrite childAt_Node256, Nat2Z.id; reflexivity).
    split; [lia|]. split; [rewrite Ec; exact N0|].
    split.
    + rewrite Ec. cbn [minimum]. rewrite E0. cbn [bind Nat.add].
      apply on_nth_nth. lia.
    + intros b Hb Hnb. rewrite childAt_Node256 in Hnb.
      destruct (Z_le_gt_dec (Z.of_nat j0) b) as [C|C]; [exact C|].
      rewrite (A0 (Z.to_nat b) ltac:(lia)) in Hnb.
      contradiction Hnb. reflexivity.
Qed.

Lemma minCount_inner n : isInner n = true -> 2 <= minCount n.
Proof. destruct n; try discriminate; cbn; lia. Qed.

Lemma minimum_wf p t :
  wf p t -> dense t ->
  exists v,
    minimum t = Some (Leaf v) /\ hasLeaf t v /\
    forall w, hasLeaf t w -> v <= w.
Proof.
  induction 1 as [p u Hu Ha|p n Hin Sh Hpl Hd Hby Hch IH]; intros D.
  - exists u. split; [reflexivity|]. split; [constructor|].
    intros w Hw. apply hasLeaf_Leaf in Hw. lia.
  - assert (W : wf p n) by (apply wf_inner; assumption).
    inversion D as [u Eu|n0 _ Hm Dc En]; [subst n; discriminate Hin|].
    subst n0.
    pose proof (minCount_inner n Hin) as M2.
    destruct (@minimum_inner n Hin Sh ltac:(lia))
      as (b0 & Hb0 & N0 & E0 & Min).
    destruct (IH b0 Hb0 N0 (Dc b0 Hb0 N0)) as (v & E & Hv & Hmin).
    exists v. split; [rewrite E0; exact E|].
    split; [apply hasLeaf_inner with (b := b0); assumption|].
    intros w Hw. apply (@hasLeaf_inner_iff n w Hin) in Hw.
    destruct Hw as (b & Hb & Hw).
    assert (Nb : childAt n b <> Null)
      by (intros F; rewrite F in Hw; exact (@hasLeaf_Null w Hw)).
    pose proof (Min b Hb Nb) as Le.
    destruct (Z.eq_dec b0 b) as [<-|Ne]; [apply Hmin; exact Hw|].
    pose proof (@leaves_ordered p n b0 b v w W Hin Hb0 Hb Hv Hw ltac:(lia)).
    lia.
Qed.

(** X19: [minimum] on a tree that the operations built and that holds
    values returns the leaf of the smallest of them, the one with the
    smallest key; on the empty tree it returns null. *)
Theorem minimum_smallest_value S t :
  builds S t ->
  (S = [] -> minimum t = Some Null) /\
  (S <> [] ->
   exists v, minimum t = Some (Leaf v) /\ In v S /\
             forall w, In w S -> v <= w).
Proof.
  intros B. destruct (builds_wf B) as [W H].
  destruct (builds_dense B) as [->|D].
  - split; [reflexivity|]. intros Ne. exfalso.
    destruct S as [|x S]; [contradiction Ne; reflexivity|].
    apply (@hasLeaf_Null x). apply H. left. reflexivity.
  - destruct W as [->|W]; [exfalso; exact (dense_nonNull D eq_refl)|].
    destruct (@minimum_wf [] t W D) as (v & E & Hv & Hmin).
    split.
    + intros ->. exfalso. apply H in Hv. exact Hv.
    + intros _. exists v. split; [exact E|]. split; [apply H; exact Hv|].
      intros w Hw. apply Hmin. apply H. exact Hw.
Qed.

Lemma minimum_smallest_value_witness :
  (filter (fun v => negb (keyEqb (loadKey v) (loadKey 5)))
     (rev [1; 2; 3; 4; 5]) = [] -> minimum sample16 = Some Null) /\
  (filter (fun v => negb (keyEqb (loadKey v) (loadKey 5)))
     (rev [1; 2; 3; 4; 5]) <> [] ->
   exists v,
     minimum sample16 = Some (Leaf v) /\
     In v (filter (fun v => negb (keyEqb (loadKey v) (loadKey 5)))
             (rev [1; 2; 3; 4; 5])) /\
     forall w,
       In w (filter (fun v => negb (keyEqb (loadKey v) (loadKey 5)))
               (rev [1; 2; 3; 4; 5])) -> v <= w).
Proof. apply minimum_smallest_value. exact sample16_built. Defined.

(** ** The largest leaf *)

Lemma lastPresent_spec ci : forall n j,
  (j < n)%nat -> (n <= length ci)%nat ->
  nth j ci emptyMarker <> emptyMarker ->
  exists j0,
    lastPresent ci n = Some j0 /\ (j <= j0)%nat /\ (j0 < n)%nat /\
    nth j0 ci emptyMarker <> emptyMarker /\
    forall i, (j0 < i)%nat -> (i < n)%nat -> nth i ci emptyMarker = emptyMarker.
Proof.
  induction n as [|n IH]; intros j Hj Hn Nj; [lia|].
  cbn [lastPresent].
  destruct (nth_error ci n) as [x|] eqn:E;
    [|apply nth_error_None in E; lia].
  pose proof (nth_error_nth ci n emptyMarker E) as Ex.
  destruct (Z.eqb_spec x emptyMarker) as [Q|Q].
  - assert (j <> n) by (intros ->; rewrite Ex in Nj; contradiction).
    destruct (IH j ltac:(lia) ltac:(lia) Nj) as (j0 & E0 & L0 & U0 & N0 & A0).
    exists j0. split; [exact E0|]. split; [lia|]. split; [lia|].
    split; [exact N0|]. intros i H1 H2. destruct (Nat.eq_dec i n) as [->|Ne].
    + rewrite Ex. exact Q.
    + apply A0; lia.
  - exists n. split; [reflexivity|]. split; [lia|]. split; [lia|].
    split; [rewrite Ex; exact Q|]. intros i H1 H2. lia.
Qed.

Lemma lastNonNull_spec c : forall n j,
  (j < n)%nat -> (n <= length c)%nat ->
  nth j c Null <> Null ->
  exists j0,
    lastNonNull c n = Some j0 /\ (j <= j0)%nat /\ (j0 < n)%nat /\
    nth j0 c Null <> Null /\
    forall i, (j0 < i)%nat -> (i < n)%nat -> nth i c Null = Null.
Proof.
  induction n as [|n IH]; intros j Hj Hn Nj; [lia|].
  cbn [lastNonNull].
  destruct (nth_error c n) as [x|] eqn:E;
    [|apply nth_error_None in E; lia].
  pose proof (nth_error_nth c n Null E) as Ex.
  destruct (isNull x) eqn:Q.
  - apply isNull_true in Q.
    assert (j <> n) by (intros ->; rewrite Ex in Nj; contradiction).
    destruct (IH j ltac:(lia) ltac:(lia) Nj) as (j0 & E0 & L0 & U0 & N0 & A0).
    exists j0. split; [exact E0|]. split; [lia|]. split; [lia|].
    split; [exact N0|]. intros i H1 H2. destruct (Nat.eq_dec i n) as [->|Ne].
    + rewrite Ex. exact Q.
    + apply A0; lia.
  - apply isNull_false in Q.
    exists n. split; [reflexivity|]. split; [lia|]. split; [lia|].
    split; [rewrite Ex; exact Q|]. intros i H1 H2. lia.
Qed.

Lemma last_index c :
  1 <= c ->
  exists l, Z.to_nat (c - 1) = l /\ (l < Z.to_nat c)%nat /\
            forall i, (i < Z.to_nat c)%nat -> i <> l ->
                      (i < l < Z.to_nat c)%nat.
Proof.
  intros H. exists (Z.to_nat (c - 1)). split; [reflexivity|].
  split; [lia|]. intros i Hi Ne. lia.
Qed.

(** The child that [maximum] descends into is the child of the largest
    key byte that has one. *)
Lemma maximum_inner n :
  isInner n = true -> shape n -> 1 <= count (header n) ->
  exists b0,
    0 <= b0 < 256 /\ childAt n b0 <> Null /\
    maximum n = maximum (childAt n b0) /\
    forall b, 0 <= b < 256 -> childAt n b <> Null -> b <= b0.
Proof.
  intros Hin [_ L] Hc.
  destruct n as [| |h k c|h k c|h ci c|h c]; try discriminate Hin;
    cbn [header layout] in *.
  - (* Node4 *)
    destruct L as (Lk & Lc & Hcnt & Bk & Ak & Pc).
    pose proof (ascendingBy_distinct Ak) as Dk.
    destruct (last_index Hc) as (l & El & Hl & Bl).
    exists (nth l k 0).
    assert (E0 : childAt (Node4 h k c) (nth l k 0) = nth l c Null).
    { rewrite childAt_Node4. apply keyChild_hit; [assumption|lia|reflexivity]. }
    split; [apply Bk; lia|]. split; [rewrite E0; apply Pc; lia|].
    split.
    + rewrite E0. cbn [maximum].
      destruct (Z.ltb_spec (count h) 1); [lia|].
      rewrite El. apply on_nth_nth. lia.
    + intros b Hb Hn. rewrite childAt_Node4 in Hn.
      apply keyChild_present in Hn. destruct Hn as (i & Hi & <-).
      destruct (Nat.eq_dec i l) as [->|Ne]; [lia|].
      pose proof (Ak i l (Bl i Hi Ne)) as Q. cbv beta in Q. lia.
  - (* Node16 *)
    destruct L as (Lk & Lc & Hcnt & Bk & Ak & Pc).
    pose proof (ascendingBy_distinct Ak) as Dk.
    destruct (last_index Hc) as (l & El & Hl & Bl).
    pose proof (Bk l Hl) as B0.
    destruct (flipSign_byte B0) as [_ R0].
    exists (flipSign (nth l k 0)).
    assert (E0 : childAt (Node16 h k c) (flipSign (nth l k 0)) =
                 nth l c Null).
    { rewrite childAt_Node16 by assumption.
      apply keyChild_hit; [assumption|lia|].
      symmetry. apply flipSign_involutive. }
    split; [exact R0|]. split; [rewrite E0; apply Pc; lia|].
    split.
    + rewrite E0. cbn [maximum].
      destruct (Z.ltb_spec (count h) 1); [lia|].
      rewrite El. apply on_nth_nth. lia.
    + intros b Hb Hn. rewrite childAt_Node16 in Hn by assumption.
      apply keyChild_present in Hn. destruct Hn as (i & Hi & Ei).
      pose proof (signed8_flipSign Hb) as Sb.
      pose proof (signed8_flipSign R0) as S0.
      rewrite flipSign_involutive in S0.
      destruct (Nat.eq_dec i l) as [->|Ne];
        [rewrite Ei, flipSign_involutive; lia|].
      pose proof (Ak i l (Bl i Hi Ne)) as Q. cbv beta in Q.
      rewrite Ei in Q. lia.
  - (* Node48 *)
    destruct L as (Lci & Lc & Hn & Hpr & Rg & Ref & Inj).
    destruct (@present_exists ci ltac:(lia)) as (j & Hj & Nj).
    destruct (@lastPresent_spec ci 256 j ltac:(lia) ltac:(lia) Nj)
      as (j0 & E0 & L0 & U0 & N0 & A0).
    exists (Z.of_nat j0).
    assert (Ec : childAt (Node48 h ci c) (Z.of_nat j0) =
                 nth (Z.to_nat (nth j0 ci emptyMarker)) c Null).
    { rewrite childAt_Node48, Nat2Z.id.
      destruct (Z.eqb_spec (nth j0 ci emptyMarker) emptyMarker);
        [contradiction|reflexivity]. }
    split; [lia|]. split; [rewrite Ec; apply Ref; [lia|exact N0]|].
    split.
    + rewrite Ec. cbn [maximum]. rewrite E0. cbn [bind].
      apply on_nth_nth.
      pose proof (Rg j0 ltac:(lia)). unfold emptyMarker in *. lia.
    + intros b Hb Hnb. rewrite childAt_Node48 in Hnb.
      destruct (Z_le_gt_dec b (Z.of_nat j0)) as [C|C]; [exact C|].
      rewrite (A0 (Z.to_nat b) ltac:(lia) ltac:(lia)) in Hnb.
      rewrite Z.eqb_refl in Hnb. contradiction Hnb. reflexivity.
  - (* Node256 *)
    destruct L as (Lc & Hn).
    destruct (@nonNull_exists c ltac:(lia)) as (j & Hj & Nj).
    destruct (@lastNonNull_spec c 256 j ltac:(lia) ltac:(lia) Nj)
      as (j0 & E0 & L0 & U0 & N0 & A0).
    exists (Z.of_nat j0).
    assert (Ec : childAt (Node256 h c) (Z.of_nat j0) = nth j0 c Null)
      by (rewrite childAt_Node256, Nat2Z.id; reflexivity).
    split; [lia|]. split; [rewrite Ec; exact N0|].
    split.
    + rewrite Ec. cbn [maximum]. rewrite E0. cbn [bind].
      apply on_nth_nth. lia.
    + intros b Hb Hnb. rewrite childAt_Node256 in Hnb.
      destruct (Z_le_gt_dec b (Z.of_nat j0)) as [C|C]; [exact C|].
      rewrite (A0 (Z.to_nat b) ltac:(lia) ltac:(lia)) in Hnb.
      contradiction Hnb. reflexivity.
Qed.

Lemma maximum_wf p t :
  wf p t -> dense t ->
  exists v,
    maximum t = Some (Leaf v) /\ hasLeaf t v /\
    forall w, hasLeaf t w -> w <= v.
Proof.
  induction 1 as [p u Hu Ha|p n Hin Sh Hpl Hd Hby Hch IH]; intros D.
  - exists u. split; [reflexivity|]. split; [constructor|].
    intros w Hw. apply hasLeaf_Leaf in Hw. lia.
  - assert (W : wf p n) by (apply wf_inner; assumption).
    inversion D as [u Eu|n0 _ Hm Dc En]; [subst n; discriminate Hin|].
    subst n0.
    pose proof (minCount_inner n Hin) as M2.
    destruct (@maximum_inner n Hin Sh ltac:(lia))
      as (b0 & Hb0 & N0 & E0 & Max).
    destruct (IH b0 Hb0 N0 (Dc b0 Hb0 N0)) as (v & E & Hv & Hmax).
    exists v. split; [rewrite E0; exact E|].
    split; [apply hasLeaf_inner with (b := b0); assumption|].
    intros w Hw. apply (@hasLeaf_inner_iff n w Hin) in Hw.
    destruct Hw as (b & Hb & Hw).
    assert (Nb : childAt n b <> Null)
      by (intros F; rewrite F in Hw; exact (@hasLeaf_Null w Hw)).
    pose proof (Max b Hb Nb) as Le.
    destruct (Z.eq_dec b b0) as [->|Ne]; [apply Hmax; exact Hw|].
    pose proof (@leaves_ordered p n b b0 w v W Hin Hb Hb0 Hw Hv ltac:(lia)).
    lia.
Qed.

(** X20: [maximum] on a tree that the operations built and that holds
    values returns the leaf of the largest of them; on the empty tree it
    returns null. The downward scans of Node48 and Node256 stay inside of
    the arrays, and [child[count - 1]] is never read with [count = 0]. *)
Theorem maximum_largest_value S t :
  builds S t ->
  (S = [] -> maximum t = Some Null) /\
  (S <> [] ->
   exists v, maximum t = Some (Leaf v) /\ In v S /\
             forall w, In w S -> w <= v).
Proof.
  intros B. destruct (builds_wf B) as [W H].
  destruct (builds_dense B) as [->|D].
  - split; [reflexivity|]. intros Ne. exfalso.
    destruct S as [|x S]; [contradiction Ne; reflexivity|].
    apply (@hasLeaf_Null x). apply H. left. reflexivity.
  - destruct W as [->|W]; [exfalso; exact (dense_nonNull D eq_refl)|].
    destruct (@maximum_wf [] t W D) as (v & E & Hv & Hmax).
    split.
    + intros ->. exfalso. apply H in Hv. exact Hv.
    + intros _. exists v. split; [exact E|]. split; [apply H; exact Hv|].
      intros w Hw. apply Hmax. apply H. exact Hw.
Qed.

Lemma maximum_largest_value_witness :
  (filter (fun v => negb (keyEqb (loadKey v) (loadKey 5)))
     (rev [1; 2; 3; 4; 5]) = [] -> maximum sample16 = Some Null) /\
  (filter (fun v => negb (keyEqb (loadKey v) (loadKey 5)))
     (rev [1; 2; 3; 4; 5]) <> [] ->
   exists v,
     maximum sample16 = Some (Leaf v) /\
     In v (filter (fun v => negb (keyEqb (loadKey v) (loadKey 5)))
             (rev [1; 2; 3; 4; 5])) /\
     forall w,
       In w (filter (fun v => negb (keyEqb (loadKey v) (loadKey 5)))
               (rev [1; 2; 3; 4; 5])) -> w <= v).
Proof. apply maximum_largest_value. exact sample16_built. Defined.

(** ** Inserting a key that the tree holds *)

Lemma commonLength_same (k : list Z) d : forall fuel n,
  0 <= d -> 0 <= n -> d + n <= Z.of_nat (length k) ->
  Z.of_nat (length k) < 4294967296 ->
  commonLength fuel k k d n = None.
Proof.
  induction fuel as [|fuel IH]; intros n Hd Hn Hl Hb; [reflexivity|].
  cbn [commonLength]. rewrite (wrap32_small (x := d + n)) by lia.
  destruct (Z.eq_dec (d + n) (Z.of_nat (length k))) as [E|E].
  - rewrite (@rd_None _ k (d + n)) by lia. reflexivity.
  - rewrite (@rd_Some _ k (d + n) 0) by lia. cbn [bind].
    rewrite Z.eqb_refl. rewrite (wrap32_small (x := n + 1)) by lia.
    apply IH; lia.
Qed.

Lemma insert_present p t :
  wf p t ->
  forall v, hasLeaf t v -> firstn (length p) (loadKey v) = p ->
  insert loadKey t (loadKey v) (Z.of_nat (length p)) v 8 = None.
Proof.
  induction 1 as [p u Hu Ha|p n Hin Sh Hpl Hd Hby Hch IH]; intros v Hv Av.
  - apply hasLeaf_Leaf in Hv. subst v.
    cbn [insert]. unfold insertLeafSplit. cbn [getLeafValue].
    rewrite loadBuf_loadKey. cbn [bind].
    pose proof (@agree_length _ _ Ha) as Lp. rewrite length_loadKey in Lp.
    rewrite commonLength_same; [reflexivity|lia|lia| |];
      rewrite length_loadKey; lia.
  - assert (W : wf p n) by (apply wf_inner; assumption).
    pose proof (loadKey_isKey v) as Hk.
    destruct (@leaf_routes p n (loadKey v) v W Hin Hv eq_refl) as [Rq Rc].
    destruct (@prefix_check p n (loadKey v) W Hin Hk Av)
      as (Lq & r & R1 & R2 & R3).
    rewrite (@insert_inner loadKey n (loadKey v) _ v 8 Hin).
    unfold insertInner.
    destruct R3 as [(F1 & F2 & F3)|(F1 & F2 & F3 & F4)];
      [|exfalso; apply F4; apply Rq; lia].
    assert (St :
      (if prefixLength (header n) =? 0
       then Some (inr (Z.of_nat (length p)))
       else mismatchPos <- prefixMismatch loadKey n (loadKey v)
                             (Z.of_nat (length p)) 8 ;;
            if negb (mismatchPos =? prefixLength (header n))
            then r0 <- insertSplitPrefix loadKey n (loadKey v)
                         (Z.of_nat (length p)) v 8 mismatchPos ;;
                 Some (inl r0)
            else Some (inr (wrap32 (Z.of_nat (length p) +
                                    prefixLength (header n))))) =
      Some (inr (A := ArtNode)
              (Z.of_nat (length p) + prefixLength (header n)))).
    { destruct (Z.eqb_spec (prefixLength (header n)) 0) as [E0|E0].
      - rewrite E0, Z.add_0_r. reflexivity.
      - rewrite R2. cbn [bind]. rewrite F2, Z.eqb_refl. cbn [negb].
        rewrite wrap32_small by lia. reflexivity. }
    rewrite St. cbn [bind]. clear St.
    pose proof Hk as [Lk Fk].
    rewrite (@rd_Some _ (loadKey v) _ 0) by lia. cbn [bind].
    replace (Z.to_nat (Z.of_nat (length p) + prefixLength (header n)))
      with (length p + length (storedPrefix (header n)))%nat by lia.
    assert (Hkb : 0 <= nth (length p + length (storedPrefix (header n)))
                         (loadKey v) 0 < 256)
      by (apply isKey_byte; [assumption|lia]).
    assert (Nc : childAt n (nth (length p + length (storedPrefix (header n)))
                              (loadKey v) 0) <> Null)
      by (intros F; rewrite F in Rc; exact (@hasLeaf_Null v Rc)).
    pose proof (@agree_extend p (storedPrefix (header n)) (loadKey v) _
                  Av ltac:(lia) Rq eq_refl) as A'.
    destruct (findChild n _) as [|i] eqn:Ef;
      [exfalso; apply Nc; apply childAt_NullSlot; exact Ef|].
    rewrite (@on_nth_child _ _ _ n _ i Hin Sh Hkb Ef).
    destruct (isNull (childAt n _)) eqn:Ec;
      [apply isNull_true in Ec; contradiction|].
    rewrite wrap32_small by lia.
    pose proof (IH _ Hkb Nc v Rc A') as E'.
    replace (Z.of_nat (length (p ++ storedPrefix (header n) ++
               [nth (length p + length (storedPrefix (header n)))
                  (loadKey v) 0])))
      with (Z.of_nat (length p) + prefixLength (header n) + 1)
      in E' by (rewrite !length_app; cbn [length]; lia).
    rewrite E'. reflexivity.
Qed.

(** X21: inserting a value whose key the tree already holds gives no
    result: the loop of [insert] that measures the common prefix of the new
    key and the key of the leaf found compares two equal keys and reads
    beyond the eighth byte of both buffers. *)
Theorem insert_present_key_reads_beyond_key S t v :
  builds S t -> In v S ->
  insert loadKey t (loadKey v) 0 v 8 = None.
Proof.
  intros B Hv. destruct (builds_wf B) as [W H].
  apply H in Hv. destruct W as [->|W];
    [exfalso; exact (@hasLeaf_Null v Hv)|].
  exact (@insert_present [] t W v Hv eq_refl).
Qed.

Lemma insert_present_key_reads_beyond_key_witness :
  insert loadKey sample16 (loadKey 3) 0 3 8 = None.
Proof.
  apply (@insert_present_key_reads_beyond_key _ sample16 3 sample16_built).
  vm_compute. tauto.
Defined.

(** ** The occupancy of the nodes *)

Lemma dense_reachable t m :
  reachable t m -> dense t -> m = Null \/ dense m.
Proof.
  induction 1 as [t|n b m Hin Hb R IH]; intros D; [right; exact D|].
  inversion D as [u Eu|n0 _ _ Dc En]; [subst n; discriminate Hin|]. subst n0.
  destruct (isNull (childAt n b)) eqn:C.
  - apply isNull_true in C. rewrite C in R. left.
    inversion R; [reflexivity|discriminate].
  - apply isNull_false in C. exact (IH (Dc b Hb C)).
Qed.

(** X22: in a tree that the operations built no inner node is kept below
    the size at which [erase] replaces it: a Node4 has at least 2 children,
    a Node16 at least 4, a Node48 at least 13 and a Node256 at least 38,
    and none has more children than its arrays hold. *)
Theorem built_nodes_occupancy S t m :
  builds S t -> reachable t m -> isInner m = true ->
  minCount m <= count (header m) <= capacity m.
Proof.
  intros B R Hin.
  destruct (builds_dense B) as [->|D];
    [inversion R; subst; discriminate|].
  destruct (dense_reachable R D) as [->|Dm]; [discriminate Hin|].
  inversion Dm as [u Eu|n0 _ Hm _ En]; [subst m; discriminate Hin|]. subst n0.
  split; [exact Hm|].
  assert (Sh : shape m).
  { destruct (builds_wf B) as [[->|W] _];
      [inversion R; subst; discriminate|].
    destruct (reachable_wf R W) as [->|[q Wm]]; [discriminate Hin|].
    exact (wf_shape Wm Hin). }
  exact (proj2 (proj2 (shape_capacity Hin Sh))).
Qed.

Lemma built_nodes_occupancy_witness :
  minCount sample16 <= count (header sample16) <= capacity sample16.
Proof.
  apply (@built_nodes_occupancy _ sample16 sample16 sample16_built).
  - constructor.
  - reflexivity.
Defined.

(** X23: the tree is empty, the null root, exactly when it holds no value:
    erasing the last value of a tree gives the null root back, and no inner
    node or leaf is left without a value below it. *)
Theorem built_tree_null_iff_no_values S t :
  builds S t -> (t = Null <-> S = []).
Proof.
  intros B. destruct (builds_wf B) as [W H]. split.
  - intros ->. destruct S as [|x S]; [reflexivity|].
    exfalso. apply (@hasLeaf_Null x). apply H. left. reflexivity.
  - intros ->. destruct (builds_dense B) as [E|D]; [exact E|].
    destruct W as [E|W]; [exact E|].
    destruct (@minimum_wf [] t W D) as (v & _ & Hv & _).
    apply H in Hv. contradiction Hv.
Qed.

Lemma built_tree_null_iff_no_values_witness :
  sample16 = Null <->
  filter (fun v => negb (keyEqb (loadKey v) (loadKey 5)))
    (rev [1; 2; 3; 4; 5]) = [].
Proof. apply built_tree_null_iff_no_values. exact sample16_built. Defined.
